(** * The download scheduling core of telegram-music-downloader

    A shallow embedding of [src/download_queue.py], [src/download_worker.py]
    and [src/download_coordinator.py], and the properties of the queue, the
    rate limiter, the worker and the progress view.

    Conventions of the embedding.
    - Python [int] is [Z].  A Python [float] is the rational it denotes.
      The queue, the worker and the runs of the system read the arithmetic
      of floats as exact.  The rate limiter and the progress view are
      embedded a second time, in [Rounded], on binary64 arithmetic: every
      operation on floats rounds its exact result to the nearest number of
      53 bits, ties to the even one, with gradual underflow; the overflow
      to infinity (magnitudes from [2 ^ 1024] on) is not modelled.  What is
      stated of the values these two compute is stated there.
    - A Python object that is shared and mutated (a [DownloadTask]) lives in
      a store and is handled through its reference; the heap of the priority
      queue, the pending dictionary and the worker all hold references to the
      same object.
    - A call either returns, raises, or suspends ([await] on a queue that is
      full or empty); the state reached at that point is returned with it.
      Calls are atomic.  The rounds of the workers are atomic too in
      [Protocol] and [Pool]; [Stepwise] takes them from one suspension to
      the next and so has the states in which a worker holds a task.
    - Clock readings ([loop.time()], [datetime.now()]) are inputs.
    - Logging is a no-op.
    - [heapq] and [asyncio.PriorityQueue] are embedded from the standard
      library of CPython, as far as the core uses them. *)

From Stdlib Require Import ZArith QArith Qpower Lia Lqa.
From stdpp Require Import gmap strings list fin_maps pretty.

Local Open Scope Z_scope.

(** ** Python values, exceptions and outcomes *)

Module Py.

(** The values found in a payload dictionary ([Dict[str, Any]]). *)
Inductive val :=
| Int (z : Z)
| Str (s : string)
| None_.

#[global] Instance val_eq_dec : EqDecision val.
Proof. solve_decision. Defined.

(** [str(v)], as used by an f-string. *)
Definition str (v : val) : string :=
  match v with
  | Int z => pretty z
  | Str s => s
  | None_ => "None"
  end.

(** The exceptions of the model.  [UnboundReference] marks a reference that
    denotes no object of the store; no run of the program raises it. *)
Inductive exn :=
| ValueError
| TypeError
| KeyError
| ZeroDivisionError
| QueueEmpty
| QueueFull
| UnboundReference.

(** How a call ends. *)
Inductive outcome (A : Type) :=
| Returned (a : A)
| Raised (e : exn)
| Suspended.
Arguments Returned {A} a.
Arguments Raised {A} e.
Arguments Suspended {A}.

(** [a / b] on two ints, for [b <> 0]. *)
Definition truediv (a b : Z) : Q := (inject_Z a / inject_Z b)%Q.

(** [int(x)]: truncation toward zero. *)
Definition int (x : Q) : Z := Z.quot (Qnum x) (Zpos (Qden x)).

(** [round(x)]: nearest integer, ties to the even one. *)
Definition round (x : Q) : Z :=
  let n := Qnum x in
  let d := Zpos (Qden x) in
  let f := n / d in
  let r := n mod d in
  if 2 * r <? d then f
  else if d <? 2 * r then f + 1
  else if Z.even f then f else f + 1.

(** [round(x, nd)] for [nd >= 0]. *)
Definition round_nd (x : Q) (nd : nat) : Q :=
  (inject_Z (round (x * inject_Z (10 ^ Z.of_nat nd))) / inject_Z (10 ^ Z.of_nat nd))%Q.

(** [min(a, b)]: [b] when [b < a], else [a]. *)
Definition min (a b : Q) : Q := if Qlt_le_dec b a then b else a.

End Py.

Import Py.

(** ** Binary64 arithmetic

    The floats of Python are the numbers of IEEE 754 binary64.  A finite
    one is a rational; an operation returns the exact result rounded. *)

Module Binary64.
Local Open Scope Q_scope.

(** [floor (log2 x)], for [0 < x]. *)
Definition ilog2 (x : Q) : Z :=
  let k := (Z.log2 (Qnum x) - Z.log2 (Zpos (Qden x)))%Z in
  if Qle_bool (2 ^ k) x then k else (k - 1)%Z.

(** The exponent of the last place of the binary64 numbers next to [x], for
    [0 < x]: 53 bits of precision, and no exponent below that of the
    subnormal numbers. *)
Definition exponent (x : Q) : Z := Z.max (ilog2 x - 52) (-1074).

(** The binary64 number nearest to [x], for [0 < x]; of two that are equally
    near, the one with the even mantissa. *)
Definition nearest (x : Q) : Q :=
  let q := exponent x in
  inject_Z (Py.round (x / 2 ^ q)) * 2 ^ q.

(** Rounding to nearest, ties to even: the value a binary64 operation
    returns for the exact result [x]. *)
Definition RN (x : Q) : Q :=
  let y := Qred x in
  match Qnum y with
  | Z0 => 0
  | Zpos _ => Qred (nearest y)
  | Zneg _ => Qred (- nearest (- y))
  end.

(** The rational [x] is a binary64 number. *)
Definition representable (x : Q) : Prop := RN x == x.

(** The operations on two floats. *)
Definition add (x y : Q) : Q := RN (x + y).
Definition sub (x y : Q) : Q := RN (x - y).
Definition mul (x y : Q) : Q := RN (x * y).
Definition div (x y : Q) : Q := RN (x / y).

(** A Python number: an [int] or a [float]. *)
Inductive number :=
| Int (z : Z)
| Float (x : Q).

(** Its value. *)
Definition value (a : number) : Q :=
  match a with
  | Int z => inject_Z z
  | Float x => x
  end.

(** [float(a)], as an operation with a float operand converts the other. *)
Definition to_float (a : number) : Q :=
  match a with
  | Int z => RN (inject_Z z)
  | Float x => x
  end.

(** [a + b], [a - b] and [a * b]: exact on two ints, rounded otherwise. *)
Definition plus (a b : number) : number :=
  match a, b with
  | Int x, Int y => Int (x + y)
  | _, _ => Float (add (to_float a) (to_float b))
  end.

Definition minus (a b : number) : number :=
  match a, b with
  | Int x, Int y => Int (x - y)
  | _, _ => Float (sub (to_float a) (to_float b))
  end.

Definition times (a b : number) : number :=
  match a, b with
  | Int x, Int y => Int (x * y)
  | _, _ => Float (mul (to_float a) (to_float b))
  end.

(** [a / b] for [b] other than zero: the quotient of two ints is rounded
    once. *)
Definition truediv (a b : number) : Q :=
  match a, b with
  | Int x, Int y => RN (inject_Z x / inject_Z y)
  | _, _ => div (to_float a) (to_float b)
  end.

(** [a < b] and [a <= b] compare the values. *)
Definition lt (a b : number) : bool := negb (Qle_bool (value b) (value a)).
Definition le (a b : number) : bool := Qle_bool (value a) (value b).

(** [min(a, b)]: [b] when [b < a], else [a]. *)
Definition min (a b : number) : number := if lt b a then b else a.

(** [round(a, nd)] for [nd >= 0]: an int is left as it is, a float is
    rounded half-even on its decimal expansion and the decimal result is
    rounded to binary64. *)
Definition round_nd (a : number) (nd : nat) : number :=
  match a with
  | Int z => Int z
  | Float x => Float (RN (Py.round_nd x nd))
  end.

End Binary64.

(** ** [heapq] on a list, as [asyncio.PriorityQueue] uses it

    [heappush] and [heappop] of the standard library, with their two sifting
    loops.  The loops run on a fuel that bounds their number of iterations
    ([pos] for the climb to the root, the length for the descent). *)

Module heapq.
Section Heap.
Context {A : Type} (lt : A -> A -> bool).

Fixpoint siftdown_loop (fuel : nat) (heap : list A) (startpos pos : nat)
         (newitem : A) : list A :=
  match fuel with
  | O => <[pos := newitem]> heap
  | S fuel' =>
      if bool_decide (startpos < pos)%nat then
        let parentpos := ((pos - 1) / 2)%nat in
        match heap !! parentpos with
        | Some parent =>
            if lt newitem parent
            then siftdown_loop fuel' (<[pos := parent]> heap) startpos parentpos newitem
            else <[pos := newitem]> heap
        | None => <[pos := newitem]> heap
        end
      else <[pos := newitem]> heap
  end.

Definition _siftdown (heap : list A) (startpos pos : nat) : list A :=
  match heap !! pos with
  | Some newitem => siftdown_loop pos heap startpos pos newitem
  | None => heap
  end.

Fixpoint siftup_loop (fuel : nat) (heap : list A) (endpos pos : nat)
  : list A * nat :=
  match fuel with
  | O => (heap, pos)
  | S fuel' =>
      let childpos := (2 * pos + 1)%nat in
      if bool_decide (childpos < endpos)%nat then
        let rightpos := (childpos + 1)%nat in
        let childpos :=
          match heap !! childpos, heap !! rightpos with
          | Some c, Some r => if negb (lt c r) then rightpos else childpos
          | _, _ => childpos
          end in
        match heap !! childpos with
        | Some c => siftup_loop fuel' (<[pos := c]> heap) endpos childpos
        | None => (heap, pos)
        end
      else (heap, pos)
  end.

Definition _siftup (heap : list A) (pos : nat) : list A :=
  match heap !! pos with
  | Some newitem =>
      let '(heap', pos') := siftup_loop (length heap) heap (length heap) pos in
      _siftdown (<[pos' := newitem]> heap') pos pos'
  | None => heap
  end.

Definition heappush (heap : list A) (item : A) : list A :=
  _siftdown (heap ++ [item]) 0 (length heap).

(** [None] stands for the [IndexError] of popping an empty list. *)
Definition heappop (heap : list A) : option (A * list A) :=
  match last heap with
  | None => None
  | Some lastelt =>
      let heap := removelast heap in
      match heap with
      | [] => Some (lastelt, [])
      | returnitem :: _ => Some (returnitem, _siftup (<[0%nat := lastelt]> heap) 0)
      end
  end.

End Heap.
End heapq.

(** ** [DownloadTask] *)

(** Object identity of a task in the store. *)
Definition ref := nat.

Module DownloadTask.

(** The dataclass.  [created_at] is the creation time in microseconds; no
    code of the core reads it. *)
Record t := mk {
  media_info : gmap string Py.val;
  file_info_str : string;
  priority : Z;
  created_at : Z;
  attempts : Z;
  max_attempts : Z
}.

(** [DownloadTask(media_info=..., file_info_str=...)] with the defaults of
    the dataclass. *)
Definition new (media_info : gmap string Py.val) (file_info_str : string)
           (now : Z) : t :=
  mk media_info file_info_str 0 now 0 3.

(** [__lt__] *)
Definition lt (self other : t) : bool :=
  bool_decide (priority self < priority other).

Definition set_priority (p : Z) (self : t) : t :=
  mk (media_info self) (file_info_str self) p (created_at self)
     (attempts self) (max_attempts self).

Definition set_attempts (a : Z) (self : t) : t :=
  mk (media_info self) (file_info_str self) (priority self) (created_at self)
     a (max_attempts self).

End DownloadTask.

(** The task objects of the program, by reference. *)
Abbreviation store := (gmap ref DownloadTask.t).

(** [a < b] on two task references: [__lt__] on the objects they denote. *)
Definition lt_ref (objs : store) (a b : ref) : bool :=
  match objs !! a, objs !! b with
  | Some x, Some y => DownloadTask.lt x y
  | _, _ => false
  end.

(** ** [asyncio.PriorityQueue]

    The part of the standard library's queue the core relies on: the heap of
    entries, the bound, and the count of entries put and not yet acknowledged
    by [task_done]. *)

Module PriorityQueue.

Record t := mk {
  _maxsize : Z;
  _heap : list ref;
  _unfinished_tasks : Z
}.

Definition new (maxsize : Z) : t := mk maxsize [] 0.

Definition qsize (self : t) : Z := Z.of_nat (length (_heap self)).

Definition empty (self : t) : bool := bool_decide (_heap self = []).

Definition full (self : t) : bool :=
  if _maxsize self <=? 0 then false else _maxsize self <=? qsize self.

(** [put_nowait]: [QueueFull] on a full queue. *)
Definition put_nowait (objs : store) (self : t) (item : ref) : exn + t :=
  if full self then inl QueueFull
  else inr (mk (_maxsize self)
               (heapq.heappush (lt_ref objs) (_heap self) item)
               (_unfinished_tasks self + 1)).

(** [await put(item)]: waits while the queue is full ([None]), never raises
    [QueueFull]. *)
Definition put (objs : store) (self : t) (item : ref) : option t :=
  if full self then None
  else match put_nowait objs self item with
       | inr q => Some q
       | inl _ => None
       end.

(** [get_nowait]: [QueueEmpty] on an empty queue. *)
Definition get_nowait (objs : store) (self : t) : exn + (ref * t) :=
  match heapq.heappop (lt_ref objs) (_heap self) with
  | None => inl QueueEmpty
  | Some (item, heap') =>
      inr (item, mk (_maxsize self) heap' (_unfinished_tasks self))
  end.

(** [await get()]: waits while the queue is empty ([None]). *)
Definition get (objs : store) (self : t) : option (ref * t) :=
  match get_nowait objs self with
  | inr r => Some r
  | inl _ => None
  end.

(** [task_done]: [ValueError] when called more often than entries were put. *)
Definition task_done (self : t) : exn + t :=
  if _unfinished_tasks self <=? 0 then inl ValueError
  else inr (mk (_maxsize self) (_heap self) (_unfinished_tasks self - 1)).

End PriorityQueue.

(** ** [DownloadQueue] *)

Module DownloadQueue.

(** The [_stats] dictionary. *)
Record stats := mk_stats {
  total_added : Z;
  total_completed : Z;
  total_failed : Z;
  current_size : Z
}.

Record t := mk {
  max_size : Z;
  _queue : PriorityQueue.t;
  _pending_tasks : gmap string ref;
  _completed_tasks : gset string;
  _failed_tasks : gset string;
  _stats : stats
}.

(** The queue object together with the task objects it refers to. *)
Record state := State {
  objs : store;
  self : t
}.

(** [__init__] *)
Definition new (max_size : Z) : t :=
  mk max_size (PriorityQueue.new max_size) ∅ ∅ ∅ (mk_stats 0 0 0 0).

(** [_generate_task_id] *)
Definition _generate_task_id (media_info : gmap string Py.val) : string :=
  let channel_id := default (Py.Str "unknown") (media_info !! "channel_id") in
  let message_id := default (Py.Int 0) (media_info !! "message_id") in
  Py.str channel_id +:+ "_" +:+ Py.str message_id.

(** [int(media_info.get('file_size', 0) / (1024 * 1024))]; a size that is
    not a number makes the division raise [TypeError]. *)
Definition size_priority (media_info : gmap string Py.val) : exn + Z :=
  match default (Py.Int 0) (media_info !! "file_size") with
  | Py.Int file_size => inr (Py.int (Py.truediv file_size (1024 * 1024)))
  | _ => inl TypeError
  end.

(** [put].  The [except Exception] clause turns the [TypeError] of the
    priority computation into the result [False]; [except QueueFull] is
    never taken, because [await self._queue.put] waits instead. *)
Definition put (σ : state) (task : ref) : outcome bool * state :=
  match objs σ !! task with
  | None => (Raised UnboundReference, σ)
  | Some tk =>
      let q := self σ in
      let task_id := _generate_task_id (DownloadTask.media_info tk) in
      if bool_decide (is_Some (_pending_tasks q !! task_id))
         || bool_decide (task_id ∈ _completed_tasks q)
      then (Returned false, σ)
      else
        match size_priority (DownloadTask.media_info tk) with
        | inl _ => (Returned false, σ)
        | inr p =>
            let objs1 := <[task := DownloadTask.set_priority p tk]> (objs σ) in
            match PriorityQueue.put objs1 (_queue q) task with
            | None => (Suspended, State objs1 q)
            | Some pq =>
                (Returned true,
                 State objs1
                   (mk (max_size q) pq
                       (<[task_id := task]> (_pending_tasks q))
                       (_completed_tasks q) (_failed_tasks q)
                       (mk_stats (total_added (_stats q) + 1)
                                 (total_completed (_stats q))
                                 (total_failed (_stats q))
                                 (PriorityQueue.qsize pq))))
            end
        end
  end.

(** [get] *)
Definition get (σ : state) : outcome (option ref) * state :=
  let q := self σ in
  match PriorityQueue.get (objs σ) (_queue q) with
  | None => (Suspended, σ)
  | Some (task, pq) =>
      (Returned (Some task),
       State (objs σ)
         (mk (max_size q) pq (_pending_tasks q)
             (_completed_tasks q) (_failed_tasks q)
             (mk_stats (total_added (_stats q))
                       (total_completed (_stats q))
                       (total_failed (_stats q))
                       (PriorityQueue.qsize pq))))
  end.

(** [task_done].  The sets and counters are updated first; the
    acknowledgement of the underlying queue comes last and may raise. *)
Definition task_done (σ : state) (task : ref) (success : bool)
  : outcome unit * state :=
  match objs σ !! task with
  | None => (Raised UnboundReference, σ)
  | Some tk =>
      let q := self σ in
      let task_id := _generate_task_id (DownloadTask.media_info tk) in
      let pending := delete task_id (_pending_tasks q) in
      let q1 :=
        if success then
          mk (max_size q) (_queue q) pending
             ({[task_id]} ∪ _completed_tasks q) (_failed_tasks q)
             (mk_stats (total_added (_stats q))
                       (total_completed (_stats q) + 1)
                       (total_failed (_stats q))
                       (current_size (_stats q)))
        else
          mk (max_size q) (_queue q) pending
             (_completed_tasks q) ({[task_id]} ∪ _failed_tasks q)
             (mk_stats (total_added (_stats q))
                       (total_completed (_stats q))
                       (total_failed (_stats q) + 1)
                       (current_size (_stats q))) in
      match PriorityQueue.task_done (_queue q1) with
      | inl e => (Raised e, State (objs σ) q1)
      | inr pq =>
          (Returned tt,
           State (objs σ)
             (mk (max_size q1) pq (_pending_tasks q1)
                 (_completed_tasks q1) (_failed_tasks q1) (_stats q1)))
      end
  end.

(** [retry_task] *)
Definition retry_task (σ : state) (task : ref) : outcome bool * state :=
  match objs σ !! task with
  | None => (Raised UnboundReference, σ)
  | Some tk =>
      let tk1 := DownloadTask.set_attempts (DownloadTask.attempts tk + 1) tk in
      let σ1 := State (<[task := tk1]> (objs σ)) (self σ) in
      if DownloadTask.max_attempts tk1 <=? DownloadTask.attempts tk1 then
        match task_done σ1 task false with
        | (Returned _, σ2) => (Returned false, σ2)
        | (Raised e, σ2) => (Raised e, σ2)
        | (Suspended, σ2) => (Suspended, σ2)
        end
      else
        let tk2 := DownloadTask.set_priority (DownloadTask.priority tk1 + 1000) tk1 in
        let σ2 := State (<[task := tk2]> (objs σ1)) (self σ1) in
        put σ2 task
  end.

(** The statistics [get_stats] adds to [_stats]. *)
Record stats_view := mk_view {
  v_total_added : Z;
  v_total_completed : Z;
  v_total_failed : Z;
  v_current_size : Z;
  pending_tasks : Z;
  completed_tasks : Z;
  failed_tasks : Z;
  queue_size : Z;
  is_empty : bool;
  is_full : bool
}.

(** [get_stats] *)
Definition get_stats (q : t) : stats_view :=
  mk_view (total_added (_stats q)) (total_completed (_stats q))
          (total_failed (_stats q)) (current_size (_stats q))
          (Z.of_nat (size (_pending_tasks q)))
          (Z.of_nat (size (_completed_tasks q)))
          (Z.of_nat (size (_failed_tasks q)))
          (PriorityQueue.qsize (_queue q))
          (PriorityQueue.empty (_queue q))
          (PriorityQueue.full (_queue q)).

(** The loop of [clear]: one entry is removed and acknowledged per turn.
    [QueueEmpty] leaves the loop; the [ValueError] of an acknowledgement
    is not caught. *)
Fixpoint clear_loop (fuel : nat) (objs : store) (pq : PriorityQueue.t)
  : outcome unit * PriorityQueue.t :=
  match fuel with
  | O => (Returned tt, pq)
  | S fuel' =>
      if PriorityQueue.empty pq then (Returned tt, pq)
      else
        match PriorityQueue.get_nowait objs pq with
        | inl _ => (Returned tt, pq)
        | inr (_, pq1) =>
            match PriorityQueue.task_done pq1 with
            | inl e => (Raised e, pq1)
            | inr pq2 => clear_loop fuel' objs pq2
            end
        end
  end.

(** [clear].  The loop gets one turn per entry of the queue. *)
Definition clear (σ : state) : outcome unit * state :=
  let q := self σ in
  match clear_loop (length (PriorityQueue._heap (_queue q))) (objs σ) (_queue q) with
  | (Returned _, pq) =>
      (Returned tt,
       State (objs σ)
         (mk (max_size q) pq ∅ (_completed_tasks q) (_failed_tasks q)
             (mk_stats (total_added (_stats q))
                       (total_completed (_stats q))
                       (total_failed (_stats q))
                       0)))
  | (Raised e, pq) =>
      (Raised e,
       State (objs σ)
         (mk (max_size q) pq (_pending_tasks q)
             (_completed_tasks q) (_failed_tasks q) (_stats q)))
  | (Suspended, pq) =>
      (Suspended,
       State (objs σ)
         (mk (max_size q) pq (_pending_tasks q)
             (_completed_tasks q) (_failed_tasks q) (_stats q)))
  end.

(** [wait_empty]: [join] on the underlying queue returns at once when no
    entry awaits its acknowledgement, and waits otherwise. *)
Definition wait_empty (σ : state) : outcome unit :=
  if 0 <? PriorityQueue._unfinished_tasks (_queue (self σ))
  then Suspended
  else Returned tt.

End DownloadQueue.

(** ** [RateLimiter] *)

Module RateLimiter.

Record t := mk {
  requests_per_second : Q;
  burst_size : Z;
  tokens : Q;
  last_update : Q
}.

(** [__init__], at loop time [now]. *)
Definition new (requests_per_second : Q) (burst_size : Z) (now : Q) : t :=
  mk requests_per_second burst_size (inject_Z burst_size) now.

(** The token count after the refill of an [acquire] that starts at [now]. *)
Definition refill (self : t) (now : Q) : Q :=
  let time_passed := (now - last_update self)%Q in
  Py.min (inject_Z (burst_size self))
         (tokens self + time_passed * requests_per_second self)%Q.

(** [acquire], entered at loop time [now]; [now'] is the loop time read
    after the sleep.  The second component is the duration slept, if the
    caller had to wait.  Dividing by a rate of zero raises. *)
Definition acquire (self : t) (now now' : Q) : outcome unit * option Q * t :=
  let tokens1 := refill self now in
  let self1 := mk (requests_per_second self) (burst_size self) tokens1 now in
  if Qle_bool 1 tokens1 then
    (Returned tt, None,
     mk (requests_per_second self) (burst_size self) (tokens1 - 1)%Q now)
  else if Qeq_bool (requests_per_second self) 0 then
    (Raised ZeroDivisionError, None, self1)
  else
    let wait_time := ((1 - tokens1) / requests_per_second self)%Q in
    (Returned tt, Some wait_time,
     mk (requests_per_second self) (burst_size self) 0%Q now').

End RateLimiter.

(** ** [DownloadWorker] *)

Module DownloadWorker.

(** The [stats] dictionary; the two times are in microseconds. *)
Record stats := mk_stats {
  tasks_completed : Z;
  tasks_failed : Z;
  bytes_downloaded : Z;
  start_time : option Z;
  last_activity : option Z
}.

Record t := mk {
  worker_id : string;
  is_running : bool;
  current_task : option ref;
  wstats : stats
}.

(** [__init__] *)
Definition new (worker_id : string) : t :=
  mk worker_id false None (mk_stats 0 0 0 None None).

(** The external download operation: it raises or returns a result
    dictionary. *)
Definition downloader := gmap string Py.val -> string -> exn + gmap string Py.val.

(** A worker with the queue and the rate limiter it shares with the pool. *)
Record sys := Sys {
  worker : t;
  queue : DownloadQueue.state;
  rate_limiter : RateLimiter.t
}.

Definition set_current_task (c : option ref) (w : t) : t :=
  mk (worker_id w) (is_running w) c (wstats w).

Definition add_completed (w : t) : t :=
  mk (worker_id w) (is_running w) (current_task w)
     (mk_stats (tasks_completed (wstats w) + 1) (tasks_failed (wstats w))
               (bytes_downloaded (wstats w)) (start_time (wstats w))
               (last_activity (wstats w))).

Definition add_failed (w : t) : t :=
  mk (worker_id w) (is_running w) (current_task w)
     (mk_stats (tasks_completed (wstats w)) (tasks_failed (wstats w) + 1)
               (bytes_downloaded (wstats w)) (start_time (wstats w))
               (last_activity (wstats w))).

Definition add_bytes (n : Z) (w : t) : t :=
  mk (worker_id w) (is_running w) (current_task w)
     (mk_stats (tasks_completed (wstats w)) (tasks_failed (wstats w))
               (bytes_downloaded (wstats w) + n) (start_time (wstats w))
               (last_activity (wstats w))).

Definition set_last_activity (now : Z) (w : t) : t :=
  mk (worker_id w) (is_running w) (current_task w)
     (mk_stats (tasks_completed (wstats w)) (tasks_failed (wstats w))
               (bytes_downloaded (wstats w)) (start_time (wstats w))
               (Some now)).

(** [task.media_info['filename']] in a log line: [false] is its [KeyError]. *)
Definition has_filename (tk : DownloadTask.t) : bool :=
  bool_decide (is_Some (DownloadTask.media_info tk !! "filename")).

(** [_download_file].  Every exception of the body is caught and gives
    [False]: the missing filename of the first log line (the download is
    then not started), a fault of the download, a result without status, a
    size that cannot be added to the byte count. *)
Definition _download_file (dl : downloader) (w : t) (tk : DownloadTask.t)
  : bool * t :=
  if has_filename tk then
    match dl (DownloadTask.media_info tk) (DownloadTask.file_info_str tk) with
    | inl _ => (false, w)
    | inr result =>
        match result !! "status" with
        | None => (false, w)
        | Some status =>
            if bool_decide (status = Py.Str "success") then
              match default (Py.Int 0) (DownloadTask.media_info tk !! "file_size") with
              | Py.Int file_size => (true, add_bytes file_size w)
              | _ => (false, w)
              end
            else if bool_decide (status = Py.Str "skipped") then (true, w)
            else (false, w)
        end
    end
  else (false, w).

(** The [except Exception] clause of [_process_next_task], followed by its
    [finally]. *)
Definition on_exception (w : t) (σ : DownloadQueue.state) (rl : RateLimiter.t)
  : outcome unit * sys :=
  match current_task w with
  | Some task =>
      match DownloadQueue.task_done σ task false with
      | (Returned _, σ') =>
          (Returned tt, Sys (set_current_task None (add_failed w)) σ' rl)
      | (Raised e, σ') => (Raised e, Sys (set_current_task None w) σ' rl)
      | (Suspended, σ') => (Suspended, Sys w σ' rl)
      end
  | None => (Returned tt, Sys w σ rl)
  end.

(** [_process_next_task]: [now] is [datetime.now()], [t0] and [t1] are the
    loop times the rate limiter reads. *)
Definition _process_next_task (dl : downloader) (now : Z) (t0 t1 : Q) (s : sys)
  : outcome unit * sys :=
  let w := worker s in
  match DownloadQueue.get (queue s) with
  | (Suspended, σ) => (Suspended, Sys w σ (rate_limiter s))
  | (Raised _, σ) => on_exception w σ (rate_limiter s)
  | (Returned None, σ) =>
      (Returned tt, Sys (set_current_task None w) σ (rate_limiter s))
  | (Returned (Some task), σ1) =>
      let w1 := set_last_activity now (set_current_task (Some task) w) in
      match RateLimiter.acquire (rate_limiter s) t0 t1 with
      | (Raised _, _, rl) => on_exception w1 σ1 rl
      | (Suspended, _, rl) => (Suspended, Sys w1 σ1 rl)
      | (Returned _, _, rl) =>
          match DownloadQueue.objs σ1 !! task with
          | None => (Raised UnboundReference, Sys w1 σ1 rl)
          | Some tk =>
              let '(success, w2) := _download_file dl w1 tk in
              if success then
                let w3 := add_completed w2 in
                match DownloadQueue.task_done σ1 task true with
                | (Returned _, σ2) =>
                    if has_filename tk
                    then (Returned tt, Sys (set_current_task None w3) σ2 rl)
                    else on_exception w3 σ2 rl
                | (Raised _, σ2) => on_exception w3 σ2 rl
                | (Suspended, σ2) => (Suspended, Sys w3 σ2 rl)
                end
              else
                match DownloadQueue.retry_task σ1 task with
                | (Returned true, σ2) =>
                    (Returned tt, Sys (set_current_task None w2) σ2 rl)
                | (Returned false, σ2) =>
                    let w3 := add_failed w2 in
                    if has_filename tk
                    then (Returned tt, Sys (set_current_task None w3) σ2 rl)
                    else on_exception w3 σ2 rl
                | (Raised _, σ2) => on_exception w2 σ2 rl
                | (Suspended, σ2) => (Suspended, Sys w2 σ2 rl)
                end
          end
      end
  end.

(** [start] up to its loop, entered at time [now]: the worker is running
    from then on. *)
Definition start_entry (now : Z) (w : t) : t :=
  mk (worker_id w) true (current_task w)
     (mk_stats (tasks_completed (wstats w)) (tasks_failed (wstats w))
               (bytes_downloaded (wstats w)) (Some now)
               (last_activity (wstats w))).

(** [stop]: the loop of [start] ends before its next round. *)
Definition stop (w : t) : t :=
  mk (worker_id w) false (current_task w) (wstats w).

End DownloadWorker.

(** ** [WorkerPool]: the aggregate the progress view reads *)

Module WorkerPool.

Record pool_stats := mk_pool_stats {
  num_workers : Z;
  active_workers : Z;
  total_completed : Z;
  total_failed : Z;
  total_bytes_downloaded : Z;
  total_mb_downloaded : Q
}.

Definition sum_of (f : DownloadWorker.t -> Z) (workers : list DownloadWorker.t) : Z :=
  foldr (fun w acc => f w + acc) 0 workers.

(** [get_stats], over the workers of the pool; [num_workers] is the
    configured number. *)
Definition get_stats (num_workers : Z) (workers : list DownloadWorker.t)
  : pool_stats :=
  let total_bytes :=
    sum_of (fun w => DownloadWorker.bytes_downloaded (DownloadWorker.wstats w)) workers in
  mk_pool_stats
    num_workers
    (sum_of (fun w => if DownloadWorker.is_running w then 1 else 0) workers)
    (sum_of (fun w => DownloadWorker.tasks_completed (DownloadWorker.wstats w)) workers)
    (sum_of (fun w => DownloadWorker.tasks_failed (DownloadWorker.wstats w)) workers)
    total_bytes
    (Py.round_nd (Py.truediv total_bytes (1024 * 1024)) 2).

(** [start]: the workers [worker_1], ..., [worker_n] in the order of their
    creation; each one's [start] is scheduled and has not run yet. *)
Definition start (num_workers : Z) : list DownloadWorker.t :=
  (fun i => DownloadWorker.new ("worker_" +:+ pretty (i + 1))) <$> seqZ 0 num_workers.

End WorkerPool.

(** ** [DownloadCoordinator]: the progress view *)

Module DownloadCoordinator.

(** The coordinator with the components it owns; [start_time] is in
    microseconds. *)
Record t := mk {
  is_running : bool;
  start_time : option Z;
  concurrent_downloads : Z;
  queue : DownloadQueue.t;
  workers : list DownloadWorker.t
}.

(** The dictionary [get_progress_info] returns while running.  The list of
    active downloads is left out. *)
Record progress_info := mk_info {
  progress_percentage : Q;
  total_tasks : Z;
  completed_tasks : Z;
  failed_tasks : Z;
  pending_tasks : Z;
  queue_size : Z;
  active_workers : Z;
  total_workers : Z;
  total_mb_downloaded : Q;
  download_speed_mbpm : Q;
  elapsed_time_seconds : Z;
  estimated_time_remaining : option Z
}.

Inductive progress :=
| not_running
| running (info : progress_info).

(** [_estimate_time_remaining] *)
Definition _estimate_time_remaining (pending_tasks completed_tasks : Z)
           (elapsed_time : Q) : option Z :=
  if (completed_tasks =? 0) || Qeq_bool elapsed_time 0 || (pending_tasks =? 0)
  then None
  else
    let avg_time_per_task := (elapsed_time / inject_Z completed_tasks)%Q in
    let estimated_seconds := (inject_Z pending_tasks * avg_time_per_task)%Q in
    Some (Py.int estimated_seconds).

(** [(datetime.now() - self.start_time).total_seconds() if self.start_time
    else 0] *)
Definition elapsed (self : t) (now : Z) : Q :=
  match start_time self with
  | Some st => Py.truediv (now - st) (10 ^ 6)
  | None => 0%Q
  end.

(** [get_progress_info], called at time [now]. *)
Definition get_progress_info (self : t) (now : Z) : progress :=
  if negb (is_running self) then not_running
  else
    let queue_stats := DownloadQueue.get_stats (queue self) in
    let worker_stats := WorkerPool.get_stats (concurrent_downloads self) (workers self) in
    let total_tasks := DownloadQueue.v_total_added queue_stats in
    let completed_tasks := DownloadQueue.completed_tasks queue_stats in
    let failed_tasks := DownloadQueue.failed_tasks queue_stats in
    let pending_tasks := DownloadQueue.pending_tasks queue_stats in
    let progress_percentage :=
      if 0 <? total_tasks
      then (Py.truediv (completed_tasks + failed_tasks) total_tasks * 100)%Q
      else 0%Q in
    let elapsed_time := elapsed self now in
    let download_speed_mbps :=
      if Qlt_le_dec 0 elapsed_time
      then
        let total_mb :=
          Py.truediv (WorkerPool.total_bytes_downloaded worker_stats) (1024 * 1024) in
        (total_mb / elapsed_time * 60)%Q
      else 0%Q in
    running
      (mk_info
         (Py.round_nd progress_percentage 1)
         total_tasks completed_tasks failed_tasks pending_tasks
         (DownloadQueue.queue_size queue_stats)
         (WorkerPool.active_workers worker_stats)
         (WorkerPool.num_workers worker_stats)
         (WorkerPool.total_mb_downloaded worker_stats)
         (Py.round_nd download_speed_mbps 2)
         (Py.round elapsed_time)
         (_estimate_time_remaining pending_tasks completed_tasks elapsed_time)).

End DownloadCoordinator.

(** ** The rate limiter and the progress view on binary64 arithmetic *)

Module Rounded.
Import DownloadCoordinator.

Module RateLimiter.
Import Binary64.

(** The rate is a float, the burst size an int; the token count starts as
    the int [burst_size] and becomes a float with the first refill that
    stays below it. *)
Record t := mk {
  requests_per_second : Q;
  burst_size : Z;
  tokens : number;
  last_update : Q
}.

(** [__init__], at loop time [now]. *)
Definition new (requests_per_second : Q) (burst_size : Z) (now : Q) : t :=
  mk requests_per_second burst_size (Int burst_size) now.

(** The token count after the refill of an [acquire] that starts at [now]. *)
Definition refill (self : t) (now : Q) : number :=
  let time_passed := sub now (last_update self) in
  min (Int (burst_size self))
      (plus (tokens self) (Float (mul time_passed (requests_per_second self)))).

(** [acquire], entered at loop time [now]; [now'] is the loop time read
    after the sleep.  The second component is the duration slept, if the
    caller had to wait.  Dividing by a rate of zero raises. *)
Definition acquire (self : t) (now now' : Q) : outcome unit * option Q * t :=
  let tokens1 := refill self now in
  let self1 := mk (requests_per_second self) (burst_size self) tokens1 now in
  if le (Int 1) tokens1 then
    (Returned tt, None,
     mk (requests_per_second self) (burst_size self) (minus tokens1 (Int 1)) now)
  else if Qeq_bool (requests_per_second self) 0 then
    (Raised ZeroDivisionError, None, self1)
  else
    let wait_time := truediv (minus (Int 1) tokens1) (Float (requests_per_second self)) in
    (Returned tt, Some wait_time,
     mk (requests_per_second self) (burst_size self) (Int 0) now').

End RateLimiter.

Module DownloadCoordinator.
Import Binary64.

(** [(datetime.now() - self.start_time).total_seconds() if self.start_time
    else 0]: [total_seconds] divides the microseconds of the difference by
    [10**6]. *)
Definition elapsed (self : t) (now : Z) : number :=
  match start_time self with
  | Some st => Float (truediv (Int (now - st)) (Int (10 ^ 6)))
  | None => Int 0
  end.

(** [_estimate_time_remaining] *)
Definition _estimate_time_remaining (pending_tasks completed_tasks : Z)
           (elapsed_time : number) : option Z :=
  if (completed_tasks =? 0) || Qeq_bool (value elapsed_time) 0 || (pending_tasks =? 0)
  then None
  else
    let avg_time_per_task := truediv elapsed_time (Int completed_tasks) in
    let estimated_seconds := times (Int pending_tasks) (Float avg_time_per_task) in
    Some (Py.int (value estimated_seconds)).

(** [get_progress_info], called at time [now]. *)
Definition get_progress_info (self : t) (now : Z) : progress :=
  if negb (is_running self) then not_running
  else
    let queue_stats := DownloadQueue.get_stats (queue self) in
    let worker_stats := WorkerPool.get_stats (concurrent_downloads self) (workers self) in
    let total_tasks := DownloadQueue.v_total_added queue_stats in
    let completed_tasks := DownloadQueue.completed_tasks queue_stats in
    let failed_tasks := DownloadQueue.failed_tasks queue_stats in
    let pending_tasks := DownloadQueue.pending_tasks queue_stats in
    let progress_percentage :=
      if 0 <? total_tasks
      then times (Float (truediv (Int (completed_tasks + failed_tasks)) (Int total_tasks)))
                 (Int 100)
      else Int 0 in
    let elapsed_time := elapsed self now in
    let download_speed_mbps :=
      if lt (Int 0) elapsed_time
      then
        let total_mb :=
          truediv (Int (WorkerPool.total_bytes_downloaded worker_stats))
                  (Int (1024 * 1024)) in
        times (Float (truediv (Float total_mb) elapsed_time)) (Int 60)
      else Int 0 in
    let total_mb_downloaded :=
      round_nd (Float (truediv (Int (WorkerPool.total_bytes_downloaded worker_stats))
                               (Int (1024 * 1024)))) 2 in
    running
      (mk_info
         (value (round_nd progress_percentage 1))
         total_tasks completed_tasks failed_tasks pending_tasks
         (DownloadQueue.queue_size queue_stats)
         (WorkerPool.active_workers worker_stats)
         (WorkerPool.num_workers worker_stats)
         (value total_mb_downloaded)
         (value (round_nd download_speed_mbps 2))
         (Py.round (value elapsed_time))
         (_estimate_time_remaining pending_tasks completed_tasks elapsed_time)).

End DownloadCoordinator.

End Rounded.

(** ** [DownloadMonitor]: the progress bar *)

Module DownloadMonitor.

(** The two cells of the bar, U+2588 and U+2591, and the brackets, as code
    points; a text is the list of its code points. *)
Definition full_block : N := 9608.
Definition light_shade : N := 9617.

(** [s * n] for a text of one character: empty for [n <= 0]. *)
Definition times (c : N) (n : Z) : list N := replicate (Z.to_nat n) c.

(** [_create_progress_bar] *)
Definition _create_progress_bar (percentage : Q) (width : Z) : list N :=
  let filled := Py.int (inject_Z width * percentage / 100) in
  let bar := times full_block filled ++ times light_shade (width - filled) in
  [91%N] ++ bar ++ [93%N].

End DownloadMonitor.

(** ** Runs of queue operations *)

Module Run.

Inductive op :=
| Put (task : ref)
| Get
| TaskDone (task : ref) (success : bool)
| Retry (task : ref)
| Clear.

(** The state a call leaves behind, however it ends. *)
Definition step (σ : DownloadQueue.state) (o : op) : DownloadQueue.state :=
  match o with
  | Put task => (DownloadQueue.put σ task).2
  | Get => (DownloadQueue.get σ).2
  | TaskDone task success => (DownloadQueue.task_done σ task success).2
  | Retry task => (DownloadQueue.retry_task σ task).2
  | Clear => (DownloadQueue.clear σ).2
  end.

Definition run (σ : DownloadQueue.state) (ops : list op) : DownloadQueue.state :=
  foldl step σ ops.

(** [n] calls of [retry_task] on the same task. *)
Definition retries (σ : DownloadQueue.state) (task : ref) (n : nat)
  : DownloadQueue.state :=
  run σ (replicate n (Retry task)).

End Run.

(** ** Runs of the system: submissions and worker rounds

    The producer submits tasks with [put]; the workers of the pool take
    rounds of [_process_next_task] on the shared queue and rate limiter.  A
    round names the worker that takes it, the download operation and the
    clock readings of the round. *)

Module Protocol.

Inductive event :=
| Submit (task : ref)
| Round (w : DownloadWorker.t) (dl : DownloadWorker.downloader)
        (now : Z) (t0 t1 : Q).

Definition step (s : DownloadQueue.state * RateLimiter.t) (e : event)
  : DownloadQueue.state * RateLimiter.t :=
  match e with
  | Submit task => ((DownloadQueue.put s.1 task).2, s.2)
  | Round w dl now t0 t1 =>
      let r := (DownloadWorker._process_next_task dl now t0 t1
                  (DownloadWorker.Sys w s.1 s.2)).2 in
      (DownloadWorker.queue r, DownloadWorker.rate_limiter r)
  end.

Definition run (s : DownloadQueue.state * RateLimiter.t) (es : list event)
  : DownloadQueue.state * RateLimiter.t :=
  foldl step s es.

End Protocol.

(** ** Concrete payloads and states used by the examples *)

Module Sample.

Definition payload (message_id file_size : Z) : gmap string Py.val :=
  {[ "channel_id" := Py.Str "chan"; "message_id" := Py.Int message_id;
     "file_size" := Py.Int file_size; "filename" := Py.Str "a.mp3" ]}.

(** Two tasks as [add_download_task] creates them, and a fresh queue of
    capacity 100. *)
Definition tasks : store :=
  {[ 0%nat := DownloadTask.new (payload 7 5242880) "[5.0 MB]" 0;
     1%nat := DownloadTask.new (payload 8 0) "[0.0 MB]" 0 ]}.

Definition fresh : DownloadQueue.state :=
  DownloadQueue.State tasks (DownloadQueue.new 100).

(** The first task submitted, then handed out by [get]; [task0] is its
    object from then on. *)
Definition queued : DownloadQueue.state := (DownloadQueue.put fresh 0%nat).2.

Definition dequeued : DownloadQueue.state := (DownloadQueue.get queued).2.

Definition task0 : DownloadTask.t :=
  DownloadTask.set_priority 5 (DownloadTask.new (payload 7 5242880) "[5.0 MB]" 0).


End Sample.

(** Two download operations: one reports every file as skipped, one as
    downloaded. *)
Module SampleWorker.

Definition skipping : DownloadWorker.downloader :=
  fun _ _ => inr {[ "status" := Py.Str "skipped" ]}.

Definition succeeding : DownloadWorker.downloader :=
  fun _ _ => inr {[ "status" := Py.Str "success" ]}.

End SampleWorker.

(** Coordinators of a session started at time 0 with three workers. *)
Module SampleSession.





End SampleSession.

(** ** More download operations and tasks for the examples *)

Module SampleRun.

(** A download operation that reports every file as failed. *)
Definition failing : DownloadWorker.downloader :=
  fun _ _ => inr {[ "status" := Py.Str "failed" ]}.

End SampleRun.

Module SampleLast.

(** A task on its last attempt, submitted to a fresh queue. *)
Definition task : DownloadTask.t :=
  DownloadTask.mk (Sample.payload 9 0) "[0.0 MB]" 0 0 2 3.

Definition queued : DownloadQueue.state :=
  (DownloadQueue.put
     (DownloadQueue.State {[ 0%nat := task ]} (DownloadQueue.new 100)) 0%nat).2.

Definition dequeued : DownloadQueue.state := (DownloadQueue.get queued).2.

End SampleLast.

(** ** Runs of the pool

    As the runs of the system, with the workers of the pool kept: a round
    is taken by the worker at a position of the pool, if its loop is
    running, and leaves that worker's counters behind. *)

Module Pool.

Record t := mk {
  workers : list DownloadWorker.t;
  queue : DownloadQueue.state;
  rate_limiter : RateLimiter.t
}.

Inductive event :=
| Submit (task : ref)
| Enter (i : nat) (now : Z)
| Stop (i : nat)
| Round (i : nat) (dl : DownloadWorker.downloader) (now : Z) (t0 t1 : Q).

(** The coordinator's components after its [start], at loop time [now]. *)
Definition start (tasks : store) (max_size : Z) (requests_per_second : Q)
           (burst_size : Z) (now : Q) (num_workers : Z) : t :=
  mk (WorkerPool.start num_workers)
     (DownloadQueue.State tasks (DownloadQueue.new max_size))
     (RateLimiter.new requests_per_second burst_size now).

Definition step (p : t) (e : event) : t :=
  match e with
  | Submit task =>
      mk (workers p) (DownloadQueue.put (queue p) task).2 (rate_limiter p)
  | Enter i now =>
      match workers p !! i with
      | Some w =>
          mk (<[i := DownloadWorker.start_entry now w]> (workers p))
             (queue p) (rate_limiter p)
      | None => p
      end
  | Stop i =>
      match workers p !! i with
      | Some w =>
          mk (<[i := DownloadWorker.stop w]> (workers p)) (queue p) (rate_limiter p)
      | None => p
      end
  | Round i dl now t0 t1 =>
      match workers p !! i with
      | Some w =>
          if DownloadWorker.is_running w then
            let r := (DownloadWorker._process_next_task dl now t0 t1
                        (DownloadWorker.Sys w (queue p) (rate_limiter p))).2 in
            mk (<[i := DownloadWorker.worker r]> (workers p))
               (DownloadWorker.queue r) (DownloadWorker.rate_limiter r)
          else p
      | None => p
      end
  end.

Definition run (p : t) (es : list event) : t := foldl step p es.

End Pool.

(** ** Consecutive acquisitions of the rate limiter *)

Module Bursts.

(** Consecutive calls of [acquire], each with the loop time at which it
    starts and the loop time read after its sleep: how each ends and how
    long it slept. *)
Fixpoint run (self : RateLimiter.t) (times : list (Q * Q))
  : list (outcome unit * option Q) * RateLimiter.t :=
  match times with
  | [] => ([], self)
  | (now, now') :: rest =>
      let r := RateLimiter.acquire self now now' in
      let rs := run r.2 rest in
      (r.1 :: rs.1, rs.2)
  end.

(** The loop times of the calls do not run backwards. *)
Fixpoint monotone (last : Q) (times : list (Q * Q)) : Prop :=
  match times with
  | [] => True
  | (now, _) :: rest => (last <= now)%Q /\ monotone now rest
  end.

End Bursts.

(** ** The order of a binary heap kept in a list *)

Module HeapOrder.
Section Order.
Context {A : Type} (key : A -> Z).

Definition parent (i : nat) : nat := ((i - 1) / 2)%nat.

(** No entry is below its parent. *)
Definition ordered (heap : list A) : Prop :=
  forall i x p, (0 < i)%nat -> heap !! i = Some x -> heap !! parent i = Some p ->
                key p <= key x.

(** The heap while a sifting loop moves the position [pos] through it: the
    order holds wherever [pos] is not involved, and what is above [pos] is
    not above what is under it. *)
Definition hole (heap : list A) (pos : nat) : Prop :=
  (forall i x p, (0 < i)%nat -> i <> pos -> parent i <> pos ->
                 heap !! i = Some x -> heap !! parent i = Some p ->
                 key p <= key x)
  /\ (forall c x g, (0 < pos)%nat -> (0 < c)%nat -> parent c = pos ->
                    heap !! c = Some x -> heap !! parent pos = Some g ->
                    key g <= key x).

End Order.
End HeapOrder.

(** ** The coordinator's session

    The coordinator with its session statistics and its components: the
    workers of the pool, the shared queue with the task objects created so
    far, and the rate limiter. *)

Module Session.

(** The [session_stats] dictionary. *)
Record session_stats := mk_stats {
  files_queued : Z;
  files_completed : Z;
  files_failed : Z;
  files_skipped : Z;
  total_bytes_downloaded : Z
}.

Record t := mk {
  is_running : bool;
  start_time : option Z;
  concurrent_downloads : Z;
  stats : session_stats;
  pool : Pool.t
}.

(** [__init__], at loop time [now]: no worker and no task object yet. *)
Definition new (concurrent_downloads max_queue_size : Z)
           (requests_per_second : Q) (burst_size : Z) (now : Q) : t :=
  mk false None concurrent_downloads (mk_stats 0 0 0 0 0)
     (Pool.mk [] (DownloadQueue.State ∅ (DownloadQueue.new max_queue_size))
              (RateLimiter.new requests_per_second burst_size now)).

(** [start], at time [now]. *)
Definition start (self : t) (now : Z) : t :=
  if is_running self then self
  else mk true (Some now) (concurrent_downloads self) (stats self)
          (Pool.mk (WorkerPool.start (concurrent_downloads self))
                   (Pool.queue (pool self)) (Pool.rate_limiter (pool self))).

Definition with_queue (self : t) (st : session_stats) (σ : DownloadQueue.state) : t :=
  mk (is_running self) (start_time self) (concurrent_downloads self) st
     (Pool.mk (Pool.workers (pool self)) σ (Pool.rate_limiter (pool self))).

Definition add_queued (st : session_stats) : session_stats :=
  mk_stats (files_queued st + 1) (files_completed st) (files_failed st)
           (files_skipped st) (total_bytes_downloaded st).

(** [add_download_task], at time [now].  The task is a new object of the
    store.  Both log lines read [media_info['filename']] after the [put]:
    a payload without a filename makes the call raise [KeyError] then. *)
Definition add_download_task (self : t) (media_info : gmap string Py.val)
           (file_info_str : string) (now : Z) : outcome bool * t :=
  if negb (is_running self) then (Returned false, self)
  else
    let σ := Pool.queue (pool self) in
    let task := fresh (dom (DownloadQueue.objs σ)) in
    let σ0 :=
      DownloadQueue.State
        (<[task := DownloadTask.new media_info file_info_str now]> (DownloadQueue.objs σ))
        (DownloadQueue.self σ) in
    let r := DownloadQueue.put σ0 task in
    match r.1 with
    | Returned success =>
        let st := if success then add_queued (stats self) else stats self in
        if bool_decide (is_Some (media_info !! "filename"))
        then (Returned success, with_queue self st r.2)
        else (Raised KeyError, with_queue self st r.2)
    | Raised e => (Raised e, with_queue self (stats self) r.2)
    | Suspended => (Suspended, with_queue self (stats self) r.2)
    end.

(** [_update_session_stats] *)
Definition _update_session_stats (self : t) : t :=
  let queue_stats :=
    DownloadQueue.get_stats (DownloadQueue.self (Pool.queue (pool self))) in
  let worker_stats :=
    WorkerPool.get_stats (concurrent_downloads self) (Pool.workers (pool self)) in
  mk (is_running self) (start_time self) (concurrent_downloads self)
     (mk_stats (files_queued (stats self))
               (DownloadQueue.completed_tasks queue_stats)
               (DownloadQueue.failed_tasks queue_stats)
               (files_skipped (stats self))
               (WorkerPool.total_bytes_downloaded worker_stats))
     (pool self).

(** The dictionary [get_session_summary] returns. *)
Record summary := mk_summary {
  session_duration_seconds : Z;
  s_files_queued : Z;
  s_files_completed : Z;
  s_files_failed : Z;
  total_mb_downloaded : Q;
  average_speed_mbpm : Q;
  success_rate : Q
}.

Definition elapsed (self : t) (now : Z) : Q :=
  match start_time self with
  | Some st => Py.truediv (now - st) (10 ^ 6)
  | None => 0%Q
  end.

(** [get_session_summary], called at time [now]; it updates the session
    statistics first. *)
Definition get_session_summary (self : t) (now : Z) : summary * t :=
  let self1 := _update_session_stats self in
  let elapsed_time := elapsed self1 now in
  let st := stats self1 in
  let mb := Py.truediv (total_bytes_downloaded st) (1024 * 1024) in
  (mk_summary
     (Py.round elapsed_time)
     (files_queued st) (files_completed st) (files_failed st)
     (Py.round_nd mb 2)
     (if Qlt_le_dec 0 elapsed_time
      then Py.round_nd (mb / (elapsed_time / 60))%Q 2 else 0%Q)
     (Py.round_nd
        (Py.truediv (files_completed st) (Z.max 1 (files_queued st)) * 100)%Q 1),
   self1).

(** What happens in a session: the producer adds a task, a worker enters
    or leaves its loop, a running worker takes a round. *)
Inductive event :=
| Add (media_info : gmap string Py.val) (file_info_str : string) (now : Z)
| Enter (i : nat) (now : Z)
| Stop (i : nat)
| Round (i : nat) (dl : DownloadWorker.downloader) (now : Z) (t0 t1 : Q).

Definition with_pool (self : t) (p : Pool.t) : t :=
  mk (is_running self) (start_time self) (concurrent_downloads self) (stats self) p.

Definition step (self : t) (e : event) : t :=
  match e with
  | Add media_info file_info_str now =>
      (add_download_task self media_info file_info_str now).2
  | Enter i now => with_pool self (Pool.step (pool self) (Pool.Enter i now))
  | Stop i => with_pool self (Pool.step (pool self) (Pool.Stop i))
  | Round i dl now t0 t1 =>
      with_pool self (Pool.step (pool self) (Pool.Round i dl now t0 t1))
  end.

Definition run (self : t) (es : list event) : t := foldl step self es.

(** The payload of an added task carries a filename, as the producer
    checks. *)
Definition well_named (e : event) : Prop :=
  match e with
  | Add media_info _ _ => is_Some (media_info !! "filename")
  | _ => True
  end.

End Session.

(** ** The rounds of the workers, from one suspension to the next

    A round of [_process_next_task] is suspended where it awaits: in
    [queue.get] on an empty queue, in [rate_limiter.acquire], and in the
    download.  Between two of these points the code runs without
    interruption; there the other workers, the producer and the monitor take
    their turns and see the task in the worker's hands. *)

Module Stepwise.
Import DownloadWorker.

(** Where a worker is: between two rounds; in the [get] of a round, on an
    empty queue; with a task, before [acquire]; with a task, in its
    download; with a task, in a call that suspended and is not resumed. *)
Inductive stage :=
| Idle
| Waiting
| Limiting (task : ref)
| Downloading (task : ref)
| Blocked (task : ref).

(** The task in the worker's hands. *)
Definition holds (st : stage) : option ref :=
  match st with
  | Idle | Waiting => None
  | Limiting task | Downloading task | Blocked task => Some task
  end.

(** [_process_next_task] up to [acquire]: the task is taken from the queue
    and becomes the current task.  On an empty queue [get] stays
    suspended. *)
Definition take (now : Z) (s : sys) : stage * sys :=
  let w := worker s in
  match DownloadQueue.get (queue s) with
  | (Suspended, σ) => (Waiting, Sys w σ (rate_limiter s))
  | (Raised _, σ) => (Idle, (on_exception w σ (rate_limiter s)).2)
  | (Returned None, σ) =>
      (Idle, Sys (set_current_task None w) σ (rate_limiter s))
  | (Returned (Some task), σ1) =>
      (Limiting task,
       Sys (set_last_activity now (set_current_task (Some task) w)) σ1
           (rate_limiter s))
  end.

(** [acquire], with the loop times [t0] and [t1] it reads; an exception
    ends the round in the [except] clause. *)
Definition limit (t0 t1 : Q) (task : ref) (s : sys) : stage * sys :=
  match RateLimiter.acquire (rate_limiter s) t0 t1 with
  | (Raised _, _, rl) => (Idle, (on_exception (worker s) (queue s) rl).2)
  | (Suspended, _, rl) => (Limiting task, Sys (worker s) (queue s) rl)
  | (Returned _, _, rl) => (Downloading task, Sys (worker s) (queue s) rl)
  end.

(** The download and the rest of the round. *)
Definition finish (dl : downloader) (task : ref) (s : sys) : stage * sys :=
  let w1 := worker s in
  let σ1 := queue s in
  let rl := rate_limiter s in
  match DownloadQueue.objs σ1 !! task with
  | None => (Blocked task, Sys w1 σ1 rl)
  | Some tk =>
      let '(success, w2) := _download_file dl w1 tk in
      if success then
        let w3 := add_completed w2 in
        match DownloadQueue.task_done σ1 task true with
        | (Returned _, σ2) =>
            if has_filename tk
            then (Idle, Sys (set_current_task None w3) σ2 rl)
            else (Idle, (on_exception w3 σ2 rl).2)
        | (Raised _, σ2) => (Idle, (on_exception w3 σ2 rl).2)
        | (Suspended, σ2) => (Blocked task, Sys w3 σ2 rl)
        end
      else
        match DownloadQueue.retry_task σ1 task with
        | (Returned true, σ2) =>
            (Idle, Sys (set_current_task None w2) σ2 rl)
        | (Returned false, σ2) =>
            let w3 := add_failed w2 in
            if has_filename tk
            then (Idle, Sys (set_current_task None w3) σ2 rl)
            else (Idle, (on_exception w3 σ2 rl).2)
        | (Raised _, σ2) => (Idle, (on_exception w2 σ2 rl).2)
        | (Suspended, σ2) => (Blocked task, Sys w2 σ2 rl)
        end
  end.

(** The three steps of a round in a row: the state [_process_next_task]
    leaves. *)
Definition round (dl : downloader) (now : Z) (t0 t1 : Q) (s : sys) : sys :=
  match take now s with
  | (Limiting task, s1) =>
      match limit t0 t1 task s1 with
      | (Downloading task', s2) => (finish dl task' s2).2
      | (_, s2) => s2
      end
  | (_, s1) => s1
  end.

(** The pool: each worker with the point it has reached. *)
Record t := mk {
  workers : list (DownloadWorker.t * stage);
  queue : DownloadQueue.state;
  rate_limiter : RateLimiter.t
}.

Inductive event :=
| Submit (task : ref)
| Enter (i : nat) (now : Z)
| Stop (i : nat)
| Take (i : nat) (now : Z)
| Limit (i : nat) (t0 t1 : Q)
| Finish (i : nat) (dl : downloader).

(** The coordinator's components after its [start], at loop time [now]. *)
Definition start (tasks : store) (max_size : Z) (requests_per_second : Q)
           (burst_size : Z) (now : Q) (num_workers : Z) : t :=
  mk ((fun w => (w, Idle)) <$> WorkerPool.start num_workers)
     (DownloadQueue.State tasks (DownloadQueue.new max_size))
     (RateLimiter.new requests_per_second burst_size now).

(** The worker at position [i] has moved on. *)
Definition resume (p : t) (i : nat) (r : stage * sys) : t :=
  mk (<[i := (worker r.2, r.1)]> (workers p))
     (DownloadWorker.queue r.2) (DownloadWorker.rate_limiter r.2).

(** A worker begins a round only while its loop is running; a round once
    begun is carried through, also the one that waited in [get] while the
    worker was told to stop. *)
Definition step (p : t) (e : event) : t :=
  match e with
  | Submit task =>
      mk (workers p) (DownloadQueue.put (queue p) task).2 (rate_limiter p)
  | Enter i now =>
      match workers p !! i with
      | Some (w, st) =>
          mk (<[i := (start_entry now w, st)]> (workers p))
             (queue p) (rate_limiter p)
      | None => p
      end
  | Stop i =>
      match workers p !! i with
      | Some (w, st) =>
          mk (<[i := (stop w, st)]> (workers p)) (queue p) (rate_limiter p)
      | None => p
      end
  | Take i now =>
      match workers p !! i with
      | Some (w, Idle) =>
          if DownloadWorker.is_running w
          then resume p i (take now (Sys w (queue p) (rate_limiter p)))
          else p
      | Some (w, Waiting) =>
          resume p i (take now (Sys w (queue p) (rate_limiter p)))
      | _ => p
      end
  | Limit i t0 t1 =>
      match workers p !! i with
      | Some (w, Limiting task) =>
          resume p i (limit t0 t1 task (Sys w (queue p) (rate_limiter p)))
      | _ => p
      end
  | Finish i dl =>
      match workers p !! i with
      | Some (w, Downloading task) =>
          resume p i (finish dl task (Sys w (queue p) (rate_limiter p)))
      | _ => p
      end
  end.

Definition run (p : t) (es : list event) : t := foldl step p es.

(** The tasks in the hands of the workers. *)
Definition held (p : t) : list ref := omap (fun ws => holds ws.2) (workers p).

(** The worker objects, as [WorkerPool.get_stats] reads them. *)
Definition pool (p : t) : list DownloadWorker.t := fst <$> workers p.

(** [WorkerPool.get_active_downloads]: an entry for each worker that has a
    current task, here the worker's id and the task; the filename and the
    size the entry takes from the payload are left out. *)
Definition get_active_downloads (workers : list DownloadWorker.t)
  : list (string * ref) :=
  omap (fun w => (fun task => (worker_id w, task)) <$> current_task w) workers.

End Stepwise.

(** ** Vocabulary of the statements *)

Module Notions.

(** The identity of a task object. *)
Definition task_id (tk : DownloadTask.t) : string :=
  DownloadQueue._generate_task_id (DownloadTask.media_info tk).

(** A task object whose priority was raised [n] times by 1000 and whose
    attempt counter was raised by [n]. *)
Definition demoted (tk : DownloadTask.t) (n : Z) : DownloadTask.t :=
  DownloadTask.mk (DownloadTask.media_info tk) (DownloadTask.file_info_str tk)
                  (DownloadTask.priority tk + 1000 * n) (DownloadTask.created_at tk)
                  (DownloadTask.attempts tk + n) (DownloadTask.max_attempts tk).

(** No identity is pending and completed at once. *)
Definition exclusive (q : DownloadQueue.t) : Prop :=
  forall id, is_Some (DownloadQueue._pending_tasks q !! id) ->
             id ∉ DownloadQueue._completed_tasks q.

(** Every entry of the priority queue is still to be acknowledged. *)
Definition accounted (q : DownloadQueue.t) : Prop :=
  PriorityQueue.qsize (DownloadQueue._queue q)
  <= PriorityQueue._unfinished_tasks (DownloadQueue._queue q).

(** So is one entry more: the one just handed out. *)
Definition owed (q : DownloadQueue.t) : Prop :=
  PriorityQueue.qsize (DownloadQueue._queue q) + 1
  <= PriorityQueue._unfinished_tasks (DownloadQueue._queue q).

(** Every payload carries the filename the producer checks for before it
    submits. *)
Definition named (tasks : store) : Prop :=
  map_Forall (fun (_ : ref) (tk : DownloadTask.t) =>
                DownloadWorker.has_filename tk = true) tasks.

(** The entries of the priority queue. *)
Definition heap_of (σ : DownloadQueue.state) : list ref :=
  PriorityQueue._heap (DownloadQueue._queue (DownloadQueue.self σ)).

(** Every entry of the priority queue occurs once, denotes a task object,
    and is the reference the pending map holds for the identity of that
    object. *)
Definition registered (σ : DownloadQueue.state) : Prop :=
  NoDup (heap_of σ)
  /\ forall r, r ∈ heap_of σ ->
       exists tk, DownloadQueue.objs σ !! r = Some tk
                  /\ DownloadQueue._pending_tasks (DownloadQueue.self σ) !! task_id tk
                     = Some r.

(** The task [task], of identity [id], was handed out: it is not an entry of
    the priority queue, and no entry has its identity. *)
Definition in_flight (σ : DownloadQueue.state) (task : ref) (id : string) : Prop :=
  registered σ
  /\ (task ∉ heap_of σ)
  /\ (exists tk, DownloadQueue.objs σ !! task = Some tk /\ task_id tk = id)
  /\ (forall r tk, r ∈ heap_of σ -> DownloadQueue.objs σ !! r = Some tk ->
                   task_id tk <> id).

(** The download of the task object [tk] does not succeed: the operation
    raises, or its result carries no status, or a status other than
    ['success'] and ['skipped']. *)
Definition download_fails (dl : DownloadWorker.downloader) (tk : DownloadTask.t)
  : Prop :=
  match dl (DownloadTask.media_info tk) (DownloadTask.file_info_str tk) with
  | inl _ => True
  | inr result =>
      match result !! "status" with
      | None => True
      | Some status => status <> Py.Str "success" /\ status <> Py.Str "skipped"
      end
  end.

(** The worker as a round finds it once it holds [task]. *)
Definition holding (w : DownloadWorker.t) (task : ref) (now : Z) : DownloadWorker.t :=
  DownloadWorker.set_last_activity now (DownloadWorker.set_current_task (Some task) w).

(** The count of entries put and not yet acknowledged equals what was added
    and neither completed nor failed. *)
Definition balanced (q : DownloadQueue.t) : Prop :=
  PriorityQueue._unfinished_tasks (DownloadQueue._queue q)
  + DownloadQueue.total_completed (DownloadQueue._stats q)
  + DownloadQueue.total_failed (DownloadQueue._stats q)
  = DownloadQueue.total_added (DownloadQueue._stats q).

(** Every completion was counted once. *)
Definition reconciled (q : DownloadQueue.t) : Prop :=
  Z.of_nat (size (DownloadQueue._completed_tasks q))
  = DownloadQueue.total_completed (DownloadQueue._stats q).

(** No set of identities is larger than its counter. *)
Definition dominated (q : DownloadQueue.t) : Prop :=
  Z.of_nat (size (DownloadQueue._pending_tasks q))
  <= DownloadQueue.total_added (DownloadQueue._stats q)
  /\ Z.of_nat (size (DownloadQueue._completed_tasks q))
     <= DownloadQueue.total_completed (DownloadQueue._stats q)
  /\ Z.of_nat (size (DownloadQueue._failed_tasks q))
     <= DownloadQueue.total_failed (DownloadQueue._stats q).

(** What holds of the queue in every run of the system. *)
Definition sound (σ : DownloadQueue.state) : Prop :=
  named (DownloadQueue.objs σ)
  /\ accounted (DownloadQueue.self σ)
  /\ registered σ
  /\ exclusive (DownloadQueue.self σ)
  /\ balanced (DownloadQueue.self σ)
  /\ reconciled (DownloadQueue.self σ)
  /\ dominated (DownloadQueue.self σ).

(** The task [task], of identity [id], was handed out and never
    acknowledged: it is not an entry of the priority queue, the pending map
    still holds it for its identity, and one acknowledgement more than the
    entries of the queue is outstanding. *)
Definition stranded (σ : DownloadQueue.state) (task : ref) (id : string) : Prop :=
  (task ∉ heap_of σ)
  /\ (exists tk, DownloadQueue.objs σ !! task = Some tk /\ task_id tk = id)
  /\ DownloadQueue._pending_tasks (DownloadQueue.self σ) !! id = Some task
  /\ owed (DownloadQueue.self σ).

(** Every task object has at least two attempts left, or was handed out and
    never acknowledged. *)
Definition spared (σ : DownloadQueue.state) : Prop :=
  forall r tk, DownloadQueue.objs σ !! r = Some tk ->
    DownloadTask.attempts tk + 1 < DownloadTask.max_attempts tk
    \/ (DownloadQueue._pending_tasks (DownloadQueue.self σ) !! task_id tk = Some r
        /\ (r ∉ heap_of σ)).

(** The counters of the workers against those of the queue: the completions
    agree, and the workers count as failed what the queue counts and what
    was handed out and never acknowledged. *)
Definition ledger (p : Pool.t) : Prop :=
  let q := DownloadQueue.self (Pool.queue p) in
  let ws := Pool.workers p in
  WorkerPool.sum_of (fun w => DownloadWorker.tasks_completed (DownloadWorker.wstats w)) ws
  = DownloadQueue.total_completed (DownloadQueue._stats q)
  /\ WorkerPool.sum_of (fun w => DownloadWorker.tasks_failed (DownloadWorker.wstats w)) ws
     = DownloadQueue.total_failed (DownloadQueue._stats q)
       + PriorityQueue._unfinished_tasks (DownloadQueue._queue q)
       - PriorityQueue.qsize (DownloadQueue._queue q).

(** The priority of the task object a reference denotes. *)
Definition key_of (objs : store) (r : ref) : Z :=
  match objs !! r with
  | Some tk => DownloadTask.priority tk
  | None => 0
  end.

(** The entries of the priority queue are in heap order of their
    priorities, and the priority of each is the one [put] computed from its
    file size. *)
Definition prioritised (σ : DownloadQueue.state) : Prop :=
  HeapOrder.ordered (key_of (DownloadQueue.objs σ)) (heap_of σ)
  /\ forall r tk, r ∈ heap_of σ -> DownloadQueue.objs σ !! r = Some tk ->
       DownloadQueue.size_priority (DownloadTask.media_info tk)
       = inr (DownloadTask.priority tk).

(** What holds of a session in every run: the invariants of the queue and
    of the pool, and [files_queued] counts the tasks added. *)
Definition consistent (s : Session.t) : Prop :=
  sound (Pool.queue (Session.pool s))
  /\ ledger (Session.pool s)
  /\ Session.files_queued (Session.stats s)
     = DownloadQueue.total_added
         (DownloadQueue._stats (DownloadQueue.self (Pool.queue (Session.pool s)))).

(** No failure was recorded, no task object is on its last attempt, and
    the rate of the limiter is not zero. *)
Definition unfailed (s : DownloadQueue.state * RateLimiter.t) : Prop :=
  spared s.1
  /\ DownloadQueue._failed_tasks (DownloadQueue.self s.1) = ∅
  /\ DownloadQueue.total_failed (DownloadQueue._stats (DownloadQueue.self s.1)) = 0
  /\ ~ (RateLimiter.requests_per_second s.2 == 0)%Q.

(** The underlying queue has the bound it was created with and, when the
    bound is positive, no more entries than it allows. *)
Definition within_capacity (max_size : Z) (q : DownloadQueue.t) : Prop :=
  PriorityQueue._maxsize (DownloadQueue._queue q) = max_size
  /\ (0 < max_size -> PriorityQueue.qsize (DownloadQueue._queue q) <= max_size).

(** [current_size] is the size of the underlying queue. *)
Definition sized (q : DownloadQueue.t) : Prop :=
  DownloadQueue.current_size (DownloadQueue._stats q)
  = PriorityQueue.qsize (DownloadQueue._queue q).

(** The identity of the task object a reference denotes. *)
Definition identity (tasks : store) (r : ref) : option string :=
  task_id <$> tasks !! r.

(** The identity [id] is pending or completed. *)
Definition known (σ : DownloadQueue.state) (id : string) : Prop :=
  is_Some (DownloadQueue._pending_tasks (DownloadQueue.self σ) !! id)
  \/ id ∈ DownloadQueue._completed_tasks (DownloadQueue.self σ).

(** A call that neither fails nor clears the identity [id]: a [put], a
    [get], a [task_done] that reports success, and a [task_done] that
    reports failure or a [retry_task] for a task of another identity. *)
Definition keeps (tasks : store) (id : string) (o : Run.op) : Prop :=
  match o with
  | Run.Put _ | Run.Get | Run.TaskDone _ true => True
  | Run.TaskDone task false | Run.Retry task => identity tasks task <> Some id
  | Run.Clear => False
  end.

(** The token count of a rate limiter is within its bucket. *)
Definition within_bucket (self : Rounded.RateLimiter.t) : Prop :=
  (0 <= Binary64.value (Rounded.RateLimiter.tokens self)
   /\ Binary64.value (Rounded.RateLimiter.tokens self)
      <= inject_Z (Rounded.RateLimiter.burst_size self))%Q.

(** A number that is an int or a float of binary64. *)
Definition well_formed (a : Binary64.number) : Prop :=
  match a with
  | Binary64.Int _ => True
  | Binary64.Float x => Binary64.representable x
  end.

(** The books of the queue against the tasks [hs] in the hands of the
    workers and the workers' counts [c] of completions and [f] of failures:
    the entries of the queue and the tasks in hand are distinct, each
    denotes a task object and is the reference the pending map holds for
    its identity; the completions agree; and the workers count as failed,
    or still hold, what the queue counts as failed and what was handed out
    and not acknowledged. *)
Definition audited (σ : DownloadQueue.state) (hs : list ref) (c f : Z) : Prop :=
  let q := DownloadQueue.self σ in
  named (DownloadQueue.objs σ)
  /\ NoDup (heap_of σ ++ hs)
  /\ (forall r, r ∈ heap_of σ ++ hs ->
        exists tk, DownloadQueue.objs σ !! r = Some tk
                   /\ DownloadQueue._pending_tasks q !! task_id tk = Some r)
  /\ exclusive q /\ balanced q /\ reconciled q /\ dominated q
  /\ c = DownloadQueue.total_completed (DownloadQueue._stats q)
  /\ f + Z.of_nat (length hs)
     = DownloadQueue.total_failed (DownloadQueue._stats q)
       + PriorityQueue._unfinished_tasks (DownloadQueue._queue q)
       - PriorityQueue.qsize (DownloadQueue._queue q)
  /\ DownloadQueue.total_failed (DownloadQueue._stats q) <= f.

(** The state of the pool is audited, and each worker's [current_task] is
    the task in its hands. *)
Definition tallied (p : Stepwise.t) : Prop :=
  audited (Stepwise.queue p) (Stepwise.held p)
    (WorkerPool.sum_of
       (fun w => DownloadWorker.tasks_completed (DownloadWorker.wstats w))
       (Stepwise.pool p))
    (WorkerPool.sum_of
       (fun w => DownloadWorker.tasks_failed (DownloadWorker.wstats w))
       (Stepwise.pool p))
  /\ Forall (fun ws => DownloadWorker.current_task ws.1 = Stepwise.holds ws.2)
            (Stepwise.workers p).

End Notions.

(** * Properties *)

(** ** Sizes under [heappush] and [heappop] *)

Module heapq_facts.
Section Sizes.
Context {A : Type} (lt : A -> A -> bool).

Lemma siftdown_loop_length fuel (heap : list A) startpos pos newitem :
  length (heapq.siftdown_loop lt fuel heap startpos pos newitem) = length heap.
Proof.
  revert heap pos.
  induction fuel as [|fuel IH]; intros heap pos; simpl.
  - apply length_insert.
  - case_bool_decide; [|apply length_insert].
    destruct (heap !! _) as [parent|]; [|apply length_insert].
    destruct (lt newitem parent); [|apply length_insert].
    rewrite IH. apply length_insert.
Qed.

Lemma _siftdown_length (heap : list A) startpos pos :
  length (heapq._siftdown lt heap startpos pos) = length heap.
Proof.
  unfold heapq._siftdown.
  destruct (heap !! pos); [apply siftdown_loop_length|done].
Qed.

Lemma siftup_loop_length fuel (heap : list A) endpos pos :
  length (heapq.siftup_loop lt fuel heap endpos pos).1 = length heap.
Proof.
  revert heap pos.
  induction fuel as [|fuel IH]; intros heap pos; simpl; [done|].
  case_bool_decide; [|done].
  match goal with |- context [heap !! ?i] => destruct (heap !! i) as [c|] eqn:Hc end;
    [|done].
  rewrite IH. apply length_insert.
Qed.

Lemma _siftup_length (heap : list A) pos :
  length (heapq._siftup lt heap pos) = length heap.
Proof.
  unfold heapq._siftup.
  destruct (heap !! pos) as [newitem|]; [|done].
  pose proof (siftup_loop_length (length heap) heap (length heap) pos) as Hlen.
  destruct (heapq.siftup_loop lt (length heap) heap (length heap) pos) as [heap' pos'].
  simpl in Hlen.
  by rewrite _siftdown_length, length_insert.
Qed.

Lemma heappush_length (heap : list A) item :
  length (heapq.heappush lt heap item) = S (length heap).
Proof.
  unfold heapq.heappush.
  rewrite _siftdown_length, length_app. simpl. lia.
Qed.

Lemma heappop_nil : heapq.heappop lt [] = None.
Proof. reflexivity. Qed.

Lemma heappop_length (heap heap' : list A) item :
  heapq.heappop lt heap = Some (item, heap') -> length heap = S (length heap').
Proof.
  unfold heapq.heappop.
  destruct (last heap) as [lastelt|] eqn:Hlast; [|done].
  apply last_Some in Hlast as [front ->].
  rewrite removelast_last.
  destruct front as [|returnitem front]; intros [= <- <-].
  - done.
  - rewrite _siftup_length. simpl. rewrite length_app. simpl. lia.
Qed.

Lemma heappop_is_Some (heap : list A) :
  heap <> [] -> is_Some (heapq.heappop lt heap).
Proof.
  intros Hne. unfold heapq.heappop.
  destruct (last heap) as [lastelt|] eqn:Hlast.
  - destruct (removelast heap); eauto.
  - apply last_None in Hlast. done.
Qed.

End Sizes.
End heapq_facts.

(** ** The fuel of the two sifting loops is enough *)

Module heapq_fuel.
Section Fuel.
Context {A : Type} (lt : A -> A -> bool).

(** The climb to the root needs no more turns than [pos]: any larger fuel
    gives the same list. *)
Lemma siftdown_loop_fuel (f1 f2 : nat) (heap : list A) startpos pos newitem :
  (pos <= f1)%nat -> (pos <= f2)%nat ->
  heapq.siftdown_loop lt f1 heap startpos pos newitem
  = heapq.siftdown_loop lt f2 heap startpos pos newitem.
Proof.
  revert f2 heap pos.
  induction f1 as [|f1 IH]; intros [|f2] heap pos H1 H2;
    cbn [heapq.siftdown_loop]; try done.
  - assert (pos = 0)%nat as -> by lia.
    by rewrite bool_decide_eq_false_2 by lia.
  - assert (pos = 0)%nat as -> by lia.
    by rewrite bool_decide_eq_false_2 by lia.
  - case_bool_decide as Hlt; [|done].
    assert (Hparent : ((pos - 1) / 2 <= pos - 1)%nat)
      by (apply Nat.Div0.div_le_upper_bound; lia).
    destruct (heap !! ((pos - 1) / 2)%nat) as [parent|]; [|done].
    destruct (lt newitem parent); [|done].
    apply IH; lia.
Qed.

(** The descent needs no more turns than there are positions below [pos]. *)
Lemma siftup_loop_fuel (f1 f2 : nat) (heap : list A) endpos pos :
  (endpos <= pos + f1)%nat -> (endpos <= pos + f2)%nat ->
  heapq.siftup_loop lt f1 heap endpos pos
  = heapq.siftup_loop lt f2 heap endpos pos.
Proof.
  revert f2 heap pos.
  induction f1 as [|f1 IH]; intros [|f2] heap pos H1 H2;
    cbn [heapq.siftup_loop]; try done.
  - by rewrite bool_decide_eq_false_2 by lia.
  - by rewrite bool_decide_eq_false_2 by lia.
  - case_bool_decide as Hlt; [|done].
    match goal with
    | |- context [heapq.siftup_loop lt f1 _ endpos ?cp] =>
        assert (Hcp : (2 * pos + 1 <= cp)%nat) by (repeat case_match; lia);
        destruct (heap !! cp) as [c|]; [|done]
    end.
    apply IH; lia.
Qed.

End Fuel.
End heapq_fuel.

(** ** [heappush] and [heappop] keep the entries *)

Module heapq_entries.
Section Entries.
Context {A : Type} (lt : A -> A -> bool).

Lemma insert_perm_cons (l : list A) (i : nat) (x : A) :
  (i < length l)%nat -> <[i := x]> l ≡ₚ x :: take i l ++ drop (S i) l.
Proof.
  intros Hi. rewrite insert_take_drop by done.
  symmetry. apply Permutation_middle.
Qed.

(** Writing two values at two positions, one way round or the other. *)
Lemma insert_swap_perm (l : list A) (i j : nat) (a b : A) :
  i <> j -> (i < length l)%nat -> (j < length l)%nat ->
  <[i := a]> (<[j := b]> l) ≡ₚ <[i := b]> (<[j := a]> l).
Proof.
  revert i j. induction l as [|x l IH]; intros [|i] [|j] Hne Hi Hj;
    simpl in *; try lia; try done.
  - rewrite !insert_perm_cons by lia. apply perm_swap.
  - rewrite !insert_perm_cons by lia. apply perm_swap.
  - apply Permutation_skip, IH; lia.
Qed.

(** Moving the hole from [pos] to [other], the entry of [other] going to
    [pos]. *)
Lemma move_hole_perm (heap : list A) (pos other : nat) (x c : A) :
  pos <> other -> (pos < length heap)%nat -> heap !! other = Some c ->
  <[other := x]> (<[pos := c]> heap) ≡ₚ <[pos := x]> heap.
Proof.
  intros Hne Hpos Hc.
  assert (Hother : (other < length heap)%nat) by (by eapply lookup_lt_Some).
  rewrite <- (list_insert_id heap other c Hc) at 2.
  rewrite (insert_swap_perm _ pos other x c) by done.
  by rewrite list_insert_insert_ne.
Qed.

Lemma siftdown_loop_perm fuel (heap : list A) startpos pos newitem :
  (pos < length heap)%nat ->
  heapq.siftdown_loop lt fuel heap startpos pos newitem ≡ₚ <[pos := newitem]> heap.
Proof.
  revert heap pos.
  induction fuel as [|fuel IH]; intros heap pos Hpos;
    cbn [heapq.siftdown_loop]; [done|].
  case_bool_decide as Hlt; [|done].
  assert (Hparent : ((pos - 1) / 2 <= pos - 1)%nat)
    by (apply Nat.Div0.div_le_upper_bound; lia).
  destruct (heap !! ((pos - 1) / 2)%nat) as [parent|] eqn:Hp; [|done].
  destruct (lt newitem parent); [|done].
  rewrite IH by (rewrite length_insert; by eapply lookup_lt_Some).
  apply move_hole_perm; [lia|done|done].
Qed.

Lemma _siftdown_perm (heap : list A) startpos pos :
  heapq._siftdown lt heap startpos pos ≡ₚ heap.
Proof.
  unfold heapq._siftdown.
  destruct (heap !! pos) as [newitem|] eqn:Hpos; [|done].
  rewrite siftdown_loop_perm by (by eapply lookup_lt_Some).
  by rewrite list_insert_id.
Qed.

Lemma siftup_loop_perm fuel (heap heap' : list A) endpos pos pos' (x : A) :
  (pos < length heap)%nat ->
  heapq.siftup_loop lt fuel heap endpos pos = (heap', pos') ->
  (pos' < length heap')%nat /\ <[pos' := x]> heap' ≡ₚ <[pos := x]> heap.
Proof.
  revert heap pos.
  induction fuel as [|fuel IH]; intros heap pos Hpos;
    cbn [heapq.siftup_loop]; [by intros [= <- <-]|].
  case_bool_decide as Hlt; [|by intros [= <- <-]].
  match goal with
  | |- context [heapq.siftup_loop lt fuel _ endpos ?cp] =>
      assert (Hcp : (2 * pos + 1 <= cp)%nat) by (repeat case_match; lia);
      destruct (heap !! cp) as [c|] eqn:Hc; [|by intros [= <- <-]];
      intros Hloop;
      destruct (IH _ _ ltac:(rewrite length_insert; by eapply lookup_lt_Some) Hloop)
        as [Hlen Hperm];
      split; [done|];
      rewrite Hperm; apply move_hole_perm; [lia|done|done]
  end.
Qed.

Lemma _siftup_perm (heap : list A) pos :
  heapq._siftup lt heap pos ≡ₚ heap.
Proof.
  unfold heapq._siftup.
  destruct (heap !! pos) as [newitem|] eqn:Hpos; [|done].
  destruct (heapq.siftup_loop lt (length heap) heap (length heap) pos)
    as [heap' pos'] eqn:Hloop.
  destruct (siftup_loop_perm _ _ _ _ _ _ newitem
              ltac:(by eapply lookup_lt_Some) Hloop) as [Hlen Hperm].
  rewrite _siftdown_perm, Hperm. by rewrite list_insert_id.
Qed.

Lemma heappush_perm (heap : list A) item :
  heapq.heappush lt heap item ≡ₚ item :: heap.
Proof.
  unfold heapq.heappush. rewrite _siftdown_perm.
  symmetry. apply Permutation_cons_append.
Qed.

Lemma heappop_perm (heap rest : list A) item :
  heapq.heappop lt heap = Some (item, rest) -> heap ≡ₚ item :: rest.
Proof.
  unfold heapq.heappop.
  destruct (last heap) as [lastelt|] eqn:Hlast; [|done].
  apply last_Some in Hlast as [front ->].
  rewrite removelast_last.
  destruct front as [|returnitem front]; intros [= <- <-]; [done|].
  rewrite _siftup_perm. simpl.
  apply Permutation_skip. symmetry. apply Permutation_cons_append.
Qed.

End Entries.
End heapq_entries.

(** ** The queue: submission, retry, acknowledgement *)

Module Queue_facts.
Import DownloadQueue Notions.

Lemma put_rejects (σ : state) (task : ref) (tk : DownloadTask.t) :
  objs σ !! task = Some tk ->
  is_Some (_pending_tasks (self σ) !! task_id tk)
  \/ (task_id tk ∈ _completed_tasks (self σ)) ->
  put σ task = (Returned false, σ).
Proof.
  intros Hobj Hdup. unfold put. rewrite Hobj.
  fold (task_id tk).
  destruct Hdup as [Hp|Hc].
  - by rewrite (bool_decide_eq_true_2 _ Hp).
  - rewrite (bool_decide_eq_true_2 _ Hc). by rewrite orb_true_r.
Qed.

Lemma put_accepted_inv (σ σ1 : state) (task : ref) (tk : DownloadTask.t) :
  objs σ !! task = Some tk ->
  put σ task = (Returned true, σ1) ->
  exists p pq,
    size_priority (DownloadTask.media_info tk) = inr p
    /\ PriorityQueue.put (<[task := DownloadTask.set_priority p tk]> (objs σ))
         (_queue (self σ)) task = Some pq
    /\ _pending_tasks (self σ) !! task_id tk = None
    /\ (task_id tk ∉ _completed_tasks (self σ))
    /\ objs σ1 = <[task := DownloadTask.set_priority p tk]> (objs σ)
    /\ _pending_tasks (self σ1) = <[task_id tk := task]> (_pending_tasks (self σ))
    /\ _completed_tasks (self σ1) = _completed_tasks (self σ)
    /\ _failed_tasks (self σ1) = _failed_tasks (self σ)
    /\ _queue (self σ1) = pq
    /\ total_added (_stats (self σ1)) = total_added (_stats (self σ)) + 1.
Proof.
  intros Hobj. unfold put. rewrite Hobj. fold (task_id tk).
  destruct (bool_decide (is_Some _)) eqn:Hp; [simpl; congruence|].
  destruct (bool_decide (task_id tk ∈ _)) eqn:Hc; [simpl; congruence|].
  simpl.
  destruct (size_priority _) as [e|p]; [congruence|].
  destruct (PriorityQueue.put _ _ _) as [pq|] eqn:Hpq; [|congruence].
  intros [= <-]. exists p, pq. simpl.
  apply bool_decide_eq_false_1 in Hp, Hc.
  rewrite <- eq_None_not_Some in Hp.
  repeat split; done.
Qed.

Lemma put_accepts (σ : state) (task : ref) (tk : DownloadTask.t) (p : Z) :
  objs σ !! task = Some tk ->
  _pending_tasks (self σ) !! task_id tk = None ->
  task_id tk ∉ _completed_tasks (self σ) ->
  size_priority (DownloadTask.media_info tk) = inr p ->
  PriorityQueue.full (_queue (self σ)) = false ->
  exists σ1, put σ task = (Returned true, σ1).
Proof.
  intros Hobj Hp Hc Hsz Hfull. unfold put. rewrite Hobj. fold (task_id tk).
  rewrite bool_decide_eq_false_2 by (rewrite Hp; by intros [? ?]).
  rewrite bool_decide_eq_false_2 by done.
  simpl. rewrite Hsz.
  unfold PriorityQueue.put, PriorityQueue.put_nowait. rewrite Hfull.
  eauto.
Qed.

End Queue_facts.

Module Priority.
Import DownloadQueue.

(** The priority [put] assigns is the size in whole mebibytes, cut toward
    zero. *)
Lemma size_priority_quot (media_info : gmap string Py.val) (file_size : Z) :
  media_info !! "file_size" = Some (Py.Int file_size) ->
  size_priority media_info = inr (Z.quot file_size 1048576).
Proof.
  intros Hsz. unfold size_priority. rewrite Hsz. simpl. f_equal.
  unfold Py.int, Py.truediv.
  change (inject_Z (1024 * 1024)) with (1048576 # 1)%Q.
  unfold Qdiv, Qmult, Qinv, inject_Z. simpl Qnum. simpl Qden.
  by rewrite Z.mul_1_r.
Qed.

End Priority.

Module Submission.
Import DownloadQueue Notions Queue_facts.

Lemma identity_insert (tasks : store) (task r : ref) (tk tk' : DownloadTask.t) :
  tasks !! task = Some tk ->
  DownloadTask.media_info tk' = DownloadTask.media_info tk ->
  identity (<[task := tk']> tasks) r = identity tasks r.
Proof.
  intros Hobj Hmi. unfold identity.
  destruct (decide (task = r)) as [->|Hne].
  - rewrite lookup_insert_eq, Hobj. simpl. unfold task_id. by rewrite Hmi.
  - by rewrite lookup_insert_ne.
Qed.

Lemma identity_put (σ : state) (task r : ref) :
  identity (objs (put σ task).2) r = identity (objs σ) r.
Proof.
  unfold put. destruct (objs σ !! task) as [tk|] eqn:Hobj; [|done].
  destruct (_ || _); [done|].
  destruct (size_priority _) as [|p]; [done|].
  destruct (PriorityQueue.put _ _ _); simpl; by apply (identity_insert _ _ _ tk).
Qed.

Lemma identity_task_done (σ : state) (task r : ref) (success : bool) :
  identity (objs (task_done σ task success).2) r = identity (objs σ) r.
Proof.
  unfold task_done. destruct (objs σ !! task); [|done].
  by destruct (PriorityQueue.task_done _).
Qed.

Lemma identity_step (σ : state) (o : Run.op) (r : ref) :
  identity (objs (Run.step σ o)) r = identity (objs σ) r.
Proof.
  destruct o as [task| |task success|task|]; simpl.
  - apply identity_put.
  - unfold get. by destruct (PriorityQueue.get _ _) as [[? ?]|].
  - apply identity_task_done.
  - unfold retry_task. destruct (objs σ !! task) as [tk|] eqn:Hobj; [|done].
    destruct (_ <=? _).
    + match goal with
      | |- context [task_done ?s ?t ?b] =>
          pose proof (identity_task_done s t r b) as Hd;
          destruct (task_done s t b) as [[| |] σ2]
      end; simpl in *; rewrite Hd; by apply (identity_insert _ _ _ tk).
    + rewrite identity_put. simpl.
      rewrite (identity_insert _ _ _ (DownloadTask.set_attempts
                                        (DownloadTask.attempts tk + 1) tk))
        by (by rewrite ?lookup_insert_eq).
      by apply (identity_insert _ _ _ tk).
  - unfold clear. by destruct (clear_loop _ _ _) as [[| |] ?].
Qed.

Lemma identity_run (ops : list Run.op) (σ : state) (r : ref) :
  identity (objs (Run.run σ ops)) r = identity (objs σ) r.
Proof.
  revert σ. induction ops as [|o ops IH]; intros σ; [done|].
  simpl. fold (Run.run (Run.step σ o) ops). by rewrite IH, identity_step.
Qed.

Lemma known_put (σ : state) (task : ref) (id : string) :
  known σ id -> known (put σ task).2 id.
Proof.
  intros Hk. unfold put. destruct (objs σ !! task) as [tk|]; [|done].
  destruct (_ || _); [done|].
  destruct (size_priority _) as [|p]; [done|].
  destruct (PriorityQueue.put _ _ _); [|done].
  destruct Hk as [Hp|Hc]; [left|by right]. simpl.
  rewrite lookup_insert_is_Some. destruct (decide (_generate_task_id
    (DownloadTask.media_info tk) = id)); [by left|by right].
Qed.

Lemma known_task_done (σ : state) (task : ref) (success : bool) (id : string) :
  (success = false -> identity (objs σ) task <> Some id) ->
  known σ id -> known (task_done σ task success).2 id.
Proof.
  intros Hother Hk. unfold task_done, identity in *.
  destruct (objs σ !! task) as [tk|]; [|done]. fold (task_id tk). simpl in Hother.
  assert (Hq : forall q1 : DownloadQueue.t,
             known (State (objs σ) q1) id ->
             known (match PriorityQueue.task_done (_queue q1) with
                    | inl e => (Raised e, State (objs σ) q1)
                    | inr pq =>
                        (Returned tt,
                         State (objs σ)
                           (mk (max_size q1) pq (_pending_tasks q1)
                               (_completed_tasks q1) (_failed_tasks q1) (_stats q1)))
                    end).2 id).
  { intros q1 Hq1. by destruct (PriorityQueue.task_done _). }
  apply Hq. unfold known in *. simpl.
  destruct (decide (task_id tk = id)) as [<-|Hne].
  - destruct success; [|by destruct Hother].
    right. simpl. apply elem_of_union. left. by apply elem_of_singleton.
  - destruct Hk as [Hp|Hc].
    + left. destruct success; simpl; by rewrite lookup_delete_ne.
    + right. destruct success; simpl; [|done]. apply elem_of_union. by right.
Qed.

Lemma known_step (σ : state) (o : Run.op) (id : string) :
  keeps (objs σ) id o -> known σ id -> known (Run.step σ o) id.
Proof.
  destruct o as [task| |task success|task|]; simpl; intros Hkeep Hk.
  - by apply known_put.
  - unfold get. by destruct (PriorityQueue.get _ _) as [[? ?]|].
  - apply known_task_done; [|done]. intros ->. done.
  - unfold retry_task. destruct (objs σ !! task) as [tk|] eqn:Hobj; [|done].
    set (tk1 := DownloadTask.set_attempts (DownloadTask.attempts tk + 1) tk).
    destruct (_ <=? _).
    + match goal with
      | |- context [task_done ?s ?t ?b] =>
          pose proof (known_task_done s t b id) as Hd;
          destruct (task_done s t b) as [[| |] σ2]
      end; simpl in *; apply Hd; try done;
        intros _; by rewrite (identity_insert _ _ _ tk).
    + by apply known_put.
  - done.
Qed.

Lemma known_run (ops : list Run.op) (σ : state) (id : string) :
  Forall (keeps (objs σ) id) ops -> known σ id -> known (Run.run σ ops) id.
Proof.
  revert σ. induction ops as [|o ops IH]; intros σ Hkeep Hk; [done|].
  inversion Hkeep as [|? ? Ho Hops]; subst.
  simpl. fold (Run.run (Run.step σ o) ops). apply IH.
  - eapply Forall_impl; [exact Hops|]. intros o' Ho'.
    destruct o' as [| |task [|]|task|]; simpl in *; try done;
      by rewrite identity_step.
  - by apply known_step.
Qed.

(** C4, as the code has it.  A task whose identity is in the pending map or
    in the completed set is refused: [put] returns [False] and the state
    (queue, sets, counters, task objects) is the one it started from.  Hence
    once a submission is accepted, its identity stays pending or completed
    through every run of calls that neither clear the queue nor fail or
    retry a task of that identity, and a second submission of the identity
    after such a run is refused with the state unchanged.  The first
    submission itself need not be accepted, and a [clear] or a failure makes
    the identity acceptable again. *)
Theorem put_refuses_known_identities
        (σ : state) (first second : ref) (tk1 tk2 : DownloadTask.t)
        (ops : list Run.op) :
  objs σ !! first = Some tk1 ->
  objs σ !! second = Some tk2 ->
  task_id tk2 = task_id tk1 ->
  Forall (keeps (objs σ) (task_id tk1)) ops ->
  (known σ (task_id tk1) ->
   put σ first = (Returned false, σ) /\ put σ second = (Returned false, σ))
  /\ (forall σ1, put σ first = (Returned true, σ1) ->
        let τ := Run.run σ1 ops in
        known σ1 (task_id tk1)
        /\ known τ (task_id tk1)
        /\ put τ first = (Returned false, τ)
        /\ put τ second = (Returned false, τ)).
Proof.
  intros Hobj1 Hobj2 Hid Hkeep. split.
  - intros Hk. split; eapply put_rejects; try done. by rewrite Hid.
  - intros σ1 Hput τ.
    destruct (put_accepted_inv _ _ _ _ Hobj1 Hput)
      as (p & pq & _ & _ & _ & _ & Hobjs & Hpend & _).
    assert (Hk1 : known σ1 (task_id tk1)).
    { left. rewrite Hpend, lookup_insert_eq. eauto. }
    assert (Hsame : forall r, identity (objs σ1) r = identity (objs σ) r).
    { intros r. rewrite Hobjs. by apply (identity_insert _ _ _ tk1). }
    assert (Hkτ : known τ (task_id tk1)).
    { apply known_run; [|done].
      eapply Forall_impl; [exact Hkeep|]. intros o Ho.
      destruct o as [| |task [|]|task|]; simpl in *; try done;
        by rewrite Hsame. }
    assert (Hidτ : forall r tk, objs σ !! r = Some tk ->
                     exists tk', objs τ !! r = Some tk' /\ task_id tk' = task_id tk).
    { intros r tk Hr. pose proof (identity_run ops σ1 r) as Hi.
      fold τ in Hi. rewrite Hsame in Hi. unfold identity in Hi.
      rewrite Hr in Hi. simpl in Hi.
      destruct (objs τ !! r) as [tk'|]; simplify_eq/=. eauto. }
    split; [done|]. split; [done|].
    destruct (Hidτ _ _ Hobj1) as (tk1' & Hobj1' & Hid1').
    destruct (Hidτ _ _ Hobj2) as (tk2' & Hobj2' & Hid2').
    split; eapply put_rejects; try done; by rewrite ?Hid2', ?Hid1', ?Hid.
Qed.

Lemma put_refuses_known_identities_witness :
  let σ1 := (put Sample.fresh 0%nat).2 in
  let τ := Run.run σ1 [Run.Put 1%nat; Run.Get; Run.Get;
                        Run.TaskDone 1%nat false; Run.TaskDone 0%nat true] in
  (put Sample.fresh 0%nat).1 = Returned true
  /\ put τ 0%nat = (Returned false, τ).
Proof.
  split; [reflexivity|].
  refine (proj1 (proj2 (proj2 (proj2
            (put_refuses_known_identities Sample.fresh 0%nat 0%nat
               (DownloadTask.new (Sample.payload 7 5242880) "[5.0 MB]" 0)
               (DownloadTask.new (Sample.payload 7 5242880) "[5.0 MB]" 0)
               [Run.Put 1%nat; Run.Get; Run.Get;
                Run.TaskDone 1%nat false; Run.TaskDone 0%nat true]
               _ _ _ _)
            (put Sample.fresh 0%nat).2 _)))); try reflexivity.
  repeat constructor. vm_compute. discriminate.
Defined.

(** C4, as stated, fails.  A submission accepted, the queue cleared, and the
    same task submitted again: both submissions are accepted although the
    identity never reached a terminal state.  And a payload whose size is
    not a number is refused at every submission: none is accepted. *)
Lemma resubmission_after_clear_is_accepted :
  (let σ1 := (put Sample.fresh 0%nat).2 in
   let σ2 := (clear σ1).2 in
   (put Sample.fresh 0%nat).1 = Returned true
   /\ (clear σ1).1 = Returned tt
   /\ (put σ2 0%nat).1 = Returned true
   /\ _completed_tasks (self σ2) = ∅
   /\ _failed_tasks (self σ2) = ∅)
  /\ (let σ := State {[ 0%nat := DownloadTask.new
                                   {[ "channel_id" := Py.Str "chan";
                                      "message_id" := Py.Int 7;
                                      "file_size" := Py.Str "5 MB";
                                      "filename" := Py.Str "a.mp3" ]} "" 0 ]}
                     (DownloadQueue.new 100) in
      put σ 0%nat = (Returned false, σ)
      /\ put (put σ 0%nat).2 0%nat = (Returned false, σ)).
Proof.
  split; [|split; reflexivity].
  repeat split; vm_compute; reflexivity.
Qed.

End Submission.

(** ** The identity of a task *)

Module Identity.
Import DownloadQueue Notions Queue_facts.












End Identity.

Module Acknowledgement.
Import DownloadQueue Notions Queue_facts.

(** What [task_done] does to the books, whatever the underlying queue says. *)
Lemma task_done_books (σ : state) (task : ref) (tk : DownloadTask.t) (success : bool) :
  objs σ !! task = Some tk ->
  let σ' := (task_done σ task success).2 in
  objs σ' = objs σ
  /\ _pending_tasks (self σ') = delete (task_id tk) (_pending_tasks (self σ))
  /\ _completed_tasks (self σ')
     = (if success then {[task_id tk]} ∪ _completed_tasks (self σ)
        else _completed_tasks (self σ))
  /\ _failed_tasks (self σ')
     = (if success then _failed_tasks (self σ)
        else {[task_id tk]} ∪ _failed_tasks (self σ))
  /\ total_completed (_stats (self σ'))
     = total_completed (_stats (self σ)) + (if success then 1 else 0)
  /\ total_failed (_stats (self σ'))
     = total_failed (_stats (self σ)) + (if success then 0 else 1)
  /\ total_added (_stats (self σ')) = total_added (_stats (self σ))
  /\ current_size (_stats (self σ')) = current_size (_stats (self σ))
  /\ PriorityQueue._heap (_queue (self σ')) = PriorityQueue._heap (_queue (self σ))
  /\ PriorityQueue._maxsize (_queue (self σ')) = PriorityQueue._maxsize (_queue (self σ)).
Proof.
  intros Hobj. unfold task_done. rewrite Hobj. fold (task_id tk).
  unfold PriorityQueue.task_done.
  destruct success; simpl;
    destruct (PriorityQueue._unfinished_tasks _ <=? 0); simpl;
    repeat split; lia.
Qed.

(** How [task_done] ends: it returns when the underlying queue still has an
    entry to acknowledge, and raises [ValueError] when it has none. *)
Lemma task_done_ending (σ : state) (task : ref) (tk : DownloadTask.t) (success : bool) :
  objs σ !! task = Some tk ->
  let u := PriorityQueue._unfinished_tasks (_queue (self σ)) in
  let r := task_done σ task success in
  (0 < u -> r.1 = Returned tt
            /\ PriorityQueue._unfinished_tasks (_queue (self r.2)) = u - 1)
  /\ (u <= 0 -> r.1 = Raised ValueError
                /\ PriorityQueue._unfinished_tasks (_queue (self r.2)) = u).
Proof.
  intros Hobj. unfold task_done. rewrite Hobj.
  unfold PriorityQueue.task_done.
  destruct success; simpl;
    destruct (Z.leb_spec (PriorityQueue._unfinished_tasks (_queue (self σ))) 0);
    simpl; split; intros; try lia; done.
Qed.

End Acknowledgement.

Module Acknowledgement_claims.
Import DownloadQueue Notions Queue_facts Acknowledgement.

(** C10, as the code has it.  For every task, submitted or not, terminal or
    not, [task_done] removes the identity from the pending map, adds it to
    the completed set ([success]) or to the failed set, and adds one to the
    matching counter, leaving [total_added] alone.  It then acknowledges one
    entry of the underlying queue: it returns when the queue has an
    unacknowledged entry and raises [ValueError] when it has none, the books
    staying as just updated.  Two calls for the same task add two to
    [total_completed + total_failed] while [total_added] does not move; the
    second raises when at most one entry was unacknowledged. *)
Theorem task_done_books_then_acknowledges
        (σ : state) (task : ref) (tk : DownloadTask.t) (success again : bool) :
  objs σ !! task = Some tk ->
  let u := PriorityQueue._unfinished_tasks (_queue (self σ)) in
  let r := task_done σ task success in
  let r' := task_done r.2 task again in
  _pending_tasks (self r.2) !! task_id tk = None
  /\ (if success
      then task_id tk ∈ _completed_tasks (self r.2)
           /\ total_completed (_stats (self r.2)) = total_completed (_stats (self σ)) + 1
           /\ _failed_tasks (self r.2) = _failed_tasks (self σ)
           /\ total_failed (_stats (self r.2)) = total_failed (_stats (self σ))
      else task_id tk ∈ _failed_tasks (self r.2)
           /\ total_failed (_stats (self r.2)) = total_failed (_stats (self σ)) + 1
           /\ _completed_tasks (self r.2) = _completed_tasks (self σ)
           /\ total_completed (_stats (self r.2)) = total_completed (_stats (self σ)))
  /\ total_added (_stats (self r.2)) = total_added (_stats (self σ))
  /\ (0 < u -> r.1 = Returned tt)
  /\ (u <= 0 -> r.1 = Raised ValueError)
  /\ total_completed (_stats (self r'.2)) + total_failed (_stats (self r'.2))
     = total_completed (_stats (self σ)) + total_failed (_stats (self σ)) + 2
  /\ total_added (_stats (self r'.2)) = total_added (_stats (self σ))
  /\ (u <= 1 -> r'.1 = Raised ValueError).
Proof.
  intros Hobj u r r'.
  destruct (task_done_books σ task tk success Hobj)
    as (Hobjs & Hpend & Hcomp & Hfail & Htc & Htf & Hta & _).
  destruct (task_done_ending σ task tk success Hobj) as [Hret Hraise].
  fold r in Hobjs, Hpend, Hcomp, Hfail, Htc, Htf, Hta, Hret, Hraise.
  assert (Hobj' : objs r.2 !! task = Some tk) by (by rewrite Hobjs).
  destruct (task_done_books r.2 task tk again Hobj')
    as (_ & _ & _ & _ & Htc' & Htf' & Hta' & _).
  destruct (task_done_ending r.2 task tk again Hobj') as [_ Hraise'].
  fold r' in Htc', Htf', Hta', Hraise'.
  split; [by rewrite Hpend, lookup_delete_eq|].
  split.
  { destruct success; rewrite ?Hcomp, ?Hfail, ?Htc, ?Htf.
    - repeat split; [apply elem_of_union_l; by apply elem_of_singleton|lia..].
    - repeat split; [apply elem_of_union_l; by apply elem_of_singleton|lia..]. }
  split; [done|].
  split; [intros; by apply Hret|].
  split; [intros; by apply Hraise|].
  split; [destruct success, again; lia|].
  split; [lia|].
  intros Hu. apply Hraise'.
  destruct (Z.lt_ge_cases 0 u) as [Hpos|Hnpos].
  - destruct (Hret Hpos) as [_ ->]. lia.
  - destruct (Hraise ltac:(lia)) as [_ ->]. lia.
Qed.

Lemma task_done_books_then_acknowledges_witness :
  let σ := (get (put Sample.fresh 0%nat).2).2 in
  let r := task_done σ 0%nat true in
  let r' := task_done r.2 0%nat true in
  r.1 = Returned tt
  /\ "chan_7" ∈ _completed_tasks (self r.2)
  /\ total_completed (_stats (self r'.2)) + total_failed (_stats (self r'.2)) = 2
  /\ total_added (_stats (self r'.2)) = 1
  /\ r'.1 = Raised ValueError.
Proof.
  pose proof (task_done_books_then_acknowledges
                (get (put Sample.fresh 0%nat).2).2 0%nat
                (DownloadTask.set_priority 5
                   (DownloadTask.new (Sample.payload 7 5242880) "[5.0 MB]" 0))
                true true eq_refl) as H.
  cbv zeta in H.
  destruct H as (_ & [Hc _] & _ & Hret & _ & Hsum & Hadd & Hraise).
  split; [apply Hret; reflexivity|].
  split; [exact Hc|].
  split; [exact Hsum|].
  split; [exact Hadd|].
  apply Hraise. vm_compute. discriminate.
Defined.

(** C10, as stated, fails: on a fresh queue, [task_done] for a task that
    was never submitted raises [ValueError]. *)
Lemma task_done_unsubmitted_raises :
  is_Some (objs Sample.fresh !! 0%nat)
  /\ total_added (_stats (self Sample.fresh)) = 0
  /\ (task_done Sample.fresh 0%nat true).1 = Raised ValueError
  /\ (task_done Sample.fresh 0%nat false).1 = Raised ValueError.
Proof. split; [eexists; reflexivity|]. repeat split; reflexivity. Qed.

End Acknowledgement_claims.

Module Retry.
Import DownloadQueue Notions Queue_facts Acknowledgement.

(** A retry below the bound, for a task whose identity [put] refuses: the
    object is demoted and the queue is as before. *)
Lemma retry_task_below_bound (σ : state) (task : ref) (tk : DownloadTask.t) :
  objs σ !! task = Some tk ->
  is_Some (_pending_tasks (self σ) !! task_id tk)
  \/ (task_id tk ∈ _completed_tasks (self σ)) ->
  DownloadTask.attempts tk + 1 < DownloadTask.max_attempts tk ->
  retry_task σ task
  = (Returned false, State (<[task := demoted tk 1]> (objs σ)) (self σ)).
Proof.
  intros Hobj Hdup Hlt. unfold retry_task. rewrite Hobj. simpl.
  rewrite (proj2 (Z.leb_gt _ _)) by done.
  rewrite insert_insert_eq.
  rewrite (put_rejects _ task (demoted tk 1)).
  - reflexivity.
  - simpl. apply lookup_insert_eq.
  - exact Hdup.
Qed.

(** The retry at which the counter reaches the bound hands the task to
    [task_done] as failed. *)
Lemma retry_task_at_bound (σ : state) (task : ref) (tk : DownloadTask.t) :
  objs σ !! task = Some tk ->
  DownloadTask.max_attempts tk <= DownloadTask.attempts tk + 1 ->
  let tk1 := DownloadTask.set_attempts (DownloadTask.attempts tk + 1) tk in
  let r := task_done (State (<[task := tk1]> (objs σ)) (self σ)) task false in
  (retry_task σ task).2 = r.2
  /\ (retry_task σ task).1
     = match r.1 with
       | Returned _ => Returned false
       | Raised e => Raised e
       | Suspended => Suspended
       end.
Proof.
  intros Hobj Hle. unfold retry_task. rewrite Hobj. simpl.
  rewrite (proj2 (Z.leb_le _ _)) by done.
  destruct (task_done _ task false) as [[u|e|] σ2]; done.
Qed.

Lemma retries_S (σ : state) (task : ref) (n : nat) :
  Run.retries σ task (S n) = (retry_task (Run.retries σ task n) task).2.
Proof.
  unfold Run.retries, Run.run. rewrite replicate_S_end, foldl_app. reflexivity.
Qed.

Lemma demoted_succ (tk : DownloadTask.t) (n : nat) :
  demoted (demoted tk (Z.of_nat n)) 1 = demoted tk (Z.of_nat (S n)).
Proof. unfold demoted. simpl. f_equal; lia. Qed.

(** [k] retries below the bound. *)
Lemma retries_below_bound (σ : state) (task : ref) (tk : DownloadTask.t) (k : nat) :
  objs σ !! task = Some tk ->
  is_Some (_pending_tasks (self σ) !! task_id tk)
  \/ (task_id tk ∈ _completed_tasks (self σ)) ->
  DownloadTask.attempts tk + Z.of_nat k < DownloadTask.max_attempts tk ->
  Run.retries σ task k
  = State (<[task := demoted tk (Z.of_nat k)]> (objs σ)) (self σ).
Proof.
  intros Hobj Hdup. induction k as [|k IH]; intros Hlt.
  - unfold Run.retries. simpl. destruct σ as [o q]. simpl in *. f_equal.
    symmetry. apply insert_id. rewrite Hobj. f_equal.
    destruct tk. unfold demoted. simpl. f_equal; lia.
  - rewrite retries_S, IH by lia.
    erewrite retry_task_below_bound.
    + simpl. by rewrite insert_insert_eq, demoted_succ.
    + simpl. apply lookup_insert_eq.
    + exact Hdup.
    + simpl. lia.
Qed.

End Retry.

Module Retry_claims.
Import DownloadQueue Notions Queue_facts Acknowledgement Retry.

(** C2, as the code has it.  For a task whose identity is pending (any
    dequeued task), [k] calls of [retry_task] that stay below the bound
    leave the task object with its priority raised by [1000 * k] and its
    attempt counter by [k]; the queue object is untouched.  The call at
    which the counter reaches [max_attempts] leaves the priority alone and
    fails the task through [task_done]: the identity leaves the pending map
    and enters the failed set, [total_failed] grows by one, and the call
    returns [False] when the underlying queue has an entry to acknowledge.
    [retry_task] does not put the task back; a later [put] of the identity
    does, because [put] looks at the pending map and the completed set
    only. *)
Theorem retry_demotes_then_fails
        (σ : state) (task : ref) (tk : DownloadTask.t) (k : nat) :
  objs σ !! task = Some tk ->
  is_Some (_pending_tasks (self σ) !! task_id tk) ->
  DownloadTask.attempts tk + Z.of_nat k < DownloadTask.max_attempts tk ->
  let σk := Run.retries σ task k in
  let r := retry_task σk task in
  (exists tk', objs σk !! task = Some tk'
      /\ DownloadTask.priority tk' = DownloadTask.priority tk + 1000 * Z.of_nat k
      /\ DownloadTask.attempts tk' = DownloadTask.attempts tk + Z.of_nat k)
  /\ self σk = self σ
  /\ (DownloadTask.attempts tk + Z.of_nat k + 1 = DownloadTask.max_attempts tk ->
      (0 < PriorityQueue._unfinished_tasks (_queue (self σ)) -> r.1 = Returned false)
      /\ _pending_tasks (self r.2) !! task_id tk = None
      /\ task_id tk ∈ _failed_tasks (self r.2)
      /\ total_failed (_stats (self r.2)) = total_failed (_stats (self σ)) + 1
      /\ (exists tk', objs r.2 !! task = Some tk'
            /\ DownloadTask.priority tk' = DownloadTask.priority tk + 1000 * Z.of_nat k
            /\ DownloadTask.attempts tk' = DownloadTask.max_attempts tk)
      /\ (forall p,
            task_id tk ∉ _completed_tasks (self σ) ->
            size_priority (DownloadTask.media_info tk) = inr p ->
            PriorityQueue.full (_queue (self σ)) = false ->
            exists σ', put r.2 task = (Returned true, σ')
                       /\ _pending_tasks (self σ') !! task_id tk = Some task
                       /\ task_id tk ∈ _failed_tasks (self σ'))).
Proof.
  intros Hobj Hpend Hlt σk r.
  assert (Hσk : σk = State (<[task := demoted tk (Z.of_nat k)]> (objs σ)) (self σ))
    by (apply retries_below_bound; auto).
  assert (Hobjk : objs σk !! task = Some (demoted tk (Z.of_nat k)))
    by (rewrite Hσk; simpl; apply lookup_insert_eq).
  split; [exists (demoted tk (Z.of_nat k)); by repeat split|].
  split; [by rewrite Hσk|].
  intros Hmax.
  set (tkf := DownloadTask.set_attempts
                (DownloadTask.attempts (demoted tk (Z.of_nat k)) + 1)
                (demoted tk (Z.of_nat k))).
  set (σf := State (<[task := tkf]> (objs σk)) (self σk)).
  destruct (retry_task_at_bound σk task _ Hobjk) as [Hst Hres];
    [simpl; lia|].
  fold tkf σf in Hst, Hres. fold r in Hst, Hres.
  assert (Hobjf : objs σf !! task = Some tkf) by apply lookup_insert_eq.
  destruct (task_done_books σf task tkf false Hobjf)
    as (Hobjs & Hp & Hc & Hf & _ & Htf & _ & _ & Hheap & Hmaxsize).
  destruct (task_done_ending σf task tkf false Hobjf) as [Hret _].
  rewrite <- Hst in Hobjs, Hp, Hc, Hf, Htf, Hheap, Hmaxsize.
  assert (Hself : self σf = self σ) by (unfold σf; by rewrite Hσk).
  rewrite Hself in Hp, Hc, Hf, Htf, Hheap, Hmaxsize, Hret.
  change (task_id tkf) with (task_id tk) in Hp, Hf.
  assert (Hobjr : objs r.2 !! task = Some tkf) by (by rewrite Hobjs).
  split.
  { intros Hu. rewrite Hres. by destruct (Hret Hu) as [-> _]. }
  split; [by rewrite Hp, lookup_delete_eq|].
  split; [rewrite Hf; apply elem_of_union_l; by apply elem_of_singleton|].
  split; [lia|].
  split; [exists tkf; repeat split; [done|simpl; lia]|].
  intros p Hnc Hsz Hfull.
  destruct (put_accepts r.2 task tkf p) as [σ' Hput]; auto.
  - change (task_id tkf) with (task_id tk). by rewrite Hp, lookup_delete_eq.
  - change (task_id tkf) with (task_id tk). by rewrite Hc.
  - unfold PriorityQueue.full, PriorityQueue.qsize in *.
    by rewrite Hheap, Hmaxsize.
  - exists σ'. split; [done|].
    destruct (put_accepted_inv _ _ _ _ Hobjr Hput)
      as (_ & _ & _ & _ & _ & _ & _ & Hp' & _ & Hf' & _).
    change (task_id tkf) with (task_id tk) in Hp'.
    split; [by rewrite Hp', lookup_insert_eq|].
    rewrite Hf', Hf. apply elem_of_union_l. by apply elem_of_singleton.
Qed.

Lemma retry_demotes_then_fails_witness :
  let σ2 := Run.retries Sample.dequeued 0%nat 2 in
  let r := retry_task σ2 0%nat in
  (exists tk', objs σ2 !! 0%nat = Some tk' /\ DownloadTask.priority tk' = 2005)
  /\ r.1 = Returned false
  /\ "chan_7" ∈ _failed_tasks (self r.2)
  /\ (exists σ', put r.2 0%nat = (Returned true, σ')).
Proof.
  assert (Hobj : objs Sample.dequeued !! 0%nat = Some Sample.task0)
    by (vm_compute; reflexivity).
  assert (Hpend : is_Some (_pending_tasks (self Sample.dequeued) !! task_id Sample.task0))
    by (exists 0%nat; vm_compute; reflexivity).
  assert (Hlt : DownloadTask.attempts Sample.task0 + Z.of_nat 2
                < DownloadTask.max_attempts Sample.task0)
    by (vm_compute; reflexivity).
  destruct (retry_demotes_then_fails Sample.dequeued 0%nat Sample.task0 2 Hobj Hpend Hlt)
    as ((tk' & Hobj' & Hprio & _) & _ & Hlast).
  destruct Hlast as (Hret & _ & Hfailed & _ & _ & Hput); [vm_compute; reflexivity|].
  destruct (Hput 5) as (σ' & Hσ' & _);
    [compute_done|vm_compute; reflexivity|vm_compute; reflexivity|].
  split; [exists tk'; split; [exact Hobj'|rewrite Hprio; vm_compute; reflexivity]|].
  split; [apply Hret; vm_compute; reflexivity|].
  split; [exact Hfailed|].
  exists σ'. exact Hσ'.
Defined.

(** C2, as stated, fails.  The task of the sample is failed for good by its
    third retry, and the [put] that follows is accepted, so its identity is
    pending again.  And for a task whose identity is no longer pending (the
    queue was cleared after it was handed out), the retry is accepted by
    [put], which sets the priority back to the size of the file: after one
    retry the priority is 5, as before, not 1005. *)
Lemma failed_task_reenters_pending :
  let σ := Run.run Sample.fresh
             [Run.Put 0%nat; Run.Get; Run.Retry 0%nat; Run.Retry 0%nat; Run.Retry 0%nat] in
  let σc := Run.run Sample.fresh [Run.Put 0%nat; Run.Get; Run.Clear] in
  ((DownloadTask.attempts <$> objs σ !! 0%nat) = Some 3
   /\ (DownloadTask.max_attempts <$> objs σ !! 0%nat) = Some 3
   /\ "chan_7" ∈ _failed_tasks (self σ)
   /\ _pending_tasks (self σ) !! "chan_7" = None
   /\ (put σ 0%nat).1 = Returned true
   /\ _pending_tasks (self (put σ 0%nat).2) !! "chan_7" = Some 0%nat)
  /\ ((DownloadTask.priority <$> objs σc !! 0%nat) = Some 5
      /\ (retry_task σc 0%nat).1 = Returned true
      /\ (DownloadTask.attempts <$> objs (retry_task σc 0%nat).2 !! 0%nat) = Some 1
      /\ (DownloadTask.priority <$> objs (retry_task σc 0%nat).2 !! 0%nat) = Some 5).
Proof.
  cbv zeta. split.
  - split; [vm_compute; reflexivity|]. split; [vm_compute; reflexivity|].
    split; [compute_done|]. repeat split; vm_compute; reflexivity.
  - repeat split; vm_compute; reflexivity.
Qed.

End Retry_claims.

Module Exclusion.
Import DownloadQueue Notions Queue_facts Acknowledgement.

Lemma exclusive_new (max_size : Z) : exclusive (new max_size).
Proof. intros id [r Hr]. simpl in Hr. by rewrite lookup_empty in Hr. Qed.

Lemma exclusive_put (σ : state) (task : ref) :
  exclusive (self σ) -> exclusive (self (put σ task).2).
Proof.
  intros Hex. unfold put.
  destruct (objs σ !! task) as [tk|]; [|done].
  destruct (bool_decide (is_Some _)) eqn:Hp; [done|].
  destruct (bool_decide (_ ∈ _)) eqn:Hc; [done|].
  simpl.
  destruct (size_priority _) as [e|p]; [done|].
  destruct (PriorityQueue.put _ _ _) as [pq|]; [|done].
  simpl. intros id. simpl.
  apply bool_decide_eq_false_1 in Hc.
  destruct (decide (_generate_task_id (DownloadTask.media_info tk) = id)) as [<-|Hne].
  - done.
  - rewrite lookup_insert_ne by done. apply Hex.
Qed.

Lemma exclusive_get (σ : state) :
  exclusive (self σ) -> exclusive (self (get σ).2).
Proof.
  intros Hex. unfold get.
  destruct (PriorityQueue.get _ _) as [[task pq]|]; done.
Qed.

Lemma exclusive_task_done (σ : state) (task : ref) (success : bool) :
  exclusive (self σ) -> exclusive (self (task_done σ task success).2).
Proof.
  intros Hex.
  destruct (objs σ !! task) as [tk|] eqn:Hobj.
  - destruct (task_done_books σ task tk success Hobj) as (_ & Hp & Hc & _).
    intros id. rewrite Hp, Hc. intros Hid.
    destruct (decide (task_id tk = id)) as [<-|Hne].
    + rewrite lookup_delete_eq in Hid. by destruct Hid.
    + rewrite lookup_delete_ne in Hid by done.
      specialize (Hex id Hid). destruct success; [|done].
      intros [Heq%elem_of_singleton|Hin]%elem_of_union; [congruence|done].
  - unfold task_done. by rewrite Hobj.
Qed.

Lemma exclusive_retry_task (σ : state) (task : ref) :
  exclusive (self σ) -> exclusive (self (retry_task σ task).2).
Proof.
  intros Hex. unfold retry_task.
  destruct (objs σ !! task) as [tk|]; [|done].
  destruct (_ <=? _).
  - match goal with
    | |- context [task_done ?s ?t ?b] =>
        pose proof (exclusive_task_done s t b Hex) as H;
        destruct (task_done s t b) as [[u|e|] σ2]; exact H
    end.
  - by apply exclusive_put.
Qed.

Lemma exclusive_clear (σ : state) :
  exclusive (self σ) -> exclusive (self (clear σ).2).
Proof.
  intros Hex. unfold clear.
  destruct (clear_loop _ _ _) as [[u|e|] pq]; simpl; [|done..].
  intros id [r Hr]. simpl in Hr. by rewrite lookup_empty in Hr.
Qed.

Lemma exclusive_step (σ : state) (o : Run.op) :
  exclusive (self σ) -> exclusive (self (Run.step σ o)).
Proof.
  destruct o; simpl;
    auto using exclusive_put, exclusive_get, exclusive_task_done,
               exclusive_retry_task, exclusive_clear.
Qed.

Lemma exclusive_run (ops : list Run.op) (σ : state) :
  exclusive (self σ) -> exclusive (self (Run.run σ ops)).
Proof.
  revert σ. induction ops as [|o ops IH]; intros σ Hex; [done|].
  simpl. apply IH. by apply exclusive_step.
Qed.

(** C3, as the code has it.  After every sequence of [put], [get],
    [task_done], [retry_task] and [clear] on a new queue, no identity is
    both in the pending map and in the completed set.  The failed set is
    not exclusive of the other two: [put] consults the pending map and the
    completed set only, so a task whose identity is failed, and neither
    pending nor completed, is accepted again and is then pending while
    still failed. *)
Theorem pending_completed_exclusive
        (tasks : store) (max_size : Z) (ops : list Run.op) :
  let σ := Run.run (State tasks (new max_size)) ops in
  (forall id, is_Some (_pending_tasks (self σ) !! id) ->
              id ∉ _completed_tasks (self σ))
  /\ (forall (task : ref) (tk : DownloadTask.t) (p : Z),
        objs σ !! task = Some tk ->
        task_id tk ∈ _failed_tasks (self σ) ->
        _pending_tasks (self σ) !! task_id tk = None ->
        task_id tk ∉ _completed_tasks (self σ) ->
        size_priority (DownloadTask.media_info tk) = inr p ->
        PriorityQueue.full (_queue (self σ)) = false ->
        exists σ', put σ task = (Returned true, σ')
                   /\ _pending_tasks (self σ') !! task_id tk = Some task
                   /\ task_id tk ∈ _failed_tasks (self σ')).
Proof.
  intros σ. split.
  - apply exclusive_run, exclusive_new.
  - intros task tk p Hobj Hf Hp Hc Hsz Hfull.
    destruct (put_accepts σ task tk p) as [σ' Hput]; auto.
    exists σ'. split; [done|].
    destruct (put_accepted_inv _ _ _ _ Hobj Hput)
      as (_ & _ & _ & _ & _ & _ & _ & Hp' & _ & Hf' & _).
    split; [by rewrite Hp', lookup_insert_eq|by rewrite Hf'].
Qed.

Lemma pending_completed_exclusive_witness :
  let σ := Run.run Sample.fresh [Run.Put 0%nat; Run.Get; Run.TaskDone 0%nat false] in
  "chan_7" ∈ _failed_tasks (self σ)
  /\ exists σ', put σ 0%nat = (Returned true, σ')
               /\ _pending_tasks (self σ') !! "chan_7" = Some 0%nat
               /\ "chan_7" ∈ _failed_tasks (self σ').
Proof.
  split; [compute_done|].
  apply (proj2 (pending_completed_exclusive Sample.tasks 100
                  [Run.Put 0%nat; Run.Get; Run.TaskDone 0%nat false])
               0%nat Sample.task0 5).
  - vm_compute; reflexivity.
  - compute_done.
  - vm_compute; reflexivity.
  - compute_done.
  - vm_compute; reflexivity.
  - vm_compute; reflexivity.
Defined.

(** C3, as stated, fails: a task that was submitted, handed out and failed
    is accepted by the next [put], after which its identity is in the
    pending map and in the failed set; processed again with success, it is
    in the completed set and in the failed set. *)
Lemma failed_identity_is_pending_again :
  let σ := Run.run Sample.fresh [Run.Put 0%nat; Run.Get; Run.TaskDone 0%nat false] in
  let σ' := (put σ 0%nat).2 in
  let σ'' := Run.run σ' [Run.Get; Run.TaskDone 0%nat true] in
  "chan_7" ∈ _failed_tasks (self σ)
  /\ (put σ 0%nat).1 = Returned true
  /\ is_Some (_pending_tasks (self σ') !! "chan_7")
  /\ "chan_7" ∈ _failed_tasks (self σ')
  /\ "chan_7" ∈ _completed_tasks (self σ'')
  /\ "chan_7" ∈ _failed_tasks (self σ'').
Proof.
  cbv zeta.
  split; [compute_done|].
  split; [vm_compute; reflexivity|].
  split; [exists 0%nat; vm_compute; reflexivity|].
  split; [compute_done|].
  split; compute_done.
Qed.

End Exclusion.

Module Clearing.
Import DownloadQueue Notions Queue_facts.

(** The loop of [clear] empties the heap when every entry can be
    acknowledged, and stops on [ValueError] when the acknowledgements run
    out first. *)
Lemma clear_loop_spec (fuel : nat) (tasks : store) (pq : PriorityQueue.t) :
  (length (PriorityQueue._heap pq) <= fuel)%nat ->
  (Z.of_nat (length (PriorityQueue._heap pq)) <= PriorityQueue._unfinished_tasks pq
   \/ PriorityQueue._heap pq = [] ->
   exists u, clear_loop fuel tasks pq
             = (Returned tt, PriorityQueue.mk (PriorityQueue._maxsize pq) [] u))
  /\ (PriorityQueue._unfinished_tasks pq < Z.of_nat (length (PriorityQueue._heap pq)) ->
      PriorityQueue._heap pq <> [] ->
      exists pq', clear_loop fuel tasks pq = (Raised ValueError, pq')).
Proof.
  revert pq. induction fuel as [|fuel IH]; intros [m heap u]; simpl; intros Hfuel.
  - assert (heap = []) as -> by (destruct heap; [done|simpl in Hfuel; lia]).
    split; [eauto|done].
  - unfold PriorityQueue.empty. simpl. case_bool_decide as Hnil.
    { subst heap. split; [eauto|done]. }
    unfold PriorityQueue.get_nowait. simpl.
    destruct (heapq_facts.heappop_is_Some (lt_ref tasks) heap Hnil) as [[item heap'] Hpop].
    rewrite Hpop.
    pose proof (heapq_facts.heappop_length _ _ _ _ Hpop) as Hlen.
    unfold PriorityQueue.task_done. simpl.
    destruct (Z.leb_spec u 0) as [Hu|Hu].
    + split; [intros [?|?]; [lia|done]|eauto].
    + destruct (IH (PriorityQueue.mk m heap' (u - 1))) as [Hok Hbad];
        [simpl; lia|].
      simpl in Hok, Hbad. split.
      * intros [Hle|?]; [|done]. apply Hok. left. lia.
      * intros Hlt _. apply Hbad; [lia|].
        destruct heap'; [simpl in *; lia|done].
Qed.




End Clearing.

Module Limiter.
Import RateLimiter Notions.
Local Open Scope Q_scope.

Lemma min_le_l (a b : Q) : Py.min a b <= a.
Proof. unfold Py.min. destruct (Qlt_le_dec b a); lra. Qed.

Lemma min_ge (a b c : Q) : c <= a -> c <= b -> c <= Py.min a b.
Proof. unfold Py.min. destruct (Qlt_le_dec b a); lra. Qed.

End Limiter.

(** ** The accounting of the underlying queue along the runs of the system *)

Module Accounting.
Import DownloadQueue Notions Queue_facts Acknowledgement DownloadWorker.

Lemma named_insert (tasks : store) (r : ref) (tk tk' : DownloadTask.t) :
  named tasks -> tasks !! r = Some tk ->
  DownloadTask.media_info tk' = DownloadTask.media_info tk ->
  named (<[r := tk']> tasks).
Proof.
  intros Hnamed Hobj Hmi r' tk''.
  destruct (decide (r = r')) as [<-|Hne].
  - rewrite lookup_insert_eq. intros [= <-].
    unfold has_filename. rewrite Hmi. by apply (Hnamed r tk).
  - rewrite lookup_insert_ne by done. apply Hnamed.
Qed.

Lemma owed_accounted (q : DownloadQueue.t) : owed q -> accounted q.
Proof. unfold owed, accounted. lia. Qed.

(** What [put] does to the accounting: the queue object stays, or one entry
    and one acknowledgement to come are added. *)
Lemma put_accounting (σ : state) (task : ref) :
  let q := _queue (self σ) in
  let q' := _queue (self (put σ task).2) in
  (named (objs σ) -> named (objs (put σ task).2))
  /\ (forall e, (put σ task).1 <> Raised e \/ objs σ !! task = None)
  /\ (q' = q
      \/ (PriorityQueue.qsize q' = PriorityQueue.qsize q + 1
          /\ PriorityQueue._unfinished_tasks q'
             = PriorityQueue._unfinished_tasks q + 1)).
Proof.
  unfold put.
  destruct (objs σ !! task) as [tk|] eqn:Hobj; [|by repeat split; auto].
  destruct (_ || _); [by repeat split; auto|].
  destruct (size_priority _) as [e|p]; [by repeat split; auto|].
  assert (Hnamed : named (objs σ) ->
                   named (<[task := DownloadTask.set_priority p tk]> (objs σ)))
    by (intros Hn; by apply (named_insert _ task tk)).
  unfold PriorityQueue.put, PriorityQueue.put_nowait.
  destruct (PriorityQueue.full _); simpl; [by repeat split; auto|].
  split; [done|]. split; [by left|]. right.
  unfold PriorityQueue.qsize. simpl.
  rewrite heapq_facts.heappush_length. split; lia.
Qed.

Lemma task_done_owed (σ : state) (task : ref) (success : bool) :
  owed (self σ) ->
  accounted (self (task_done σ task success).2)
  /\ (named (objs σ) -> named (objs (task_done σ task success).2))
  /\ (is_Some (objs σ !! task) -> (task_done σ task success).1 = Returned tt).
Proof.
  intros Howed. unfold owed, PriorityQueue.qsize in Howed.
  destruct (objs σ !! task) as [tk|] eqn:Hobj.
  - destruct (task_done_books σ task tk success Hobj)
      as (Hobjs & _ & _ & _ & _ & _ & _ & _ & Hheap & _).
    destruct (task_done_ending σ task tk success Hobj) as [Hret _].
    destruct Hret as [Hret Hu]; [lia|].
    split; [|split; [by rewrite Hobjs|done]].
    unfold accounted, PriorityQueue.qsize in *. rewrite Hheap, Hu. lia.
  - unfold task_done. rewrite Hobj. simpl.
    split; [unfold accounted, PriorityQueue.qsize; lia|].
    split; [done|]. by intros [? ?].
Qed.

Lemma retry_task_owed (σ : state) (task : ref) :
  owed (self σ) ->
  accounted (self (retry_task σ task).2)
  /\ (named (objs σ) -> named (objs (retry_task σ task).2))
  /\ (forall e, is_Some (objs σ !! task) -> (retry_task σ task).1 <> Raised e).
Proof.
  intros Howed. unfold retry_task.
  destruct (objs σ !! task) as [tk|] eqn:Hobj;
    [|simpl; split; [by apply owed_accounted|split; [done|by intros ? [? ?]]]].
  set (tk1 := DownloadTask.set_attempts (DownloadTask.attempts tk + 1) tk).
  set (σ1 := State (<[task := tk1]> (objs σ)) (self σ)).
  assert (Hn1 : named (objs σ) -> named (objs σ1))
    by (intros Hn; by apply (named_insert _ task tk)).
  destruct (_ <=? _).
  - destruct (task_done_owed σ1 task false Howed) as (Hacc & Hn & Hret).
    specialize (Hret ltac:(simpl; rewrite lookup_insert_eq; eauto)).
    destruct (task_done σ1 task false) as [o σ2]. simpl in Hret. subst o.
    simpl in *. by repeat split; auto.
  - set (tk2 := DownloadTask.set_priority (DownloadTask.priority tk1 + 1000) tk1).
    set (σ2 := State (<[task := tk2]> (objs σ1)) (self σ1)).
    assert (Hn2 : named (objs σ) -> named (objs σ2)).
    { intros Hn.
      apply (named_insert _ task tk1); [by apply Hn1| |done].
      simpl. apply lookup_insert_eq. }
    destruct (put_accounting σ2 task) as (Hn & Hraise & Hq).
    split; [|split; [by auto|]].
    + unfold accounted, owed in *. simpl in Hq.
      destruct Hq as [->|[-> ->]]; lia.
    + intros e _. destruct (Hraise e) as [?|Hnone]; [done|].
      simpl in Hnone. by rewrite lookup_insert_eq in Hnone.
Qed.

Lemma get_owed (σ σ1 : state) (task : ref) :
  get σ = (Returned (Some task), σ1) ->
  accounted (self σ) -> owed (self σ1).
Proof.
  unfold get, PriorityQueue.get, PriorityQueue.get_nowait.
  destruct (heapq.heappop _ _) as [[item heap']|] eqn:Hpop; [|done].
  intros [= <- <-]. unfold accounted, owed, PriorityQueue.qsize. simpl.
  apply heapq_facts.heappop_length in Hpop. lia.
Qed.

Lemma on_exception_owed (w : DownloadWorker.t) (σ : state) (rl : RateLimiter.t) :
  owed (self σ) -> named (objs σ) ->
  accounted (self (queue (on_exception w σ rl).2))
  /\ named (objs (queue (on_exception w σ rl).2)).
Proof.
  intros Howed Hnamed. unfold on_exception.
  destruct (current_task w) as [task|]; [|split; [by apply owed_accounted|done]].
  destruct (task_done_owed σ task false Howed) as (Hacc & Hn & _).
  destruct (task_done σ task false) as [[u|e|] σ']; simpl in *; auto.
Qed.

(** A round keeps the accounting. *)
Lemma round_accounting (dl : downloader) (now : Z) (t0 t1 : Q) (s : sys) :
  accounted (self (queue s)) -> named (objs (queue s)) ->
  accounted (self (queue (_process_next_task dl now t0 t1 s).2))
  /\ named (objs (queue (_process_next_task dl now t0 t1 s).2)).
Proof.
  intros Hacc Hnamed. unfold _process_next_task.
  destruct (get (queue s)) as [[[task|]|e|] σ1] eqn:Hget.
  - pose proof (get_owed _ _ _ Hget Hacc) as Howed.
    assert (Hnamed1 : named (objs σ1)).
    { unfold get in Hget. destruct (PriorityQueue.get _ _) as [[? ?]|]; [|done].
      by injection Hget as _ <-. }
    destruct (RateLimiter.acquire _ _ _) as [[[u|e|] slept] rl].
    + destruct (objs σ1 !! task) as [tk|] eqn:Hobj;
        [|split; [by apply owed_accounted|done]].
      destruct (_download_file _ _ _) as [[|] w2].
      * destruct (task_done_owed σ1 task true Howed) as (Hacc2 & Hn2 & Hret).
        rewrite (Hnamed1 _ _ Hobj).
        specialize (Hret ltac:(eauto)).
        destruct (task_done σ1 task true) as [o σ2]. simpl in Hret. subst o.
        simpl in *. auto.
      * destruct (retry_task_owed σ1 task Howed) as (Hacc2 & Hn2 & Hraise).
        rewrite (Hnamed1 _ _ Hobj).
        destruct (retry_task σ1 task) as [[[|]|e|] σ2]; simpl in *; auto.
        exfalso. by apply (Hraise e); eauto.
    + by apply on_exception_owed.
    + split; [by apply owed_accounted|done].
  - unfold get in Hget. by destruct (PriorityQueue.get _ _) as [[? ?]|].
  - unfold get in Hget. by destruct (PriorityQueue.get _ _) as [[? ?]|].
  - unfold get in Hget. destruct (PriorityQueue.get _ _) as [[? ?]|]; [done|].
    injection Hget as <-. by simpl.
Qed.

Lemma step_accounting (s : state * RateLimiter.t) (e : Protocol.event) :
  accounted (self s.1) -> named (objs s.1) ->
  accounted (self (Protocol.step s e).1) /\ named (objs (Protocol.step s e).1).
Proof.
  intros Hacc Hnamed. destruct e as [task|w dl now t0 t1]; simpl.
  - destruct (put_accounting s.1 task) as (Hn & _ & Hq). split; [|auto].
    unfold accounted in *. destruct Hq as [->|[-> ->]]; lia.
  - by apply round_accounting.
Qed.

(** Along every run of submissions and rounds from a new queue, no entry of
    the priority queue has been acknowledged ahead of its turn. *)
Lemma run_accounting (es : list Protocol.event) (s : state * RateLimiter.t) :
  accounted (self s.1) -> named (objs s.1) ->
  accounted (self (Protocol.run s es).1) /\ named (objs (Protocol.run s es).1).
Proof.
  revert s. induction es as [|e es IH]; intros s Hacc Hnamed; [done|].
  simpl. destruct (step_accounting s e Hacc Hnamed). by apply IH.
Qed.

Lemma new_accounted (max_size : Z) : accounted (DownloadQueue.new max_size).
Proof. unfold accounted. simpl. done. Qed.

End Accounting.

(** ** The entries of the priority queue along the runs of the system *)

Module Registry.
Import DownloadQueue Notions Queue_facts Acknowledgement DownloadWorker.

Lemma registered_new (tasks : store) (max_size : Z) :
  registered (State tasks (DownloadQueue.new max_size)).
Proof.
  split; [apply NoDup_nil_2|]. intros r Hr. by apply elem_of_nil in Hr.
Qed.

(** Updating the object of a task that is not an entry changes nothing for
    the entries. *)
Lemma registered_update (σ : state) (task : ref) (tk' : DownloadTask.t) :
  registered σ -> task ∉ heap_of σ ->
  registered (State (<[task := tk']> (objs σ)) (self σ)).
Proof.
  intros [Hnd Hreg] Hout. split; [done|].
  intros r Hr. destruct (Hreg r Hr) as (tk & Hobj & Hp).
  exists tk. split; [|done]. simpl.
  rewrite lookup_insert_ne; [done|]. by intros ->.
Qed.

Lemma in_flight_update (σ : state) (task : ref) (id : string)
      (tk tk' : DownloadTask.t) :
  in_flight σ task id -> objs σ !! task = Some tk ->
  DownloadTask.media_info tk' = DownloadTask.media_info tk ->
  in_flight (State (<[task := tk']> (objs σ)) (self σ)) task id.
Proof.
  intros (Hreg & Hout & (tk0 & Hobj0 & Hid) & Hother) Hobj Hmi.
  split; [by apply registered_update|]. split; [done|]. split.
  - exists tk'. simpl. rewrite lookup_insert_eq. split; [done|].
    unfold task_id. rewrite Hmi. by simplify_eq.
  - intros r tkr Hr. simpl.
    rewrite lookup_insert_ne by (by intros ->). by apply Hother.
Qed.

Lemma registered_put (σ : state) (task : ref) :
  registered σ -> registered (put σ task).2.
Proof.
  intros Hreg. unfold put.
  destruct (objs σ !! task) as [tk|] eqn:Hobj; [|done].
  fold (task_id tk).
  destruct (bool_decide (is_Some _)) eqn:Hp; [done|].
  destruct (bool_decide (_ ∈ _)) eqn:Hc; [done|]. simpl.
  apply bool_decide_eq_false_1 in Hp. rewrite <- eq_None_not_Some in Hp.
  destruct (size_priority _) as [e|p]; [done|].
  assert (Hout : task ∉ heap_of σ).
  { intros Hin. destruct Hreg as [_ Hreg].
    destruct (Hreg task Hin) as (tk' & Hobj' & Hp'). simplify_eq. }
  pose proof (registered_update σ task (DownloadTask.set_priority p tk) Hreg Hout)
    as [Hnd1 Hreg1].
  unfold PriorityQueue.put, PriorityQueue.put_nowait.
  destruct (PriorityQueue.full _); [by split|]. simpl.
  unfold registered, heap_of in *. simpl in *. split.
  - rewrite heapq_entries.heappush_perm. by apply NoDup_cons_2.
  - intros r Hr. rewrite heapq_entries.heappush_perm in Hr.
    apply elem_of_cons in Hr as [->|Hr].
    + exists (DownloadTask.set_priority p tk).
      by rewrite !lookup_insert_eq.
    + destruct (Hreg1 r Hr) as (tkr & Hobjr & Hpr).
      exists tkr. split; [done|].
      rewrite lookup_insert_ne; [done|]. intros Heq.
      change (task_id (DownloadTask.set_priority p tk)) with (task_id tk) in Heq.
      rewrite <- Heq in Hpr. congruence.
Qed.

Lemma put_in_flight (σ : state) (task : ref) (id : string) :
  in_flight σ task id ->
  (put σ task).1 <> Returned true -> in_flight (put σ task).2 task id.
Proof.
  intros Hfl. unfold put.
  destruct (objs σ !! task) as [tk|] eqn:Hobj; [|done].
  destruct (_ || _); [done|].
  destruct (size_priority _) as [e|p]; [done|].
  unfold PriorityQueue.put, PriorityQueue.put_nowait.
  destruct (PriorityQueue.full _); [|done]. simpl. intros _.
  by apply (in_flight_update σ task id tk).
Qed.

Lemma get_in_flight (σ σ1 : state) (task : ref) :
  registered σ ->
  get σ = (Returned (Some task), σ1) ->
  exists tk, objs σ !! task = Some tk
             /\ _pending_tasks (self σ) !! task_id tk = Some task
             /\ in_flight σ1 task (task_id tk).
Proof.
  intros [Hnd Hreg].
  unfold get, PriorityQueue.get, PriorityQueue.get_nowait.
  unfold heap_of in *.
  destruct (heapq.heappop _ _) as [[item rest]|] eqn:Hpop; [|done].
  intros [= <- <-].
  apply heapq_entries.heappop_perm in Hpop.
  rewrite Hpop in Hnd. apply NoDup_cons in Hnd as [Hout Hnd'].
  destruct (Hreg item) as (tk & Hobj & Hp); [rewrite Hpop; by left|].
  exists tk. split; [done|]. split; [done|].
  assert (Hrest : forall r, r ∈ rest ->
            exists tkr, objs σ !! r = Some tkr
                        /\ _pending_tasks (self σ) !! task_id tkr = Some r).
  { intros r Hr. apply Hreg. rewrite Hpop. by right. }
  unfold in_flight, registered, heap_of. simpl.
  split; [by split|]. split; [done|]. split; [by eauto|].
  intros r tkr Hr Hobjr Heq.
  destruct (Hrest r Hr) as (tkr' & Hobjr' & Hpr). simplify_eq.
  rewrite Heq in Hpr. congruence.
Qed.

Lemma task_done_in_flight (σ : state) (task : ref) (id : string) (success : bool) :
  in_flight σ task id -> in_flight (task_done σ task success).2 task id.
Proof.
  intros (Hreg & Hout & (tk & Hobj & Hid) & Hother).
  destruct (task_done_books σ task tk success Hobj)
    as (Hobjs & Hp & _ & _ & _ & _ & _ & _ & Hheap & _).
  unfold in_flight, registered, heap_of in *.
  rewrite Hobjs, Hheap, Hp, Hid.
  destruct Hreg as [Hnd Hreg].
  split; [split; [done|]|by eauto].
  intros r Hr. destruct (Hreg r Hr) as (tkr & Hobjr & Hpr).
  exists tkr. split; [done|].
  rewrite lookup_delete_ne; [done|]. intros Heq. by apply (Hother r tkr).
Qed.

Lemma retry_task_in_flight (σ : state) (task : ref) (id : string) :
  in_flight σ task id ->
  registered (retry_task σ task).2
  /\ ((retry_task σ task).1 <> Returned true ->
      in_flight (retry_task σ task).2 task id).
Proof.
  intros Hfl. pose proof Hfl as (_ & _ & (tk & Hobj & _) & _).
  unfold retry_task. rewrite Hobj.
  set (tk1 := DownloadTask.set_attempts (DownloadTask.attempts tk + 1) tk).
  set (σ1 := State (<[task := tk1]> (objs σ)) (self σ)).
  assert (Hfl1 : in_flight σ1 task id) by (by apply (in_flight_update σ task id tk)).
  destruct (_ <=? _).
  - pose proof (task_done_in_flight σ1 task id false Hfl1) as Hfl2.
    destruct (task_done σ1 task false) as [[u|e|] σ2]; simpl in *;
      split; auto; apply Hfl2.
  - set (tk2 := DownloadTask.set_priority (DownloadTask.priority tk1 + 1000) tk1).
    set (σ2 := State (<[task := tk2]> (objs σ1)) (self σ1)).
    assert (Hfl2 : in_flight σ2 task id).
    { apply (in_flight_update σ1 task id tk1); [done| |done].
      simpl. apply lookup_insert_eq. }
    split; [apply registered_put, Hfl2|by apply put_in_flight].
Qed.

Lemma on_exception_in_flight (w : DownloadWorker.t) (σ : state)
      (rl : RateLimiter.t) (task : ref) (id : string) :
  in_flight σ task id -> current_task w = Some task ->
  registered (queue (on_exception w σ rl).2).
Proof.
  intros Hfl Hcur. unfold on_exception. rewrite Hcur.
  pose proof (task_done_in_flight σ task id false Hfl) as [Hreg _].
  by destruct (task_done σ task false) as [[u|e|] σ'].
Qed.

Lemma _download_file_current (dl : downloader) (w : DownloadWorker.t)
      (tk : DownloadTask.t) :
  current_task (_download_file dl w tk).2 = current_task w.
Proof.
  unfold _download_file.
  repeat (case_match; simpl; try done).
Qed.

(** A round keeps the entries registered. *)
Lemma round_registered (dl : downloader) (now : Z) (t0 t1 : Q) (s : sys) :
  registered (queue s) ->
  registered (queue (_process_next_task dl now t0 t1 s).2).
Proof.
  intros Hreg. unfold _process_next_task.
  destruct (get (queue s)) as [[[task|]|e|] σ1] eqn:Hget.
  - destruct (get_in_flight _ _ _ Hreg Hget) as (tk0 & _ & _ & Hfl).
    set (w1 := set_last_activity now (set_current_task (Some task) (worker s))).
    destruct (RateLimiter.acquire _ _ _) as [[[u|e|] slept] rl].
    + destruct (objs σ1 !! task) as [tk|] eqn:Hobj; [|apply Hfl].
      pose proof (_download_file_current dl w1 tk) as Hcur.
      destruct (_download_file dl w1 tk) as [[|] w2]; simpl in Hcur.
      * pose proof (task_done_in_flight σ1 task _ true Hfl) as Hfl2.
        destruct (task_done σ1 task true) as [[u'|e|] σ2]; simpl in *.
        -- destruct (has_filename tk); [apply Hfl2|].
           by eapply on_exception_in_flight.
        -- by eapply on_exception_in_flight.
        -- apply Hfl2.
      * destruct (retry_task_in_flight σ1 task _ Hfl) as [Hreg2 Hfl2].
        destruct (retry_task σ1 task) as [[[|]|e|] σ2]; simpl in *; try done.
        -- destruct (has_filename tk); [done|].
           eapply on_exception_in_flight; [by apply Hfl2|done].
        -- eapply on_exception_in_flight; [by apply Hfl2|done].
    + by eapply on_exception_in_flight.
    + apply Hfl.
  - unfold get in Hget. by destruct (PriorityQueue.get _ _) as [[? ?]|].
  - unfold get in Hget. by destruct (PriorityQueue.get _ _) as [[? ?]|].
  - unfold get in Hget. destruct (PriorityQueue.get _ _) as [[? ?]|]; [done|].
    by injection Hget as <-.
Qed.

Lemma run_registered (es : list Protocol.event) (s : state * RateLimiter.t) :
  registered s.1 -> registered (Protocol.run s es).1.
Proof.
  revert s. induction es as [|e es IH]; intros s Hreg; [done|].
  simpl. apply IH. destruct e as [task|w dl now t0 t1]; simpl.
  - by apply registered_put.
  - by apply round_registered.
Qed.

End Registry.

Module Clearing_runs.
Import DownloadQueue Notions.

(** In the states the system itself reaches (submissions and worker rounds
    on a new queue), [clear] returns and empties the queue. *)
Lemma clear_in_every_run
      (tasks : store) (max_size : Z) (rl0 : RateLimiter.t)
      (events : list Protocol.event) :
  named tasks ->
  let s := Protocol.run (State tasks (DownloadQueue.new max_size), rl0) events in
  (clear s.1).1 = Returned tt
  /\ PriorityQueue._heap (_queue (self (clear s.1).2)) = []
  /\ _pending_tasks (self (clear s.1).2) = ∅
  /\ current_size (_stats (self (clear s.1).2)) = 0.
Proof.
  intros Hnamed s.
  destruct (Accounting.run_accounting events
              (State tasks (DownloadQueue.new max_size), rl0))
    as [Hacc _]; [apply Accounting.new_accounted|exact Hnamed|].
  fold s in Hacc.
  destruct (Clearing.clear_loop_spec
              (length (PriorityQueue._heap (_queue (self s.1))))
              (objs s.1) (_queue (self s.1))) as [Hok _]; [done|].
  destruct Hok as [u Hu]; [left; exact Hacc|].
  unfold clear. rewrite Hu. by repeat split.
Qed.

End Clearing_runs.

Module Worker.
Import DownloadQueue Notions Queue_facts Acknowledgement DownloadWorker.

Lemma get_keeps_books (σ σ1 : state) (task : ref) :
  get σ = (Returned (Some task), σ1) ->
  objs σ1 = objs σ
  /\ _completed_tasks (self σ1) = _completed_tasks (self σ)
  /\ _failed_tasks (self σ1) = _failed_tasks (self σ)
  /\ total_completed (_stats (self σ1)) = total_completed (_stats (self σ))
  /\ total_failed (_stats (self σ1)) = total_failed (_stats (self σ))
  /\ PriorityQueue._unfinished_tasks (_queue (self σ1))
     = PriorityQueue._unfinished_tasks (_queue (self σ)).
Proof.
  unfold get, PriorityQueue.get, PriorityQueue.get_nowait.
  destruct (heapq.heappop _ _) as [[item heap']|]; [|done].
  intros [= <- <-]. by repeat split.
Qed.

(** A round on a dequeued task whose download reports ['skipped'], in a
    state where the underlying queue still has an entry to acknowledge. *)
Lemma skipped_round
        (dl : downloader) (now : Z) (t0 t1 : Q) (s : sys)
        (task : ref) (tk : DownloadTask.t) (σ1 : state)
        (result : gmap string Py.val) :
  get (queue s) = (Returned (Some task), σ1) ->
  objs (queue s) !! task = Some tk ->
  0 < PriorityQueue._unfinished_tasks (_queue (self (queue s))) ->
  (RateLimiter.acquire (rate_limiter s) t0 t1).1.1 = Returned tt ->
  has_filename tk = true ->
  dl (DownloadTask.media_info tk) (DownloadTask.file_info_str tk) = inr result ->
  result !! "status" = Some (Py.Str "skipped") ->
  let r := _process_next_task dl now t0 t1 s in
  let q := self (queue s) in
  let q' := self (queue r.2) in
  r.1 = Returned tt
  /\ task_done σ1 task true = (Returned tt, queue r.2)
  /\ task_id tk ∈ _completed_tasks q'
  /\ total_completed (_stats q') = total_completed (_stats q) + 1
  /\ _failed_tasks q' = _failed_tasks q
  /\ total_failed (_stats q') = total_failed (_stats q)
  /\ objs (queue r.2) = objs (queue s)
  /\ tasks_completed (wstats (worker r.2)) = tasks_completed (wstats (worker s)) + 1
  /\ tasks_failed (wstats (worker r.2)) = tasks_failed (wstats (worker s))
  /\ bytes_downloaded (wstats (worker r.2)) = bytes_downloaded (wstats (worker s))
  /\ current_task (worker r.2) = None
  /\ (forall (dl' : downloader) (result' : gmap string Py.val) (file_size : Z),
        dl' (DownloadTask.media_info tk) (DownloadTask.file_info_str tk) = inr result' ->
        result' !! "status" = Some (Py.Str "success") ->
        default (Py.Int 0) (DownloadTask.media_info tk !! "file_size") = Py.Int file_size ->
        let r' := _process_next_task dl' now t0 t1 s in
        r'.1 = r.1
        /\ queue r'.2 = queue r.2
        /\ tasks_completed (wstats (worker r'.2)) = tasks_completed (wstats (worker r.2))
        /\ tasks_failed (wstats (worker r'.2)) = tasks_failed (wstats (worker r.2))).
Proof.
  intros Hget Hobj Hu Hacq Hname Hdl Hstatus r q q'.
  destruct (get_keeps_books _ _ _ Hget) as (Hobjs1 & Hc1 & Hf1 & Htc1 & Htf1 & Hu1).
  assert (Hobj1 : objs σ1 !! task = Some tk) by (by rewrite Hobjs1).
  destruct (task_done_books σ1 task tk true Hobj1)
    as (Hobjs2 & _ & Hc2 & Hf2 & Htc2 & Htf2 & _).
  destruct (task_done_ending σ1 task tk true Hobj1) as [Hret _].
  destruct Hret as [Hret _]; [by rewrite Hu1|].
  assert (Hproc : forall dl0 w2,
             _download_file dl0
               (set_last_activity now (set_current_task (Some task) (worker s))) tk
             = (true, w2) ->
             _process_next_task dl0 now t0 t1 s
             = (Returned tt,
                Sys (set_current_task None (add_completed w2))
                    (task_done σ1 task true).2
                    (RateLimiter.acquire (rate_limiter s) t0 t1).2)).
  { intros dl0 w2 Hfile. unfold _process_next_task. rewrite Hget.
    destruct (RateLimiter.acquire (rate_limiter s) t0 t1) as [[o slept] rl].
    simpl in Hacq. subst o. rewrite Hobj1, Hfile.
    destruct (task_done σ1 task true) as [o2 σ2]. simpl in Hret. subst o2.
    by rewrite Hname. }
  assert (Hskip : _download_file dl
            (set_last_activity now (set_current_task (Some task) (worker s))) tk
          = (true, set_last_activity now (set_current_task (Some task) (worker s)))).
  { unfold _download_file. rewrite Hname, Hdl, Hstatus.
    rewrite bool_decide_eq_false_2 by discriminate.
    by rewrite bool_decide_eq_true_2. }
  subst q' r. rewrite (Hproc _ _ Hskip). simpl.
  split; [done|].
  split; [by destruct (task_done σ1 task true) as [o2 σ2]; simpl in *; subst|].
  split; [rewrite Hc2; apply elem_of_union_l; by apply elem_of_singleton|].
  split; [subst q; lia|].
  split; [subst q; by rewrite Hf2|].
  split; [subst q; lia|].
  split; [by rewrite Hobjs2|].
  split; [done|]. split; [done|]. split; [done|]. split; [done|].
  intros dl' result' file_size Hdl' Hstatus' Hsize.
  assert (Hsucc : _download_file dl'
            (set_last_activity now (set_current_task (Some task) (worker s))) tk
          = (true, add_bytes file_size
                     (set_last_activity now (set_current_task (Some task) (worker s))))).
  { unfold _download_file. rewrite Hname, Hdl', Hstatus'.
    rewrite bool_decide_eq_true_2 by done. by rewrite Hsize. }
  rewrite (Hproc _ _ Hsucc). by simpl.
Qed.

(** C7.  In every run of submissions and worker rounds on a new queue,
    when the download of a dequeued task reports ['skipped'], the worker
    books it as a success: it calls [task_done] with [success=True], so the
    identity enters the completed set and [total_completed] grows by one;
    the failed set, [total_failed] and the worker's failure count do not
    move, and the task object is untouched (no retry).  The queue ends in
    the state a ['success'] report leaves it in. *)
Theorem skipped_is_booked_as_success
        (tasks : store) (max_size : Z) (rl0 : RateLimiter.t)
        (events : list Protocol.event)
        (w : DownloadWorker.t) (dl : downloader) (now : Z) (t0 t1 : Q)
        (task : ref) (tk : DownloadTask.t) (σ1 : state)
        (result : gmap string Py.val) :
  named tasks ->
  let s := Protocol.run (State tasks (DownloadQueue.new max_size), rl0) events in
  get s.1 = (Returned (Some task), σ1) ->
  objs s.1 !! task = Some tk ->
  (RateLimiter.acquire s.2 t0 t1).1.1 = Returned tt ->
  dl (DownloadTask.media_info tk) (DownloadTask.file_info_str tk) = inr result ->
  result !! "status" = Some (Py.Str "skipped") ->
  let r := _process_next_task dl now t0 t1 (Sys w s.1 s.2) in
  let q := self s.1 in
  let q' := self (queue r.2) in
  r.1 = Returned tt
  /\ task_done σ1 task true = (Returned tt, queue r.2)
  /\ task_id tk ∈ _completed_tasks q'
  /\ total_completed (_stats q') = total_completed (_stats q) + 1
  /\ _failed_tasks q' = _failed_tasks q
  /\ total_failed (_stats q') = total_failed (_stats q)
  /\ objs (queue r.2) = objs s.1
  /\ tasks_completed (wstats (worker r.2)) = tasks_completed (wstats w) + 1
  /\ tasks_failed (wstats (worker r.2)) = tasks_failed (wstats w)
  /\ bytes_downloaded (wstats (worker r.2)) = bytes_downloaded (wstats w)
  /\ current_task (worker r.2) = None
  /\ (forall (dl' : downloader) (result' : gmap string Py.val) (file_size : Z),
        dl' (DownloadTask.media_info tk) (DownloadTask.file_info_str tk) = inr result' ->
        result' !! "status" = Some (Py.Str "success") ->
        default (Py.Int 0) (DownloadTask.media_info tk !! "file_size") = Py.Int file_size ->
        let r' := _process_next_task dl' now t0 t1 (Sys w s.1 s.2) in
        r'.1 = r.1
        /\ queue r'.2 = queue r.2
        /\ tasks_completed (wstats (worker r'.2)) = tasks_completed (wstats (worker r.2))
        /\ tasks_failed (wstats (worker r'.2)) = tasks_failed (wstats (worker r.2))).
Proof.
  intros Hnamed s Hget Hobj Hacq Hdl Hstatus.
  destruct (Accounting.run_accounting events
              (State tasks (DownloadQueue.new max_size), rl0))
    as [Hacc Hn]; [apply Accounting.new_accounted|exact Hnamed|].
  fold s in Hacc, Hn.
  pose proof (Accounting.get_owed _ _ _ Hget Hacc) as Howed.
  destruct (get_keeps_books _ _ _ Hget) as (_ & _ & _ & _ & _ & Hu).
  apply (skipped_round dl now t0 t1 (Sys w s.1 s.2) task tk σ1 result);
    simpl; auto.
  - unfold owed, PriorityQueue.qsize in Howed. lia.
  - by apply (Hn task tk).
Qed.

Lemma skipped_is_booked_as_success_witness :
  let s := Protocol.run (Sample.fresh, RateLimiter.new 2 5 0) [Protocol.Submit 0%nat] in
  let w := DownloadWorker.new "worker_1" in
  let r := _process_next_task SampleWorker.skipping 1 0 0 (Sys w s.1 s.2) in
  r.1 = Returned tt
  /\ "chan_7" ∈ _completed_tasks (self (queue r.2))
  /\ total_completed (_stats (self (queue r.2))) = 1
  /\ total_failed (_stats (self (queue r.2))) = 0
  /\ tasks_failed (wstats (worker r.2)) = 0
  /\ queue (_process_next_task SampleWorker.succeeding 1 0 0 (Sys w s.1 s.2)).2
     = queue r.2.
Proof.
  destruct (skipped_is_booked_as_success
              Sample.tasks 100 (RateLimiter.new 2 5 0) [Protocol.Submit 0%nat]
              (DownloadWorker.new "worker_1") SampleWorker.skipping 1 0%Q 0%Q
              0%nat Sample.task0 Sample.dequeued {[ "status" := Py.Str "skipped" ]})
    as (Hret & _ & Hin & Htc & _ & Htf & _ & _ & Hwf & _ & _ & Hsame).
  - compute_done.
  - vm_compute; reflexivity.
  - vm_compute; reflexivity.
  - vm_compute; reflexivity.
  - reflexivity.
  - vm_compute; reflexivity.
  - destruct (Hsame SampleWorker.succeeding {[ "status" := Py.Str "success" ]} 5242880)
      as (_ & Hq & _); [reflexivity|vm_compute; reflexivity|vm_compute; reflexivity|].
    cbv zeta. split; [exact Hret|]. split; [exact Hin|].
    split; [etrans; [exact Htc|vm_compute; reflexivity]|].
    split; [etrans; [exact Htf|vm_compute; reflexivity]|].
    split; [etrans; [exact Hwf|vm_compute; reflexivity]|exact Hq].
Defined.

End Worker.

Module Retry_runs.
Import DownloadQueue Notions Queue_facts Retry.

(** C1, what the code does instead.  In every run of submissions and worker
    rounds on a new queue, [get] hands out a task whose identity is still
    in the pending map, so the [put] inside [retry_task] takes the task for
    a duplicate: for every dequeued task below its attempt bound,
    [retry_task] returns [False]; the queue is exactly as [get] left it,
    without the task among its entries, and only the task object changed
    (one attempt more, priority raised by 1000). *)
Theorem retry_of_dequeued_task_rejected
        (tasks : store) (max_size : Z) (rl0 : RateLimiter.t)
        (events : list Protocol.event)
        (task : ref) (tk : DownloadTask.t) (σ1 : state) :
  let s := Protocol.run (State tasks (DownloadQueue.new max_size), rl0) events in
  get s.1 = (Returned (Some task), σ1) ->
  objs s.1 !! task = Some tk ->
  DownloadTask.attempts tk + 1 < DownloadTask.max_attempts tk ->
  retry_task σ1 task
  = (Returned false, State (<[task := demoted tk 1]> (objs σ1)) (self σ1))
  /\ (task ∉ heap_of (retry_task σ1 task).2)
  /\ _pending_tasks (self (retry_task σ1 task).2) !! task_id tk = Some task.
Proof.
  intros s Hget Hobj Hlt.
  pose proof (Registry.run_registered events
                (State tasks (DownloadQueue.new max_size), rl0)
                (Registry.registered_new tasks max_size)) as Hreg.
  fold s in Hreg.
  destruct (Registry.get_in_flight _ _ _ Hreg Hget)
    as (tk' & Hobj' & Hpend & _ & Hout & _).
  assert (tk' = tk) as -> by congruence.
  destruct (Worker.get_keeps_books _ _ _ Hget) as (Hobjs & _).
  assert (Hpend1 : _pending_tasks (self σ1) !! task_id tk = Some task).
  { unfold get in Hget. destruct (PriorityQueue.get _ _) as [[? ?]|]; [|done].
    by injection Hget as _ <-. }
  rewrite (retry_task_below_bound σ1 task tk); [|by rewrite Hobjs|left; eauto|done].
  by repeat split.
Qed.

Lemma retry_of_dequeued_task_rejected_witness :
  (get Sample.queued).1 = Returned (Some 0%nat)
  /\ PriorityQueue.full (_queue (self Sample.dequeued)) = false
  /\ retry_task Sample.dequeued 0%nat
     = (Returned false,
        State (<[0%nat := demoted Sample.task0 1]> (objs Sample.dequeued))
              (self Sample.dequeued))
  /\ heap_of (retry_task Sample.dequeued 0%nat).2 = [].
Proof.
  split; [vm_compute; reflexivity|].
  split; [vm_compute; reflexivity|].
  destruct (retry_of_dequeued_task_rejected
              Sample.tasks 100 (RateLimiter.new 2 5 0) [Protocol.Submit 0%nat]
              0%nat Sample.task0 Sample.dequeued) as (Hretry & _ & _).
  - vm_compute; reflexivity.
  - vm_compute; reflexivity.
  - vm_compute; reflexivity.
  - split; [exact Hretry|]. rewrite Hretry. vm_compute; reflexivity.
Defined.

End Retry_runs.


(** * Further properties of the code *)

(** ** [put] and [get] *)

Module Queue_more.
Import DownloadQueue Notions Queue_facts.

(** X1.  How [put] ends, for a task object [tk]: it never raises; it returns
    [False] exactly for a duplicate or for a size that is not a number; it
    returns [True] exactly for a new identity with a numeric size on a queue
    that is not full; on a full queue it waits, and never reports the lack
    of room by [False]. *)
Theorem put_outcomes (σ : state) (task : ref) (tk : DownloadTask.t) :
  objs σ !! task = Some tk ->
  let duplicate :=
    is_Some (_pending_tasks (self σ) !! task_id tk)
    \/ (task_id tk ∈ _completed_tasks (self σ)) in
  let numeric := exists p, size_priority (DownloadTask.media_info tk) = inr p in
  let full := PriorityQueue.full (_queue (self σ)) = true in
  (forall e, (put σ task).1 <> Raised e)
  /\ ((put σ task).1 = Returned false <-> duplicate \/ ~ numeric)
  /\ ((put σ task).1 = Returned true <-> ~ duplicate /\ numeric /\ ~ full)
  /\ ((put σ task).1 = Suspended <-> ~ duplicate /\ numeric /\ full)
  /\ ((put σ task).1 = Returned false -> (put σ task).2 = σ).
Proof.
  intros Hobj duplicate numeric full. unfold put. rewrite Hobj. fold (task_id tk).
  destruct (decide (is_Some (_pending_tasks (self σ) !! task_id tk))) as [Hp|Hp].
  { rewrite (bool_decide_eq_true_2 _ Hp). simpl.
    assert (Hd : duplicate) by (by left).
    intuition (try discriminate; try congruence). }
  rewrite (bool_decide_eq_false_2 _ Hp).
  destruct (decide (task_id tk ∈ _completed_tasks (self σ))) as [Hc|Hc].
  { rewrite (bool_decide_eq_true_2 _ Hc). simpl.
    assert (Hd : duplicate) by (by right).
    intuition (try discriminate; try congruence). }
  rewrite (bool_decide_eq_false_2 _ Hc). simpl.
  assert (Hnd : ~ duplicate) by (intros [?|?]; done).
  destruct (size_priority (DownloadTask.media_info tk)) as [e|p] eqn:Hsz.
  { assert (Hnn : ~ numeric) by (intros [p Hp']; congruence).
    simpl. intuition (try discriminate; try congruence). }
  assert (Hn : numeric) by (by exists p).
  unfold PriorityQueue.put, PriorityQueue.put_nowait. subst full.
  destruct (PriorityQueue.full (_queue (self σ))); simpl;
    intuition (try discriminate; try congruence).
Qed.

Lemma put_outcomes_witness :
  (put Sample.fresh 0%nat).1 = Returned true
  /\ (put Sample.queued 0%nat).1 = Returned false.
Proof.
  destruct (put_outcomes Sample.fresh 0%nat
              (DownloadTask.new (Sample.payload 7 5242880) "[5.0 MB]" 0))
    as (_ & _ & Htrue & _); [vm_compute; reflexivity|].
  destruct (put_outcomes Sample.queued 0%nat Sample.task0)
    as (_ & Hfalse & _); [vm_compute; reflexivity|].
  split.
  - apply Htrue. split; [|split].
    + intros [[r Hr]|Hc]; [vm_compute in Hr; discriminate|].
      revert Hc. apply (bool_decide_unpack _). vm_compute. exact I.
    + exists 5. vm_compute. reflexivity.
    + vm_compute. discriminate.
  - apply Hfalse. left. left. exists 0%nat. vm_compute. reflexivity.
Defined.

(** X2.  What an accepted [put] does: the task is one more entry of the
    priority queue, the pending map holds it under its identity, its
    priority is its size in whole mebibytes, [total_added] and the count of
    entries to acknowledge grow by one, [current_size] is the new queue
    size, and the completed and failed sets and their counters are
    untouched. *)
Theorem put_accepted (σ σ1 : state) (task : ref) (tk : DownloadTask.t)
        (file_size : Z) :
  objs σ !! task = Some tk ->
  DownloadTask.media_info tk !! "file_size" = Some (Py.Int file_size) ->
  put σ task = (Returned true, σ1) ->
  heap_of σ1 ≡ₚ task :: heap_of σ
  /\ _pending_tasks (self σ1) = <[task_id tk := task]> (_pending_tasks (self σ))
  /\ objs σ1 = <[task := DownloadTask.set_priority (Z.quot file_size 1048576) tk]> (objs σ)
  /\ total_added (_stats (self σ1)) = total_added (_stats (self σ)) + 1
  /\ current_size (_stats (self σ1)) = PriorityQueue.qsize (_queue (self σ1))
  /\ PriorityQueue.qsize (_queue (self σ1)) = PriorityQueue.qsize (_queue (self σ)) + 1
  /\ PriorityQueue._unfinished_tasks (_queue (self σ1))
     = PriorityQueue._unfinished_tasks (_queue (self σ)) + 1
  /\ _completed_tasks (self σ1) = _completed_tasks (self σ)
  /\ _failed_tasks (self σ1) = _failed_tasks (self σ)
  /\ total_completed (_stats (self σ1)) = total_completed (_stats (self σ))
  /\ total_failed (_stats (self σ1)) = total_failed (_stats (self σ)).
Proof.
  intros Hobj Hsize. unfold put. rewrite Hobj. fold (task_id tk).
  destruct (_ || _); [done|].
  rewrite (Priority.size_priority_quot _ _ Hsize).
  unfold PriorityQueue.put, PriorityQueue.put_nowait.
  destruct (PriorityQueue.full _); [done|].
  intros [= <-]. unfold heap_of, PriorityQueue.qsize. simpl.
  rewrite heapq_facts.heappush_length.
  repeat split; try done; try lia.
  apply heapq_entries.heappush_perm.
Qed.

Lemma put_accepted_witness :
  heap_of Sample.queued ≡ₚ [0%nat]
  /\ total_added (_stats (self Sample.queued)) = 1.
Proof.
  destruct (put_accepted Sample.fresh Sample.queued 0%nat
              (DownloadTask.new (Sample.payload 7 5242880) "[5.0 MB]" 0) 5242880)
    as (Hheap & _ & _ & Hadded & _);
    [vm_compute; reflexivity|vm_compute; reflexivity|vm_compute; reflexivity|].
  split; [exact Hheap|exact Hadded].
Defined.

Lemma get_on_empty (σ : state) : heap_of σ = [] -> get σ = (Suspended, σ).
Proof.
  unfold heap_of, get, PriorityQueue.get, PriorityQueue.get_nowait.
  intros ->. simpl. by destruct σ.
Qed.

Lemma get_on_entries (σ : state) :
  heap_of σ <> [] -> exists task σ1, get σ = (Returned (Some task), σ1).
Proof.
  unfold heap_of, get, PriorityQueue.get, PriorityQueue.get_nowait. intros Hne.
  destruct (heapq_facts.heappop_is_Some (lt_ref (objs σ)) _ Hne)
    as [[task rest] Hpop].
  rewrite Hpop. eauto.
Qed.

(** X3.  What [get] does: on an empty queue it waits and changes nothing;
    otherwise it hands out one entry, the others stay, [current_size] is the
    new queue size, and the task objects, the pending map, the two sets, the
    three totals and the count of entries to acknowledge are as before. *)
Theorem get_hands_out_an_entry (σ : state) :
  (heap_of σ = [] -> get σ = (Suspended, σ))
  /\ (heap_of σ <> [] ->
      exists task σ1,
        get σ = (Returned (Some task), σ1)
        /\ heap_of σ ≡ₚ task :: heap_of σ1
        /\ objs σ1 = objs σ
        /\ _pending_tasks (self σ1) = _pending_tasks (self σ)
        /\ _completed_tasks (self σ1) = _completed_tasks (self σ)
        /\ _failed_tasks (self σ1) = _failed_tasks (self σ)
        /\ total_added (_stats (self σ1)) = total_added (_stats (self σ))
        /\ total_completed (_stats (self σ1)) = total_completed (_stats (self σ))
        /\ total_failed (_stats (self σ1)) = total_failed (_stats (self σ))
        /\ current_size (_stats (self σ1)) = PriorityQueue.qsize (_queue (self σ1))
        /\ PriorityQueue.qsize (_queue (self σ1)) = PriorityQueue.qsize (_queue (self σ)) - 1
        /\ PriorityQueue._unfinished_tasks (_queue (self σ1))
           = PriorityQueue._unfinished_tasks (_queue (self σ))).
Proof.
  unfold heap_of, get, PriorityQueue.get, PriorityQueue.get_nowait. split.
  - intros ->. simpl. by destruct σ.
  - intros Hne.
    destruct (heapq_facts.heappop_is_Some (lt_ref (objs σ)) _ Hne)
      as [[task rest] Hpop].
    rewrite Hpop. exists task. eexists. split; [reflexivity|].
    unfold PriorityQueue.qsize. simpl.
    pose proof (heapq_facts.heappop_length _ _ _ _ Hpop).
    repeat split; try done; try lia.
    by apply (heapq_entries.heappop_perm (lt_ref (objs σ))).
Qed.

Lemma get_hands_out_an_entry_witness :
  get Sample.fresh = (Suspended, Sample.fresh)
  /\ exists task σ1, get Sample.queued = (Returned (Some task), σ1)
                     /\ heap_of Sample.queued ≡ₚ task :: heap_of σ1.
Proof.
  destruct (get_hands_out_an_entry Sample.fresh) as [Hempty _].
  destruct (get_hands_out_an_entry Sample.queued) as [_ Hsome].
  split; [apply Hempty; vm_compute; reflexivity|].
  destruct Hsome as (task & σ1 & Hget & Hperm & _); [vm_compute; discriminate|].
  by exists task, σ1.
Defined.

End Queue_more.

(** ** The sets of identities against their counters *)

Module Domination.
Import DownloadQueue Notions Queue_facts Acknowledgement.

Lemma size_add_le (X : gset string) (id : string) :
  (size ({[id]} ∪ X) <= S (size X))%nat.
Proof.
  destruct (decide (id ∈ X)) as [Hin|Hout].
  - rewrite (subseteq_union_1_L {[id]} X); [lia|].
    by apply singleton_subseteq_l.
  - rewrite size_union by (by apply disjoint_singleton_l).
    rewrite size_singleton. lia.
Qed.

Lemma dominated_new (max_size : Z) : dominated (DownloadQueue.new max_size).
Proof. unfold dominated. vm_compute. intuition discriminate. Qed.

Lemma dominated_put (σ : state) (task : ref) :
  dominated (self σ) -> dominated (self (put σ task).2).
Proof.
  intros Hdom. unfold put.
  destruct (objs σ !! task) as [tk|]; [|done].
  destruct (bool_decide (is_Some _)) eqn:Hp; [done|].
  destruct (bool_decide (_ ∈ _)) eqn:Hc; [done|]. simpl.
  destruct (size_priority _) as [e|p]; [done|].
  destruct (PriorityQueue.put _ _ _) as [pq|]; [|done].
  apply bool_decide_eq_false_1 in Hp. rewrite <- eq_None_not_Some in Hp.
  unfold dominated in *. simpl.
  rewrite map_size_insert_None by done. lia.
Qed.

Lemma dominated_get (σ : state) :
  dominated (self σ) -> dominated (self (get σ).2).
Proof.
  intros Hdom. unfold get.
  by destruct (PriorityQueue.get _ _) as [[task pq]|].
Qed.

Lemma dominated_task_done (σ : state) (task : ref) (success : bool) :
  dominated (self σ) -> dominated (self (task_done σ task success).2).
Proof.
  intros (Hp & Hc & Hf).
  destruct (objs σ !! task) as [tk|] eqn:Hobj.
  - destruct (task_done_books σ task tk success Hobj)
      as (_ & Hp' & Hc' & Hf' & Htc & Htf & Hta & _).
    unfold dominated. rewrite Hp', Hc', Hf', Htc, Htf, Hta.
    pose proof (map_subseteq_size _ _
                  (delete_subseteq (_pending_tasks (self σ)) (task_id tk))).
    pose proof (size_add_le (_completed_tasks (self σ)) (task_id tk)).
    pose proof (size_add_le (_failed_tasks (self σ)) (task_id tk)).
    destruct success; lia.
  - unfold task_done. by rewrite Hobj.
Qed.

Lemma dominated_update (tasks tasks' : store) (q : DownloadQueue.t) :
  dominated (self (State tasks q)) -> dominated (self (State tasks' q)).
Proof. done. Qed.

Lemma dominated_retry_task (σ : state) (task : ref) :
  dominated (self σ) -> dominated (self (retry_task σ task).2).
Proof.
  intros Hdom. unfold retry_task.
  destruct (objs σ !! task) as [tk|]; [|done].
  destruct (_ <=? _).
  - match goal with
    | |- context [task_done ?s ?t ?b] =>
        pose proof (dominated_task_done s t b Hdom) as H;
        destruct (task_done s t b) as [[u|e|] σ2]; exact H
    end.
  - by apply dominated_put.
Qed.

Lemma dominated_clear (σ : state) :
  dominated (self σ) -> dominated (self (clear σ).2).
Proof.
  intros (Hp & Hc & Hf). unfold clear.
  destruct (clear_loop _ _ _) as [[u|e|] pq]; simpl; [|done..].
  unfold dominated. simpl. rewrite map_size_empty. lia.
Qed.

Lemma dominated_run (ops : list Run.op) (σ : state) :
  dominated (self σ) -> dominated (self (Run.run σ ops)).
Proof.
  revert σ. induction ops as [|o ops IH]; intros σ Hdom; [done|].
  simpl. apply IH. destruct o; simpl;
    auto using dominated_put, dominated_get, dominated_task_done,
               dominated_retry_task, dominated_clear.
Qed.

End Domination.

(** ** The rounds of a worker, case by case *)

Module Rounds.
Import DownloadQueue Notions Queue_facts Acknowledgement Retry DownloadWorker.

Lemma download_fails_false (dl : downloader) (w : DownloadWorker.t)
      (tk : DownloadTask.t) :
  download_fails dl tk -> _download_file dl w tk = (false, w).
Proof.
  unfold download_fails, _download_file. intros Hfail.
  destruct (has_filename tk); [|done].
  destruct (dl _ _) as [e|result]; [done|].
  destruct (result !! "status") as [status|]; [|done].
  destruct Hfail as [Hs Hk].
  by rewrite !bool_decide_eq_false_2.
Qed.

(** The round on an empty queue waits. *)
Lemma round_empty (dl : downloader) (now : Z) (t0 t1 : Q) (s : sys) :
  heap_of (queue s) = [] ->
  _process_next_task dl now t0 t1 s = (Suspended, s).
Proof.
  intros Hnil. unfold _process_next_task.
  rewrite (Queue_more.get_on_empty _ Hnil). by destruct s.
Qed.

(** The rate limiter raises: the task is failed without a download. *)
Lemma round_limiter_fault (dl : downloader) (now : Z) (t0 t1 : Q) (s : sys)
      (task : ref) (tk : DownloadTask.t) (σ1 : state) (e : exn) :
  get (queue s) = (Returned (Some task), σ1) ->
  objs σ1 !! task = Some tk ->
  0 < PriorityQueue._unfinished_tasks (_queue (self σ1)) ->
  (RateLimiter.acquire (rate_limiter s) t0 t1).1.1 = Raised e ->
  _process_next_task dl now t0 t1 s
  = (Returned tt,
     Sys (set_current_task None (add_failed (holding (worker s) task now)))
         (task_done σ1 task false).2
         (RateLimiter.acquire (rate_limiter s) t0 t1).2).
Proof.
  intros Hget Hobj Hu Hacq. unfold _process_next_task. rewrite Hget.
  destruct (RateLimiter.acquire _ _ _) as [[o slept] rl]. simpl in Hacq. subst o.
  unfold on_exception. simpl.
  destruct (task_done_ending σ1 task tk false Hobj) as [Hret _].
  destruct (Hret Hu) as [Hr _].
  destruct (task_done σ1 task false) as [o σ2]. simpl in Hr. by subst o.
Qed.

(** The download succeeds or is skipped: the task is completed. *)
Lemma round_completed (dl : downloader) (now : Z) (t0 t1 : Q) (s : sys)
      (task : ref) (tk : DownloadTask.t) (σ1 : state) (w2 : DownloadWorker.t) :
  get (queue s) = (Returned (Some task), σ1) ->
  objs σ1 !! task = Some tk ->
  0 < PriorityQueue._unfinished_tasks (_queue (self σ1)) ->
  (RateLimiter.acquire (rate_limiter s) t0 t1).1.1 = Returned tt ->
  has_filename tk = true ->
  _download_file dl (holding (worker s) task now) tk = (true, w2) ->
  _process_next_task dl now t0 t1 s
  = (Returned tt,
     Sys (set_current_task None (add_completed w2))
         (task_done σ1 task true).2
         (RateLimiter.acquire (rate_limiter s) t0 t1).2).
Proof.
  intros Hget Hobj Hu Hacq Hname Hfile. unfold _process_next_task. rewrite Hget.
  destruct (RateLimiter.acquire _ _ _) as [[o slept] rl]. simpl in Hacq. subst o.
  rewrite Hobj. fold (holding (worker s) task now). rewrite Hfile.
  destruct (task_done_ending σ1 task tk true Hobj) as [Hret _].
  destruct (Hret Hu) as [Hr _].
  destruct (task_done σ1 task true) as [o σ2]. simpl in Hr. subst o.
  by rewrite Hname.
Qed.

(** The download fails below the bound: the retry is refused, the task
    stays pending and is in no queue. *)
Lemma round_retry_refused (dl : downloader) (now : Z) (t0 t1 : Q) (s : sys)
      (task : ref) (tk : DownloadTask.t) (σ1 : state) (w2 : DownloadWorker.t) :
  get (queue s) = (Returned (Some task), σ1) ->
  objs σ1 !! task = Some tk ->
  is_Some (_pending_tasks (self σ1) !! task_id tk) ->
  (RateLimiter.acquire (rate_limiter s) t0 t1).1.1 = Returned tt ->
  has_filename tk = true ->
  _download_file dl (holding (worker s) task now) tk = (false, w2) ->
  DownloadTask.attempts tk + 1 < DownloadTask.max_attempts tk ->
  _process_next_task dl now t0 t1 s
  = (Returned tt,
     Sys (set_current_task None (add_failed w2))
         (State (<[task := demoted tk 1]> (objs σ1)) (self σ1))
         (RateLimiter.acquire (rate_limiter s) t0 t1).2).
Proof.
  intros Hget Hobj Hpend Hacq Hname Hfile Hlt. unfold _process_next_task.
  rewrite Hget.
  destruct (RateLimiter.acquire _ _ _) as [[o slept] rl]. simpl in Hacq. subst o.
  rewrite Hobj. fold (holding (worker s) task now). rewrite Hfile.
  rewrite (retry_task_below_bound σ1 task tk Hobj (or_introl Hpend) Hlt).
  by rewrite Hname.
Qed.

(** The download fails at the bound: the task is failed for good. *)
Lemma round_retry_exhausted (dl : downloader) (now : Z) (t0 t1 : Q) (s : sys)
      (task : ref) (tk : DownloadTask.t) (σ1 : state) (w2 : DownloadWorker.t) :
  get (queue s) = (Returned (Some task), σ1) ->
  objs σ1 !! task = Some tk ->
  0 < PriorityQueue._unfinished_tasks (_queue (self σ1)) ->
  (RateLimiter.acquire (rate_limiter s) t0 t1).1.1 = Returned tt ->
  has_filename tk = true ->
  _download_file dl (holding (worker s) task now) tk = (false, w2) ->
  DownloadTask.max_attempts tk <= DownloadTask.attempts tk + 1 ->
  let tk1 := DownloadTask.set_attempts (DownloadTask.attempts tk + 1) tk in
  let σ2 := State (<[task := tk1]> (objs σ1)) (self σ1) in
  _process_next_task dl now t0 t1 s
  = (Returned tt,
     Sys (set_current_task None (add_failed w2))
         (task_done σ2 task false).2
         (RateLimiter.acquire (rate_limiter s) t0 t1).2)
  /\ (task_done σ2 task false).1 = Returned tt.
Proof.
  intros Hget Hobj Hu Hacq Hname Hfile Hle tk1 σ2. unfold _process_next_task.
  rewrite Hget.
  destruct (RateLimiter.acquire _ _ _) as [[o slept] rl]. simpl in Hacq. subst o.
  rewrite Hobj. fold (holding (worker s) task now). rewrite Hfile.
  destruct (retry_task_at_bound σ1 task tk Hobj Hle) as [Hst Hres].
  fold tk1 σ2 in Hst, Hres.
  assert (Hobj2 : objs σ2 !! task = Some tk1) by apply lookup_insert_eq.
  destruct (task_done_ending σ2 task tk1 false Hobj2) as [Hret _].
  destruct (Hret Hu) as [Hr _]. rewrite Hr in Hres.
  destruct (retry_task σ1 task) as [o σ3]. simpl in Hst, Hres. subst o σ3.
  by rewrite Hname.
Qed.

End Rounds.

(** ** What every run of the system keeps *)

Module Soundness.
Import DownloadQueue Notions Queue_facts Acknowledgement Retry DownloadWorker.

Lemma acquire_never_waits_outside (rl : RateLimiter.t) (t0 t1 : Q) :
  (RateLimiter.acquire rl t0 t1).1.1 <> Suspended.
Proof.
  unfold RateLimiter.acquire.
  destruct (Qle_bool _ _); [done|]. by destruct (Qeq_bool _ _).
Qed.

(** The outcomes of a round on a sound queue: it waits on the empty queue;
    otherwise it returns, having acknowledged the task it took (as completed
    or as failed), or having left it pending after a refused retry. *)
Lemma round_cases (dl : downloader) (now : Z) (t0 t1 : Q) (s : sys) :
  named (objs (queue s)) -> accounted (self (queue s)) -> registered (queue s) ->
  let r := _process_next_task dl now t0 t1 s in
  (heap_of (queue s) = [] /\ r = (Suspended, s))
  \/ (exists task tk σ1,
        get (queue s) = (Returned (Some task), σ1)
        /\ objs σ1 !! task = Some tk
        /\ _pending_tasks (self σ1) !! task_id tk = Some task
        /\ in_flight σ1 task (task_id tk)
        /\ owed (self σ1)
        /\ r.1 = Returned tt
        /\ ((exists success, task_done σ1 task success = (Returned tt, queue r.2))
            \/ (DownloadTask.max_attempts tk <= DownloadTask.attempts tk + 1
                /\ task_done
                     (State (<[task := DownloadTask.set_attempts
                                         (DownloadTask.attempts tk + 1) tk]> (objs σ1))
                            (self σ1)) task false
                   = (Returned tt, queue r.2))
            \/ (DownloadTask.attempts tk + 1 < DownloadTask.max_attempts tk
                /\ queue r.2
                   = State (<[task := demoted tk 1]> (objs σ1)) (self σ1)))).
Proof.
  intros Hnamed Hacc Hreg r.
  destruct (decide (heap_of (queue s) = [])) as [Hnil|Hne].
  { left. split; [done|]. by apply Rounds.round_empty. }
  right.
  destruct (Queue_more.get_on_entries _ Hne) as (task & σ1 & Hget).
  destruct (Registry.get_in_flight _ _ _ Hreg Hget) as (tk & Hobj & Hpend & Hfl).
  destruct (Worker.get_keeps_books _ _ _ Hget) as (Hobjs & _).
  pose proof (Accounting.get_owed _ _ _ Hget Hacc) as Howed.
  assert (Hobj1 : objs σ1 !! task = Some tk) by (by rewrite Hobjs).
  assert (Hpend1 : _pending_tasks (self σ1) !! task_id tk = Some task).
  { unfold get in Hget. destruct (PriorityQueue.get _ _) as [[? ?]|]; [|done].
    by injection Hget as _ <-. }
  assert (Hu : 0 < PriorityQueue._unfinished_tasks (_queue (self σ1)))
    by (unfold owed, PriorityQueue.qsize in Howed; lia).
  assert (Hname : has_filename tk = true) by (by apply (Hnamed task tk)).
  exists task, tk, σ1. do 5 (split; [done|]).
  destruct ((RateLimiter.acquire (rate_limiter s) t0 t1).1.1) as [[]|e|] eqn:Hacq.
  - destruct (_download_file dl (holding (worker s) task now) tk) as [[|] w2] eqn:Hfile.
    + subst r. rewrite (Rounds.round_completed dl now t0 t1 s task tk σ1 w2)
        by done.
      split; [done|]. left. exists true. simpl.
      destruct (task_done_ending σ1 task tk true Hobj1) as [Hret _].
      destruct (Hret Hu) as [Hr _].
      by destruct (task_done σ1 task true) as [o σ2]; simpl in *; subst.
    + destruct (Z.lt_ge_cases (DownloadTask.attempts tk + 1)
                              (DownloadTask.max_attempts tk)) as [Hlt|Hge].
      * subst r. rewrite (Rounds.round_retry_refused dl now t0 t1 s task tk σ1 w2)
          by eauto.
        split; [done|]. right. right. by split.
      * destruct (Rounds.round_retry_exhausted dl now t0 t1 s task tk σ1 w2)
          as [Hround Hr]; try done.
        subst r. rewrite Hround. split; [done|]. right. left. split; [done|].
        simpl. cbv zeta in Hr.
        by destruct (task_done _ task false) as [o σ2]; simpl in *; subst.
  - subst r. rewrite (Rounds.round_limiter_fault dl now t0 t1 s task tk σ1 e)
      by done.
    split; [done|]. left. exists false. simpl.
    destruct (task_done_ending σ1 task tk false Hobj1) as [Hret _].
    destruct (Hret Hu) as [Hr _].
    by destruct (task_done σ1 task false) as [o σ2]; simpl in *; subst.
  - by apply acquire_never_waits_outside in Hacq.
Qed.

Lemma balanced_task_done (σ σ' : state) (task : ref) (tk : DownloadTask.t)
      (success : bool) :
  objs σ !! task = Some tk ->
  task_done σ task success = (Returned tt, σ') ->
  balanced (self σ) -> balanced (self σ').
Proof.
  intros Hobj Hdone Hbal.
  destruct (task_done_books σ task tk success Hobj)
    as (_ & _ & _ & _ & Htc & Htf & Hta & _).
  destruct (task_done_ending σ task tk success Hobj) as [Hret Hraise].
  rewrite Hdone in *. simpl in *. unfold balanced in *.
  destruct (Z.lt_ge_cases 0 (PriorityQueue._unfinished_tasks (_queue (self σ))))
    as [Hpos|Hnpos].
  - destruct (Hret Hpos) as [_ Hu]. destruct success; lia.
  - by destruct (Hraise Hnpos).
Qed.

Lemma reconciled_task_done (σ σ' : state) (task : ref) (tk : DownloadTask.t)
      (success : bool) :
  objs σ !! task = Some tk ->
  is_Some (_pending_tasks (self σ) !! task_id tk) ->
  exclusive (self σ) ->
  task_done σ task success = (Returned tt, σ') ->
  reconciled (self σ) -> reconciled (self σ').
Proof.
  intros Hobj Hpend Hex Hdone Hrec.
  destruct (task_done_books σ task tk success Hobj)
    as (_ & _ & Hc & _ & Htc & _).
  rewrite Hdone in *. simpl in *. unfold reconciled in *.
  rewrite Hc, Htc. destruct success; [|lia].
  rewrite size_union by (apply disjoint_singleton_l; by apply Hex).
  rewrite size_singleton. lia.
Qed.

Lemma put_books (σ : state) (task : ref) :
  exclusive (self σ) -> balanced (self σ) -> reconciled (self σ) ->
  balanced (self (put σ task).2) /\ reconciled (self (put σ task).2).
Proof.
  intros Hex Hbal Hrec. unfold put.
  destruct (objs σ !! task) as [tk|]; [|done].
  destruct (_ || _); [done|].
  destruct (size_priority _) as [e|p]; [done|].
  unfold PriorityQueue.put, PriorityQueue.put_nowait.
  destruct (PriorityQueue.full _); [done|].
  unfold balanced, reconciled in *. simpl. split; lia.
Qed.

Lemma sound_new (tasks : store) (max_size : Z) :
  named tasks -> sound (State tasks (DownloadQueue.new max_size)).
Proof.
  intros Hnamed. split; [done|].
  split; [apply Accounting.new_accounted|].
  split; [apply Registry.registered_new|].
  split; [apply Exclusion.exclusive_new|].
  split; [done|]. split; [done|]. apply Domination.dominated_new.
Qed.

Lemma sound_step (s : state * RateLimiter.t) (e : Protocol.event) :
  sound s.1 -> sound (Protocol.step s e).1.
Proof.
  intros (Hnamed & Hacc & Hreg & Hex & Hbal & Hrec & Hdom).
  destruct (Accounting.step_accounting s e Hacc Hnamed) as [Hacc' Hnamed'].
  split; [done|]. split; [done|].
  cut (registered (Protocol.step s e).1
       /\ exclusive (self (Protocol.step s e).1)
       /\ balanced (self (Protocol.step s e).1)
       /\ reconciled (self (Protocol.step s e).1)).
  { intros (? & ? & ? & ?). do 4 (split; [done|]).
    destruct e as [task|w dl now t0 t1]; simpl.
    - by apply Domination.dominated_put.
    - destruct (round_cases dl now t0 t1 (Sys w s.1 s.2) Hnamed Hacc Hreg)
        as [[_ ->]|(task & tk & σ1 & Hget & _ & _ & _ & _ & _ & Hcase)];
        [done|].
      simpl in Hget.
      pose proof (Domination.dominated_get s.1 Hdom) as Hdom1.
      rewrite Hget in Hdom1. simpl in Hdom1.
      destruct Hcase as [[success Hdone]|[[_ Hdone]|[_ ->]]]; [| |done].
      + pose proof (Domination.dominated_task_done σ1 task success Hdom1) as H'.
        by rewrite Hdone in H'.
      + match type of Hdone with
        | task_done ?σ2 _ _ = _ =>
            pose proof (Domination.dominated_task_done σ2 task false Hdom1) as H'
        end.
        by rewrite Hdone in H'. }
  destruct e as [task|w dl now t0 t1]; simpl in *.
  - split; [by apply Registry.registered_put|].
    split; [by apply Exclusion.exclusive_put|]. by apply put_books.
  - split; [by apply Registry.round_registered|].
    destruct (round_cases dl now t0 t1 (Sys w s.1 s.2) Hnamed Hacc Hreg)
      as [[_ ->]|(task & tk & σ1 & Hget & Hobj & Hpend & Hfl & _ & _ & Hcase)];
      [done|].
    simpl in Hget.
    pose proof (Exclusion.exclusive_get s.1 Hex) as Hex1.
    destruct (Worker.get_keeps_books _ _ _ Hget) as (_ & Hc1 & _ & Htc1 & Htf1 & Hu1).
    rewrite Hget in Hex1. simpl in Hex1.
    assert (Hbal1 : balanced (self σ1)).
    { unfold balanced in *. rewrite Hu1, Htc1, Htf1.
      unfold get in Hget. destruct (PriorityQueue.get _ _) as [[? ?]|]; [|done].
      by injection Hget as _ <-. }
    assert (Hrec1 : reconciled (self σ1))
      by (unfold reconciled in *; by rewrite Hc1, Htc1).
    destruct Hcase as [[success Hdone]|[[_ Hdone]|[_ ->]]].
    + pose proof (Exclusion.exclusive_task_done σ1 task success Hex1) as Hex2.
      rewrite Hdone in Hex2. split; [done|].
      split; [by eapply balanced_task_done|].
      eapply reconciled_task_done; eauto.
    + set (σ2 := State _ (self σ1)) in Hdone.
      pose proof (Exclusion.exclusive_task_done σ2 task false Hex1) as Hex2.
      rewrite Hdone in Hex2. split; [done|].
      assert (Hobj2 : objs σ2 !! task
                      = Some (DownloadTask.set_attempts (DownloadTask.attempts tk + 1) tk))
        by apply lookup_insert_eq.
      split; [by eapply (balanced_task_done σ2)|].
      eapply (reconciled_task_done σ2); eauto.
    + by simpl.
Qed.

Lemma sound_run (es : list Protocol.event) (s : state * RateLimiter.t) :
  sound s.1 -> sound (Protocol.run s es).1.
Proof.
  revert s. induction es as [|e es IH]; intros s Hs; [done|].
  simpl. by apply IH, sound_step.
Qed.

End Soundness.

(** ** The books of the queue *)

Module Books.
Import DownloadQueue Notions.

(** X4.  For every sequence of [put], [get], [task_done], [retry_task] and
    [clear] on a new queue, [get_stats] reports no more pending identities
    than tasks were added, no more completed identities than completions
    were counted, and no more failed identities than failures were counted.
    *)
Theorem sets_within_counters (tasks : store) (max_size : Z) (ops : list Run.op) :
  let stats :=
    get_stats (self (Run.run (State tasks (DownloadQueue.new max_size)) ops)) in
  pending_tasks stats <= v_total_added stats
  /\ completed_tasks stats <= v_total_completed stats
  /\ failed_tasks stats <= v_total_failed stats.
Proof.
  apply (Domination.dominated_run ops (State tasks (DownloadQueue.new max_size))).
  apply Domination.dominated_new.
Qed.

(** X5.  In every run of submissions and worker rounds on a new queue, the
    books reconcile: every task added is completed, failed, or still to be
    acknowledged ([total_added = total_completed + total_failed +] the
    unacknowledged entries of the underlying queue), the entries still
    queued are among the unacknowledged ones, and the number of completed
    identities [get_stats] reports is [total_completed]. *)
Theorem books_reconcile
        (tasks : store) (max_size : Z) (rl0 : RateLimiter.t)
        (events : list Protocol.event) :
  named tasks ->
  let q := self (Protocol.run (State tasks (DownloadQueue.new max_size), rl0) events).1 in
  let stats := get_stats q in
  v_total_added stats
  = v_total_completed stats + v_total_failed stats
    + PriorityQueue._unfinished_tasks (_queue q)
  /\ 0 <= queue_size stats <= PriorityQueue._unfinished_tasks (_queue q)
  /\ completed_tasks stats = v_total_completed stats
  /\ failed_tasks stats <= v_total_failed stats
  /\ completed_tasks stats + failed_tasks stats <= v_total_added stats.
Proof.
  intros Hnamed q stats.
  destruct (Soundness.sound_run events
              (State tasks (DownloadQueue.new max_size), rl0)
              (Soundness.sound_new tasks max_size Hnamed))
    as (_ & Hacc & _ & _ & Hbal & Hrec & (_ & Hc & Hf)).
  fold q in Hacc, Hbal, Hrec, Hc, Hf.
  unfold accounted, balanced, reconciled, PriorityQueue.qsize in *.
  subst stats. unfold get_stats, PriorityQueue.qsize. simpl.
  repeat split; lia.
Qed.

Lemma books_reconcile_witness :
  let q := self (Protocol.run (Sample.fresh, RateLimiter.new 2 5 0)
                   [Protocol.Submit 0%nat; Protocol.Submit 1%nat;
                    Protocol.Round (DownloadWorker.new "worker_1")
                                   SampleWorker.skipping 1 0 0]).1 in
  v_total_added (get_stats q) = 2
  /\ v_total_completed (get_stats q) = 1
  /\ PriorityQueue._unfinished_tasks (_queue q) = 1
  /\ completed_tasks (get_stats q) = v_total_completed (get_stats q).
Proof.
  destruct (books_reconcile Sample.tasks 100 (RateLimiter.new 2 5 0)
              [Protocol.Submit 0%nat; Protocol.Submit 1%nat;
               Protocol.Round (DownloadWorker.new "worker_1")
                              SampleWorker.skipping 1 0 0])
    as (_ & _ & Hc & _); [compute_done|].
  split; [vm_compute; reflexivity|]. split; [vm_compute; reflexivity|].
  split; [vm_compute; reflexivity|exact Hc].
Defined.

(** X6.  [wait_empty] returns exactly when no entry awaits its
    acknowledgement; in every run of submissions and worker rounds on a new
    queue that is exactly when every task added was counted as completed or
    failed. *)
Theorem wait_empty_returns_when_all_acknowledged
        (tasks : store) (max_size : Z) (rl0 : RateLimiter.t)
        (events : list Protocol.event) :
  named tasks ->
  let σ := (Protocol.run (State tasks (DownloadQueue.new max_size), rl0) events).1 in
  (wait_empty σ = Returned tt \/ wait_empty σ = Suspended)
  /\ (wait_empty σ = Returned tt
      <-> total_added (_stats (self σ))
          = total_completed (_stats (self σ)) + total_failed (_stats (self σ)))
  /\ (wait_empty σ = Returned tt -> heap_of σ = []).
Proof.
  intros Hnamed σ.
  destruct (Soundness.sound_run events
              (State tasks (DownloadQueue.new max_size), rl0)
              (Soundness.sound_new tasks max_size Hnamed))
    as (_ & Hacc & _ & _ & Hbal & _).
  fold σ in Hacc, Hbal.
  unfold accounted, balanced, PriorityQueue.qsize, wait_empty, heap_of in *.
  destruct (Z.ltb_spec 0 (PriorityQueue._unfinished_tasks (_queue (self σ))))
    as [Hpos|Hnpos].
  - split; [by right|]. split; [split; [done|lia]|done].
  - split; [by left|]. split; [split; [lia|done]|].
    intros _. destruct (PriorityQueue._heap (_queue (self σ))); [done|].
    simpl in Hacc. lia.
Qed.

Lemma wait_empty_returns_when_all_acknowledged_witness :
  wait_empty (Protocol.run (Sample.fresh, RateLimiter.new 2 5 0)
                [Protocol.Submit 0%nat;
                 Protocol.Round (DownloadWorker.new "worker_1")
                                SampleWorker.skipping 1 0 0]).1 = Returned tt
  /\ wait_empty (Protocol.run (Sample.fresh, RateLimiter.new 2 5 0)
                   [Protocol.Submit 0%nat]).1 = Suspended.
Proof.
  destruct (wait_empty_returns_when_all_acknowledged
              Sample.tasks 100 (RateLimiter.new 2 5 0)
              [Protocol.Submit 0%nat;
               Protocol.Round (DownloadWorker.new "worker_1")
                              SampleWorker.skipping 1 0 0])
    as (_ & Hiff & _); [compute_done|].
  split; [apply Hiff; vm_compute; reflexivity|vm_compute; reflexivity].
Defined.

(** X7.  In every run of submissions and worker rounds on a new queue, the
    entries of the priority queue are distinct task objects; each is the
    task the pending map holds for its identity, so two entries never share
    an identity, and no entry has an identity that is already completed. *)
Theorem queued_identities_are_distinct
        (tasks : store) (max_size : Z) (rl0 : RateLimiter.t)
        (events : list Protocol.event) :
  named tasks ->
  let σ := (Protocol.run (State tasks (DownloadQueue.new max_size), rl0) events).1 in
  NoDup (heap_of σ)
  /\ (forall r, r ∈ heap_of σ ->
        exists tk, objs σ !! r = Some tk
                   /\ _pending_tasks (self σ) !! task_id tk = Some r
                   /\ task_id tk ∉ _completed_tasks (self σ))
  /\ (forall r1 r2 tk1 tk2,
        r1 ∈ heap_of σ -> r2 ∈ heap_of σ ->
        objs σ !! r1 = Some tk1 -> objs σ !! r2 = Some tk2 ->
        task_id tk1 = task_id tk2 -> r1 = r2).
Proof.
  intros Hnamed σ.
  destruct (Soundness.sound_run events
              (State tasks (DownloadQueue.new max_size), rl0)
              (Soundness.sound_new tasks max_size Hnamed))
    as (_ & _ & [Hnd Hreg] & Hex & _).
  fold σ in Hnd, Hreg, Hex.
  split; [done|]. split.
  - intros r Hr. destruct (Hreg r Hr) as (tk & Hobj & Hp).
    exists tk. split; [done|]. split; [done|]. apply Hex. eauto.
  - intros r1 r2 tk1 tk2 Hr1 Hr2 Hobj1 Hobj2 Hid.
    destruct (Hreg r1 Hr1) as (tk1' & Hobj1' & Hp1).
    destruct (Hreg r2 Hr2) as (tk2' & Hobj2' & Hp2).
    simplify_eq. rewrite Hid in Hp1. congruence.
Qed.

Lemma queued_identities_are_distinct_witness :
  NoDup (heap_of (Protocol.run (Sample.fresh, RateLimiter.new 2 5 0)
                    [Protocol.Submit 0%nat; Protocol.Submit 1%nat;
                     Protocol.Submit 0%nat]).1)
  /\ length (heap_of (Protocol.run (Sample.fresh, RateLimiter.new 2 5 0)
                        [Protocol.Submit 0%nat; Protocol.Submit 1%nat;
                         Protocol.Submit 0%nat]).1) = 2%nat.
Proof.
  destruct (queued_identities_are_distinct Sample.tasks 100 (RateLimiter.new 2 5 0)
              [Protocol.Submit 0%nat; Protocol.Submit 1%nat; Protocol.Submit 0%nat])
    as (Hnd & _); [compute_done|].
  split; [exact Hnd|vm_compute; reflexivity].
Defined.

End Books.

(** ** A failed download *)

Module Stranding.
Import DownloadQueue DownloadWorker Notions.

Lemma put_frame (σ : state) (task : ref) :
  (put σ task).2 = σ
  \/ exists tk p,
       objs σ !! task = Some tk
       /\ _pending_tasks (self σ) !! task_id tk = None
       /\ objs (put σ task).2 = <[task := DownloadTask.set_priority p tk]> (objs σ)
       /\ (self (put σ task).2 = self σ
           \/ (heap_of (put σ task).2 ≡ₚ task :: heap_of σ
               /\ _pending_tasks (self (put σ task).2)
                  = <[task_id tk := task]> (_pending_tasks (self σ))
               /\ PriorityQueue._unfinished_tasks (_queue (self (put σ task).2))
                  = PriorityQueue._unfinished_tasks (_queue (self σ)) + 1)).
Proof.
  unfold put. destruct (objs σ !! task) as [tk|] eqn:Hobj; [|by left].
  fold (task_id tk).
  destruct (_pending_tasks (self σ) !! task_id tk) as [r|] eqn:Hp.
  { left. rewrite bool_decide_eq_true_2 by eauto. done. }
  rewrite (bool_decide_eq_false_2 (is_Some None)) by (intros [? ?]; done).
  simpl. destruct (bool_decide _); [by left|].
  destruct (size_priority _) as [|p]; [by left|].
  right. exists tk, p. split; [done|]. split; [done|].
  unfold PriorityQueue.put, PriorityQueue.put_nowait.
  destruct (PriorityQueue.full _); simpl; [split; [done|by left]|].
  split; [done|]. right. unfold heap_of. simpl.
  split; [apply heapq_entries.heappush_perm|done].
Qed.

Lemma get_frame (σ σ1 : state) (task : ref) :
  get σ = (Returned (Some task), σ1) ->
  heap_of σ ≡ₚ task :: heap_of σ1
  /\ objs σ1 = objs σ
  /\ _pending_tasks (self σ1) = _pending_tasks (self σ)
  /\ PriorityQueue._unfinished_tasks (_queue (self σ1))
     = PriorityQueue._unfinished_tasks (_queue (self σ)).
Proof.
  unfold get, PriorityQueue.get, PriorityQueue.get_nowait, heap_of.
  destruct (heapq.heappop _ _) as [[item rest]|] eqn:Hpop; [|done].
  intros [= <- <-]. simpl.
  split; [by apply (heapq_entries.heappop_perm (lt_ref (objs σ)))|done].
Qed.

Lemma stranded_task_done (σ σ' : state) (task r : ref) (id : string)
      (tk : DownloadTask.t) (success : bool) :
  objs σ !! r = Some tk ->
  task_id tk <> id ->
  task_done σ r success = (Returned tt, σ') ->
  (task ∉ heap_of σ)
  /\ (exists tk', objs σ !! task = Some tk' /\ task_id tk' = id)
  /\ _pending_tasks (self σ) !! id = Some task
  /\ PriorityQueue.qsize (_queue (self σ)) + 2
     <= PriorityQueue._unfinished_tasks (_queue (self σ)) ->
  stranded σ' task id.
Proof.
  intros Hobj Hne Hdone (Hnot & Htk & Hp & Hu).
  destruct (Acknowledgement.task_done_books σ r tk success Hobj)
    as (Hobjs & Hpend & _ & _ & _ & _ & _ & _ & Hheap & _).
  destruct (Acknowledgement.task_done_ending σ r tk success Hobj) as [Hret _].
  rewrite Hdone in *. simpl in *.
  unfold stranded, owed, heap_of, PriorityQueue.qsize in *.
  rewrite Hheap, Hobjs, Hpend.
  split; [done|]. split; [done|].
  split; [by rewrite lookup_delete_ne|].
  destruct Hret as [_ ->]; lia.
Qed.

Lemma stranded_step (s : state * RateLimiter.t) (e : Protocol.event)
      (task : ref) (id : string) :
  sound s.1 -> stranded s.1 task id -> stranded (Protocol.step s e).1 task id.
Proof.
  intros (Hnamed & Hacc & Hreg & _) (Hnot & (tk & Hobj & Hid) & Hp & Howed).
  destruct e as [r|w dl now t0 t1]; simpl.
  - destruct (put_frame s.1 r)
      as [->|(tkr & p & Hobjr & Hnone & Hobjs & Hcase)];
      [by repeat split; eauto|].
    assert (Hr : r <> task).
    { intros ->. rewrite Hobj in Hobjr. injection Hobjr as <-.
      rewrite Hid, Hp in Hnone. done. }
    assert (Hidr : task_id tkr <> id).
    { intros Heq. rewrite Heq, Hp in Hnone. done. }
    unfold stranded.
    assert (Hobj' : exists tk', objs (put s.1 r).2 !! task = Some tk'
                                /\ task_id tk' = id).
    { exists tk. rewrite Hobjs, lookup_insert_ne by done. done. }
    destruct Hcase as [Hself|(Hheap & Hpend & Hu)].
    + unfold heap_of, owed in *. rewrite Hself. done.
    + split.
      { rewrite Hheap. intros [?|?]%elem_of_cons; [by subst|done]. }
      split; [done|].
      split; [by rewrite Hpend, lookup_insert_ne|].
      unfold owed, PriorityQueue.qsize, heap_of in *.
      rewrite Hu. apply Permutation_length in Hheap. simpl in Hheap.
      rewrite Hheap. lia.
  - destruct (Soundness.round_cases dl now t0 t1 (Sys w s.1 s.2) Hnamed Hacc Hreg)
      as [[_ ->]|(r & tkr & σ1 & Hget & Hobjr & Hpendr & _ & _ & _ & Hcase)];
      [by repeat split; eauto|].
    simpl in Hget.
    destruct (get_frame _ _ _ Hget) as (Hheap & Hobjs & Hpend & Hu).
    assert (Hr : r <> task).
    { intros ->. apply Hnot. rewrite Hheap. by left. }
    assert (Hidr : task_id tkr <> id).
    { intros Heq. rewrite Heq, Hpend, Hp in Hpendr. congruence. }
    assert (Hnot1 : task ∉ heap_of σ1).
    { intros Hin. apply Hnot. rewrite Hheap. by right. }
    assert (Hsize : PriorityQueue.qsize (_queue (self σ1)) + 2
                    <= PriorityQueue._unfinished_tasks (_queue (self σ1))).
    { unfold owed, PriorityQueue.qsize, heap_of in *. rewrite Hu.
      apply Permutation_length in Hheap. simpl in Hheap. lia. }
    destruct Hcase as [[success Hdone]|[[_ Hdone]|[_ ->]]].
    + eapply (stranded_task_done σ1); eauto.
      split; [done|]. split; [rewrite Hobjs; eauto|]. by rewrite Hpend.
    + eapply stranded_task_done; [| |exact Hdone|].
      * apply lookup_insert_eq.
      * done.
      * split; [done|]. simpl.
        split; [rewrite lookup_insert_ne, Hobjs by done; eauto|].
        by rewrite Hpend.
    + unfold stranded, heap_of, owed in *. simpl.
      split; [done|].
      split; [rewrite lookup_insert_ne, Hobjs by done; eauto|].
      split; [by rewrite Hpend|lia].
Qed.

Lemma stranded_run (es : list Protocol.event) (s : state * RateLimiter.t)
      (task : ref) (id : string) :
  sound s.1 -> stranded s.1 task id -> stranded (Protocol.run s es).1 task id.
Proof.
  revert s. induction es as [|e es IH]; intros s Hs Hst; [done|].
  simpl. apply IH; [by apply Soundness.sound_step|by apply stranded_step].
Qed.

(** The round that follows a failed download below the attempt bound. *)
Lemma failed_round (s : sys) (dl : downloader) (now : Z) (t0 t1 : Q)
      (task : ref) (tk : DownloadTask.t) (σ1 : state) :
  named (objs (queue s)) -> registered (queue s) ->
  get (queue s) = (Returned (Some task), σ1) ->
  objs (queue s) !! task = Some tk ->
  DownloadTask.attempts tk + 1 < DownloadTask.max_attempts tk ->
  (RateLimiter.acquire (rate_limiter s) t0 t1).1.1 = Returned tt ->
  download_fails dl tk ->
  _process_next_task dl now t0 t1 s
  = (Returned tt,
     Sys (set_current_task None (add_failed (holding (worker s) task now)))
         (State (<[task := demoted tk 1]> (objs σ1)) (self σ1))
         (RateLimiter.acquire (rate_limiter s) t0 t1).2)
  /\ _pending_tasks (self σ1) !! task_id tk = Some task
  /\ (task ∉ heap_of σ1).
Proof.
  intros Hnamed Hreg Hget Hobj Hbelow Hacq Hfails.
  destruct (get_frame _ _ _ Hget) as (Hheap & Hobjs & Hpend & Hu).
  destruct (Registry.get_in_flight _ _ _ Hreg Hget)
    as (tk' & Hobj' & Hp & _ & Hnot & _).
  rewrite Hobj in Hobj'. injection Hobj' as <-.
  split; [|split; [by rewrite Hpend|done]].
  apply (Rounds.round_retry_refused dl now t0 t1 s task tk σ1).
  - done.
  - by rewrite Hobjs.
  - rewrite Hpend. eauto.
  - done.
  - by apply (Hnamed task tk).
  - by apply Rounds.download_fails_false.
  - done.
Qed.

(** X8.  When the download of a task fails and the task has attempts left,
    the round does not put the task back: the task object gets one attempt
    more and 1000 added to its priority, but it is not an entry of the queue
    again and its identity stays pending. The worker counts a failed task;
    the queue counts no failure and nothing is acknowledged. *)
Theorem failed_download_is_not_requeued
        (tasks : store) (max_size : Z) (rl0 : RateLimiter.t)
        (events : list Protocol.event)
        (w : DownloadWorker.t) (dl : downloader) (now : Z) (t0 t1 : Q)
        (task : ref) (tk : DownloadTask.t) (σ1 : state) :
  named tasks ->
  let s := Protocol.run (State tasks (DownloadQueue.new max_size), rl0) events in
  get s.1 = (Returned (Some task), σ1) ->
  objs s.1 !! task = Some tk ->
  DownloadTask.attempts tk + 1 < DownloadTask.max_attempts tk ->
  (RateLimiter.acquire s.2 t0 t1).1.1 = Returned tt ->
  download_fails dl tk ->
  let r := _process_next_task dl now t0 t1 (Sys w s.1 s.2) in
  r.1 = Returned tt
  /\ objs (queue r.2) !! task = Some (demoted tk 1)
  /\ self (queue r.2) = self σ1
  /\ (task ∉ heap_of (queue r.2))
  /\ length (heap_of (queue r.2)) = pred (length (heap_of s.1))
  /\ _pending_tasks (self (queue r.2)) !! task_id tk = Some task
  /\ _failed_tasks (self (queue r.2)) = _failed_tasks (self s.1)
  /\ total_failed (_stats (self (queue r.2))) = total_failed (_stats (self s.1))
  /\ PriorityQueue._unfinished_tasks (_queue (self (queue r.2)))
     = PriorityQueue._unfinished_tasks (_queue (self s.1))
  /\ tasks_failed (wstats (worker r.2)) = tasks_failed (wstats w) + 1
  /\ tasks_completed (wstats (worker r.2)) = tasks_completed (wstats w)
  /\ bytes_downloaded (wstats (worker r.2)) = bytes_downloaded (wstats w)
  /\ current_task (worker r.2) = None.
Proof.
  intros Hnamed s Hget Hobj Hbelow Hacq Hfails r.
  destruct (Soundness.sound_run events
              (State tasks (DownloadQueue.new max_size), rl0)
              (Soundness.sound_new tasks max_size Hnamed))
    as (Hnamed' & _ & Hreg & _).
  fold s in Hnamed', Hreg.
  destruct (failed_round (Sys w s.1 s.2) dl now t0 t1 task tk σ1
              Hnamed' Hreg Hget Hobj Hbelow Hacq Hfails) as (Hr & Hp & Hnot).
  destruct (get_frame _ _ _ Hget) as (Hheap & _ & _ & Hu).
  destruct (Worker.get_keeps_books _ _ _ Hget) as (_ & _ & Hf & _ & Htf & _).
  subst r. rewrite Hr. simpl.
  split; [done|]. split; [apply lookup_insert_eq|]. split; [done|].
  split; [done|].
  split; [apply Permutation_length in Hheap; simpl in Hheap;
          unfold heap_of in *; simpl; by rewrite Hheap|].
  repeat split; done.
Qed.

Lemma failed_download_is_not_requeued_witness :
  let r := _process_next_task SampleRun.failing 1 0 0
             (Sys (DownloadWorker.new "worker_1") Sample.queued
                  (RateLimiter.new 2 5 0)) in
  r.1 = Returned tt
  /\ heap_of (queue r.2) = []
  /\ _pending_tasks (self (queue r.2)) !! "chan_7" = Some 0%nat
  /\ tasks_failed (wstats (worker r.2)) = 1.
Proof.
  destruct (failed_download_is_not_requeued Sample.tasks 100 (RateLimiter.new 2 5 0)
              [Protocol.Submit 0%nat]
              (DownloadWorker.new "worker_1") SampleRun.failing 1 0 0
              0%nat Sample.task0 Sample.dequeued)
    as (Hret & _ & _ & _ & _ & Hp & _ & _ & _ & Hwf & _);
    [compute_done|vm_compute; reflexivity|vm_compute; reflexivity|
     vm_compute; reflexivity|vm_compute; reflexivity|vm_compute; done|].
  split; [exact Hret|]. split; [vm_compute; reflexivity|].
  split; [etrans; [|exact Hp]; vm_compute; reflexivity|exact Hwf].
Defined.

(** X9.  After a download failed on a task that has attempts left, the task
    is lost for the rest of the run, whatever is submitted and whatever the
    workers do: it never becomes an entry of the queue again, so no worker
    is handed it; its identity stays pending, so a task with that identity
    is refused by [put]; and [wait_empty] never returns, because the entry
    is never acknowledged. *)
Theorem failed_download_blocks_completion
        (tasks : store) (max_size : Z) (rl0 : RateLimiter.t)
        (events later : list Protocol.event)
        (w : DownloadWorker.t) (dl : downloader) (now : Z) (t0 t1 : Q)
        (task : ref) (tk : DownloadTask.t) (σ1 : state) :
  named tasks ->
  let s := Protocol.run (State tasks (DownloadQueue.new max_size), rl0) events in
  get s.1 = (Returned (Some task), σ1) ->
  objs s.1 !! task = Some tk ->
  DownloadTask.attempts tk + 1 < DownloadTask.max_attempts tk ->
  (RateLimiter.acquire s.2 t0 t1).1.1 = Returned tt ->
  download_fails dl tk ->
  let s' := Protocol.run (Protocol.step s (Protocol.Round w dl now t0 t1)) later in
  wait_empty s'.1 = Suspended
  /\ (task ∉ heap_of s'.1)
  /\ _pending_tasks (self s'.1) !! task_id tk = Some task
  /\ (forall other tk', objs s'.1 !! other = Some tk' ->
        task_id tk' = task_id tk -> put s'.1 other = (Returned false, s'.1))
  /\ total_completed (_stats (self s'.1)) + total_failed (_stats (self s'.1))
     < total_added (_stats (self s'.1)).
Proof.
  intros Hnamed s Hget Hobj Hbelow Hacq Hfails s'.
  pose proof (Soundness.sound_run events
                (State tasks (DownloadQueue.new max_size), rl0)
                (Soundness.sound_new tasks max_size Hnamed)) as Hsound.
  fold s in Hsound.
  pose proof (Soundness.sound_step s (Protocol.Round w dl now t0 t1) Hsound)
    as Hsound1.
  pose proof (Soundness.sound_run later _ Hsound1) as Hsound'.
  fold s' in Hsound'.
  destruct Hsound as (Hnamed0 & Hacc & Hreg & _).
  destruct (failed_round (Sys w s.1 s.2) dl now t0 t1 task tk σ1
              Hnamed0 Hreg Hget Hobj Hbelow Hacq Hfails) as (Hr & Hp & Hnot).
  assert (Hst : stranded (Protocol.step s (Protocol.Round w dl now t0 t1)).1
                         task (task_id tk)).
  { simpl. rewrite Hr. simpl. unfold stranded, heap_of in *. simpl.
    split; [done|].
    split; [exists (demoted tk 1); split; [apply lookup_insert_eq|done]|].
    split; [done|]. by apply (Accounting.get_owed _ _ _ Hget). }
  destruct (stranded_run later _ task (task_id tk) Hsound1 Hst)
    as (Hnot' & _ & Hp' & Howed').
  fold s' in Hnot', Hp', Howed'.
  destruct Hsound' as (_ & _ & _ & _ & Hbal & _).
  assert (Hpos : 0 < PriorityQueue._unfinished_tasks (_queue (self s'.1))).
  { unfold owed, PriorityQueue.qsize in Howed'. lia. }
  split.
  { unfold wait_empty. by rewrite (proj2 (Z.ltb_lt _ _) Hpos). }
  split; [done|]. split; [done|].
  split.
  { intros other tk' Hobj' Hid. apply (Queue_facts.put_rejects _ other tk' Hobj').
    left. rewrite Hid, Hp'. eauto. }
  unfold balanced in Hbal. lia.
Qed.

Lemma failed_download_blocks_completion_witness :
  let s' := Protocol.run (Sample.fresh, RateLimiter.new 2 5 0)
              [Protocol.Submit 0%nat;
               Protocol.Round (DownloadWorker.new "worker_1")
                              SampleRun.failing 1 0 0;
               Protocol.Submit 0%nat;
               Protocol.Round (DownloadWorker.new "worker_2")
                              SampleWorker.succeeding 2 0 0] in
  wait_empty s'.1 = Suspended
  /\ heap_of s'.1 = []
  /\ total_added (_stats (self s'.1)) = 1.
Proof.
  destruct (failed_download_blocks_completion Sample.tasks 100 (RateLimiter.new 2 5 0)
              [Protocol.Submit 0%nat]
              [Protocol.Submit 0%nat;
               Protocol.Round (DownloadWorker.new "worker_2")
                              SampleWorker.succeeding 2 0 0]
              (DownloadWorker.new "worker_1") SampleRun.failing 1 0 0
              0%nat Sample.task0 Sample.dequeued)
    as (Hwait & _);
    [compute_done|vm_compute; reflexivity|vm_compute; reflexivity|
     vm_compute; reflexivity|vm_compute; reflexivity|vm_compute; done|].
  split; [exact Hwait|]. split; vm_compute; reflexivity.
Defined.

End Stranding.

(** ** The four ways a round on a non-empty queue ends *)

Module Table.
Import DownloadQueue DownloadWorker Notions.

Lemma _download_file_counts (dl : downloader) (w w2 : DownloadWorker.t)
      (tk : DownloadTask.t) (ok : bool) :
  _download_file dl w tk = (ok, w2) ->
  tasks_completed (wstats w2) = tasks_completed (wstats w)
  /\ tasks_failed (wstats w2) = tasks_failed (wstats w)
  /\ worker_id w2 = worker_id w
  /\ DownloadWorker.is_running w2 = DownloadWorker.is_running w.
Proof.
  unfold _download_file.
  repeat (case_match; simplify_eq/=; try done); by intros [= <- <-].
Qed.

Lemma round_table (dl : downloader) (now : Z) (t0 t1 : Q) (s : sys) :
  named (objs (queue s)) -> accounted (self (queue s)) -> registered (queue s) ->
  let r := _process_next_task dl now t0 t1 s in
  let rl' := (RateLimiter.acquire (rate_limiter s) t0 t1).2 in
  (heap_of (queue s) = [] /\ r = (Suspended, s))
  \/ (exists task tk σ1,
        get (queue s) = (Returned (Some task), σ1)
        /\ objs σ1 !! task = Some tk
        /\ _pending_tasks (self σ1) !! task_id tk = Some task
        /\ in_flight σ1 task (task_id tk)
        /\ owed (self σ1)
        /\ ((exists e σ2,
               (RateLimiter.acquire (rate_limiter s) t0 t1).1.1 = Raised e
               /\ task_done σ1 task false = (Returned tt, σ2)
               /\ r = (Returned tt,
                       Sys (set_current_task None
                              (add_failed (holding (worker s) task now))) σ2 rl'))
            \/ (exists w2 σ2,
                  (RateLimiter.acquire (rate_limiter s) t0 t1).1.1 = Returned tt
                  /\ _download_file dl (holding (worker s) task now) tk = (true, w2)
                  /\ task_done σ1 task true = (Returned tt, σ2)
                  /\ r = (Returned tt,
                          Sys (set_current_task None (add_completed w2)) σ2 rl'))
            \/ (exists w2 σ2,
                  (RateLimiter.acquire (rate_limiter s) t0 t1).1.1 = Returned tt
                  /\ _download_file dl (holding (worker s) task now) tk = (false, w2)
                  /\ DownloadTask.max_attempts tk <= DownloadTask.attempts tk + 1
                  /\ task_done
                       (State (<[task := DownloadTask.set_attempts
                                           (DownloadTask.attempts tk + 1) tk]> (objs σ1))
                              (self σ1)) task false
                     = (Returned tt, σ2)
                  /\ r = (Returned tt,
                          Sys (set_current_task None (add_failed w2)) σ2 rl'))
            \/ (exists w2,
                  (RateLimiter.acquire (rate_limiter s) t0 t1).1.1 = Returned tt
                  /\ _download_file dl (holding (worker s) task now) tk = (false, w2)
                  /\ DownloadTask.attempts tk + 1 < DownloadTask.max_attempts tk
                  /\ r = (Returned tt,
                          Sys (set_current_task None (add_failed w2))
                              (State (<[task := demoted tk 1]> (objs σ1)) (self σ1))
                              rl')))).
Proof.
  intros Hnamed Hacc Hreg r rl'.
  destruct (decide (heap_of (queue s) = [])) as [Hnil|Hne].
  { left. split; [done|]. by apply Rounds.round_empty. }
  right.
  destruct (Queue_more.get_on_entries _ Hne) as (task & σ1 & Hget).
  destruct (Registry.get_in_flight _ _ _ Hreg Hget) as (tk & Hobj & Hpend & Hfl).
  destruct (Stranding.get_frame _ _ _ Hget) as (_ & Hobjs & Hpends & _).
  pose proof (Accounting.get_owed _ _ _ Hget Hacc) as Howed.
  assert (Hobj1 : objs σ1 !! task = Some tk) by (by rewrite Hobjs).
  assert (Hpend1 : _pending_tasks (self σ1) !! task_id tk = Some task)
    by (by rewrite Hpends).
  assert (Hu : 0 < PriorityQueue._unfinished_tasks (_queue (self σ1)))
    by (unfold owed, PriorityQueue.qsize in Howed; lia).
  assert (Hname : has_filename tk = true) by (by apply (Hnamed task tk)).
  exists task, tk, σ1. do 5 (split; [done|]).
  destruct ((RateLimiter.acquire (rate_limiter s) t0 t1).1.1) as [[]|e|] eqn:Hacq.
  - right.
    destruct (_download_file dl (holding (worker s) task now) tk) as [[|] w2] eqn:Hfile.
    + left. exists w2, (task_done σ1 task true).2. do 2 (split; [done|]).
      destruct (Acknowledgement.task_done_ending σ1 task tk true Hobj1) as [Hret _].
      destruct (Hret Hu) as [Hr _].
      split; [by destruct (task_done σ1 task true) as [o σ2]; simpl in *; subst|].
      subst r. by apply (Rounds.round_completed dl now t0 t1 s task tk σ1 w2).
    + right.
      destruct (Z.lt_ge_cases (DownloadTask.attempts tk + 1)
                              (DownloadTask.max_attempts tk)) as [Hlt|Hge].
      * right. exists w2. do 3 (split; [done|]). subst r.
        apply (Rounds.round_retry_refused dl now t0 t1 s task tk σ1 w2); eauto.
      * left.
        destruct (Rounds.round_retry_exhausted dl now t0 t1 s task tk σ1 w2)
          as [Hround Hr]; try done.
        cbv zeta in Hr, Hround.
        eexists w2, _. do 3 (split; [done|]).
        split; [|subst r; exact Hround].
        by destruct (task_done _ task false) as [o σ2]; simpl in *; subst.
  - left. exists e, (task_done σ1 task false).2. split; [done|].
    destruct (Acknowledgement.task_done_ending σ1 task tk false Hobj1) as [Hret _].
    destruct (Hret Hu) as [Hr _].
    split; [by destruct (task_done σ1 task false) as [o σ2]; simpl in *; subst|].
    subst r. by apply (Rounds.round_limiter_fault dl now t0 t1 s task tk σ1 e).
  - by apply Soundness.acquire_never_waits_outside in Hacq.
Qed.

End Table.

(** ** Rounds that fail their task *)

Module Failing.
Import DownloadQueue DownloadWorker Notions.

Lemma acquire_raises (rl : RateLimiter.t) (t0 t1 : Q) :
  (RateLimiter.requests_per_second rl == 0)%Q ->
  (RateLimiter.refill rl t0 < 1)%Q ->
  (RateLimiter.acquire rl t0 t1).1.1 = Raised ZeroDivisionError.
Proof.
  intros Hzero Hlt. unfold RateLimiter.acquire.
  destruct (Qle_bool 1 (RateLimiter.refill rl t0)) eqn:Hone.
  { apply Qle_bool_iff in Hone. lra. }
  by rewrite (proj2 (Qeq_bool_iff _ _) Hzero).
Qed.

Lemma acquire_raises_inv (rl : RateLimiter.t) (t0 t1 : Q) (e : exn) :
  (RateLimiter.acquire rl t0 t1).1.1 = Raised e ->
  (RateLimiter.requests_per_second rl == 0)%Q.
Proof.
  unfold RateLimiter.acquire.
  destruct (Qle_bool 1 _); [done|].
  destruct (Qeq_bool _ 0) eqn:Hzero; [|done].
  intros _. by apply Qeq_bool_iff.
Qed.

Lemma acquire_rate (rl : RateLimiter.t) (t0 t1 : Q) :
  RateLimiter.requests_per_second (RateLimiter.acquire rl t0 t1).2
  = RateLimiter.requests_per_second rl.
Proof.
  unfold RateLimiter.acquire.
  destruct (Qle_bool 1 _); [done|]. by destruct (Qeq_bool _ 0).
Qed.

(** X10.  A rate limiter with a rate of zero and less than one token raises
    in [acquire]; the round then fails the task it holds without starting
    the download: the identity leaves the pending map and enters the failed
    set, [total_failed] and the worker's failure count rise by one, the
    entry is acknowledged, and the task object keeps its attempt counter.
    The outcome is the same for every download operation. *)
Theorem limiter_fault_fails_the_task
        (tasks : store) (max_size : Z) (rl0 : RateLimiter.t)
        (events : list Protocol.event)
        (w : DownloadWorker.t) (dl : downloader) (now : Z) (t0 t1 : Q)
        (task : ref) (tk : DownloadTask.t) (σ1 : state) :
  named tasks ->
  let s := Protocol.run (State tasks (DownloadQueue.new max_size), rl0) events in
  get s.1 = (Returned (Some task), σ1) ->
  objs s.1 !! task = Some tk ->
  (RateLimiter.requests_per_second s.2 == 0)%Q ->
  (RateLimiter.refill s.2 t0 < 1)%Q ->
  let r := _process_next_task dl now t0 t1 (Sys w s.1 s.2) in
  let q := self s.1 in
  let q' := self (queue r.2) in
  r.1 = Returned tt
  /\ task_done σ1 task false = (Returned tt, queue r.2)
  /\ _pending_tasks q' !! task_id tk = None
  /\ (task_id tk ∈ _failed_tasks q')
  /\ total_failed (_stats q') = total_failed (_stats q) + 1
  /\ total_completed (_stats q') = total_completed (_stats q)
  /\ PriorityQueue._unfinished_tasks (_queue q')
     = PriorityQueue._unfinished_tasks (_queue q) - 1
  /\ objs (queue r.2) = objs s.1
  /\ tasks_failed (wstats (worker r.2)) = tasks_failed (wstats w) + 1
  /\ tasks_completed (wstats (worker r.2)) = tasks_completed (wstats w)
  /\ bytes_downloaded (wstats (worker r.2)) = bytes_downloaded (wstats w)
  /\ current_task (worker r.2) = None
  /\ (forall dl' : downloader,
        _process_next_task dl' now t0 t1 (Sys w s.1 s.2) = r).
Proof.
  intros Hnamed s Hget Hobj Hzero Hlt r q q'.
  destruct (Soundness.sound_run events
              (State tasks (DownloadQueue.new max_size), rl0)
              (Soundness.sound_new tasks max_size Hnamed))
    as (_ & Hacc & _).
  fold s in Hacc.
  destruct (Stranding.get_frame _ _ _ Hget) as (_ & Hobjs & _ & Hu).
  destruct (Worker.get_keeps_books _ _ _ Hget) as (_ & _ & Hf & Htc & Htf & _).
  pose proof (Accounting.get_owed _ _ _ Hget Hacc) as Howed.
  assert (Hobj1 : objs σ1 !! task = Some tk) by (by rewrite Hobjs).
  assert (Hpos : 0 < PriorityQueue._unfinished_tasks (_queue (self σ1)))
    by (unfold owed, PriorityQueue.qsize in Howed; lia).
  pose proof (acquire_raises s.2 t0 t1 Hzero Hlt) as Hacq.
  assert (Hround : forall dl' : downloader,
             _process_next_task dl' now t0 t1 (Sys w s.1 s.2)
             = (Returned tt,
                Sys (set_current_task None (add_failed (holding w task now)))
                    (task_done σ1 task false).2
                    (RateLimiter.acquire s.2 t0 t1).2)).
  { intros dl'.
    by apply (Rounds.round_limiter_fault dl' now t0 t1 (Sys w s.1 s.2) task tk σ1
                ZeroDivisionError). }
  destruct (Acknowledgement.task_done_books σ1 task tk false Hobj1)
    as (Hobjs' & Hpend' & _ & Hfail' & Htc' & Htf' & _).
  destruct (Acknowledgement.task_done_ending σ1 task tk false Hobj1) as [Hret _].
  destruct (Hret Hpos) as [Hr Hu'].
  subst r q q'. rewrite (Hround dl). simpl.
  split; [done|].
  split; [by destruct (task_done σ1 task false) as [o σ2]; simpl in *; subst|].
  split; [by rewrite Hpend', lookup_delete_eq|].
  split; [rewrite Hfail'; apply elem_of_union_l; by apply elem_of_singleton|].
  split; [rewrite Htf', Htf; lia|].
  split; [rewrite Htc', Htc; lia|].
  split; [rewrite Hu', Hu; lia|].
  split; [by rewrite Hobjs', Hobjs|].
  do 4 (split; [done|]).
  intros dl'. by rewrite (Hround dl').
Qed.

Lemma limiter_fault_fails_the_task_witness :
  let r := _process_next_task SampleWorker.succeeding 1 0 0
             (Sys (DownloadWorker.new "worker_1") Sample.queued
                  (RateLimiter.new 0 0 0)) in
  r.1 = Returned tt
  /\ ("chan_7" ∈ _failed_tasks (self (queue r.2)))
  /\ total_failed (_stats (self (queue r.2))) = 1
  /\ tasks_failed (wstats (worker r.2)) = 1.
Proof.
  destruct (limiter_fault_fails_the_task Sample.tasks 100 (RateLimiter.new 0 0 0)
              [Protocol.Submit 0%nat]
              (DownloadWorker.new "worker_1") SampleWorker.succeeding 1 0 0
              0%nat Sample.task0 Sample.dequeued)
    as (Hret & _ & _ & Hin & Htf & _ & _ & _ & Hwf & _);
    [compute_done|vm_compute; reflexivity|vm_compute; reflexivity|
     vm_compute; reflexivity|vm_compute; reflexivity|].
  split; [exact Hret|]. split; [exact Hin|].
  split; [etrans; [exact Htf|vm_compute; reflexivity]|exact Hwf].
Defined.

(** X11.  When the download fails on the last attempt of a task (its attempt
    counter reaches [max_attempts]), the round fails the task: the counter
    is raised, the priority is left alone, the identity leaves the pending
    map and enters the failed set, [total_failed] and the worker's failure
    count rise by one, and the entry is acknowledged. *)
Theorem last_attempt_fails_the_task
        (tasks : store) (max_size : Z) (rl0 : RateLimiter.t)
        (events : list Protocol.event)
        (w : DownloadWorker.t) (dl : downloader) (now : Z) (t0 t1 : Q)
        (task : ref) (tk : DownloadTask.t) (σ1 : state) :
  named tasks ->
  let s := Protocol.run (State tasks (DownloadQueue.new max_size), rl0) events in
  get s.1 = (Returned (Some task), σ1) ->
  objs s.1 !! task = Some tk ->
  DownloadTask.max_attempts tk <= DownloadTask.attempts tk + 1 ->
  (RateLimiter.acquire s.2 t0 t1).1.1 = Returned tt ->
  download_fails dl tk ->
  let r := _process_next_task dl now t0 t1 (Sys w s.1 s.2) in
  let q := self s.1 in
  let q' := self (queue r.2) in
  r.1 = Returned tt
  /\ objs (queue r.2) !! task
     = Some (DownloadTask.set_attempts (DownloadTask.attempts tk + 1) tk)
  /\ _pending_tasks q' !! task_id tk = None
  /\ (task_id tk ∈ _failed_tasks q')
  /\ _completed_tasks q' = _completed_tasks q
  /\ total_failed (_stats q') = total_failed (_stats q) + 1
  /\ total_completed (_stats q') = total_completed (_stats q)
  /\ PriorityQueue._unfinished_tasks (_queue q')
     = PriorityQueue._unfinished_tasks (_queue q) - 1
  /\ (task ∉ heap_of (queue r.2))
  /\ tasks_failed (wstats (worker r.2)) = tasks_failed (wstats w) + 1
  /\ tasks_completed (wstats (worker r.2)) = tasks_completed (wstats w)
  /\ bytes_downloaded (wstats (worker r.2)) = bytes_downloaded (wstats w)
  /\ current_task (worker r.2) = None.
Proof.
  intros Hnamed s Hget Hobj Hle Hacq Hfails r q q'.
  destruct (Soundness.sound_run events
              (State tasks (DownloadQueue.new max_size), rl0)
              (Soundness.sound_new tasks max_size Hnamed))
    as (Hnamed' & Hacc & Hreg & _).
  fold s in Hnamed', Hacc, Hreg.
  destruct (Stranding.get_frame _ _ _ Hget) as (_ & Hobjs & _ & Hu).
  destruct (Worker.get_keeps_books _ _ _ Hget) as (_ & Hc & Hf & Htc & Htf & _).
  destruct (Registry.get_in_flight _ _ _ Hreg Hget)
    as (tk' & Hobj' & _ & _ & Hnot & _).
  pose proof (Accounting.get_owed _ _ _ Hget Hacc) as Howed.
  assert (Hobj1 : objs σ1 !! task = Some tk) by (by rewrite Hobjs).
  assert (Hpos : 0 < PriorityQueue._unfinished_tasks (_queue (self σ1)))
    by (unfold owed, PriorityQueue.qsize in Howed; lia).
  set (tk1 := DownloadTask.set_attempts (DownloadTask.attempts tk + 1) tk).
  set (σ2 := State (<[task := tk1]> (objs σ1)) (self σ1)).
  destruct (Rounds.round_retry_exhausted dl now t0 t1 (Sys w s.1 s.2) task tk σ1
              (holding w task now)) as [Hround _]; try done.
  { by apply (Hnamed' task tk). }
  { by apply Rounds.download_fails_false. }
  cbv zeta in Hround. fold tk1 σ2 in Hround.
  assert (Hobj2 : objs σ2 !! task = Some tk1) by apply lookup_insert_eq.
  destruct (Acknowledgement.task_done_books σ2 task tk1 false Hobj2)
    as (Hobjs' & Hpend' & Hc' & Hfail' & Htc' & Htf' & _ & _ & Hheap' & _).
  destruct (Acknowledgement.task_done_ending σ2 task tk1 false Hobj2) as [Hret _].
  destruct (Hret Hpos) as [_ Hu'].
  subst r q q'. rewrite Hround. simpl.
  split; [done|].
  split; [by rewrite Hobjs'|].
  split; [rewrite Hpend'; apply lookup_delete_eq|].
  split; [rewrite Hfail'; apply elem_of_union_l; by apply elem_of_singleton|].
  split; [by rewrite Hc'|].
  split; [rewrite Htf'; simpl; rewrite Htf; lia|].
  split; [rewrite Htc'; simpl; rewrite Htc; lia|].
  split; [rewrite Hu'; simpl; rewrite Hu; lia|].
  split; [unfold heap_of in *; by rewrite Hheap'|].
  done.
Qed.

Lemma last_attempt_fails_the_task_witness :
  let r := _process_next_task SampleRun.failing 1 0 0
             (Sys (DownloadWorker.new "worker_1") SampleLast.queued
                  (RateLimiter.new 2 5 0)) in
  r.1 = Returned tt
  /\ ("chan_9" ∈ _failed_tasks (self (queue r.2)))
  /\ _pending_tasks (self (queue r.2)) !! "chan_9" = None
  /\ tasks_failed (wstats (worker r.2)) = 1.
Proof.
  destruct (last_attempt_fails_the_task {[ 0%nat := SampleLast.task ]} 100
              (RateLimiter.new 2 5 0) [Protocol.Submit 0%nat]
              (DownloadWorker.new "worker_1") SampleRun.failing 1 0 0
              0%nat SampleLast.task SampleLast.dequeued)
    as (Hret & _ & Hp & Hin & _ & _ & _ & _ & _ & Hwf & _);
    [compute_done|vm_compute; reflexivity|vm_compute; reflexivity|
     vm_compute; done|vm_compute; reflexivity|vm_compute; done|].
  split; [exact Hret|]. split; [exact Hin|].
  split; [etrans; [|exact Hp]; vm_compute; reflexivity|exact Hwf].
Defined.

End Failing.

(** ** Tasks as the coordinator creates them never fail *)

Module Unfailing.
Import DownloadQueue DownloadWorker Notions.

Lemma unfailed_step (s : state * RateLimiter.t) (e : Protocol.event) :
  sound s.1 -> unfailed s -> unfailed (Protocol.step s e).
Proof.
  intros (Hnamed & Hacc & Hreg & _) (Hsp & Hf & Htf & Hrate).
  destruct e as [r|w dl now t0 t1]; simpl.
  - destruct (Stranding.put_frame s.1 r)
      as [->|(tkr & p & Hobjr & Hnone & Hobjs & Hcase)]; [done|].
    assert (Hleft : DownloadTask.attempts tkr + 1 < DownloadTask.max_attempts tkr).
    { destruct (Hsp r tkr Hobjr) as [?|[Hp _]]; [done|congruence]. }
    unfold unfailed, spared. simpl. rewrite Hobjs.
    destruct Hcase as [Hself|(Hheap & Hpend & _)].
    + unfold heap_of. rewrite Hself. split; [|done].
      intros r' tk' [[-> <-]|[Hne Hobj']]%lookup_insert_Some; [by left|].
      destruct (Hsp r' tk' Hobj') as [?|[Hp Hnot]]; [by left|by right].
    + split.
      { intros r' tk' [[-> <-]|[Hne Hobj']]%lookup_insert_Some; [by left|].
        destruct (Hsp r' tk' Hobj') as [?|[Hp Hnot]]; [by left|right].
        rewrite Hpend, Hheap.
        assert (task_id tkr <> task_id tk') by congruence.
        split; [by rewrite lookup_insert_ne|].
        intros [?|?]%elem_of_cons; [by subst|done]. }
      unfold put in *. rewrite Hobjr in *. fold (task_id tkr) in *.
      rewrite Hnone in *.
      rewrite (bool_decide_eq_false_2 (is_Some None)) in *
        by (intros [? ?]; done).
      simpl in *. destruct (bool_decide _); [done|].
      destruct (size_priority _); [done|].
      destruct (PriorityQueue.put _ _ _); done.
  - destruct (Table.round_table dl now t0 t1 (Sys w s.1 s.2) Hnamed Hacc Hreg)
      as [[_ ->]|(r & tkr & σ1 & Hget & Hobjr & Hpendr & Hfl & _ & Hcase)];
      [done|].
    simpl in Hget, Hcase.
    destruct (Stranding.get_frame _ _ _ Hget) as (Hheap & Hobjs & Hpend & _).
    destruct (Worker.get_keeps_books _ _ _ Hget) as (_ & _ & Hf1 & _ & Htf1 & _).
    destruct Hfl as (_ & Hnotr & _).
    assert (Hin : r ∈ heap_of s.1) by (rewrite Hheap; by left).
    assert (Hleft : DownloadTask.attempts tkr + 1 < DownloadTask.max_attempts tkr).
    { rewrite Hobjs in Hobjr.
      destruct (Hsp r tkr Hobjr) as [?|[_ Hnot]]; [done|by destruct Hnot]. }
    assert (Hothers : forall r' tk', r' <> r -> objs s.1 !! r' = Some tk' ->
              DownloadTask.attempts tk' + 1 < DownloadTask.max_attempts tk'
              \/ (_pending_tasks (self σ1) !! task_id tk' = Some r'
                  /\ task_id tk' <> task_id tkr
                  /\ (r' ∉ heap_of σ1))).
    { intros r' tk' Hne Hobj'.
      destruct (Hsp r' tk' Hobj') as [?|[Hp Hnot]]; [by left|right].
      split; [by rewrite Hpend|].
      split; [intros Heq; rewrite Heq in Hp; rewrite Hpend in Hpendr; congruence|].
      intros Hin'. apply Hnot. rewrite Hheap. by right. }
    assert (Hrate' : ~ (RateLimiter.requests_per_second
                          (RateLimiter.acquire s.2 t0 t1).2 == 0)%Q)
      by (by rewrite Failing.acquire_rate).
    destruct Hcase as [(e & σ2 & Hacq & _)|[(w2 & σ2 & _ & _ & Hdone & ->)
                      |[(w2 & σ2 & _ & _ & Hle & _)|(w2 & _ & _ & _ & ->)]]].
    + by apply Failing.acquire_raises_inv in Hacq.
    + destruct (Acknowledgement.task_done_books σ1 r tkr true Hobjr)
        as (Hobjs' & Hpend' & _ & Hfail' & _ & Htf' & _ & _ & Hheap' & _).
      rewrite Hdone in *. simpl in *.
      unfold unfailed, spared, heap_of in *. simpl.
      rewrite Hobjs', Hpend', Hheap', Hfail', Htf', Hf1, Htf1, Hobjs.
      split; [|split; [done|split; [lia|done]]].
      intros r' tk' Hobj'.
      destruct (decide (r' = r)) as [->|Hne].
      { left. rewrite Hobjs in Hobjr. congruence. }
      destruct (Hothers r' tk' Hne Hobj') as [?|(Hp & Hid & Hnot)]; [by left|].
      right. split; [by rewrite lookup_delete_ne|done].
    + lia.
    + unfold unfailed, spared, heap_of in *. simpl.
      rewrite Hf1, Htf1, Hobjs.
      split; [|done].
      intros r' tk' [[-> <-]|[Hne Hobj']]%lookup_insert_Some.
      { right. by split. }
      destruct (Hothers r' tk' (not_eq_sym Hne) Hobj') as [?|(Hp & Hid & Hnot)];
        [by left|].
      right. by split.
Qed.

Lemma unfailed_run (es : list Protocol.event) (s : state * RateLimiter.t) :
  sound s.1 -> unfailed s -> unfailed (Protocol.run s es).
Proof.
  revert s. induction es as [|e es IH]; intros s Hs Hu; [done|].
  simpl. apply IH; [by apply Soundness.sound_step|by apply unfailed_step].
Qed.

(** X12.  When every task object submitted has at least two attempts left
    (those the coordinator creates have three) and the rate of the limiter
    is not zero, the queue never records a failure, whatever the downloads
    report: in every run of submissions and worker rounds the failed set is
    empty and [total_failed] is 0. *)
Theorem no_failure_is_ever_recorded
        (tasks : store) (max_size : Z) (rl0 : RateLimiter.t)
        (events : list Protocol.event) :
  named tasks ->
  (forall task tk, tasks !! task = Some tk ->
     DownloadTask.attempts tk + 1 < DownloadTask.max_attempts tk) ->
  ~ (RateLimiter.requests_per_second rl0 == 0)%Q ->
  let q := self (Protocol.run (State tasks (DownloadQueue.new max_size), rl0) events).1 in
  _failed_tasks q = ∅
  /\ total_failed (_stats q) = 0
  /\ failed_tasks (get_stats q) = 0.
Proof.
  intros Hnamed Hleft Hrate q.
  destruct (unfailed_run events (State tasks (DownloadQueue.new max_size), rl0))
    as (_ & Hf & Htf & _).
  - by apply Soundness.sound_new.
  - split; [intros r tk Hobj; left; by apply (Hleft r tk)|done].
  - subst q. unfold get_stats. simpl. rewrite Hf. done.
Qed.

Lemma no_failure_is_ever_recorded_witness :
  let q := self (Protocol.run (Sample.fresh, RateLimiter.new 2 5 0)
                   [Protocol.Submit 0%nat; Protocol.Submit 1%nat;
                    Protocol.Round (DownloadWorker.new "worker_1")
                                   SampleRun.failing 1 0 0;
                    Protocol.Round (DownloadWorker.new "worker_2")
                                   SampleRun.failing 2 0 0]).1 in
  _failed_tasks q = ∅
  /\ total_failed (_stats q) = 0
  /\ PriorityQueue._heap (_queue q) = []
  /\ total_completed (_stats q) = 0.
Proof.
  destruct (no_failure_is_ever_recorded Sample.tasks 100 (RateLimiter.new 2 5 0)
              [Protocol.Submit 0%nat; Protocol.Submit 1%nat;
               Protocol.Round (DownloadWorker.new "worker_1")
                              SampleRun.failing 1 0 0;
               Protocol.Round (DownloadWorker.new "worker_2")
                              SampleRun.failing 2 0 0])
    as (Hf & Htf & _).
  - compute_done.
  - intros task tk Hobj.
    apply (map_Forall_lookup_1
             (fun (_ : ref) tk => DownloadTask.attempts tk + 1
                                  < DownloadTask.max_attempts tk)
             Sample.tasks task tk); [compute_done|exact Hobj].
  - vm_compute; discriminate.
  - split; [exact Hf|]. split; [exact Htf|]. split; vm_compute; reflexivity.
Defined.

End Unfailing.

(** ** The counters of the pool and of the queue *)

Module Ledger.
Import DownloadQueue DownloadWorker Notions.

Lemma sum_of_insert (f : DownloadWorker.t -> Z) (ws : list DownloadWorker.t)
      (i : nat) (w w' : DownloadWorker.t) :
  ws !! i = Some w ->
  WorkerPool.sum_of f (<[i := w']> ws) = WorkerPool.sum_of f ws - f w + f w'.
Proof.
  revert i. induction ws as [|w0 ws IH]; intros [|i] Hi; simplify_eq/=.
  - lia.
  - rewrite (IH i Hi). lia.
Qed.

Lemma sum_of_fmap_zero {A} (f : DownloadWorker.t -> Z) (g : A -> DownloadWorker.t)
      (l : list A) :
  (forall a, f (g a) = 0) -> WorkerPool.sum_of f (g <$> l) = 0.
Proof.
  intros Hz. unfold WorkerPool.sum_of.
  induction l as [|a l IH]; [done|].
  rewrite fmap_cons. cbn [foldr]. rewrite Hz, IH. done.
Qed.

Lemma sum_of_bounds (f : DownloadWorker.t -> Z) (ws : list DownloadWorker.t) :
  (forall w, 0 <= f w <= 1) ->
  0 <= WorkerPool.sum_of f ws <= Z.of_nat (length ws).
Proof.
  intros Hf. induction ws as [|w ws IH]; simpl; [lia|].
  specialize (Hf w). lia.
Qed.

Lemma task_done_ledger (σ σ' : state) (task : ref) (tk : DownloadTask.t)
      (success : bool) :
  objs σ !! task = Some tk ->
  task_done σ task success = (Returned tt, σ') ->
  total_completed (_stats (self σ'))
  = total_completed (_stats (self σ)) + (if success then 1 else 0)
  /\ total_failed (_stats (self σ'))
     = total_failed (_stats (self σ)) + (if success then 0 else 1)
  /\ PriorityQueue._unfinished_tasks (_queue (self σ'))
     = PriorityQueue._unfinished_tasks (_queue (self σ)) - 1
  /\ PriorityQueue.qsize (_queue (self σ')) = PriorityQueue.qsize (_queue (self σ)).
Proof.
  intros Hobj Hdone.
  destruct (Acknowledgement.task_done_books σ task tk success Hobj)
    as (_ & _ & _ & _ & Htc & Htf & _ & _ & Hheap & _).
  destruct (Acknowledgement.task_done_ending σ task tk success Hobj)
    as [Hret Hraise].
  rewrite Hdone in *. simpl in *.
  split; [done|]. split; [done|].
  split; [|unfold PriorityQueue.qsize; by rewrite Hheap].
  destruct (Z.lt_ge_cases 0 (PriorityQueue._unfinished_tasks (_queue (self σ))))
    as [Hpos|Hnpos]; [by apply Hret|by destruct (Hraise Hnpos)].
Qed.

(** One round moves the counters of its worker as it moves those of the
    queue. *)
Lemma round_ledger (dl : downloader) (now : Z) (t0 t1 : Q) (s : sys) :
  named (objs (queue s)) -> accounted (self (queue s)) -> registered (queue s) ->
  let r := (_process_next_task dl now t0 t1 s).2 in
  let unacknowledged (σ : state) :=
    PriorityQueue._unfinished_tasks (_queue (self σ))
    - PriorityQueue.qsize (_queue (self σ)) in
  tasks_completed (wstats (worker r)) - tasks_completed (wstats (worker s))
  = total_completed (_stats (self (queue r)))
    - total_completed (_stats (self (queue s)))
  /\ tasks_failed (wstats (worker r)) - tasks_failed (wstats (worker s))
     = total_failed (_stats (self (queue r))) - total_failed (_stats (self (queue s)))
       + unacknowledged (queue r) - unacknowledged (queue s)
  /\ DownloadWorker.is_running (worker r) = DownloadWorker.is_running (worker s).
Proof.
  intros Hnamed Hacc Hreg r unack.
  destruct (Table.round_table dl now t0 t1 s Hnamed Hacc Hreg)
    as [[_ Hr]|(task & tk & σ1 & Hget & Hobj & _ & _ & _ & Hcase)].
  { subst r unack. rewrite Hr. simpl. repeat split; lia. }
  destruct (Stranding.get_frame _ _ _ Hget) as (Hheap & _ & _ & Hu).
  destruct (Worker.get_keeps_books _ _ _ Hget) as (_ & _ & _ & Htc & Htf & _).
  assert (Hsize : PriorityQueue.qsize (_queue (self σ1))
                  = PriorityQueue.qsize (_queue (self (queue s))) - 1).
  { unfold PriorityQueue.qsize, heap_of in *.
    apply Permutation_length in Hheap. simpl in Hheap. lia. }
  subst r unack.
  destruct Hcase as [(e & σ2 & _ & Hdone & ->)|[(w2 & σ2 & _ & Hfile & Hdone & ->)
                    |[(w2 & σ2 & _ & Hfile & _ & Hdone & ->)
                     |(w2 & _ & Hfile & _ & ->)]]]; simpl.
  - destruct (task_done_ledger _ _ _ _ _ Hobj Hdone) as (Htc' & Htf' & Hu' & Hq').
    rewrite Htc', Htf', Hu', Hq', Htc, Htf, Hu, Hsize. repeat split; lia.
  - destruct (Table._download_file_counts _ _ _ _ _ Hfile) as (Hc & Hf & _ & Hrun).
    destruct (task_done_ledger _ _ _ _ _ Hobj Hdone) as (Htc' & Htf' & Hu' & Hq').
    rewrite Htc', Htf', Hu', Hq', Htc, Htf, Hu, Hsize, Hc, Hf, Hrun.
    simpl. repeat split; lia.
  - destruct (Table._download_file_counts _ _ _ _ _ Hfile) as (Hc & Hf & _ & Hrun).
    destruct (task_done_ledger _ _ _ _ _ (lookup_insert_eq _ _ _) Hdone)
      as (Htc' & Htf' & Hu' & Hq').
    simpl in Htc', Htf', Hu', Hq'.
    rewrite Htc', Htf', Hu', Hq', Htc, Htf, Hu, Hsize, Hc, Hf, Hrun.
    simpl. repeat split; lia.
  - destruct (Table._download_file_counts _ _ _ _ _ Hfile) as (Hc & Hf & _ & Hrun).
    rewrite Htc, Htf, Hu, Hsize, Hc, Hf, Hrun. simpl. repeat split; lia.
Qed.

Lemma pool_step_sound (p : Pool.t) (e : Pool.event) :
  sound (Pool.queue p) -> sound (Pool.queue (Pool.step p e)).
Proof.
  intros Hs. destruct e as [task|i now|i|i dl now t0 t1]; simpl.
  - apply (Soundness.sound_step (Pool.queue p, Pool.rate_limiter p)
             (Protocol.Submit task) Hs).
  - by destruct (Pool.workers p !! i).
  - by destruct (Pool.workers p !! i).
  - destruct (Pool.workers p !! i) as [w|]; [|done].
    destruct (DownloadWorker.is_running w); [|done].
    apply (Soundness.sound_step (Pool.queue p, Pool.rate_limiter p)
             (Protocol.Round w dl now t0 t1) Hs).
Qed.

Lemma ledger_step (p : Pool.t) (e : Pool.event) :
  sound (Pool.queue p) -> ledger p -> ledger (Pool.step p e).
Proof.
  intros (Hnamed & Hacc & Hreg & _) [Hc Hf].
  destruct e as [task|i now|i|i dl now t0 t1]; simpl.
  - unfold ledger. simpl.
    destruct (Accounting.put_accounting (Pool.queue p) task) as (_ & _ & Hq).
    assert (Hst : total_completed (_stats (self (put (Pool.queue p) task).2))
                  = total_completed (_stats (self (Pool.queue p)))
                  /\ total_failed (_stats (self (put (Pool.queue p) task).2))
                     = total_failed (_stats (self (Pool.queue p)))).
    { unfold put. repeat (case_match; simpl; try done). }
    destruct Hst as [-> ->]. simpl in Hq.
    destruct Hq as [->|[-> ->]]; split; lia.
  - destruct (Pool.workers p !! i) as [w|] eqn:Hw; [|done].
    unfold ledger. simpl.
    rewrite !(sum_of_insert _ _ _ _ _ Hw). simpl. split; lia.
  - destruct (Pool.workers p !! i) as [w|] eqn:Hw; [|done].
    unfold ledger. simpl.
    rewrite !(sum_of_insert _ _ _ _ _ Hw). simpl. split; lia.
  - destruct (Pool.workers p !! i) as [w|] eqn:Hw; [|done].
    destruct (DownloadWorker.is_running w); [|done].
    destruct (round_ledger dl now t0 t1 (Sys w (Pool.queue p) (Pool.rate_limiter p))
                Hnamed Hacc Hreg) as (Hc' & Hf' & _).
    simpl in Hc', Hf'.
    unfold ledger. simpl.
    rewrite !(sum_of_insert _ _ _ _ _ Hw). split; lia.
Qed.

End Ledger.

(** ** The counters of the pool while tasks are in hand *)

Module Tally.
Import DownloadQueue DownloadWorker Notions Stepwise.

(** The steps of a round make up the round. *)
Lemma round_in_steps (dl : downloader) (now : Z) (t0 t1 : Q) (s : sys) :
  (_process_next_task dl now t0 t1 s).2 = round dl now t0 t1 s.
Proof.
  unfold _process_next_task, round, take, limit, finish.
  destruct (get (DownloadWorker.queue s)) as [[[task|]|e|] σ1]; try done.
  cbn [DownloadWorker.rate_limiter DownloadWorker.queue worker].
  destruct (RateLimiter.acquire _ _ _) as [[[u|e|] slept] rl]; try done.
  cbn [DownloadWorker.rate_limiter DownloadWorker.queue worker snd].
  destruct (objs σ1 !! task) as [tk|]; [|done].
  destruct (_download_file _ _ _) as [[|] w2].
  - destruct (task_done σ1 task true) as [[u'|e|] σ2]; try done.
    by destruct (has_filename tk).
  - destruct (retry_task σ1 task) as [[[|]|e|] σ2]; try done.
    by destruct (has_filename tk).
Qed.

(** *** The queue operations on audited books *)

Lemma audited_perm (σ : state) (hs hs' : list ref) (c f : Z) :
  hs ≡ₚ hs' -> audited σ hs c f -> audited σ hs' c f.
Proof.
  intros Hp (Hn & Hnd & Hreg & Hex & Hbal & Hrec & Hdom & Hc & Hf & Hm).
  split; [done|]. split; [by rewrite <- Hp|].
  split; [intros r Hr; apply Hreg; by rewrite Hp|].
  do 5 (split; [done|]). split; [|done].
  by rewrite <- (Permutation_length Hp).
Qed.

Lemma audited_put (σ : state) (task : ref) (hs : list ref) (c f : Z) :
  audited σ hs c f -> audited (put σ task).2 hs c f.
Proof.
  intros Ha.
  pose proof Ha as (Hn & Hnd & Hreg & Hex & Hbal & Hrec & Hdom & Hc & Hf & Hm).
  pose proof (Exclusion.exclusive_put σ task Hex) as Hex'.
  destruct (Soundness.put_books σ task Hex Hbal Hrec) as [Hbal' Hrec'].
  pose proof (Domination.dominated_put σ task Hdom) as Hdom'.
  destruct (Accounting.put_accounting σ task) as (Hn' & _ & _).
  specialize (Hn' Hn).
  assert (Hst : total_completed (_stats (self (put σ task).2))
                = total_completed (_stats (self σ))
                /\ total_failed (_stats (self (put σ task).2))
                   = total_failed (_stats (self σ))).
  { unfold put. repeat (case_match; simpl; try done). }
  destruct Hst as [Htc Htf].
  destruct (Stranding.put_frame σ task)
    as [Hsame|(tk & p & Hobj & Hnone & Hobjs & Hself)].
  { by rewrite Hsame. }
  assert (Hout : task ∉ heap_of σ ++ hs).
  { intros Hin. destruct (Hreg task Hin) as (tk' & Hobj' & Hp').
    rewrite Hobj in Hobj'. injection Hobj' as <-. by rewrite Hnone in Hp'. }
  assert (Hreg' : forall r, r ∈ heap_of σ ++ hs ->
            exists tk', objs (put σ task).2 !! r = Some tk'
                        /\ _pending_tasks (self σ) !! task_id tk' = Some r).
  { intros r Hr. destruct (Hreg r Hr) as (tk' & Hobj' & Hp').
    exists tk'. split; [|done]. rewrite Hobjs.
    rewrite lookup_insert_ne; [done|]. by intros ->. }
  split; [done|].
  destruct Hself as [Hself|(Hheap & Hpend & Hu)].
  - unfold heap_of. rewrite Hself. fold (heap_of σ).
    split; [done|]. split; [done|].
    rewrite Hself in *. do 6 (split; [done|]). done.
  - split; [rewrite Hheap; simpl; by apply NoDup_cons|].
    split.
    + intros r. rewrite Hheap. simpl. intros [->|Hr]%elem_of_cons.
      * exists (DownloadTask.set_priority p tk).
        rewrite Hobjs, lookup_insert_eq, Hpend. split; [done|].
        apply lookup_insert_eq.
      * destruct (Hreg' r Hr) as (tk' & Hobj' & Hp').
        exists tk'. split; [done|]. rewrite Hpend.
        rewrite lookup_insert_ne; [done|]. intros Heq.
        rewrite <- Heq, Hnone in Hp'. done.
    + do 4 (split; [done|]). rewrite Htc, Htf. split; [done|].
      split; [|done]. rewrite Hu.
      unfold PriorityQueue.qsize in *. unfold heap_of in Hheap.
      apply Permutation_length in Hheap. simpl in Hheap. lia.
Qed.

Lemma audited_get (σ σ1 : state) (task : ref) (hs : list ref) (c f : Z) :
  get σ = (Returned (Some task), σ1) ->
  audited σ hs c f -> audited σ1 (task :: hs) c f.
Proof.
  intros Hget (Hn & Hnd & Hreg & Hex & Hbal & Hrec & Hdom & Hc & Hf & Hm).
  destruct (Stranding.get_frame _ _ _ Hget) as (Hheap & Hobjs & Hpend & Hu).
  destruct (Worker.get_keeps_books _ _ _ Hget) as (_ & Hcs & Hfs & Htc & Htf & _).
  pose proof (Exclusion.exclusive_get σ Hex) as Hex'.
  pose proof (Domination.dominated_get σ Hdom) as Hdom'.
  rewrite Hget in Hex', Hdom'. simpl in Hex', Hdom'.
  assert (Hta : total_added (_stats (self σ1)) = total_added (_stats (self σ))).
  { revert Hget. unfold get. destruct (PriorityQueue.get _ _) as [[? ?]|]; [|done].
    by intros [= _ <-]. }
  assert (Hperm : heap_of σ ++ hs ≡ₚ heap_of σ1 ++ task :: hs).
  { rewrite Hheap. simpl. by rewrite Permutation_middle. }
  unfold audited. cbv zeta. rewrite Hobjs.
  split; [done|]. split; [by rewrite <- Hperm|].
  split; [intros r Hr; rewrite Hpend; apply Hreg; by rewrite Hperm|].
  split; [done|].
  split; [unfold balanced in *; by rewrite Hu, Htc, Htf, Hta|].
  split; [unfold reconciled in *; by rewrite Hcs, Htc|].
  split; [done|]. rewrite Htc, Htf, Hu. split; [done|]. split; [|done].
  unfold PriorityQueue.qsize in *. unfold heap_of in Hheap.
  apply Permutation_length in Hheap. simpl in *. lia.
Qed.

Lemma get_outcomes (σ : state) :
  (exists task σ1, get σ = (Returned (Some task), σ1))
  \/ get σ = (Suspended, σ).
Proof.
  unfold get. destruct (PriorityQueue.get _ _) as [[task pq]|]; eauto.
Qed.

(** The tasks in hand are still to be acknowledged. *)
Lemma audited_unfinished (σ : state) (task : ref) (hs : list ref) (c f : Z) :
  audited σ (task :: hs) c f ->
  0 < PriorityQueue._unfinished_tasks (_queue (self σ)).
Proof.
  intros (_ & _ & _ & _ & _ & _ & _ & _ & Hf & Hm).
  unfold PriorityQueue.qsize in Hf. simpl in Hf. lia.
Qed.

Lemma audited_lookup (σ : state) (task : ref) (hs : list ref) (c f : Z) :
  audited σ (task :: hs) c f ->
  exists tk, objs σ !! task = Some tk
             /\ _pending_tasks (self σ) !! task_id tk = Some task
             /\ has_filename tk = true.
Proof.
  intros (Hn & _ & Hreg & _).
  destruct (Hreg task) as (tk & Hobj & Hp).
  { apply elem_of_app. right. apply elem_of_cons. by left. }
  exists tk. split; [done|]. split; [done|]. by apply (Hn task tk).
Qed.

Lemma audited_task_done (σ : state) (task : ref) (hs : list ref) (c f : Z)
      (success : bool) :
  audited σ (task :: hs) c f ->
  exists σ',
    task_done σ task success = (Returned tt, σ')
    /\ audited σ' hs (c + (if success then 1 else 0))
                     (f + (if success then 0 else 1)).
Proof.
  intros Ha.
  pose proof (audited_unfinished _ _ _ _ _ Ha) as Hu.
  destruct (audited_lookup _ _ _ _ _ Ha) as (tk & Hobj & Hp & _).
  destruct Ha as (Hn & Hnd & Hreg & Hex & Hbal & Hrec & Hdom & Hc & Hf & Hm).
  destruct (Acknowledgement.task_done_ending σ task tk success Hobj) as [Hret _].
  destruct (Hret Hu) as [Hr Hu'].
  destruct (Acknowledgement.task_done_books σ task tk success Hobj)
    as (Hobjs & Hpend & _ & _ & Htc & Htf & _ & _ & Hheap & _).
  pose proof (Exclusion.exclusive_task_done σ task success Hex) as Hex'.
  pose proof (Domination.dominated_task_done σ task success Hdom) as Hdom'.
  destruct (task_done σ task success) as [o σ'] eqn:Hdone.
  simpl in *. subst o. exists σ'. split; [done|].
  pose proof (Soundness.balanced_task_done σ σ' task tk success Hobj Hdone Hbal)
    as Hbal'.
  assert (Hrec' : reconciled (self σ'))
    by (eapply Soundness.reconciled_task_done; eauto).
  assert (Hheap' : heap_of σ' = heap_of σ) by done.
  apply NoDup_app in Hnd as (Hnd1 & Hdisj & Hnd2).
  apply NoDup_cons in Hnd2 as [Hout2 Hnd2].
  unfold audited. cbv zeta. rewrite Hobjs. split; [done|].
  split.
  { rewrite Hheap'. apply NoDup_app. split; [done|]. split; [|done].
    intros r Hr Hin. apply (Hdisj r Hr). apply elem_of_cons. by right. }
  split.
  { intros r Hr. rewrite Hheap' in Hr.
    assert (Hr' : r ∈ heap_of σ ++ task :: hs).
    { apply elem_of_app in Hr as [Hr|Hr]; apply elem_of_app;
        [by left|right; apply elem_of_cons; by right]. }
    destruct (Hreg r Hr') as (tk' & Hobj' & Hp').
    exists tk'. split; [done|]. rewrite Hpend.
    rewrite lookup_delete_ne; [done|]. intros Heq.
    rewrite <- Heq, Hp in Hp'. injection Hp' as <-.
    apply elem_of_app in Hr as [Hr|Hr]; [|done].
    apply (Hdisj _ Hr). apply elem_of_cons. by left. }
  do 4 (split; [done|]).
  rewrite Htc, Htf, Hu'. unfold PriorityQueue.qsize in *. rewrite Hheap.
  simpl in Hf.
  destruct success; (split; [lia|]); split; lia.
Qed.

Lemma audited_update (σ : state) (task : ref) (tk tk' : DownloadTask.t)
      (hs : list ref) (c f : Z) :
  objs σ !! task = Some tk ->
  DownloadTask.media_info tk' = DownloadTask.media_info tk ->
  audited σ hs c f ->
  audited (State (<[task := tk']> (objs σ)) (self σ)) hs c f.
Proof.
  intros Hobj Hmi (Hn & Hnd & Hreg & Hrest).
  split; [by apply (Accounting.named_insert _ task tk)|].
  split; [done|]. split; [|done].
  intros r Hr. destruct (Hreg r Hr) as (tkr & Hobjr & Hpr). simpl.
  destruct (decide (task = r)) as [<-|Hne].
  - exists tk'. rewrite lookup_insert_eq. split; [done|].
    unfold task_id. rewrite Hmi. by simplify_eq.
  - exists tkr. by rewrite lookup_insert_ne.
Qed.

Lemma audited_drop (σ : state) (task : ref) (hs : list ref) (c f : Z) :
  audited σ (task :: hs) c f -> audited σ hs c (f + 1).
Proof.
  intros (Hn & Hnd & Hreg & Hex & Hbal & Hrec & Hdom & Hc & Hf & Hm).
  split; [done|].
  apply NoDup_app in Hnd as (Hnd1 & Hdisj & Hnd2).
  apply NoDup_cons in Hnd2 as [Hout2 Hnd2].
  split.
  { apply NoDup_app. split; [done|]. split; [|done].
    intros r Hr Hin. apply (Hdisj r Hr). apply elem_of_cons. by right. }
  split.
  { intros r Hr. apply Hreg.
    apply elem_of_app in Hr as [Hr|Hr]; apply elem_of_app;
      [by left|right; apply elem_of_cons; by right]. }
  do 5 (split; [done|]). simpl in Hf. split; lia.
Qed.

Lemma audited_retry_task (σ : state) (task : ref) (hs : list ref) (c f : Z) :
  audited σ (task :: hs) c f ->
  exists σ',
    retry_task σ task = (Returned false, σ') /\ audited σ' hs c (f + 1).
Proof.
  intros Ha.
  destruct (audited_lookup _ _ _ _ _ Ha) as (tk & Hobj & Hp & _).
  destruct (Z.lt_ge_cases (DownloadTask.attempts tk + 1)
                          (DownloadTask.max_attempts tk)) as [Hlt|Hge].
  - eexists. split.
    + apply Retry.retry_task_below_bound; [done|left; by eauto|done].
    + apply (audited_drop _ task). by apply (audited_update _ _ tk).
  - destruct (Retry.retry_task_at_bound σ task tk Hobj Hge) as [Hst Hout].
    cbv zeta in Hst, Hout.
    set (tk1 := DownloadTask.set_attempts (DownloadTask.attempts tk + 1) tk) in *.
    set (σ1 := State (<[task := tk1]> (objs σ)) (self σ)) in *.
    assert (Ha1 : audited σ1 (task :: hs) c f) by (by apply (audited_update _ _ tk)).
    destruct (audited_task_done σ1 task hs c f false Ha1) as (σ' & Hdone & Ha').
    rewrite Hdone in Hst, Hout. simpl in Hst, Hout.
    exists σ'. split.
    + destruct (retry_task σ task) as [o τ]. simpl in *. by subst.
    + by rewrite Z.add_0_r in Ha'.
Qed.

(** *** The workers of the pool *)

Lemma held_insert (ws : list (DownloadWorker.t * stage)) (i : nat)
      (w w' : DownloadWorker.t) (st st' : stage) :
  ws !! i = Some (w, st) ->
  let hs := omap (fun ws => holds ws.2) ws in
  let hs' := omap (fun ws => holds ws.2) (<[i := (w', st')]> ws) in
  match holds st, holds st' with
  | None, None => hs' = hs
  | None, Some task => hs' ≡ₚ task :: hs
  | Some task, None => hs ≡ₚ task :: hs'
  | Some task, Some task' => task = task' -> hs' = hs
  end.
Proof.
  revert i. induction ws as [|[w0 st0] ws IH]; intros [|i] Hi; simplify_eq/=.
  - destruct (holds st), (holds st'); try done. by intros ->.
  - specialize (IH i Hi). simpl in IH.
    destruct (holds st) as [task|], (holds st') as [task'|], (holds st0) as [t0|];
      simpl; try done;
      try (intros Heq; by rewrite (IH Heq));
      try (by rewrite IH);
      rewrite IH; apply Permutation_swap.
Qed.

Lemma pool_insert (ws : list (DownloadWorker.t * stage)) (i : nat)
      (x : DownloadWorker.t * stage) :
  fst <$> <[i := x]> ws = <[i := x.1]> (fst <$> ws).
Proof. apply list_fmap_insert. Qed.

Lemma pool_lookup (ws : list (DownloadWorker.t * stage)) (i : nat)
      (w : DownloadWorker.t) (st : stage) :
  ws !! i = Some (w, st) -> (fst <$> ws) !! i = Some w.
Proof. intros Hi. by rewrite list_lookup_fmap, Hi. Qed.


Lemma held_start (ws : list DownloadWorker.t) :
  omap (fun ws => holds ws.2) ((fun w => (w, Idle)) <$> ws) = [].
Proof. induction ws as [|w ws IH]; [done|]. simpl. exact IH. Qed.

Lemma active_downloads_held (ws : list (DownloadWorker.t * stage)) :
  Forall (fun ws => current_task ws.1 = holds ws.2) ws ->
  length (get_active_downloads (fst <$> ws))
  = length (omap (fun ws => holds ws.2) ws).
Proof.
  induction 1 as [|[w st] ws Hw _ IH]; [done|].
  unfold get_active_downloads in *. rewrite fmap_cons.
  cbn [omap list_omap fst snd] in *. rewrite Hw.
  destruct (holds st); cbn [fmap option_fmap option_map length]; by rewrite IH.
Qed.

Lemma held_bound (ws : list (DownloadWorker.t * stage)) :
  (length (omap (fun ws => holds ws.2) ws) <= length ws)%nat.
Proof.
  induction ws as [|[w st] ws IH]; [done|].
  cbn [omap list_omap snd] in *.
  destruct (holds st); cbn [length]; lia.
Qed.

Lemma tallied_start (tasks : store) (max_size : Z) (requests_per_second : Q)
      (burst_size : Z) (now : Q) (num_workers : Z) :
  named tasks ->
  tallied (start tasks max_size requests_per_second burst_size now num_workers).
Proof.
  intros Hn. unfold tallied, start, held, pool. cbn [workers queue].
  rewrite held_start. rewrite <- list_fmap_compose.
  unfold WorkerPool.start. rewrite <- !list_fmap_compose.
  rewrite !Ledger.sum_of_fmap_zero by done.
  split.
  - split; [done|]. split; [apply NoDup_nil_2|].
    split; [intros r Hr; by apply elem_of_nil in Hr|].
    split; [apply Exclusion.exclusive_new|].
    split; [done|]. split; [done|].
    split; [apply Domination.dominated_new|]. done.
  - apply Forall_fmap. by apply Forall_forall.
Qed.

(** The worker at position [i] is replaced, and the books are audited for
    the tasks then in hand. *)
Lemma tallied_replace (p : Stepwise.t) (i : nat) (w w' : DownloadWorker.t)
      (st st' : stage) (σ' : state) (rl' : RateLimiter.t) (hs' : list ref)
      (dc df : Z) :
  workers p !! i = Some (w, st) ->
  tallied p ->
  current_task w' = holds st' ->
  tasks_completed (wstats w') = tasks_completed (wstats w) + dc ->
  tasks_failed (wstats w') = tasks_failed (wstats w) + df ->
  hs' ≡ₚ omap (fun ws => holds ws.2) (<[i := (w', st')]> (workers p)) ->
  audited σ' hs'
    (WorkerPool.sum_of (fun w => tasks_completed (wstats w)) (pool p) + dc)
    (WorkerPool.sum_of (fun w => tasks_failed (wstats w)) (pool p) + df) ->
  tallied (Stepwise.mk (<[i := (w', st')]> (workers p)) σ' rl').
Proof.
  intros Hi [_ Hlink] Hcur Hc Hf Hhs Ha.
  unfold tallied, held, pool. cbn [workers queue].
  rewrite pool_insert. cbn [fst].
  rewrite !(Ledger.sum_of_insert _ _ _ w) by (by eapply pool_lookup).
  split.
  - apply (audited_perm _ hs'); [done|].
    rewrite Hc, Hf.
    match goal with
    | |- audited _ _ ?c ?f =>
        replace c with (WorkerPool.sum_of (fun w => tasks_completed (wstats w))
                          (pool p) + dc) by (unfold pool; lia);
        replace f with (WorkerPool.sum_of (fun w => tasks_failed (wstats w))
                          (pool p) + df) by (unfold pool; lia)
    end.
    exact Ha.
  - apply Forall_insert; done.
Qed.

Lemma tallied_step (p : Stepwise.t) (e : event) : tallied p -> tallied (step p e).
Proof.
  intros Ht. pose proof Ht as [Ha Hlink].
  destruct e as [task|i now|i|i now|i t0 t1|i dl]; cbn [step].
  - split; [|done]. by apply audited_put.
  - destruct (workers p !! i) as [[w st]|] eqn:Hi; [|done].
    pose proof (held_insert _ i w (start_entry now w) st st Hi) as Hh.
    cbv zeta in Hh.
    apply (tallied_replace p i w _ st st _ _ (held p) 0 0);
      [done|done| |simpl; lia|simpl; lia| |by rewrite !Z.add_0_r].
    + by apply (Forall_lookup_1 _ _ _ _ Hlink Hi).
    + unfold held. destruct (holds st); by rewrite Hh.
  - destruct (workers p !! i) as [[w st]|] eqn:Hi; [|done].
    pose proof (held_insert _ i w (stop w) st st Hi) as Hh.
    cbv zeta in Hh.
    apply (tallied_replace p i w _ st st _ _ (held p) 0 0);
      [done|done| |simpl; lia|simpl; lia| |by rewrite !Z.add_0_r].
    + by apply (Forall_lookup_1 _ _ _ _ Hlink Hi).
    + unfold held. destruct (holds st); by rewrite Hh.
  - destruct (workers p !! i) as [[w st]|] eqn:Hi; [|done].
    assert (Htake : holds st = None ->
              tallied (resume p i (take now (Sys w (queue p) (rate_limiter p))))).
    { intros Hst.
      pose proof (Forall_lookup_1 _ _ _ _ Hlink Hi) as Hcur. simpl in Hcur.
      rewrite Hst in Hcur.
      unfold resume, take.
      cbn [DownloadWorker.queue DownloadWorker.rate_limiter worker].
      destruct (get_outcomes (queue p)) as [(task & σ1 & Hget)|Hget]; rewrite Hget;
        cbn [fst snd DownloadWorker.queue DownloadWorker.rate_limiter worker].
      - pose proof (held_insert _ i w
                      (set_last_activity now (set_current_task (Some task) w))
                      st (Limiting task) Hi) as Hh.
        cbv zeta in Hh. rewrite Hst in Hh. cbn [holds] in Hh.
        apply (tallied_replace p i w _ st (Limiting task) _ _
                 (task :: held p) 0 0);
          [done|done|done|simpl; lia|simpl; lia|by rewrite Hh|].
        rewrite !Z.add_0_r. by apply (audited_get (queue p)).
      - pose proof (held_insert _ i w w st Waiting Hi) as Hh.
        cbv zeta in Hh. rewrite Hst in Hh. cbn [holds] in Hh.
        apply (tallied_replace p i w _ st Waiting _ _ (held p) 0 0);
          [done|done|done|lia|lia|by rewrite Hh|by rewrite !Z.add_0_r]. }
    destruct st as [| |task|task|task]; try done.
    + destruct (DownloadWorker.is_running w); [by apply Htake|done].
    + by apply Htake.
  - destruct (workers p !! i) as [[w [| |task|task|task]]|] eqn:Hi; try done.
    pose proof (Forall_lookup_1 _ _ _ _ Hlink Hi) as Hcur. simpl in Hcur.
    unfold resume, limit.
    cbn [DownloadWorker.queue DownloadWorker.rate_limiter worker].
    destruct (RateLimiter.acquire (rate_limiter p) t0 t1) as [[[u|e|] slept] rl].
    + cbn [fst snd DownloadWorker.queue DownloadWorker.rate_limiter worker].
      pose proof (held_insert _ i w w (Limiting task) (Downloading task) Hi) as Hh.
      cbv zeta in Hh. cbn [holds] in Hh.
      apply (tallied_replace p i w _ (Limiting task) (Downloading task) _ _
               (held p) 0 0);
        [done|done|done|lia|lia|by rewrite Hh|by rewrite !Z.add_0_r].
    + pose proof (held_insert _ i w (set_current_task None (add_failed w))
                    (Limiting task) Idle Hi) as Hh.
      cbv zeta in Hh. cbn [holds] in Hh. fold (held p) in Hh.
      pose proof (audited_perm _ _ _ _ _ Hh Ha) as Ha'.
      destruct (audited_task_done _ _ _ _ _ false Ha') as (σ' & Hdone & Ha'').
      unfold on_exception. rewrite Hcur, Hdone.
      cbn [fst snd DownloadWorker.queue DownloadWorker.rate_limiter worker].
      apply (tallied_replace p i w _ (Limiting task) Idle _ _
               (omap (fun ws => holds ws.2)
                     (<[i := (set_current_task None (add_failed w), Idle)]>
                        (workers p))) 0 1);
        [done|done|done|simpl; lia|simpl; lia|reflexivity|done].
    + cbn [fst snd DownloadWorker.queue DownloadWorker.rate_limiter worker].
      rewrite list_insert_id by done.
      split; [done|done].
  - destruct (workers p !! i) as [[w [| |task|task|task]]|] eqn:Hi; try done.
    pose proof (Forall_lookup_1 _ _ _ _ Hlink Hi) as Hcur. simpl in Hcur.
    unfold resume, finish.
    cbn [DownloadWorker.queue DownloadWorker.rate_limiter worker].
    assert (Hperm : forall w', held p ≡ₚ task :: omap (fun ws => holds ws.2)
                                             (<[i := (w', Idle)]> (workers p))).
    { intros w'. pose proof (held_insert _ i w w' (Downloading task) Idle Hi) as Hh.
      cbv zeta in Hh. cbn [holds] in Hh. exact Hh. }
    pose proof (audited_perm _ _ _ _ _ (Hperm w) Ha) as Ha'.
    destruct (audited_lookup _ _ _ _ _ Ha') as (tk & Hobj & _ & Hname).
    rewrite Hobj.
    destruct (_download_file dl w tk) as [[|] w2] eqn:Hfile.
    + destruct (Table._download_file_counts _ _ _ _ _ Hfile) as (Hc & Hf & _).
      destruct (audited_task_done _ _ _ _ _ true Ha') as (σ' & Hdone & Ha'').
      rewrite Hdone, Hname.
      cbn [fst snd DownloadWorker.queue DownloadWorker.rate_limiter worker].
      apply (tallied_replace p i w _ (Downloading task) Idle _ _
               (omap (fun ws => holds ws.2) (<[i := (w, Idle)]> (workers p))) 1 0);
        [done|done|done|simpl; lia|simpl; lia| |done].
      apply Permutation_cons_inv with task.
      rewrite <- (Hperm w). apply Hperm.
    + destruct (Table._download_file_counts _ _ _ _ _ Hfile) as (Hc & Hf & _).
      destruct (audited_retry_task _ _ _ _ _ Ha') as (σ' & Hretry & Ha'').
      rewrite Hretry, Hname.
      cbn [fst snd DownloadWorker.queue DownloadWorker.rate_limiter worker].
      apply (tallied_replace p i w _ (Downloading task) Idle _ _
               (omap (fun ws => holds ws.2) (<[i := (w, Idle)]> (workers p))) 0 1);
        [done|done|done|simpl; lia|simpl; lia| |by rewrite Z.add_0_r].
      apply Permutation_cons_inv with task.
      rewrite <- (Hperm w). apply Hperm.
Qed.

Lemma tallied_run (es : list event) (p : Stepwise.t) :
  tallied p -> tallied (Stepwise.run p es).
Proof.
  revert p. induction es as [|e es IH]; intros p Ht; [done|].
  simpl. apply IH. by apply tallied_step.
Qed.

Lemma step_length (p : Stepwise.t) (e : event) :
  length (workers (step p e)) = length (workers p).
Proof.
  destruct e as [task|i now|i|i now|i t0 t1|i dl]; cbn [step]; [done|..];
    destruct (workers p !! i) as [[w [| | | |]]|]; try done;
    try (destruct (DownloadWorker.is_running w); [|done]);
    unfold resume; cbn [workers]; by rewrite length_insert.
Qed.

Lemma run_length (es : list event) (p : Stepwise.t) :
  length (workers (Stepwise.run p es)) = length (workers p).
Proof.
  revert p. induction es as [|e es IH]; intros p; [done|].
  simpl. fold (Stepwise.run (step p e) es). by rewrite IH, step_length.
Qed.

(** X13.  In every run of the pool taken step by step (submissions, workers
    entering and leaving their loop, and the rounds of the workers from one
    suspension to the next) from a new coordinator whose payloads carry a
    filename, and so at every moment at which the monitor can read the
    statistics: the workers' counters and the queue's agree on completions;
    the failures the workers count, with the tasks they have in hand, are
    the queue's [total_failed] plus the entries handed out and not
    acknowledged, so the workers never count fewer failures than the queue;
    and every task added is still queued, or in a worker's hands, or
    counted as completed or failed by a worker.  The tasks in hand and the
    active workers are at most the workers of the pool. *)
Theorem counters_match_with_tasks_in_hand
        (tasks : store) (max_size : Z) (requests_per_second : Q) (burst_size : Z)
        (now0 : Q) (num_workers : Z) (events : list event) :
  named tasks ->
  let p := Stepwise.run (start tasks max_size requests_per_second burst_size
                               now0 num_workers) events in
  let ps := WorkerPool.get_stats num_workers (pool p) in
  let qs := get_stats (self (queue p)) in
  let in_hand := Z.of_nat (length (get_active_downloads (pool p))) in
  WorkerPool.total_completed ps = v_total_completed qs
  /\ WorkerPool.total_completed ps = completed_tasks qs
  /\ WorkerPool.total_failed ps + in_hand
     = v_total_failed qs
       + (PriorityQueue._unfinished_tasks (_queue (self (queue p)))
          - queue_size qs)
  /\ v_total_failed qs <= WorkerPool.total_failed ps
  /\ failed_tasks qs <= WorkerPool.total_failed ps
  /\ v_total_added qs
     = queue_size qs + in_hand
       + WorkerPool.total_completed ps + WorkerPool.total_failed ps
  /\ 0 <= in_hand <= Z.max 0 num_workers
  /\ 0 <= WorkerPool.active_workers ps <= Z.max 0 num_workers.
Proof.
  intros Hnamed p ps qs in_hand.
  pose proof (tallied_run events _
                (tallied_start tasks max_size requests_per_second burst_size
                               now0 num_workers Hnamed)) as [Ha Hlink].
  fold p in Ha, Hlink.
  destruct Ha as (_ & _ & _ & _ & Hbal & Hrec & (_ & _ & Hdom) & Hc & Hf & Hm).
  pose proof (run_length events
                (start tasks max_size requests_per_second burst_size
                       now0 num_workers)) as Hlen.
  fold p in Hlen. unfold start, WorkerPool.start in Hlen. cbn [workers] in Hlen.
  rewrite !length_fmap, length_seqZ in Hlen.
  assert (Hin : in_hand = Z.of_nat (length (held p))).
  { subst in_hand. unfold pool, held. by rewrite active_downloads_held. }
  pose proof (held_bound (workers p)) as Hhb. fold (held p) in Hhb.
  unfold balanced, reconciled in *.
  subst ps qs. unfold WorkerPool.get_stats, get_stats. simpl.
  rewrite Hin. rewrite <- Hc.
  split; [done|]. split; [lia|]. split; [lia|]. split; [lia|].
  split; [lia|]. split; [lia|]. split; [lia|].
  pose proof (Ledger.sum_of_bounds
                (fun w => if DownloadWorker.is_running w then 1 else 0)
                (pool p)) as Hb.
  unfold pool in Hb. rewrite length_fmap, Hlen in Hb.
  destruct Hb as [Hlo Hhi]; [intros w; destruct (DownloadWorker.is_running w); lia|].
  unfold pool. lia.
Qed.

Lemma counters_match_with_tasks_in_hand_witness :
  let p := Stepwise.run (start Sample.tasks 100 2 5 0 3)
             [Enter 0%nat 1; Take 0%nat 2; Stop 0%nat; Submit 0%nat;
              Take 0%nat 3] in
  let ps := WorkerPool.get_stats 3 (pool p) in
  let qs := get_stats (self (queue p)) in
  v_total_added qs = 1
  /\ queue_size qs = 0
  /\ WorkerPool.total_completed ps = 0
  /\ WorkerPool.total_failed ps = 0
  /\ Z.of_nat (length (get_active_downloads (pool p))) = 1
  /\ v_total_added qs
     = queue_size qs + Z.of_nat (length (get_active_downloads (pool p)))
       + WorkerPool.total_completed ps + WorkerPool.total_failed ps.
Proof.
  destruct (counters_match_with_tasks_in_hand Sample.tasks 100 2 5 0 3
              [Enter 0%nat 1; Take 0%nat 2; Stop 0%nat; Submit 0%nat;
               Take 0%nat 3])
    as (_ & _ & _ & _ & _ & Hadded & _); [compute_done|].
  split; [vm_compute; reflexivity|]. split; [vm_compute; reflexivity|].
  split; [vm_compute; reflexivity|]. split; [vm_compute; reflexivity|].
  split; [vm_compute; reflexivity|exact Hadded].
Defined.

End Tally.

(** ** Rounding and truncation *)

Module Py_facts.
Local Open Scope Q_scope.

Lemma round_le (x : Q) (k : Z) : x <= inject_Z k -> (Py.round x <= k)%Z.
Proof.
  destruct x as [n d]. unfold Qle, Py.round. simpl. intros Hle.
  pose proof (Z.div_mod n (Zpos d) ltac:(lia)) as Hdm.
  pose proof (Z.mod_pos_bound n (Zpos d) ltac:(lia)) as Hr.
  assert (Hf : (n / Zpos d <= k)%Z).
  { apply Z.div_le_upper_bound; [lia|nia]. }
  assert (Hf' : (0 < n mod Zpos d -> n / Zpos d + 1 <= k)%Z).
  { intros Hpos.
    assert ((n / Zpos d < k)%Z); [|lia].
    apply Z.div_lt_upper_bound; [lia|].
    destruct (Z.eq_dec n (k * Zpos d)%Z) as [->|Hne]; [|lia].
    rewrite Z_mod_mult in Hpos. lia. }
  repeat case_match; lia.
Qed.

Lemma round_ge (x : Q) (k : Z) : inject_Z k <= x -> (k <= Py.round x)%Z.
Proof.
  destruct x as [n d]. unfold Qle, Py.round. simpl. intros Hle.
  assert (Hf : (k <= n / Zpos d)%Z).
  { apply Z.div_le_lower_bound; [lia|nia]. }
  repeat case_match; lia.
Qed.

Lemma int_bounds (x : Q) (k : Z) :
  0 <= x -> x <= inject_Z k -> (0 <= Py.int x <= k)%Z.
Proof.
  destruct x as [n d]. unfold Qle, Py.int. simpl. intros Hlo Hhi.
  rewrite Z.quot_div_nonneg by lia.
  split; [apply Z.div_pos; lia|].
  apply Z.div_le_upper_bound; [lia|nia].
Qed.

Lemma truediv_unit (a b : Z) :
  (0 <= a <= b)%Z -> (0 < b)%Z -> 0 <= Py.truediv a b /\ Py.truediv a b <= 1.
Proof.
  intros [Hlo Hhi] Hb. unfold Py.truediv.
  assert (Hb' : 0 < inject_Z b) by (unfold Qlt; simpl; lia).
  assert (Ha' : 0 <= inject_Z a) by (unfold Qle; simpl; lia).
  assert (Hab : inject_Z a <= inject_Z b) by (by rewrite <- Zle_Qle).
  split.
  - apply Qle_shift_div_l; [done|]. lra.
  - apply Qle_shift_div_r; [done|]. lra.
Qed.

Lemma round_nd_bounds (x : Q) (k : Z) (nd : nat) :
  0 <= x -> x <= inject_Z k ->
  0 <= Py.round_nd x nd /\ Py.round_nd x nd <= inject_Z k.
Proof.
  intros Hlo Hhi. unfold Py.round_nd.
  set (p := (10 ^ Z.of_nat nd)%Z).
  assert (Hp : (0 < p)%Z) by (apply Z.pow_pos_nonneg; lia).
  assert (Hp' : 0 < inject_Z p) by (unfold Qlt; simpl; lia).
  assert (H0 : (0 <= Py.round (x * inject_Z p))%Z).
  { apply round_ge. change (inject_Z 0) with 0. nra. }
  assert (H1 : (Py.round (x * inject_Z p) <= k * p)%Z).
  { apply round_le. rewrite inject_Z_mult. nra. }
  split.
  - apply Qle_shift_div_l; [done|]. rewrite Qmult_0_l.
    change 0 with (inject_Z 0). by rewrite <- Zle_Qle.
  - apply Qle_shift_div_r; [done|]. rewrite <- inject_Z_mult.
    by rewrite <- Zle_Qle.
Qed.

End Py_facts.

(** ** Rounding to the nearest integer *)

Module Rounding.
Local Open Scope Q_scope.

Lemma Qmake_times (n : Z) (d : positive) : (n # d) * inject_Z (Zpos d) == inject_Z n.
Proof. unfold Qeq, Qmult, inject_Z. simpl. lia. Qed.

(** [round x] is within a half of [x]. *)
Lemma round_near (x : Q) :
  inject_Z (Py.round x) - (1 # 2) <= x /\ x <= inject_Z (Py.round x) + (1 # 2).
Proof.
  destruct x as [n d]. unfold Qle, Py.round, Qplus, Qminus, Qopp, inject_Z. simpl.
  pose proof (Z.div_mod n (Zpos d) ltac:(lia)) as Hdm.
  pose proof (Z.mod_pos_bound n (Zpos d) ltac:(lia)) as Hr.
  repeat case_match; lia.
Qed.

Lemma round_below (x : Q) (k : Z) :
  x < inject_Z k + (1 # 2) -> (Py.round x <= k)%Z.
Proof.
  destruct x as [n d]. unfold Qlt, Py.round, Qplus, inject_Z. simpl.
  pose proof (Z.div_mod n (Zpos d) ltac:(lia)) as Hdm.
  pose proof (Z.mod_pos_bound n (Zpos d) ltac:(lia)) as Hr.
  intros Hlt.
  repeat case_match; nia.
Qed.

Lemma round_tie (x : Q) (k : Z) :
  x == inject_Z k + (1 # 2) -> Py.round x = if Z.even k then k else (k + 1)%Z.
Proof.
  destruct x as [n d]. unfold Qeq, Py.round, Qplus, inject_Z. simpl.
  pose proof (Z.div_mod n (Zpos d) ltac:(lia)) as Hdm.
  pose proof (Z.mod_pos_bound n (Zpos d) ltac:(lia)) as Hr.
  intros Heq.
  assert (Hf : (n / Zpos d = k)%Z) by nia.
  rewrite Hf in *.
  repeat case_match; lia.
Qed.

Lemma round_mono (x y : Q) : x <= y -> (Py.round x <= Py.round y)%Z.
Proof.
  intros Hle.
  destruct (round_near y) as [_ Hy].
  destruct (Qlt_le_dec x (inject_Z (Py.round y) + (1 # 2))) as [Hlt|Hge].
  - by apply round_below.
  - assert (Hx : x == inject_Z (Py.round y) + (1 # 2)) by lra.
    assert (Hy' : y == inject_Z (Py.round y) + (1 # 2)) by lra.
    pose proof (round_tie x _ Hx) as Ex. pose proof (round_tie y _ Hy') as Ey.
    rewrite Ex, <- Ey. lia.
Qed.

Lemma round_proper (x y : Q) : x == y -> Py.round x = Py.round y.
Proof.
  intros Heq. apply Z.le_antisymm; apply round_mono; lra.
Qed.

Lemma round_int (x : Q) (k : Z) : x == inject_Z k -> Py.round x = k.
Proof.
  intros Heq. apply Z.le_antisymm.
  - apply Py_facts.round_le. lra.
  - apply Py_facts.round_ge. lra.
Qed.

End Rounding.

(** ** Rounding to binary64 *)

Module Binary64_facts.
Import Binary64 Rounding Notions.
Local Open Scope Q_scope.

(** *** Powers of two *)

Lemma two_pos (k : Z) : 0 < 2 ^ k.
Proof. by apply Qpower_0_lt. Qed.

Lemma two_le (a b : Z) : (a <= b)%Z -> 2 ^ a <= 2 ^ b.
Proof. intros Hle. by apply Qpower_le_compat_l. Qed.

Lemma two_lt (a b : Z) : (a < b)%Z -> 2 ^ a < 2 ^ b.
Proof. intros Hlt. by apply Qpower_lt_compat_l. Qed.

Lemma two_lt_inv (a b : Z) : 2 ^ a < 2 ^ b -> (a < b)%Z.
Proof. intros Hlt. by apply (Qpower_lt_compat_l_inv 2). Qed.

Lemma two_plus (a b : Z) : 2 ^ (a + b) == 2 ^ a * 2 ^ b.
Proof. by apply Qpower_plus. Qed.

Lemma two_int (k : Z) : (0 <= k)%Z -> 2 ^ k == inject_Z (2 ^ k).
Proof. intros Hk. by rewrite Zpower_Qpower. Qed.

Lemma two_minus (a b : Z) : 2 ^ (a - b) == 2 ^ a / 2 ^ b.
Proof.
  pose proof (two_pos b) as Hb.
  assert (H : 2 ^ a == 2 ^ (a - b) * 2 ^ b).
  { rewrite <- two_plus. by replace (a - b + b)%Z with a by lia. }
  rewrite H. field. lra.
Qed.

(** [x / 2 ^ q] is the integer [z * 2 ^ (p - q)] for [x = z * 2 ^ p] and
    [q <= p]. *)
Lemma scale_int (z : Z) (p q : Z) :
  (q <= p)%Z -> inject_Z z * 2 ^ p / 2 ^ q == inject_Z (z * 2 ^ (p - q)).
Proof.
  intros Hle. pose proof (two_pos q) as Hq.
  rewrite inject_Z_mult, <- two_int by lia. rewrite two_minus. field. lra.
Qed.

(** *** The binary logarithm *)

Lemma ilog2_spec (x : Q) :
  0 < x -> 2 ^ ilog2 x <= x /\ x < 2 ^ (ilog2 x + 1).
Proof.
  intros Hx. destruct x as [n d].
  assert (Hn : (0 < n)%Z) by (unfold Qlt in Hx; simpl in Hx; lia).
  unfold ilog2. cbn [Qnum Qden].
  set (a := Z.log2 n). set (b := Z.log2 (Zpos d)).
  destruct (Z.log2_spec n Hn) as [Ha1 Ha2]. fold a in Ha1, Ha2.
  destruct (Z.log2_spec (Zpos d) ltac:(lia)) as [Hb1 Hb2]. fold b in Hb1, Hb2.
  assert (Ha0 : (0 <= a)%Z) by apply Z.log2_nonneg.
  assert (Hb0 : (0 <= b)%Z) by apply Z.log2_nonneg.
  pose proof (Qmake_times n d) as Hnd.
  assert (Hd : 0 < inject_Z (Zpos d)) by (unfold Qlt; simpl; lia).
  assert (Ha1q : 2 ^ a <= inject_Z n).
  { rewrite two_int by done. by rewrite <- Zle_Qle. }
  assert (Ha2q : inject_Z n < 2 ^ (a + 1)).
  { rewrite two_int by lia. by rewrite <- Zlt_Qlt. }
  assert (Hb1q : 2 ^ b <= inject_Z (Zpos d)).
  { rewrite two_int by done. by rewrite <- Zle_Qle. }
  assert (Hb2q : inject_Z (Zpos d) < 2 ^ (b + 1)).
  { rewrite two_int by lia. by rewrite <- Zlt_Qlt. }
  pose proof (two_pos (a - b)) as Hk.
  pose proof (two_pos (a - b - 1)) as Hk1.
  pose proof (two_pos b) as Hpb.
  assert (Hup : (n # d) < 2 ^ (a - b + 1)).
  { apply (Qmult_lt_r _ _ (inject_Z (Zpos d))); [done|]. rewrite Hnd.
    eapply Qlt_le_trans; [exact Ha2q|].
    replace (a + 1)%Z with ((a - b + 1) + b)%Z by lia. rewrite two_plus.
    pose proof (two_pos (a - b + 1)). nra. }
  assert (Hlo : 2 ^ (a - b - 1) <= (n # d)).
  { apply (Qmult_le_r _ _ (inject_Z (Zpos d))); [done|]. rewrite Hnd.
    eapply Qle_trans; [|exact Ha1q].
    assert (H : 2 ^ a == 2 ^ (a - b - 1) * 2 ^ (b + 1)).
    { rewrite <- two_plus. by replace (a - b - 1 + (b + 1))%Z with a by lia. }
    rewrite H. nra. }
  destruct (Qle_bool (2 ^ (a - b)) (n # d)) eqn:Hc.
  - apply Qle_bool_iff in Hc. done.
  - assert (Hlt : (n # d) < 2 ^ (a - b)).
    { apply Qnot_le_lt. intros Hle. apply Qle_bool_iff in Hle. congruence. }
    split; [done|]. by replace (a - b - 1 + 1)%Z with (a - b)%Z by lia.
Qed.

Lemma ilog2_unique (x : Q) (k : Z) :
  2 ^ k <= x -> x < 2 ^ (k + 1) -> ilog2 x = k.
Proof.
  intros Hlo Hhi.
  assert (Hx : 0 < x) by (pose proof (two_pos k); lra).
  destruct (ilog2_spec x Hx) as [Hlo' Hhi'].
  assert (H1 : (k < ilog2 x + 1)%Z) by (apply two_lt_inv; lra).
  assert (H2 : (ilog2 x < k + 1)%Z) by (apply two_lt_inv; lra).
  lia.
Qed.

Lemma ilog2_mono (x y : Q) : 0 < x -> x <= y -> (ilog2 x <= ilog2 y)%Z.
Proof.
  intros Hx Hle.
  destruct (ilog2_spec x Hx) as [Hlo _].
  destruct (ilog2_spec y ltac:(lra)) as [_ Hhi].
  assert (H : (ilog2 x < ilog2 y + 1)%Z) by (apply two_lt_inv; lra).
  lia.
Qed.

Lemma ilog2_proper (x y : Q) : 0 < x -> x == y -> ilog2 x = ilog2 y.
Proof.
  intros Hx Heq. destruct (ilog2_spec y ltac:(lra)) as [Hlo Hhi].
  apply ilog2_unique; lra.
Qed.

Lemma exponent_mono (x y : Q) : 0 < x -> x <= y -> (exponent x <= exponent y)%Z.
Proof.
  intros Hx Hle. unfold exponent. pose proof (ilog2_mono x y Hx Hle). lia.
Qed.

Lemma exponent_ge (x : Q) : (-1074 <= exponent x)%Z.
Proof. unfold exponent. lia. Qed.

(** *** Rounding to a multiple of [2 ^ q] *)

Lemma grid_le (x : Q) (z q : Z) :
  x <= inject_Z z * 2 ^ q ->
  inject_Z (Py.round (x / 2 ^ q)) * 2 ^ q <= inject_Z z * 2 ^ q.
Proof.
  intros Hle. pose proof (two_pos q) as Hq.
  apply Qmult_le_compat_r; [|lra].
  rewrite <- Zle_Qle. apply Py_facts.round_le.
  apply Qle_shift_div_r; [done|lra].
Qed.

Lemma grid_ge (x : Q) (z q : Z) :
  inject_Z z * 2 ^ q <= x ->
  inject_Z z * 2 ^ q <= inject_Z (Py.round (x / 2 ^ q)) * 2 ^ q.
Proof.
  intros Hle. pose proof (two_pos q) as Hq.
  apply Qmult_le_compat_r; [|lra].
  rewrite <- Zle_Qle. apply Py_facts.round_ge.
  apply Qle_shift_div_l; [done|lra].
Qed.

Lemma grid_mono (x y : Q) (q : Z) :
  x <= y ->
  inject_Z (Py.round (x / 2 ^ q)) * 2 ^ q <= inject_Z (Py.round (y / 2 ^ q)) * 2 ^ q.
Proof.
  intros Hle. pose proof (two_pos q) as Hq.
  apply Qmult_le_compat_r; [|lra].
  rewrite <- Zle_Qle. apply round_mono.
  apply Qle_shift_div_l; [done|].
  assert (H : x / 2 ^ q * 2 ^ q == x) by (field; lra).
  lra.
Qed.

(** A power of two as a multiple of a smaller one. *)
Lemma two_on_grid (e q : Z) :
  (q <= e)%Z -> 2 ^ e == inject_Z (2 ^ (e - q)) * 2 ^ q.
Proof.
  intros Hle. rewrite <- two_int by lia. rewrite <- two_plus.
  by replace (e - q + q)%Z with e by lia.
Qed.

(** *** [nearest] *)

Lemma nearest_nonneg (x : Q) : 0 < x -> 0 <= nearest x.
Proof.
  intros Hx. unfold nearest. pose proof (two_pos (exponent x)) as Hq.
  assert (H : (0 <= Py.round (x / 2 ^ exponent x))%Z).
  { apply Py_facts.round_ge. apply Qle_shift_div_l; [done|]. change (inject_Z 0) with 0. lra. }
  rewrite Zle_Qle in H. change (inject_Z 0) with 0 in H. nra.
Qed.

Lemma nearest_mono (x y : Q) : 0 < x -> x <= y -> nearest x <= nearest y.
Proof.
  intros Hx Hle. unfold nearest.
  pose proof (exponent_mono x y Hx Hle) as Hq.
  destruct (Z.eq_dec (exponent x) (exponent y)) as [Heq|Hne].
  - rewrite Heq. by apply grid_mono.
  - assert (Hlt : (exponent x < exponent y)%Z) by lia.
    assert (Hey : exponent y = (ilog2 y - 52)%Z) by (unfold exponent in *; lia).
    assert (Hex : (ilog2 x < ilog2 y)%Z) by (unfold exponent in *; lia).
    destruct (ilog2_spec x Hx) as [_ Hxhi].
    destruct (ilog2_spec y ltac:(lra)) as [Hylo _].
    pose proof (two_le (ilog2 x + 1) (ilog2 y) ltac:(lia)) as Hmid.
    apply Qle_trans with (2 ^ ilog2 y).
    + rewrite (two_on_grid (ilog2 y) (exponent x)) by lia.
      apply grid_le. rewrite <- two_on_grid by lia. lra.
    + rewrite (two_on_grid (ilog2 y) (exponent y)) at 1 by lia.
      apply grid_ge. rewrite <- two_on_grid by lia. lra.
Qed.

Lemma nearest_proper (x y : Q) : 0 < x -> x == y -> nearest x == nearest y.
Proof.
  intros Hx Heq. unfold nearest, exponent.
  rewrite (ilog2_proper x y Hx Heq).
  set (q := Z.max _ _).
  rewrite (round_proper (x / 2 ^ q) (y / 2 ^ q)); [reflexivity|].
  by rewrite Heq.
Qed.

(** A multiple of [2 ^ q] with a mantissa of at most 53 bits is left as it
    is, if [q] is not below the least exponent. *)
Lemma nearest_grid (z q : Z) :
  (0 < z <= 2 ^ 53)%Z -> (-1074 <= q)%Z ->
  nearest (inject_Z z * 2 ^ q) == inject_Z z * 2 ^ q.
Proof.
  intros [Hz0 Hz1] Hq.
  set (y := inject_Z z * 2 ^ q).
  pose proof (two_pos q) as Hpq.
  assert (Hz0q : 1 <= inject_Z z).
  { change 1 with (inject_Z 1). rewrite <- Zle_Qle. lia. }
  assert (Hz1q : inject_Z z <= 2 ^ 53).
  { rewrite two_int by lia. by rewrite <- Zle_Qle. }
  assert (Hy : 0 < y) by (subst y; nra).
  destruct (ilog2_spec y Hy) as [Hlo Hhi].
  assert (Hyle : y <= 2 ^ (53 + q)).
  { rewrite two_plus. subst y. nra. }
  assert (He : (ilog2 y <= 53 + q)%Z).
  { assert ((ilog2 y < 53 + q + 1)%Z); [|lia]. apply two_lt_inv.
    pose proof (two_lt (53 + q) (53 + q + 1) ltac:(lia)). lra. }
  unfold nearest.
  destruct (Z_le_gt_dec (exponent y) q) as [Hle|Hgt].
  - rewrite (round_int _ (z * 2 ^ (q - exponent y))).
    + rewrite <- scale_int by done. fold y.
      pose proof (two_pos (exponent y)). field. lra.
    + subst y. by apply scale_int.
  - assert (Hexp : exponent y = (q + 1)%Z) by (unfold exponent in *; lia).
    assert (Hil : ilog2 y = (53 + q)%Z) by (unfold exponent in *; lia).
    assert (Hyeq : y == 2 ^ (53 + q)).
    { rewrite Hil in Hlo. lra. }
    rewrite Hexp.
    rewrite (round_int _ (2 ^ 52)).
    + rewrite Hyeq. rewrite <- two_int by lia. rewrite <- two_plus.
      by replace (52 + (q + 1))%Z with (53 + q)%Z by lia.
    + rewrite Hyeq. rewrite <- two_int by lia. rewrite <- two_minus.
      by replace (53 + q - (q + 1))%Z with 52%Z by lia.
Qed.

(** The mantissa [nearest] computes has at most 53 bits. *)
Lemma nearest_mantissa (x : Q) :
  0 < x -> (0 <= Py.round (x / 2 ^ exponent x) <= 2 ^ 53)%Z.
Proof.
  intros Hx. pose proof (two_pos (exponent x)) as Hq.
  destruct (ilog2_spec x Hx) as [_ Hhi].
  split.
  - apply Py_facts.round_ge. apply Qle_shift_div_l; [done|].
    change (inject_Z 0) with 0. rewrite Qmult_0_l. lra.
  - apply Py_facts.round_le. apply Qle_shift_div_r; [done|].
    rewrite <- two_int by lia. rewrite <- two_plus.
    assert (H : (ilog2 x + 1 <= 53 + exponent x)%Z) by (unfold exponent; lia).
    pose proof (two_le _ _ H). lra.
Qed.

Lemma nearest_idem (x : Q) :
  0 < x -> 0 < nearest x -> nearest (nearest x) == nearest x.
Proof.
  intros Hx Hpos. unfold nearest at 2 3. unfold nearest in Hpos.
  pose proof (nearest_mantissa x Hx) as [Hm0 Hm1].
  pose proof (two_pos (exponent x)) as Hq.
  apply nearest_grid; [|apply exponent_ge].
  split; [|done].
  destruct (Z.eq_dec (Py.round (x / 2 ^ exponent x)) 0%Z) as [Hz|Hnz]; [|lia].
  rewrite Hz in Hpos. change (inject_Z 0) with 0 in Hpos. lra.
Qed.

(** *** [RN] *)

Lemma Qnum_pos (x : Q) : 0 < x <-> (0 < Qnum x)%Z.
Proof. unfold Qlt. simpl. lia. Qed.

Lemma Qnum_neg (x : Q) : x < 0 <-> (Qnum x < 0)%Z.
Proof. unfold Qlt. simpl. lia. Qed.

Lemma RN_pos (x : Q) : 0 < x -> RN x == nearest x.
Proof.
  intros Hx. unfold RN.
  assert (Hy : 0 < Qred x) by (by rewrite Qred_correct).
  pose proof (proj1 (Qnum_pos _) Hy) as Hn.
  destruct (Qnum (Qred x)); try lia.
  rewrite Qred_correct. apply nearest_proper; [done|apply Qred_correct].
Qed.

Lemma RN_neg (x : Q) : x < 0 -> RN x == - nearest (- x).
Proof.
  intros Hx. unfold RN.
  assert (Hy : Qred x < 0) by (by rewrite Qred_correct).
  pose proof (proj1 (Qnum_neg _) Hy) as Hn.
  destruct (Qnum (Qred x)); try lia.
  rewrite Qred_correct.
  rewrite (nearest_proper (- Qred x) (- x)); [reflexivity|lra|].
  by rewrite Qred_correct.
Qed.

Lemma RN_zero (x : Q) : x == 0 -> RN x = 0.
Proof.
  intros Hx. unfold RN.
  assert (Hy : Qred x == 0) by (by rewrite Qred_correct).
  assert (Hn : Qnum (Qred x) = 0%Z).
  { unfold Qeq in Hy. simpl in Hy. lia. }
  by rewrite Hn.
Qed.

#[global] Instance RN_proper : Proper (Qeq ==> Qeq) RN.
Proof.
  intros x y Heq. unfold RN. by rewrite (Qred_complete x y Heq).
Qed.

Lemma RN_nonneg (x : Q) : 0 <= x -> 0 <= RN x.
Proof.
  intros Hx. destruct (Qlt_le_dec 0 x) as [Hpos|Hle].
  - rewrite RN_pos by done. by apply nearest_nonneg.
  - rewrite (RN_zero x) by lra. lra.
Qed.

Lemma RN_nonpos (x : Q) : x <= 0 -> RN x <= 0.
Proof.
  intros Hx. destruct (Qlt_le_dec x 0) as [Hneg|Hge].
  - rewrite RN_neg by done. pose proof (nearest_nonneg (- x) ltac:(lra)). lra.
  - rewrite (RN_zero x) by lra. lra.
Qed.

Lemma RN_mono (x y : Q) : x <= y -> RN x <= RN y.
Proof.
  intros Hle.
  destruct (Qlt_le_dec 0 x) as [Hx|Hx].
  - rewrite !RN_pos by lra. by apply nearest_mono.
  - destruct (Qlt_le_dec y 0) as [Hy|Hy].
    + rewrite !RN_neg by lra.
      pose proof (nearest_mono (- y) (- x) ltac:(lra) ltac:(lra)). lra.
    + pose proof (RN_nonpos x Hx). pose proof (RN_nonneg y Hy). lra.
Qed.

Lemma RN_idem (x : Q) : RN (RN x) == RN x.
Proof.
  destruct (Qlt_le_dec 0 x) as [Hx|Hx].
  - pose proof (nearest_nonneg x Hx) as Hn.
    destruct (Qlt_le_dec 0 (nearest x)) as [Hpos|Hz].
    + rewrite (RN_pos x) by done. rewrite RN_pos by done. by apply nearest_idem.
    + rewrite (RN_pos x) by done. rewrite (RN_zero (nearest x)) by lra. lra.
  - destruct (Qlt_le_dec x 0) as [Hneg|Hge].
    + pose proof (nearest_nonneg (- x) ltac:(lra)) as Hn.
      destruct (Qlt_le_dec 0 (nearest (- x))) as [Hpos|Hz].
      * rewrite (RN_neg x) by done. rewrite RN_neg by lra.
        rewrite (nearest_proper (- - nearest (- x)) (nearest (- x))) by
          (try lra; ring).
        rewrite nearest_idem; [reflexivity|lra|done].
      * rewrite (RN_neg x) by done. rewrite (RN_zero (- nearest (- x))) by lra. lra.
    + rewrite (RN_zero x) by lra. by rewrite (RN_zero 0).
Qed.

Lemma RN_representable (x : Q) : representable (RN x).
Proof. apply RN_idem. Qed.

(** Rounding stays on the side of a binary64 number. *)
Lemma RN_le (x c : Q) : representable c -> x <= c -> RN x <= c.
Proof.
  intros Hc Hle. unfold representable in Hc.
  pose proof (RN_mono _ _ Hle) as Hm. lra.
Qed.

Lemma RN_ge (x c : Q) : representable c -> c <= x -> c <= RN x.
Proof.
  intros Hc Hle. unfold representable in Hc.
  pose proof (RN_mono _ _ Hle) as Hm. lra.
Qed.

Lemma RN_grid (z q : Z) :
  (Z.abs z <= 2 ^ 53)%Z -> (-1074 <= q)%Z -> representable (inject_Z z * 2 ^ q).
Proof.
  intros Hz Hq. unfold representable. pose proof (two_pos q) as Hpq.
  destruct (Z.lt_trichotomy z 0) as [Hneg|[->|Hpos]].
  - assert (Hzq : inject_Z z < 0).
    { change 0 with (inject_Z 0). rewrite <- Zlt_Qlt. lia. }
    rewrite RN_neg by nra.
    rewrite (nearest_proper _ (inject_Z (- z) * 2 ^ q)).
    + rewrite nearest_grid by lia. rewrite inject_Z_opp. ring.
    + nra.
    + rewrite inject_Z_opp. ring.
  - rewrite RN_zero; [|ring]. ring.
  - assert (Hzq : 0 < inject_Z z).
    { change 0 with (inject_Z 0). rewrite <- Zlt_Qlt. lia. }
    rewrite RN_pos by nra. apply nearest_grid; lia.
Qed.

Lemma RN_int (z : Z) : (Z.abs z <= 2 ^ 53)%Z -> RN (inject_Z z) == inject_Z z.
Proof.
  intros Hz. pose proof (RN_grid z 0 Hz ltac:(lia)) as H.
  unfold representable in H. change (2 ^ 0) with 1 in H.
  rewrite Qmult_1_r in H. exact H.
Qed.

Lemma representable_0 : representable 0.
Proof. reflexivity. Qed.

Lemma RN_1 : RN 1 == 1.
Proof. vm_compute. reflexivity. Qed.

Lemma representable_1 : representable 1.
Proof. exact RN_1. Qed.

(** A float that is at least 1 and at most [2 ^ 53] loses exactly 1 when 1
    is subtracted from it. *)
Lemma sub_one_exact (s : Q) :
  representable s -> 1 <= s -> s <= inject_Z (2 ^ 53) -> sub s 1 == s - 1.
Proof.
  intros Hrep Hlo Hhi. unfold sub.
  assert (Hs : 0 < s) by lra.
  unfold representable in Hrep. rewrite RN_pos in Hrep by done.
  unfold nearest in Hrep.
  destruct (nearest_mantissa s Hs) as [Hm0 Hm1].
  set (m := Py.round (s / 2 ^ exponent s)) in *.
  destruct (ilog2_spec s Hs) as [Hel Heh].
  assert (He0 : (0 <= ilog2 s)%Z).
  { assert ((0 < ilog2 s + 1)%Z); [|lia]. apply two_lt_inv.
    change (2 ^ 0) with 1. lra. }
  assert (He1 : (ilog2 s <= 53)%Z).
  { assert ((ilog2 s < 53 + 1)%Z); [|lia]. apply two_lt_inv.
    pose proof (two_lt 53 (53 + 1) ltac:(lia)) as H.
    pose proof (two_int 53 ltac:(lia)) as H53.
    eapply Qle_lt_trans; [exact Hel|]. eapply Qle_lt_trans; [exact Hhi|].
    rewrite <- H53. exact H. }
  assert (Hq : exponent s = (ilog2 s - 52)%Z) by (unfold exponent; lia).
  pose proof (two_pos (exponent s)) as Hpq.
  destruct (Z_le_gt_dec (exponent s) 0) as [Hq0|Hq1].
  - assert (Hone : 1 == inject_Z (2 ^ (- exponent s)) * 2 ^ exponent s).
    { rewrite <- two_int by lia. rewrite <- two_plus.
      by replace (- exponent s + exponent s)%Z with 0%Z by lia. }
    assert (Heq : s - 1 == inject_Z (m - 2 ^ (- exponent s)) * 2 ^ exponent s).
    { unfold Zminus. rewrite inject_Z_plus, inject_Z_opp. rewrite <- Hrep at 1.
      rewrite Hone at 1. ring. }
    rewrite Heq. apply RN_grid; [|apply exponent_ge].
    assert (Hge : (2 ^ (- exponent s) <= m)%Z).
    { rewrite Zle_Qle. apply (Qmult_le_r _ _ (2 ^ exponent s)); [done|].
      rewrite <- Hone. lra. }
    assert (Hp : (0 < 2 ^ (- exponent s))%Z) by (apply Z.pow_pos_nonneg; lia).
    lia.
  - assert (Hil : ilog2 s = 53%Z) by lia.
    rewrite Hil in Hel. rewrite (two_int 53) in Hel by lia.
    assert (Heq : s - 1 == inject_Z (2 ^ 53 - 1)).
    { unfold Zminus. rewrite inject_Z_plus, inject_Z_opp.
      change (inject_Z 1) with 1. lra. }
    rewrite Heq. apply RN_int. lia.
Qed.

(** The floats below 1 end at [1 - 2 ^ -53]. *)
Lemma below_one (s : Q) :
  representable s -> s < 1 -> s <= 1 - 2 ^ (-53).
Proof.
  intros Hrep Hlt.
  destruct (Qlt_le_dec (1 - 2 ^ (-53)) s) as [Hgt|Hle]; [|done].
  exfalso.
  assert (Hhalf : 2 ^ (-1) <= 1 - 2 ^ (-53)) by (vm_compute; discriminate).
  assert (Hs : 0 < s) by (pose proof (two_pos (-1)); lra).
  assert (Hil : ilog2 s = (-1)%Z).
  { apply ilog2_unique; [lra|]. change (2 ^ (-1 + 1)) with 1. lra. }
  unfold representable in Hrep. rewrite RN_pos in Hrep by done.
  unfold nearest in Hrep.
  assert (Hq : exponent s = (-53)%Z) by (unfold exponent; rewrite Hil; lia).
  rewrite Hq in Hrep.
  set (m := Py.round (s / 2 ^ (-53))) in *.
  pose proof (two_pos (-53)) as Hp.
  assert (Hone : 1 == inject_Z (2 ^ 53) * 2 ^ (-53)) by (vm_compute; reflexivity).
  assert (H1 : (m < 2 ^ 53)%Z).
  { rewrite Zlt_Qlt. apply (Qmult_lt_r _ _ (2 ^ (-53))); [done|].
    rewrite <- Hone. lra. }
  assert (H2 : (2 ^ 53 - 1 < m)%Z).
  { rewrite Zlt_Qlt. apply (Qmult_lt_r _ _ (2 ^ (-53))); [done|].
    unfold Zminus. rewrite inject_Z_plus, inject_Z_opp.
    change (inject_Z 1) with 1. rewrite Hrep.
    assert (H : (inject_Z (2 ^ 53) + - (1)) * 2 ^ (-53) == 1 - 2 ^ (-53)).
    { rewrite Hone at 2. ring. }
    lra. }
  lia.
Qed.

Lemma value_well_formed (a : number) :
  well_formed a -> (forall z, a = Int z -> (Z.abs z <= 2 ^ 53)%Z) ->
  to_float a == value a.
Proof.
  destruct a as [z|x]; simpl; intros Hwf Hz; [|reflexivity].
  apply RN_int. by apply Hz.
Qed.

Lemma to_float_nonneg (a : number) : 0 <= value a -> 0 <= to_float a.
Proof. destruct a as [z|x]; simpl; [apply RN_nonneg|done]. Qed.

End Binary64_facts.

(** ** The token bucket on binary64 arithmetic *)

Module Bucket.
Import Binary64 Binary64_facts Notions.
Import Rounded.RateLimiter.
Local Open Scope Q_scope.

Lemma Qle_bool_false (x y : Q) : Qle_bool x y = false <-> y < x.
Proof.
  split.
  - intros Hf. apply Qnot_le_lt. intros Hle. apply Qle_bool_iff in Hle. congruence.
  - intros Hlt. destruct (Qle_bool x y) eqn:Hb; [|done].
    apply Qle_bool_iff in Hb. lra.
Qed.

(** The refilled count is the int [burst_size], or a float below it. *)
Lemma refill_cases (self : t) (now : Q) :
  let s := add (to_float (tokens self))
               (mul (sub now (last_update self)) (requests_per_second self)) in
  (inject_Z (burst_size self) <= s /\ refill self now = Int (burst_size self))
  \/ (s < inject_Z (burst_size self) /\ refill self now = Float s).
Proof.
  intros s. unfold refill, min, lt.
  assert (Hplus : plus (tokens self)
                    (Float (mul (sub now (last_update self)) (requests_per_second self)))
                  = Float s) by (by destruct (tokens self)).
  rewrite Hplus. simpl.
  destruct (Qle_bool (inject_Z (burst_size self)) s) eqn:Hb; simpl.
  - left. by apply Qle_bool_iff in Hb.
  - right. by apply Qle_bool_false in Hb.
Qed.

Lemma refill_le (self : t) (now : Q) :
  value (refill self now) <= inject_Z (burst_size self).
Proof.
  destruct (refill_cases self now) as [[_ ->]|[Hlt ->]]; simpl; lra.
Qed.

Lemma refill_well_formed (self : t) (now : Q) : well_formed (refill self now).
Proof.
  destruct (refill_cases self now) as [[_ ->]|[_ ->]]; simpl; [done|].
  apply RN_representable.
Qed.

(** With tokens that are not negative, the refill leaves them so if the
    clock did not run backwards or the rate is zero. *)
Lemma refill_nonneg (self : t) (now : Q) :
  within_bucket self ->
  0 <= (now - last_update self) * requests_per_second self ->
  0 <= value (refill self now).
Proof.
  intros [Hlo Hhi] Hprod.
  destruct (refill_cases self now) as [[_ ->]|[_ ->]]; simpl; [lra|].
  apply RN_nonneg.
  pose proof (to_float_nonneg _ Hlo) as Ht.
  assert (Hp : 0 <= mul (sub now (last_update self)) (requests_per_second self)).
  { apply RN_nonneg. unfold sub.
    destruct (Qlt_le_dec 0 (requests_per_second self)) as [Hr|Hr].
    - assert (0 <= now - last_update self) by nra.
      pose proof (RN_nonneg _ H). nra.
    - destruct (Qlt_le_dec (requests_per_second self) 0) as [Hr'|Hr'].
      + assert (now - last_update self <= 0) by nra.
        pose proof (RN_nonpos _ H). nra.
      + assert (Hz : requests_per_second self == 0) by lra.
        rewrite Hz. lra. }
  lra.
Qed.

Lemma minus_one_value (a : number) :
  well_formed a -> 1 <= value a -> value a <= inject_Z (2 ^ 53) ->
  value (minus a (Int 1)) == value a - 1.
Proof.
  destruct a as [z|x]; simpl; intros Hwf Hlo Hhi.
  - unfold Zminus. rewrite inject_Z_plus, inject_Z_opp. reflexivity.
  - unfold sub. change (inject_Z 1) with 1. rewrite RN_1.
    by apply sub_one_exact.
Qed.

Lemma minus_one_bounds (a : number) :
  well_formed a -> 1 <= value a ->
  0 <= value (minus a (Int 1)) /\ value (minus a (Int 1)) <= value a.
Proof.
  destruct a as [z|x]; simpl; intros Hwf Hlo.
  - unfold Zminus. rewrite inject_Z_plus, inject_Z_opp.
    change (inject_Z 1) with 1. split; lra.
  - unfold sub. change (inject_Z 1) with 1. rewrite RN_1. split.
    + apply RN_nonneg. lra.
    + apply RN_le; [done|lra].
Qed.

(** C6, as the code has it, in binary64 arithmetic.  [acquire] keeps the
    token count in [[0, burst_size]].  Each call first refills the tokens to
    [min(burst_size, tokens + elapsed * rate)], each operation rounded.  If
    the refilled count is at least 1, it takes one token and returns without
    sleeping, the timestamp being the time of the call; the subtraction is
    exact for a burst size of at most [2 ^ 53].  Otherwise, if the rate is
    not zero, it sleeps [(1 - tokens) / rate] seconds, sets the tokens to 0
    and takes the time read after the sleep as the new timestamp; if the
    rate is zero the division raises [ZeroDivisionError], and the call ends
    there with the refilled count and the time of the call. *)
Theorem acquire_keeps_tokens_in_bucket (self : t) (now now' : Q) :
  within_bucket self ->
  let time_passed := sub now (last_update self) in
  let refilled :=
    min (Int (burst_size self))
        (plus (tokens self) (Float (mul time_passed (requests_per_second self)))) in
  let r := acquire self now now' in
  within_bucket r.2
  /\ burst_size r.2 = burst_size self
  /\ requests_per_second r.2 = requests_per_second self
  /\ (1 <= value refilled ->
      r.1 = (Returned tt, None)
      /\ tokens r.2 = minus refilled (Int 1)
      /\ last_update r.2 = now
      /\ ((burst_size self <= 2 ^ 53)%Z ->
          value (tokens r.2) == value refilled - 1))
  /\ (value refilled < 1 -> ~ requests_per_second self == 0 ->
      r.1 = (Returned tt,
             Some (truediv (minus (Int 1) refilled)
                           (Float (requests_per_second self))))
      /\ tokens r.2 = Int 0
      /\ last_update r.2 = now')
  /\ (value refilled < 1 -> requests_per_second self == 0 ->
      r.1 = (Raised ZeroDivisionError, None)
      /\ tokens r.2 = refilled
      /\ last_update r.2 = now).
Proof.
  intros Hin time_passed refilled r.
  assert (Href : refilled = refill self now) by reflexivity.
  pose proof (refill_le self now) as Hle. rewrite <- Href in Hle.
  pose proof (refill_well_formed self now) as Hwf. rewrite <- Href in Hwf.
  destruct Hin as [Hlo Hhi].
  assert (Hb0 : 0 <= inject_Z (burst_size self)) by lra.
  subst r. unfold acquire. rewrite <- Href.
  assert (H0 : requests_per_second self == 0 -> 0 <= value refilled).
  { intros Hzero. rewrite Href. apply refill_nonneg; [done|]. rewrite Hzero. lra. }
  clearbody refilled. clear time_passed Href.
  unfold le. change (value (Int 1)) with 1.
  destruct (Qle_bool 1 (value refilled)) eqn:Hone.
  - apply Qle_bool_iff in Hone.
    destruct (minus_one_bounds refilled Hwf Hone) as [Hm0 Hm1].
    unfold within_bucket. simpl.
    split; [split; lra|]. split; [done|]. split; [done|].
    split; [|split; intros; lra].
    intros _. split; [done|]. split; [done|]. split; [done|].
    intros Hb. apply minus_one_value; [done|done|].
    rewrite Zle_Qle in Hb. lra.
  - apply Qle_bool_false in Hone.
    destruct (Qeq_bool (requests_per_second self) 0) eqn:Hzero.
    + apply Qeq_bool_iff in Hzero. unfold within_bucket. simpl.
      specialize (H0 Hzero).
      split; [split; lra|]. split; [done|]. split; [done|].
      split; [intros; lra|]. split; [intros _ Hnz; by destruct Hnz|].
      intros _ _. done.
    + assert (Hnz : ~ requests_per_second self == 0).
      { intros Hq. apply Qeq_bool_iff in Hq. congruence. }
      unfold within_bucket. simpl. change (inject_Z 0) with 0.
      split; [split; lra|]. split; [done|]. split; [done|].
      split; [intros; lra|]. split; [done|].
      intros _ Hq. by destruct Hnz.
Qed.

Lemma acquire_keeps_tokens_in_bucket_witness :
  let self := mk 2 5 (Float (1 # 2)) 0 in
  let r := acquire self (RN (1 # 10)) (1 # 4) in
  within_bucket r.2
  /\ r.1 = (Returned tt, Some (1351079888211149 # 9007199254740992))
  /\ tokens r.2 = Int 0.
Proof.
  assert (H : within_bucket (mk 2 5 (Float (1 # 2)) 0))
    by (split; vm_compute; discriminate).
  destruct (acquire_keeps_tokens_in_bucket (mk 2 5 (Float (1 # 2)) 0)
              (RN (1 # 10)) (1 # 4) H)
    as (Hr & _ & _ & _ & Hslow & _).
  destruct Hslow as (Hout & Htok & _);
    [vm_compute; reflexivity|vm_compute; discriminate|].
  split; [exact Hr|]. split; [|exact Htok].
  etrans; [exact Hout|]. vm_compute. reflexivity.
Defined.

(** C6, as stated, fails.  With a rate of zero and the burst spent, the
    call does not wait: the division by the rate raises.  And with half a
    token, a rate of 2 and a tenth of a second elapsed, the sleep is not
    [(1 - 0.7) / 2]: the refilled count is the float below 0.7 and the call
    sleeps 0.15000000000000002 seconds. *)
Lemma zero_rate_raises_instead_of_waiting :
  (let first := acquire (new 0 1 0) 0 0 in
   let second := acquire first.2 5 5 in
   first.1 = (Returned tt, None)
   /\ value (refill first.2 5) < 1
   /\ second.1 = (Raised ZeroDivisionError, None)
   /\ last_update second.2 = 5)
  /\ (let self := mk 2 5 (Float (1 # 2)) 0 in
      let now := RN (1 # 10) in
      value (refill self now) < (1 # 2) + now * 2
      /\ (acquire self now (1 # 4)).1
         = (Returned tt, Some (1351079888211149 # 9007199254740992))
      /\ ~ (1351079888211149 # 9007199254740992)
           == (1 - ((1 # 2) + now * 2)) / 2
      /\ ~ (1351079888211149 # 9007199254740992)
           == (1 - ((1 # 2) + (1 # 10) * 2)) / 2).
Proof.
  split.
  - repeat split; vm_compute; reflexivity.
  - split; [vm_compute; reflexivity|]. split; [vm_compute; reflexivity|].
    split; vm_compute; discriminate.
Qed.

End Bucket.

(** ** The progress view on binary64 arithmetic *)

Module Progress.
Import Binary64 Binary64_facts.
Import DownloadCoordinator.
Import Rounded.DownloadCoordinator.
Local Open Scope Q_scope.







End Progress.

(** ** What the monitor shows *)

Module Reporting.
Import DownloadQueue Notions.

Lemma entries_are_pending (σ : state) :
  registered σ ->
  (length (heap_of σ) <= size (_pending_tasks (self σ)))%nat.
Proof.
  intros [Hnd Hreg].
  set (owner := fun r : ref =>
         match objs σ !! r with Some tk => task_id tk | None => "" end).
  assert (Hown : forall r, r ∈ heap_of σ ->
            _pending_tasks (self σ) !! owner r = Some r).
  { intros r Hr. destruct (Hreg r Hr) as (tk & Hobj & Hp).
    unfold owner. by rewrite Hobj. }
  assert (Hinj : NoDup (owner <$> heap_of σ)).
  { apply NoDup_fmap_2_strong; [|done].
    intros r1 r2 Hr1 Hr2 Heq.
    pose proof (Hown r1 Hr1) as H1. pose proof (Hown r2 Hr2) as H2.
    rewrite Heq in H1. congruence. }
  rewrite <- (length_fmap owner), <- size_dom.
  rewrite <- (size_list_to_set (C := gset string) _ Hinj).
  apply subseteq_size. intros id [r [-> Hr]]%elem_of_list_to_set%list_elem_of_fmap.
  apply elem_of_dom. rewrite (Hown r Hr). eauto.
Qed.

(** X14.  In every run of submissions and worker rounds on a new queue, the
    progress the running coordinator reports is a percentage between 0 and
    100, whatever its workers and clock: the completed and failed identities
    are never more than the tasks added. The queue size it reports is never
    above the number of pending tasks, and the bar the monitor draws for the
    percentage has exactly [width] cells between its brackets. *)
Theorem progress_is_a_percentage
        (tasks : store) (max_size : Z) (rl0 : RateLimiter.t)
        (events : list Protocol.event)
        (start_time : option Z) (concurrent_downloads : Z)
        (workers : list DownloadWorker.t) (now : Z) (width : Z) :
  named tasks ->
  (0 <= width)%Z ->
  let q := self (Protocol.run (State tasks (DownloadQueue.new max_size), rl0) events).1 in
  exists info,
    DownloadCoordinator.get_progress_info
      (DownloadCoordinator.mk true start_time concurrent_downloads q workers) now
    = DownloadCoordinator.running info
    /\ (0 <= DownloadCoordinator.progress_percentage info)%Q
    /\ (DownloadCoordinator.progress_percentage info <= 100)%Q
    /\ (DownloadCoordinator.completed_tasks info + DownloadCoordinator.failed_tasks info
        <= DownloadCoordinator.total_tasks info)%Z
    /\ (0 <= DownloadCoordinator.queue_size info
        <= DownloadCoordinator.pending_tasks info)%Z
    /\ length (DownloadMonitor._create_progress_bar
                 (DownloadCoordinator.progress_percentage info) width)
       = (Z.to_nat width + 2)%nat.
Proof.
  intros Hnamed Hwidth q.
  destruct (Soundness.sound_run events
              (State tasks (DownloadQueue.new max_size), rl0)
              (Soundness.sound_new tasks max_size Hnamed))
    as (_ & Hacc & Hreg & _ & Hbal & Hrec & (_ & _ & Hdom)).
  pose proof (entries_are_pending _ Hreg) as Hent.
  unfold heap_of in Hent. fold q in Hacc, Hbal, Hrec, Hdom, Hent.
  unfold accounted, balanced, reconciled, PriorityQueue.qsize in *.
  eexists. split; [reflexivity|]. simpl.
  set (done_ := (Z.of_nat (size (_completed_tasks q))
                 + Z.of_nat (size (_failed_tasks q)))%Z).
  assert (Hdone : (0 <= done_ <= total_added (_stats q))%Z) by (subst done_; lia).
  set (pct := if (0 <? total_added (_stats q))%Z
              then (Py.truediv done_ (total_added (_stats q)) * 100)%Q
              else 0%Q).
  assert (Hpct : (0 <= pct)%Q /\ (pct <= inject_Z 100)%Q).
  { subst pct. destruct (Z.ltb_spec 0 (total_added (_stats q))) as [Hpos|Hnpos].
    - destruct (Py_facts.truediv_unit done_ (total_added (_stats q)) Hdone Hpos).
      change (inject_Z 100) with 100%Q. split; lra.
    - split; [lra|]. unfold Qle. simpl. lia. }
  destruct Hpct as [Hlo Hhi].
  destruct (Py_facts.round_nd_bounds pct 100 1 Hlo Hhi) as [Hrlo Hrhi].
  split; [done|]. split; [done|]. split; [lia|].
  split; [unfold PriorityQueue.qsize; lia|].
  unfold DownloadMonitor._create_progress_bar.
  set (filled := Py.int _).
  assert (Hfilled : (0 <= filled <= width)%Z).
  { apply Py_facts.int_bounds.
    - assert (0 <= inject_Z width)%Q by (unfold Qle; simpl; lia).
      apply Qle_shift_div_l; [lra|]. nra.
    - assert (0 <= inject_Z width)%Q by (unfold Qle; simpl; lia).
      apply Qle_shift_div_r; [lra|].
      change (inject_Z 100) with 100%Q in Hrhi. nra. }
  unfold DownloadMonitor.times.
  rewrite !length_app, !length_replicate. simpl. lia.
Qed.

Lemma progress_is_a_percentage_witness :
  exists info,
    DownloadCoordinator.get_progress_info
      (DownloadCoordinator.mk true (Some 0%Z) 3
         (self (Protocol.run (Sample.fresh, RateLimiter.new 2 5 0)
                  [Protocol.Submit 0%nat; Protocol.Submit 1%nat;
                   Protocol.Round (DownloadWorker.new "worker_1")
                                  SampleWorker.skipping 1 0 0]).1) []) 5000000
    = DownloadCoordinator.running info
    /\ (DownloadCoordinator.progress_percentage info == 50)%Q
    /\ length (DownloadMonitor._create_progress_bar
                 (DownloadCoordinator.progress_percentage info) 20) = 22%nat.
Proof.
  destruct (progress_is_a_percentage Sample.tasks 100 (RateLimiter.new 2 5 0)
              [Protocol.Submit 0%nat; Protocol.Submit 1%nat;
               Protocol.Round (DownloadWorker.new "worker_1")
                              SampleWorker.skipping 1 0 0]
              (Some 0%Z) 3 [] 5000000 20)
    as (info & Hinfo & _ & _ & _ & _ & Hbar); [compute_done|lia|].
  exists info. split; [exact Hinfo|]. split; [|exact Hbar].
  assert (Hpct : DownloadCoordinator.running info
                 = DownloadCoordinator.get_progress_info
                     (DownloadCoordinator.mk true (Some 0%Z) 3
                        (self (Protocol.run (Sample.fresh, RateLimiter.new 2 5 0)
                                 [Protocol.Submit 0%nat; Protocol.Submit 1%nat;
                                  Protocol.Round (DownloadWorker.new "worker_1")
                                                 SampleWorker.skipping 1 0 0]).1) [])
                     5000000) by (symmetry; exact Hinfo).
  vm_compute in Hpct. injection Hpct as ->. vm_compute. reflexivity.
Defined.

End Reporting.

(** ** Bursts and waits of the rate limiter *)

Module Bursting.
Import RateLimiter Notions.
Local Open Scope Q_scope.

Lemma inject_Z_pred (k : Z) : inject_Z (k - 1) == inject_Z k - 1.
Proof. unfold Zminus. rewrite inject_Z_plus, inject_Z_opp. reflexivity. Qed.

Lemma inject_Z_succ_nat (n : nat) :
  inject_Z (Z.of_nat (S n)) == inject_Z (Z.of_nat n) + 1.
Proof. rewrite Nat2Z.inj_succ. unfold Z.succ. by rewrite inject_Z_plus. Qed.

Lemma acquire_with_tokens (self : t) (now now' : Q) (k : Q) :
  0 <= requests_per_second self ->
  last_update self <= now ->
  tokens self <= inject_Z (burst_size self) ->
  1 <= k -> k <= tokens self ->
  let r := acquire self now now' in
  r.1 = (Returned tt, None)
  /\ k - 1 <= tokens r.2
  /\ tokens r.2 <= inject_Z (burst_size r.2)
  /\ (now == last_update self -> tokens r.2 == tokens self - 1)
  /\ last_update r.2 = now
  /\ requests_per_second r.2 = requests_per_second self
  /\ burst_size r.2 = burst_size self.
Proof.
  intros Hrate Htime Hcap Hk Hle r. subst r. unfold acquire, refill.
  set (refilled := Py.min _ _).
  assert (Hge : tokens self <= refilled).
  { subst refilled. apply Limiter.min_ge; [done|]. nra. }
  assert (Hcap' : refilled <= inject_Z (burst_size self))
    by apply Limiter.min_le_l.
  rewrite (proj2 (Qle_bool_iff 1 refilled)) by lra. simpl.
  split; [done|]. split; [lra|]. split; [lra|].
  split; [|done].
  intros Hsame. subst refilled. unfold Py.min.
  destruct (Qlt_le_dec _ _) as [Hlt|Hge']; [|nra].
  rewrite Hsame. ring.
Qed.

(** X15.  A new rate limiter serves its burst without waiting: whatever the
    (non-decreasing) times of the calls and for a rate that is not negative,
    none of the first [burst_size] calls of [acquire] sleeps or raises, and
    after [n] of them at least [burst_size - n] tokens are left. *)
Theorem burst_is_served_without_waiting
        (rate : Q) (burst : Z) (now0 : Q) (times : list (Q * Q)) :
  0 <= rate ->
  (Z.of_nat (length times) <= burst)%Z ->
  Bursts.monotone now0 times ->
  let r := Bursts.run (new rate burst now0) times in
  Forall (fun o => o = (Returned tt, None)) r.1
  /\ length r.1 = length times
  /\ inject_Z burst - inject_Z (Z.of_nat (length times)) <= tokens r.2
  /\ tokens r.2 <= inject_Z burst.
Proof.
  intros Hrate Hlen Hmono.
  cut (forall (self : t) (k : Z),
          requests_per_second self = rate -> burst_size self = burst ->
          Bursts.monotone (last_update self) times ->
          tokens self <= inject_Z burst ->
          (Z.of_nat (length times) <= k)%Z -> inject_Z k <= tokens self ->
          Forall (fun o => o = (Returned tt, None)) (Bursts.run self times).1
          /\ length (Bursts.run self times).1 = length times
          /\ inject_Z k - inject_Z (Z.of_nat (length times))
             <= tokens (Bursts.run self times).2
          /\ tokens (Bursts.run self times).2 <= inject_Z burst).
  { intros Hcut. apply (Hcut (new rate burst now0) burst); try done; simpl; lra. }
  clear Hlen Hmono.
  induction times as [|[now now'] rest IH]; intros self k Hr Hb Hmono Hcap Hlen Hk.
  - simpl. split; [done|]. split; [done|].
    change (inject_Z (Z.of_nat 0)) with 0. split; lra.
  - destruct Hmono as [Htime Hmono]. simpl in Hlen.
    assert (Hk1 : 1 <= inject_Z k).
    { change 1 with (inject_Z 1). rewrite <- Zle_Qle. lia. }
    destruct (acquire_with_tokens self now now' (inject_Z k))
      as (Hout & Hlo & Hhi & _ & Hlast & Hrate' & Hburst'); try done.
    { by rewrite Hr. }
    { by rewrite Hb. }
    destruct (IH (acquire self now now').2 (k - 1)%Z) as (Hall & Hl & Hlo' & Hhi').
    + by rewrite Hrate'.
    + by rewrite Hburst'.
    + by rewrite Hlast.
    + by rewrite Hburst', Hb in Hhi.
    + lia.
    + rewrite inject_Z_pred. lra.
    + cbn [Bursts.run fst snd]. split; [by constructor|].
      split; [simpl; by rewrite Hl|]. split; [|done].
      cbn [length]. rewrite inject_Z_succ_nat.
      rewrite inject_Z_pred in Hlo'. lra.
Qed.

Lemma burst_is_served_without_waiting_witness :
  (Bursts.run (new 2 5 0) [(0, 0); (0, 0); (1 # 10, 1 # 10)]).1
  = [(Returned tt, None); (Returned tt, None); (Returned tt, None)]
  /\ inject_Z 5 - inject_Z 3
     <= tokens (Bursts.run (new 2 5 0) [(0, 0); (0, 0); (1 # 10, 1 # 10)]).2.
Proof.
  destruct (burst_is_served_without_waiting 2 5 0 [(0, 0); (0, 0); (1 # 10, 1 # 10)])
    as (_ & _ & Hlo & _).
  - vm_compute; discriminate.
  - simpl; lia.
  - simpl. repeat split; vm_compute; discriminate.
  - split; [vm_compute; reflexivity|exact Hlo].
Defined.

End Bursting.

(** ** The sleep of the rate limiter *)

Module Sleeping.
Import Binary64 Binary64_facts Notions.
Import Rounded.RateLimiter.
Local Open Scope Q_scope.

(** X16.  With the token count in [[0, burst_size]], a positive rate and a
    clock that does not run backwards, [acquire] never raises; it sleeps
    exactly when the refilled token count is below 1, and then for
    [(1 - tokens) / rate] seconds as binary64 computes them: not a negative
    time, at most the period [1 / rate] rounded, and more than nothing
    unless the rate exceeds [2 ^ 1021]; it leaves no token and the time
    read after the sleep. *)
Theorem acquire_sleeps_at_most_one_period (self : t) (now now' : Q) :
  within_bucket self ->
  0 < requests_per_second self ->
  last_update self <= now ->
  let r := acquire self now now' in
  r.1.1 = Returned tt
  /\ (r.1.2 = None <-> 1 <= value (refill self now))
  /\ (forall wait_time, r.1.2 = Some wait_time ->
        wait_time = truediv (minus (Int 1) (refill self now))
                            (Float (requests_per_second self))
        /\ 0 <= wait_time
        /\ wait_time <= div 1 (requests_per_second self)
        /\ (requests_per_second self <= 2 ^ 1021 -> 0 < wait_time)
        /\ tokens r.2 = Int 0
        /\ last_update r.2 = now').
Proof.
  intros Hin Hrate Htime r. subst r.
  assert (Hge : 0 <= value (refill self now)).
  { apply Bucket.refill_nonneg; [done|]. nra. }
  pose proof (Bucket.refill_well_formed self now) as Hwf.
  unfold acquire. set (refilled := refill self now) in *. clearbody refilled.
  unfold le. change (value (Int 1)) with 1.
  destruct (Qle_bool 1 (value refilled)) eqn:Hone.
  - apply Qle_bool_iff in Hone. cbn [fst snd].
    split; [done|]. split; [split; [by intros _|done]|]. intros w [=].
  - apply Bucket.Qle_bool_false in Hone.
    destruct (Qeq_bool (requests_per_second self) 0) eqn:Hzero.
    { apply Qeq_bool_iff in Hzero. lra. }
    cbn [fst snd tokens last_update]. split; [done|].
    split; [split; [done|lra]|].
    set (rate := requests_per_second self) in *.
    remember (truediv (minus (Int 1) refilled) (Float rate)) as wt eqn:Hwt.
    intros w [= <-]. split; [done|].
    (* the float [1 - tokens] *)
    assert (exists d, 2 ^ (-53) <= d /\ d <= 1 /\ wt == div d rate)
      as (d & Hd0 & Hd1 & Hwd).
    { rewrite Hwt. clear Hwt.
      destruct refilled as [z|s]; cbn [value to_float minus truediv well_formed] in *.
      - assert (Hz : z = 0%Z).
        { assert (0 <= z < 1)%Z; [|lia]. split.
          - by rewrite Zle_Qle.
          - by rewrite Zlt_Qlt. }
        subst z. exists 1. repeat split; try done; vm_compute; discriminate.
      - exists (RN (1 - s)).
        pose proof (below_one s Hwf Hone) as Hs.
        split; [|split].
        + apply RN_ge; [|lra].
          pose proof (RN_grid 1 (-53) ltac:(vm_compute; discriminate) ltac:(lia)) as H.
          unfold representable in *. by rewrite Qmult_1_l in H.
        + apply RN_le; [apply representable_1|lra].
        + unfold div, sub. change (inject_Z 1) with 1. by rewrite RN_1. }
    rewrite Hwd. clear Hwd Hwt wt.
    pose proof (two_pos (-53)) as Hp.
    split; [apply RN_nonneg; apply Qle_shift_div_l; lra|].
    split.
    + apply RN_mono. apply Qle_shift_div_r; [done|].
      assert (H : 1 / rate * rate == 1) by (field; lra). lra.
    + split; [|done]. intros Hbig.
      assert (Hlow : 2 ^ (-1074) <= d / rate).
      { apply Qle_shift_div_l; [done|].
        assert (H : 2 ^ (-1074) * 2 ^ 1021 == 2 ^ (-53)).
        { rewrite <- two_plus. reflexivity. }
        pose proof (two_pos (-1074)). nra. }
      pose proof (two_pos (-1074)) as Hpos.
      assert (Hrep : representable (2 ^ (-1074))).
      { pose proof (RN_grid 1 (-1074) ltac:(vm_compute; discriminate) ltac:(lia)) as H.
        unfold representable in *. by rewrite Qmult_1_l in H. }
      pose proof (RN_ge _ _ Hrep Hlow). unfold div. lra.
Qed.

Lemma acquire_sleeps_at_most_one_period_witness :
  let r := acquire (mk 2 5 (Float (1 # 2)) 0) (RN (1 # 10)) (1 # 4) in
  r.1.1 = Returned tt
  /\ r.1.2 = Some (1351079888211149 # 9007199254740992).
Proof.
  destruct (acquire_sleeps_at_most_one_period (mk 2 5 (Float (1 # 2)) 0)
              (RN (1 # 10)) (1 # 4))
    as (Hret & _).
  - split; vm_compute; discriminate.
  - vm_compute; reflexivity.
  - vm_compute; discriminate.
  - split; [exact Hret|vm_compute; reflexivity].
Defined.

(** A third of a second at three requests a second: the float next to 1/3
    is below 1/3, but its product with 3 rounds to 1; the call finds a whole
    token and does not sleep. *)
Lemma a_third_of_a_second_at_rate_three :
  let self := mk 3 5 (Int 0) 0 in
  let now := RN (1 # 3) in
  now < 1 # 3
  /\ value (refill self now) == 1
  /\ (acquire self now 1).1 = (Returned tt, None)
  /\ tokens (acquire self now 1).2 = Float 0.
Proof. repeat split; vm_compute; reflexivity. Qed.

End Sleeping.

(** ** [heapq] keeps the heap order *)

Module heapq_order.
Section Order.
Context {A : Type} (lt : A -> A -> bool) (key : A -> Z) (U : A -> Prop).
Hypothesis Hlt : forall a b, U a -> U b -> lt a b = bool_decide (key a < key b).

Lemma parent_spec (c pos : nat) :
  (0 < c)%nat ->
  HeapOrder.parent c = pos <-> (c = 2 * pos + 1 \/ c = 2 * pos + 2)%nat.
Proof.
  intros Hc. unfold HeapOrder.parent.
  pose proof (Nat.div_mod_eq (c - 1) 2) as H.
  pose proof (Nat.mod_upper_bound (c - 1) 2 ltac:(lia)) as H2.
  split; intros; lia.
Qed.

Lemma parent_lt (i : nat) : (0 < i)%nat -> (HeapOrder.parent i < i)%nat.
Proof.
  intros Hi. destruct (proj1 (parent_spec i (HeapOrder.parent i) Hi) eq_refl); lia.
Qed.

Lemma ordered_nil : HeapOrder.ordered key [].
Proof. intros i x p _ Hx. done. Qed.

Lemma hole_insert (heap : list A) (pos : nat) (y : A) :
  HeapOrder.hole key heap pos -> HeapOrder.hole key (<[pos := y]> heap) pos.
Proof.
  intros [Ha Hc]. split.
  - intros i x p Hi Hne Hpar Hx Hp.
    rewrite list_lookup_insert_ne in Hx by done.
    rewrite list_lookup_insert_ne in Hp by done. eauto.
  - intros c x g Hpos Hc0 Hpar Hx Hg.
    pose proof (parent_lt c Hc0). pose proof (parent_lt pos Hpos).
    rewrite list_lookup_insert_ne in Hx by lia.
    rewrite list_lookup_insert_ne in Hg by lia. eauto.
Qed.

(** The entry is put down where its parent is not above it and its children
    are not below it. *)
Lemma place_ordered (heap : list A) (pos : nat) (newitem : A) :
  (pos < length heap)%nat ->
  HeapOrder.hole key heap pos ->
  (forall c x, (0 < c)%nat -> HeapOrder.parent c = pos -> heap !! c = Some x ->
               key newitem <= key x) ->
  (forall p, (0 < pos)%nat -> heap !! HeapOrder.parent pos = Some p ->
             key p <= key newitem) ->
  HeapOrder.ordered key (<[pos := newitem]> heap).
Proof.
  intros Hpos [Ha _] Hch Hup i x p Hi Hx Hp.
  pose proof (parent_lt i Hi) as Hlti.
  destruct (decide (i = pos)) as [->|Hne].
  - rewrite list_lookup_insert_eq in Hx by done. injection Hx as <-.
    rewrite list_lookup_insert_ne in Hp by lia. eauto.
  - rewrite list_lookup_insert_ne in Hx by done.
    destruct (decide (HeapOrder.parent i = pos)) as [Hpar|Hnpar].
    + rewrite Hpar, list_lookup_insert_eq in Hp by done. injection Hp as <-.
      eauto.
    + rewrite list_lookup_insert_ne in Hp by done. eauto.
Qed.

Lemma siftdown_loop_ordered (fuel : nat) (heap : list A) (pos : nat) (newitem : A) :
  Forall U heap -> U newitem ->
  (pos < length heap)%nat -> (pos <= fuel)%nat ->
  HeapOrder.hole key heap pos ->
  (forall c x, (0 < c)%nat -> HeapOrder.parent c = pos -> heap !! c = Some x ->
               key newitem <= key x) ->
  HeapOrder.ordered key (heapq.siftdown_loop lt fuel heap 0 pos newitem).
Proof.
  revert heap pos.
  induction fuel as [|fuel IH]; intros heap pos HU Hn Hpos Hfuel Hhole Hch.
  { cbn [heapq.siftdown_loop]. apply place_ordered; try done. intros p Hp. lia. }
  cbn [heapq.siftdown_loop].
  destruct (bool_decide_reflect (0 < pos)%nat) as [Hp0|Hp0];
    [|apply place_ordered; try done; intros p Hp; lia].
  fold (HeapOrder.parent pos).
  pose proof (parent_lt pos Hp0) as Hlt'.
  destruct (heap !! HeapOrder.parent pos) as [P|] eqn:HP;
    [|apply place_ordered; try done; intros p Hp; congruence].
  assert (HUP : U P) by (by apply (proj1 (Forall_lookup U heap) HU _ _ HP)).
  rewrite (Hlt newitem P Hn HUP).
  destruct (bool_decide_reflect (key newitem < key P)) as [Hless|Hge];
    [|apply place_ordered; try done; intros p _ Hp; simplify_eq; lia].
  destruct Hhole as [Ha Hc].
  apply IH.
  - by apply Forall_insert.
  - done.
  - rewrite length_insert. lia.
  - lia.
  - split.
    + intros i x p Hi Hne Hpar Hx Hp.
      assert (Hipos : i <> pos) by (intros ->; done).
      rewrite list_lookup_insert_ne in Hx by done.
      destruct (decide (HeapOrder.parent i = pos)) as [Hpi|Hpi].
      * rewrite Hpi, list_lookup_insert_eq in Hp by done. injection Hp as <-.
        by apply (Hc i x P).
      * rewrite list_lookup_insert_ne in Hp by done. eauto.
    + intros c x g Hpp Hc0 Hpar Hx Hg.
      pose proof (parent_lt _ Hpp) as Hltpp.
      rewrite list_lookup_insert_ne in Hg by lia.
      assert (HgP : key g <= key P).
      { apply (Ha (HeapOrder.parent pos) P g); try done; lia. }
      destruct (decide (c = pos)) as [->|Hcpos].
      * rewrite list_lookup_insert_eq in Hx by done. by injection Hx as <-.
      * rewrite list_lookup_insert_ne in Hx by done.
        assert (key P <= key x); [|lia].
        apply (Ha c x P); try done; [lia|by rewrite Hpar].
  - intros c x Hc0 Hpar Hx.
    destruct (decide (c = pos)) as [->|Hcpos].
    + rewrite list_lookup_insert_eq in Hx by done. injection Hx as <-. lia.
    + rewrite list_lookup_insert_ne in Hx by done.
      assert (key P <= key x); [|lia].
      apply (Ha c x P); try done; [lia|by rewrite Hpar].
Qed.

Lemma siftup_loop_hole (fuel : nat) (heap heap' : list A) (endpos pos pos' : nat) :
  Forall U heap -> endpos = length heap ->
  (pos < length heap)%nat -> (length heap - pos <= fuel)%nat ->
  HeapOrder.hole key heap pos ->
  heapq.siftup_loop lt fuel heap endpos pos = (heap', pos') ->
  HeapOrder.hole key heap' pos'
  /\ Forall U heap'
  /\ (pos' < length heap')%nat
  /\ (length heap' <= 2 * pos' + 1)%nat.
Proof.
  revert heap pos.
  induction fuel as [|fuel IH]; intros heap pos HU Hend Hpos Hfuel Hhole Hloop;
    [lia|].
  cbn [heapq.siftup_loop] in Hloop.
  destruct (bool_decide_reflect (2 * pos + 1 < endpos)%nat) as [Hchild|Hleaf]; cycle 1.
  { injection Hloop as <- <-. repeat split; try done; [apply Hhole..|lia]. }
  subst endpos.
  destruct (heap !! (2 * pos + 1)%nat) as [c|] eqn:Hc;
    [|apply lookup_lt_is_Some in Hchild; rewrite Hc in Hchild;
      by destruct Hchild].
  assert (HUc : U c) by (by apply (proj1 (Forall_lookup U heap) HU _ _ Hc)).
  set (chosen := match heap !! (2 * pos + 1 + 1)%nat with
                 | Some r => if negb (lt c r) then (2 * pos + 1 + 1)%nat
                             else (2 * pos + 1)%nat
                 | None => (2 * pos + 1)%nat
                 end) in Hloop.
  assert (Hchosen : exists c', heap !! chosen = Some c'
             /\ (chosen = 2 * pos + 1 \/ chosen = 2 * pos + 2)%nat
             /\ forall i x, (i = 2 * pos + 1 \/ i = 2 * pos + 2)%nat ->
                            heap !! i = Some x -> key c' <= key x).
  { subst chosen.
    destruct (heap !! (2 * pos + 1 + 1)%nat) as [r|] eqn:Hr.
    - assert (HUr : U r) by (by apply (proj1 (Forall_lookup U heap) HU _ _ Hr)).
      rewrite (Hlt c r HUc HUr).
      destruct (bool_decide_reflect (key c < key r)) as [Hless|Hge]; cbn [negb].
      + exists c. split; [done|]. split; [lia|].
        intros i x [->| ->] Hx; [simplify_eq; lia|].
        replace (2 * pos + 2)%nat with (2 * pos + 1 + 1)%nat in Hx by lia.
        simplify_eq. lia.
      + exists r. split; [done|]. split; [lia|].
        intros i x [->| ->] Hx; [simplify_eq; lia|].
        replace (2 * pos + 2)%nat with (2 * pos + 1 + 1)%nat in Hx by lia.
        simplify_eq. lia.
    - exists c. split; [done|]. split; [lia|].
      intros i x [->| ->] Hx; [simplify_eq; lia|].
      replace (2 * pos + 2)%nat with (2 * pos + 1 + 1)%nat in Hx by lia.
      congruence. }
  destruct Hchosen as (c' & Hc' & Hwhich & Hleast).
  rewrite Hc' in Hloop.
  assert (Hchosen_lt : (chosen < length heap)%nat) by (by eapply lookup_lt_Some).
  assert (Hchosen_gt : (pos < chosen)%nat) by lia.
  assert (Hparent : HeapOrder.parent chosen = pos)
    by (apply parent_spec; [lia|done]).
  destruct Hhole as [Ha Hcc].
  apply (IH (<[pos := c']> heap) chosen).
  - apply Forall_insert; [done|].
    by apply (proj1 (Forall_lookup U heap) HU _ _ Hc').
  - by rewrite length_insert.
  - by rewrite length_insert.
  - rewrite length_insert. lia.
  - split.
    + intros i x p Hi Hne Hpar Hx Hp.
      pose proof (parent_lt i Hi) as Hlti.
      destruct (decide (i = pos)) as [->|Hipos].
      * rewrite list_lookup_insert_eq in Hx by done. injection Hx as <-.
        rewrite list_lookup_insert_ne in Hp by lia.
        apply (Hcc chosen c' p); try done; lia.
      * rewrite list_lookup_insert_ne in Hx by done.
        destruct (decide (HeapOrder.parent i = pos)) as [Hpi|Hpi].
        -- rewrite Hpi, list_lookup_insert_eq in Hp by done. injection Hp as <-.
           apply (Hleast i x); [|done]. by apply parent_spec.
        -- rewrite list_lookup_insert_ne in Hp by done. eauto.
    + intros k x g _ Hk Hpar Hx Hg.
      rewrite Hparent, list_lookup_insert_eq in Hg by done. injection Hg as <-.
      assert (Hkc : (chosen < k)%nat).
      { pose proof (parent_lt k Hk). lia. }
      rewrite list_lookup_insert_ne in Hx by lia.
      apply (Ha k x c'); try done; try lia. by rewrite Hpar.
  - done.
Qed.

Lemma _siftup_root_ordered (heap : list A) :
  Forall U heap -> HeapOrder.hole key heap 0 ->
  HeapOrder.ordered key (heapq._siftup lt heap 0).
Proof.
  intros HU Hhole. unfold heapq._siftup.
  destruct (heap !! 0%nat) as [newitem|] eqn:H0.
  2:{ destruct heap; [apply ordered_nil|done]. }
  destruct (heapq.siftup_loop lt (length heap) heap (length heap) 0)
    as [heap' pos'] eqn:Hloop.
  assert (Hfuel : (length heap - 0 <= length heap)%nat) by lia.
  destruct (siftup_loop_hole (length heap) heap heap' (length heap) 0%nat pos'
              HU eq_refl (lookup_lt_Some _ _ _ H0) Hfuel Hhole Hloop)
    as (Hhole' & HU' & Hpos' & Hleaf).
  assert (HUn : U newitem) by (by apply (proj1 (Forall_lookup U heap) HU _ _ H0)).
  unfold heapq._siftdown. rewrite list_lookup_insert_eq by done.
  apply siftdown_loop_ordered.
  - by apply Forall_insert.
  - done.
  - by rewrite length_insert.
  - done.
  - by apply hole_insert.
  - intros c x Hc Hpar Hx. apply lookup_lt_Some in Hx.
    rewrite length_insert in Hx.
    apply parent_spec in Hpar; [|done]. lia.
Qed.

Lemma heappush_ordered (heap : list A) (item : A) :
  Forall U heap -> U item -> HeapOrder.ordered key heap ->
  HeapOrder.ordered key (heapq.heappush lt heap item).
Proof.
  intros HU Hitem Hord. unfold heapq.heappush, heapq._siftdown.
  rewrite list_lookup_middle by done.
  apply siftdown_loop_ordered.
  - apply Forall_app. split; [done|]. by constructor.
  - done.
  - rewrite length_app. simpl. lia.
  - done.
  - split.
    + intros i x p Hi Hne Hpar Hx Hp.
      pose proof (parent_lt i Hi) as Hlti.
      assert (Hlen : (i < length heap)%nat).
      { apply lookup_lt_Some in Hx. rewrite length_app in Hx. simpl in Hx. lia. }
      rewrite lookup_app_l in Hx by done.
      rewrite lookup_app_l in Hp by lia. eauto.
    + intros c x g _ Hc Hpar Hx _. apply lookup_lt_Some in Hx.
      rewrite length_app in Hx. simpl in Hx.
      apply parent_spec in Hpar; [|done]. lia.
  - intros c x Hc Hpar Hx. apply lookup_lt_Some in Hx.
    rewrite length_app in Hx. simpl in Hx.
    apply parent_spec in Hpar; [|done]. lia.
Qed.

Lemma heappop_ordered (heap rest : list A) (item : A) :
  Forall U heap -> HeapOrder.ordered key heap ->
  heapq.heappop lt heap = Some (item, rest) ->
  heap !! 0%nat = Some item /\ HeapOrder.ordered key rest.
Proof.
  intros HU Hord. unfold heapq.heappop.
  destruct (last heap) as [lastelt|] eqn:Hlast; [|done].
  apply last_Some in Hlast as [front ->].
  rewrite removelast_last.
  destruct front as [|returnitem front]; intros [= <- <-].
  { split; [done|apply ordered_nil]. }
  split; [done|]. simpl.
  apply Forall_app in HU as [HU HUl].
  apply _siftup_root_ordered.
  - apply Forall_cons in HU as [_ HU]. apply Forall_cons. split; [|done].
    by apply (Forall_inv HUl).
  - split; [|intros c x g Hpos; lia].
    intros i x p Hi Hne Hpar Hx Hp.
    destruct i as [|i]; [lia|].
    destruct (HeapOrder.parent (S i)) as [|j] eqn:Hj; [done|].
    simpl in Hx, Hp.
    apply (Hord (S i) x p); [lia| |].
    + simpl. rewrite lookup_app_l; [done|by eapply lookup_lt_Some].
    + rewrite Hj. simpl. rewrite lookup_app_l; [done|by eapply lookup_lt_Some].
Qed.

Lemma ordered_root_least (heap : list A) (m : A) :
  HeapOrder.ordered key heap -> heap !! 0%nat = Some m ->
  forall i x, heap !! i = Some x -> key m <= key x.
Proof.
  intros Hord Hm i. induction i as [i IH] using lt_wf_ind. intros x Hx.
  destruct (decide (i = 0)%nat) as [->|Hi]; [simplify_eq; lia|].
  pose proof (parent_lt i ltac:(lia)) as Hlt'.
  destruct (proj2 (lookup_lt_is_Some heap (HeapOrder.parent i))) as [p Hp].
  { apply lookup_lt_Some in Hx. lia. }
  pose proof (IH _ Hlt' p Hp). pose proof (Hord i x p ltac:(lia) Hx Hp). lia.
Qed.

End Order.
End heapq_order.

(** ** Smallest files first *)

Module Priorities.
Import DownloadQueue DownloadWorker Notions.

Lemma lt_ref_key (objs : store) (a b : ref) :
  is_Some (objs !! a) -> is_Some (objs !! b) ->
  lt_ref objs a b = bool_decide (key_of objs a < key_of objs b).
Proof.
  intros [x Hx] [y Hy]. unfold lt_ref, key_of. by rewrite Hx, Hy.
Qed.

Lemma ordered_ext {A} (key key' : A -> Z) (heap : list A) :
  (forall x, x ∈ heap -> key x = key' x) ->
  HeapOrder.ordered key heap -> HeapOrder.ordered key' heap.
Proof.
  intros Hext Hord i x p Hi Hx Hp.
  rewrite <- (Hext x), <- (Hext p) by (by eapply list_elem_of_lookup_2).
  by apply (Hord i x p).
Qed.

Lemma prioritised_update (σ : state) (task : ref) (tk' : DownloadTask.t) :
  task ∉ heap_of σ -> prioritised σ ->
  prioritised (State (<[task := tk']> (objs σ)) (self σ)).
Proof.
  intros Hnot [Hord Hsize]. split.
  - apply (ordered_ext (key_of (objs σ))); [|done].
    intros r Hr. unfold key_of. simpl.
    rewrite lookup_insert_ne; [done|]. by intros ->.
  - intros r tk Hr Hobj. simpl in Hobj.
    rewrite lookup_insert_ne in Hobj by (by intros ->). eauto.
Qed.

Lemma prioritised_same (σ σ' : state) :
  heap_of σ' = heap_of σ -> objs σ' = objs σ -> prioritised σ -> prioritised σ'.
Proof. unfold prioritised. by intros -> ->. Qed.

Lemma registered_bound (σ : state) :
  registered σ -> Forall (fun r => is_Some (objs σ !! r)) (heap_of σ).
Proof.
  intros [_ Hreg]. apply Forall_forall. intros r Hr.
  destruct (Hreg r Hr) as (tk & Hobj & _). eauto.
Qed.

Lemma put_heap (σ : state) (task : ref) :
  (put σ task).2 = σ
  \/ exists tk p,
       objs σ !! task = Some tk
       /\ _pending_tasks (self σ) !! task_id tk = None
       /\ size_priority (DownloadTask.media_info tk) = inr p
       /\ objs (put σ task).2 = <[task := DownloadTask.set_priority p tk]> (objs σ)
       /\ (heap_of (put σ task).2 = heap_of σ
           \/ heap_of (put σ task).2
              = heapq.heappush (lt_ref (objs (put σ task).2)) (heap_of σ) task).
Proof.
  unfold put. destruct (objs σ !! task) as [tk|] eqn:Hobj; [|by left].
  fold (task_id tk).
  destruct (_pending_tasks (self σ) !! task_id tk) as [r|] eqn:Hp.
  { left. rewrite bool_decide_eq_true_2 by eauto. done. }
  rewrite (bool_decide_eq_false_2 (is_Some None)) by (intros [? ?]; done).
  simpl. destruct (bool_decide _); [by left|].
  destruct (size_priority _) as [|p] eqn:Hsp; [by left|].
  right. exists tk, p. do 3 (split; [done|]).
  unfold PriorityQueue.put, PriorityQueue.put_nowait.
  destruct (PriorityQueue.full _); simpl; [split; [done|by left]|].
  split; [done|]. by right.
Qed.

Lemma get_heap (σ σ1 : state) (task : ref) :
  get σ = (Returned (Some task), σ1) ->
  heapq.heappop (lt_ref (objs σ)) (heap_of σ) = Some (task, heap_of σ1)
  /\ objs σ1 = objs σ.
Proof.
  unfold get, PriorityQueue.get, PriorityQueue.get_nowait, heap_of.
  destruct (heapq.heappop _ _) as [[item rest]|] eqn:Hpop; [|done].
  by intros [= <- <-].
Qed.

Lemma prioritised_put (σ : state) (task : ref) :
  registered σ -> prioritised σ -> prioritised (put σ task).2.
Proof.
  intros Hreg Hpr.
  destruct (put_heap σ task) as [->|(tk & p & Hobj & Hnone & Hsp & Hobjs & Hheap)];
    [done|].
  assert (Hnot : task ∉ heap_of σ).
  { intros Hin. destruct Hreg as [_ Hreg].
    destruct (Hreg task Hin) as (tk' & Hobj' & Hp). congruence. }
  pose proof (prioritised_update σ task (DownloadTask.set_priority p tk) Hnot Hpr)
    as [Hord Hsize].
  simpl in Hord, Hsize. unfold heap_of in Hord, Hsize. simpl in Hord, Hsize.
  fold (heap_of σ) in Hord, Hsize.
  destruct Hheap as [Hheap|Hheap]; unfold prioritised; rewrite Hheap, Hobjs.
  { by split. }
  split.
  - apply (heapq_order.heappush_ordered _ _
             (fun r => is_Some (<[task := DownloadTask.set_priority p tk]> (objs σ) !! r))).
    + intros a b. apply lt_ref_key.
    + eapply Forall_impl; [by apply registered_bound|].
      intros r [x Hx]. simpl.
      destruct (decide (r = task)) as [->|Hne];
        [rewrite lookup_insert_eq|rewrite lookup_insert_ne by done]; eauto.
    + simpl. rewrite lookup_insert_eq. eauto.
    + done.
  - intros r tk' Hr Hobj'.
    rewrite (heapq_entries.heappush_perm _ (heap_of σ) task) in Hr.
    apply elem_of_cons in Hr as [->|Hr]; [|by apply (Hsize r tk')].
    rewrite lookup_insert_eq in Hobj'. injection Hobj' as <-. done.
Qed.

Lemma prioritised_get (σ σ1 : state) (task : ref) :
  registered σ -> prioritised σ ->
  get σ = (Returned (Some task), σ1) ->
  heap_of σ !! 0%nat = Some task /\ prioritised σ1.
Proof.
  intros Hreg [Hord Hsize] Hget.
  destruct (get_heap _ _ _ Hget) as [Hpop Hobjs].
  destruct (Stranding.get_frame _ _ _ Hget) as (Hperm & _).
  destruct (heapq_order.heappop_ordered (lt_ref (objs σ)) (key_of (objs σ))
              (fun r => is_Some (objs σ !! r))
              (lt_ref_key (objs σ)) _ _ _ (registered_bound σ Hreg) Hord Hpop)
    as [Hroot Hord1].
  split; [done|]. unfold prioritised. rewrite Hobjs. split; [done|].
  intros r tk Hr Hobj. apply (Hsize r tk); [|done]. rewrite Hperm. by right.
Qed.

Lemma prioritised_step (s : state * RateLimiter.t) (e : Protocol.event) :
  sound s.1 -> prioritised s.1 -> prioritised (Protocol.step s e).1.
Proof.
  intros (Hnamed & Hacc & Hreg & _) Hpr.
  destruct e as [r|w dl now t0 t1]; simpl; [by apply prioritised_put|].
  destruct (Table.round_table dl now t0 t1 (Sys w s.1 s.2) Hnamed Hacc Hreg)
    as [[_ ->]|(task & tk & σ1 & Hget & Hobj & _ & Hfl & _ & Hcase)]; [done|].
  simpl in Hget, Hcase.
  destruct (prioritised_get _ _ _ Hreg Hpr Hget) as [_ Hpr1].
  destruct Hfl as (_ & Hnot & _).
  destruct Hcase as [(e & σ2 & _ & Hdone & ->)|[(w2 & σ2 & _ & _ & Hdone & ->)
                    |[(w2 & σ2 & _ & _ & _ & Hdone & ->)|(w2 & _ & _ & _ & ->)]]];
    simpl.
  - destruct (Acknowledgement.task_done_books σ1 task tk false Hobj)
      as (Hobjs & _ & _ & _ & _ & _ & _ & _ & Hheap & _).
    rewrite Hdone in *. by apply (prioritised_same σ1).
  - destruct (Acknowledgement.task_done_books σ1 task tk true Hobj)
      as (Hobjs & _ & _ & _ & _ & _ & _ & _ & Hheap & _).
    rewrite Hdone in *. by apply (prioritised_same σ1).
  - match type of Hdone with
    | task_done ?σa _ _ = _ =>
        destruct (Acknowledgement.task_done_books σa task _ false
                    (lookup_insert_eq _ _ _))
          as (Hobjs & _ & _ & _ & _ & _ & _ & _ & Hheap & _);
        rewrite Hdone in *; apply (prioritised_same σa); [done|done|]
    end.
    by apply prioritised_update.
  - by apply prioritised_update.
Qed.

Lemma prioritised_run (es : list Protocol.event) (s : state * RateLimiter.t) :
  sound s.1 -> prioritised s.1 -> prioritised (Protocol.run s es).1.
Proof.
  revert s. induction es as [|e es IH]; intros s Hs Hp; [done|].
  simpl. apply IH; [by apply Soundness.sound_step|by apply prioritised_step].
Qed.

(** X17.  In every run of submissions and worker rounds on a new queue,
    [get] hands out a task of least priority among the queued ones, and the
    priority of every queued task is its file size in whole megabytes: the
    smallest files are downloaded first. *)
Theorem get_hands_out_a_smallest_file
        (tasks : store) (max_size : Z) (rl0 : RateLimiter.t)
        (events : list Protocol.event)
        (task : ref) (tk : DownloadTask.t) (σ1 : state) :
  named tasks ->
  let s := Protocol.run (State tasks (DownloadQueue.new max_size), rl0) events in
  get s.1 = (Returned (Some task), σ1) ->
  objs s.1 !! task = Some tk ->
  size_priority (DownloadTask.media_info tk) = inr (DownloadTask.priority tk)
  /\ forall r tk', r ∈ heap_of s.1 -> objs s.1 !! r = Some tk' ->
       DownloadTask.priority tk <= DownloadTask.priority tk'
       /\ size_priority (DownloadTask.media_info tk')
          = inr (DownloadTask.priority tk').
Proof.
  intros Hnamed s Hget Hobj.
  pose proof (Soundness.sound_run events
                (State tasks (DownloadQueue.new max_size), rl0)
                (Soundness.sound_new tasks max_size Hnamed)) as Hsound.
  fold s in Hsound.
  assert (Hpr : prioritised s.1).
  { apply prioritised_run; [by apply Soundness.sound_new|].
    split; [apply heapq_order.ordered_nil|]. intros r tk' Hr. by inversion Hr. }
  destruct Hsound as (_ & _ & Hreg & _).
  destruct (prioritised_get _ _ _ Hreg Hpr Hget) as [Hroot _].
  destruct Hpr as [Hord Hsize].
  assert (Hin : task ∈ heap_of s.1) by (by eapply list_elem_of_lookup_2).
  split; [by apply (Hsize task tk)|].
  intros r tk' Hr Hobj'. split; [|by apply (Hsize r tk')].
  apply list_elem_of_lookup in Hr as [i Hi].
  pose proof (heapq_order.ordered_root_least (key_of (objs s.1)) _ task
                Hord Hroot i r Hi) as Hle.
  unfold key_of in Hle. by rewrite Hobj, Hobj' in Hle.
Qed.

Lemma get_hands_out_a_smallest_file_witness :
  (get (Protocol.run (Sample.fresh, RateLimiter.new 2 5 0)
          [Protocol.Submit 0%nat; Protocol.Submit 1%nat]).1).1
  = Returned (Some 1%nat)
  /\ size_priority (Sample.payload 8 0) = inr 0.
Proof.
  destruct (get_hands_out_a_smallest_file Sample.tasks 100 (RateLimiter.new 2 5 0)
              [Protocol.Submit 0%nat; Protocol.Submit 1%nat] 1%nat
              (DownloadTask.new (Sample.payload 8 0) "[0.0 MB]" 0)
              (get (Protocol.run (Sample.fresh, RateLimiter.new 2 5 0)
                      [Protocol.Submit 0%nat; Protocol.Submit 1%nat]).1).2)
    as [Hsize _]; [compute_done|vm_compute; reflexivity|vm_compute; reflexivity|].
  split; [vm_compute; reflexivity|exact Hsize].
Defined.

End Priorities.

(** ** The session of the coordinator *)

Module Sessions.
Import DownloadQueue Notions.

Lemma fresh_unbound (objs : store) : objs !! fresh (dom objs) = None.
Proof. apply not_elem_of_dom. apply is_fresh. Qed.

Lemma sound_alloc (σ : state) (task : ref) (tk : DownloadTask.t) :
  objs σ !! task = None -> DownloadWorker.has_filename tk = true ->
  sound σ -> sound (State (<[task := tk]> (objs σ)) (self σ)).
Proof.
  intros Hnone Hname (Hnamed & Hacc & Hreg & Hrest).
  split; [by apply map_Forall_insert_2|]. split; [done|].
  split; [|done].
  apply Registry.registered_update; [done|].
  intros Hin. destruct Hreg as [_ Hreg].
  destruct (Hreg task Hin) as (tk' & Hobj & _). congruence.
Qed.

Lemma put_total_added (σ : state) (task : ref) :
  total_added (_stats (self (put σ task).2))
  = total_added (_stats (self σ))
    + match (put σ task).1 with Returned true => 1 | _ => 0 end.
Proof.
  unfold put. repeat (case_match; simpl; try lia).
Qed.

Lemma consistent_step (s : Session.t) (e : Session.event) :
  Session.well_named e -> consistent s -> consistent (Session.step s e).
Proof.
  intros Hname (Hsound & Hledger & Hq).
  destruct e as [mi fis now|i now|i|i dl now t0 t1];
    unfold consistent;
    cbn [Session.step Session.with_pool Session.pool Session.stats].
  - simpl in Hname. unfold Session.add_download_task.
    destruct (Session.is_running s); simpl; [|done].
    set (σ := Pool.queue (Session.pool s)) in *.
    set (task := fresh (dom (objs σ))).
    set (σ0 := State (<[task := DownloadTask.new mi fis now]> (objs σ)) (self σ)).
    assert (Hsound0 : sound σ0).
    { apply sound_alloc; [apply fresh_unbound| |done].
      unfold DownloadWorker.has_filename. simpl. by apply bool_decide_eq_true_2. }
    set (p0 := Pool.mk (Pool.workers (Session.pool s)) σ0
                       (Pool.rate_limiter (Session.pool s))).
    assert (Hledger0 : ledger p0) by done.
    pose proof (Ledger.pool_step_sound p0 (Pool.Submit task) Hsound0) as Hsound1.
    pose proof (Ledger.ledger_step p0 (Pool.Submit task) Hsound0 Hledger0)
      as Hledger1.
    pose proof (put_total_added σ0 task) as Hta.
    simpl in Hsound1, Hledger1, Hta.
    rewrite bool_decide_eq_true_2 by done.
    unfold consistent.
    destruct ((put σ0 task).1) as [[|]|e|] eqn:Hres; simpl;
      (split; [done|]); (split; [done|]); rewrite Hta; lia.
  - split; [by apply Ledger.pool_step_sound|].
    split; [by apply Ledger.ledger_step|].
    simpl. by destruct (Pool.workers (Session.pool s) !! i).
  - split; [by apply Ledger.pool_step_sound|].
    split; [by apply Ledger.ledger_step|].
    simpl. by destruct (Pool.workers (Session.pool s) !! i).
  - pose proof (Ledger.pool_step_sound (Session.pool s)
                  (Pool.Round i dl now t0 t1) Hsound) as Hsound'.
    pose proof (Ledger.ledger_step (Session.pool s)
                  (Pool.Round i dl now t0 t1) Hsound Hledger) as Hledger'.
    destruct Hsound as (Hnamed & Hacc & Hreg & _).
    split; [done|]. split; [done|]. simpl.
    destruct (Pool.workers (Session.pool s) !! i) as [w|]; [|done].
    destruct (DownloadWorker.is_running w); [|done]. simpl.
    rewrite Hq.
    destruct (Table.round_table dl now t0 t1
                (DownloadWorker.Sys w (Pool.queue (Session.pool s))
                                    (Pool.rate_limiter (Session.pool s)))
                Hnamed Hacc Hreg)
      as [[_ ->]|(task & tk & σ1 & Hget & Hobj & _ & _ & _ & Hcase)]; [done|].
    simpl in Hget.
    assert (Hta1 : total_added (_stats (self σ1))
                   = total_added (_stats (self (Pool.queue (Session.pool s))))).
    { unfold get in Hget. destruct (PriorityQueue.get _ _) as [[? ?]|]; [|done].
      by injection Hget as _ <-. }
    destruct Hcase as [(e & σ2 & _ & Hdone & ->)|[(w2 & σ2 & _ & _ & Hdone & ->)
                      |[(w2 & σ2 & _ & _ & _ & Hdone & ->)|(w2 & _ & _ & _ & ->)]]];
      simpl; [| | |done].
    + destruct (Acknowledgement.task_done_books σ1 task tk false Hobj)
        as (_ & _ & _ & _ & _ & _ & Hta & _).
      rewrite Hdone in Hta. simpl in Hta. congruence.
    + destruct (Acknowledgement.task_done_books σ1 task tk true Hobj)
        as (_ & _ & _ & _ & _ & _ & Hta & _).
      rewrite Hdone in Hta. simpl in Hta. congruence.
    + match type of Hdone with
      | task_done ?σa _ _ = _ =>
          destruct (Acknowledgement.task_done_books σa task _ false
                      (lookup_insert_eq _ _ _))
            as (_ & _ & _ & _ & _ & _ & Hta & _)
      end.
      rewrite Hdone in Hta. simpl in Hta. congruence.
Qed.

Lemma consistent_run (es : list Session.event) (s : Session.t) :
  Forall Session.well_named es -> consistent s -> consistent (Session.run s es).
Proof.
  revert s. induction es as [|e es IH]; intros s Hes Hs; [done|].
  apply Forall_cons in Hes as [He Hes]. simpl.
  apply IH; [done|by apply consistent_step].
Qed.

Lemma consistent_start (concurrent_downloads max_queue_size : Z)
      (requests_per_second : Q) (burst_size : Z) (now0 : Q) (now : Z) :
  consistent
    (Session.start (Session.new concurrent_downloads max_queue_size
                                requests_per_second burst_size now0) now).
Proof.
  split; [apply Soundness.sound_new; apply map_Forall_empty|].
  split; [|done].
  unfold ledger, Session.start, Session.new, WorkerPool.start. simpl.
  rewrite !Ledger.sum_of_fmap_zero by done. done.
Qed.

(** X18.  What [add_download_task] does. A coordinator that does not run
    refuses. A running one creates a new task object and submits it: the
    call returns [True] exactly when the identity is neither pending nor
    completed, the file size is a number and the queue is not full, and then
    [files_queued] and [total_added] rise by one and the new object is
    queued with the priority of its size; a refused task changes neither the
    queue nor the session statistics. When the payload has no filename the
    call raises [KeyError] instead of returning, after the task was queued
    and counted. *)
Theorem add_download_task_outcomes
        (s : Session.t) (media_info : gmap string Py.val)
        (file_info_str : string) (now : Z) :
  let r := Session.add_download_task s media_info file_info_str now in
  let σ := Pool.queue (Session.pool s) in
  let σ' := Pool.queue (Session.pool r.2) in
  let id := _generate_task_id media_info in
  let task := fresh (dom (objs σ)) in
  let known := is_Some (_pending_tasks (self σ) !! id)
               \/ id ∈ _completed_tasks (self σ) in
  let ended (b : bool) : outcome bool :=
    if bool_decide (is_Some (media_info !! "filename"))
    then Returned b else Raised KeyError in
  (Session.is_running s = false -> r = (Returned false, s))
  /\ (Session.is_running s = true ->
      (forall r0, r0 <> task -> objs σ' !! r0 = objs σ !! r0)
      /\ (known \/ (exists e, size_priority media_info = inl e) ->
          r.1 = ended false
          /\ self σ' = self σ
          /\ Session.stats r.2 = Session.stats s)
      /\ (forall p, ~ known -> size_priority media_info = inr p ->
          PriorityQueue.full (_queue (self σ)) = true ->
          r.1 = Suspended
          /\ self σ' = self σ
          /\ Session.stats r.2 = Session.stats s)
      /\ (forall p, ~ known -> size_priority media_info = inr p ->
          PriorityQueue.full (_queue (self σ)) = false ->
          r.1 = ended true
          /\ Session.files_queued (Session.stats r.2)
             = Session.files_queued (Session.stats s) + 1
          /\ total_added (_stats (self σ')) = total_added (_stats (self σ)) + 1
          /\ objs σ' !! task
             = Some (DownloadTask.set_priority p
                       (DownloadTask.new media_info file_info_str now))
          /\ _pending_tasks (self σ') = <[id := task]> (_pending_tasks (self σ))
          /\ heap_of σ' ≡ₚ task :: heap_of σ)).
Proof.
  intros r σ σ' id task known ended.
  split.
  { intros Hrun. subst r. unfold Session.add_download_task. by rewrite Hrun. }
  intros Hrun. subst r σ'. unfold Session.add_download_task. rewrite Hrun.
  cbn [negb]. fold σ task.
  set (tk := DownloadTask.new media_info file_info_str now).
  set (σ0 := State (<[task := tk]> (objs σ)) (self σ)).
  assert (Hobj0 : objs σ0 !! task = Some tk) by apply lookup_insert_eq.
  assert (Hput : put σ0 task
                 = if bool_decide (is_Some (_pending_tasks (self σ) !! id))
                      || bool_decide (id ∈ _completed_tasks (self σ))
                   then (Returned false, σ0)
                   else match size_priority media_info with
                        | inl _ => (Returned false, σ0)
                        | inr p =>
                            let objs1 := <[task := DownloadTask.set_priority p tk]>
                                           (objs σ0) in
                            match PriorityQueue.put objs1 (_queue (self σ)) task with
                            | None => (Suspended, State objs1 (self σ))
                            | Some pq =>
                                (Returned true,
                                 State objs1
                                   (mk (max_size (self σ)) pq
                                       (<[id := task]> (_pending_tasks (self σ)))
                                       (_completed_tasks (self σ))
                                       (_failed_tasks (self σ))
                                       (mk_stats (total_added (_stats (self σ)) + 1)
                                                 (total_completed (_stats (self σ)))
                                                 (total_failed (_stats (self σ)))
                                                 (PriorityQueue.qsize pq))))
                            end
                        end).
  { unfold put. rewrite Hobj0. reflexivity. }
  assert (Hothers : forall r0 (tk' : DownloadTask.t), r0 <> task ->
             (<[task := tk']> (objs σ0)) !! r0 = objs σ !! r0).
  { intros r0 tk' Hne. simpl. by rewrite !lookup_insert_ne. }
  assert (Hothers0 : forall r0, r0 <> task -> objs σ0 !! r0 = objs σ !! r0).
  { intros r0 Hne. simpl. by rewrite lookup_insert_ne. }
  rewrite Hput. clear Hput.
  destruct (bool_decide (is_Some (_pending_tasks (self σ) !! id))
            || bool_decide (id ∈ _completed_tasks (self σ))) eqn:Hdup.
  { assert (Hknown : known).
    { apply orb_true_iff in Hdup as [H|H]; apply bool_decide_eq_true_1 in H;
        [by left|by right]. }
    subst ended. cbn [fst snd].
    destruct (bool_decide (is_Some (media_info !! "filename")));
      cbn [fst snd Session.with_queue Session.pool Pool.queue Session.stats];
      (split; [by apply Hothers0|]); (split; [intros _; done|]);
      split; intros p Hnk; by destruct Hnk. }
  assert (Hunknown : ~ known).
  { apply orb_false_iff in Hdup as [H1 H2].
    apply bool_decide_eq_false_1 in H1. apply bool_decide_eq_false_1 in H2.
    intros [?|?]; done. }
  destruct (size_priority media_info) as [e|p] eqn:Hsp.
  { subst ended. cbn [fst snd].
    destruct (bool_decide (is_Some (media_info !! "filename")));
      cbn [fst snd Session.with_queue Session.pool Pool.queue Session.stats];
      (split; [by apply Hothers0|]); (split; [intros _; done|]);
      split; intros p _ Hp; congruence. }
  unfold PriorityQueue.put, PriorityQueue.put_nowait.
  destruct (PriorityQueue.full (_queue (self σ))) eqn:Hfull; cbn zeta.
  - cbn [fst snd Session.with_queue Session.pool Pool.queue Session.stats objs self].
    split; [intros r0 Hne; by apply Hothers|].
    split; [intros [?|[e ?]]; [done|congruence]|].
    split; [done|]. intros; congruence.
  - subst ended. cbn [fst snd].
    destruct (bool_decide (is_Some (media_info !! "filename")));
      cbn [fst snd Session.with_queue Session.pool Pool.queue Session.stats
           objs self Session.add_queued Session.files_queued _stats total_added
           _pending_tasks];
      (split; [intros r0 Hne; by apply Hothers|]);
      (split; [intros [?|[e ?]]; [done|congruence]|]);
      (split; [intros; congruence|]);
      intros p' _ [= <-] _;
      (split; [done|]); (split; [done|]); (split; [done|]);
      (split; [apply lookup_insert_eq|]); (split; [done|]);
      unfold heap_of; simpl; apply heapq_entries.heappush_perm.
Qed.

(** X19.  In every session of a started coordinator (tasks added with a
    filename, workers entering and leaving their loop, rounds of running
    workers), [files_queued] is the queue's [total_added]; the summary's
    completed and failed counts together never exceed it; the completed
    count is the number of completions the workers counted; and the success
    rate is a percentage between 0 and 100. *)
Theorem session_summary_is_consistent
        (concurrent_downloads max_queue_size : Z) (requests_per_second : Q)
        (burst_size : Z) (now0 : Q) (started : Z)
        (events : list Session.event) (now : Z) :
  Forall Session.well_named events ->
  let s := Session.run
             (Session.start (Session.new concurrent_downloads max_queue_size
                                         requests_per_second burst_size now0)
                            started) events in
  let sm := (Session.get_session_summary s now).1 in
  Session.s_files_queued sm
  = total_added (_stats (self (Pool.queue (Session.pool s))))
  /\ 0 <= Session.s_files_completed sm
  /\ 0 <= Session.s_files_failed sm
  /\ Session.s_files_completed sm + Session.s_files_failed sm
     <= Session.s_files_queued sm
  /\ Session.s_files_completed sm
     = WorkerPool.total_completed
         (WorkerPool.get_stats concurrent_downloads (Pool.workers (Session.pool s)))
  /\ (0 <= Session.success_rate sm)%Q
  /\ (Session.success_rate sm <= 100)%Q.
Proof.
  intros Hnamed s sm.
  destruct (consistent_run events _ Hnamed
              (consistent_start concurrent_downloads max_queue_size
                                requests_per_second burst_size now0 started))
    as ((_ & Hacc & _ & _ & Hbal & Hrec & (_ & _ & Hdom)) & [Hc _] & Hq).
  fold s in Hacc, Hbal, Hrec, Hdom, Hc, Hq.
  unfold accounted, balanced, reconciled, PriorityQueue.qsize in *.
  subst sm. unfold Session.get_session_summary, Session._update_session_stats,
    get_stats, WorkerPool.get_stats. simpl.
  set (q := self (Pool.queue (Session.pool s))) in *.
  split; [done|]. split; [lia|]. split; [lia|]. split; [lia|].
  split; [lia|].
  set (completed := Z.of_nat (size (_completed_tasks q))).
  set (queued := Session.files_queued (Session.stats s)) in *.
  assert (Hunit : (0 <= Py.truediv completed (Z.max 1 queued) * 100)%Q
                  /\ (Py.truediv completed (Z.max 1 queued) * 100
                      <= inject_Z 100)%Q).
  { destruct (Py_facts.truediv_unit completed (Z.max 1 queued)) as [Hlo Hhi];
      [subst completed; lia|lia|].
    change (inject_Z 100) with 100%Q. split; lra. }
  destruct Hunit as [Hlo Hhi].
  apply (Py_facts.round_nd_bounds _ 100 1 Hlo Hhi).
Qed.

Lemma session_summary_is_consistent_witness :
  let s := Session.run (Session.start (Session.new 3 100 2 5 0) 0)
             [Session.Add (Sample.payload 7 5242880) "[5.0 MB]" 1;
              Session.Add (Sample.payload 8 0) "[0.0 MB]" 2;
              Session.Add (Sample.payload 7 5242880) "[5.0 MB]" 3;
              Session.Enter 0%nat 4;
              Session.Round 0%nat SampleWorker.succeeding 5 0 0] in
  let sm := (Session.get_session_summary s 6000000).1 in
  Session.s_files_queued sm = 2
  /\ Session.s_files_completed sm = 1
  /\ (Session.success_rate sm == 50)%Q.
Proof.
  destruct (session_summary_is_consistent 3 100 2 5 0 0
              [Session.Add (Sample.payload 7 5242880) "[5.0 MB]" 1;
               Session.Add (Sample.payload 8 0) "[0.0 MB]" 2;
               Session.Add (Sample.payload 7 5242880) "[5.0 MB]" 3;
               Session.Enter 0%nat 4;
               Session.Round 0%nat SampleWorker.succeeding 5 0 0] 6000000)
    as (Hq & _).
  - repeat constructor; vm_compute; eauto.
  - split; [etrans; [exact Hq|vm_compute; reflexivity]|].
    split; vm_compute; reflexivity.
Defined.

End Sessions.

(** ** Clearing the queue of a running system *)

Module Abandoning.
Import DownloadQueue Notions.

Lemma clear_loop_count (fuel : nat) (tasks : store) (pq : PriorityQueue.t) :
  (length (PriorityQueue._heap pq) <= fuel)%nat ->
  Z.of_nat (length (PriorityQueue._heap pq)) <= PriorityQueue._unfinished_tasks pq ->
  clear_loop fuel tasks pq
  = (Returned tt,
     PriorityQueue.mk (PriorityQueue._maxsize pq) []
       (PriorityQueue._unfinished_tasks pq
        - Z.of_nat (length (PriorityQueue._heap pq)))).
Proof.
  revert pq. induction fuel as [|fuel IH]; intros [m heap u]; simpl; intros Hfuel Hu.
  - assert (heap = []) as -> by (destruct heap; [done|simpl in Hfuel; lia]).
    simpl. do 2 f_equal. lia.
  - unfold PriorityQueue.empty. simpl. case_bool_decide as Hnil.
    { subst heap. simpl. do 2 f_equal. lia. }
    unfold PriorityQueue.get_nowait. simpl.
    destruct (heapq_facts.heappop_is_Some (lt_ref tasks) heap Hnil)
      as [[item heap'] Hpop].
    rewrite Hpop.
    pose proof (heapq_facts.heappop_length _ _ _ _ Hpop) as Hlen.
    unfold PriorityQueue.task_done. simpl.
    assert (Hpos : 0 < u) by (destruct heap; [done|simpl in Hu; lia]).
    rewrite (proj2 (Z.leb_gt u 0)) by done.
    rewrite (IH (PriorityQueue.mk m heap' (u - 1))) by (simpl; lia).
    simpl. do 2 f_equal. lia.
Qed.

(** X20.  In every run of submissions and worker rounds on a new queue,
    [clear] returns: it empties the priority queue and the pending map,
    resets [current_size], and acknowledges exactly the entries it removes,
    so that the acknowledgements still awaited are those of the tasks handed
    out. The task objects, the completed and failed sets and the three
    totals stay: the abandoned tasks remain counted in [total_added], and
    [wait_empty] returns afterwards exactly when no handed-out task awaits
    its acknowledgement. *)
Theorem clear_abandons_the_queued_tasks
        (tasks : store) (max_size : Z) (rl0 : RateLimiter.t)
        (events : list Protocol.event) :
  named tasks ->
  let s := Protocol.run (State tasks (DownloadQueue.new max_size), rl0) events in
  let r := clear s.1 in
  let q := self s.1 in
  let q' := self r.2 in
  r.1 = Returned tt
  /\ PriorityQueue._heap (_queue q') = []
  /\ _pending_tasks q' = ∅
  /\ current_size (_stats q') = 0
  /\ PriorityQueue._unfinished_tasks (_queue q')
     = PriorityQueue._unfinished_tasks (_queue q) - PriorityQueue.qsize (_queue q)
  /\ objs r.2 = objs s.1
  /\ _completed_tasks q' = _completed_tasks q
  /\ _failed_tasks q' = _failed_tasks q
  /\ total_added (_stats q') = total_added (_stats q)
  /\ total_completed (_stats q') = total_completed (_stats q)
  /\ total_failed (_stats q') = total_failed (_stats q)
  /\ total_added (_stats q')
     = total_completed (_stats q') + total_failed (_stats q')
       + PriorityQueue._unfinished_tasks (_queue q') + PriorityQueue.qsize (_queue q)
  /\ (wait_empty r.2 = Returned tt
      <-> PriorityQueue._unfinished_tasks (_queue q) = PriorityQueue.qsize (_queue q)).
Proof.
  intros Hnamed s r q q'.
  destruct (Soundness.sound_run events
              (State tasks (DownloadQueue.new max_size), rl0)
              (Soundness.sound_new tasks max_size Hnamed))
    as (_ & Hacc & _ & _ & Hbal & _).
  fold s in Hacc, Hbal. fold q in Hacc, Hbal.
  unfold accounted, balanced, PriorityQueue.qsize in *.
  subst r q'. unfold clear. fold q.
  rewrite (clear_loop_count _ (objs s.1) (_queue q)) by done.
  unfold wait_empty. simpl.
  repeat (split; [done || lia|]).
  destruct (Z.ltb_spec 0 (PriorityQueue._unfinished_tasks (_queue q)
                          - Z.of_nat (length (PriorityQueue._heap (_queue q)))));
    split; intros; try done; lia.
Qed.

Lemma clear_abandons_the_queued_tasks_witness :
  let s := Protocol.run (Sample.fresh, RateLimiter.new 2 5 0)
             [Protocol.Submit 0%nat; Protocol.Submit 1%nat;
              Protocol.Round (DownloadWorker.new "worker_1")
                             SampleWorker.skipping 1 0 0] in
  (clear s.1).1 = Returned tt
  /\ PriorityQueue._heap (_queue (self (clear s.1).2)) = []
  /\ total_added (_stats (self (clear s.1).2)) = 2
  /\ total_completed (_stats (self (clear s.1).2)) = 1
  /\ wait_empty (clear s.1).2 = Returned tt.
Proof.
  destruct (clear_abandons_the_queued_tasks Sample.tasks 100 (RateLimiter.new 2 5 0)
              [Protocol.Submit 0%nat; Protocol.Submit 1%nat;
               Protocol.Round (DownloadWorker.new "worker_1")
                              SampleWorker.skipping 1 0 0])
    as (Hret & Hheap & _); [compute_done|].
  split; [exact Hret|]. split; [exact Hheap|].
  repeat split; vm_compute; reflexivity.
Defined.

End Abandoning.

(** ** The bound of the queue *)

Module Capacity.
Import DownloadQueue Notions.

Lemma capacity_put (max_size : Z) (σ : state) (task : ref) :
  within_capacity max_size (self σ) ->
  within_capacity max_size (self (put σ task).2).
Proof.
  intros [Hm Hcap]. unfold put.
  destruct (objs σ !! task) as [tk|]; [|done].
  destruct (_ || _); [done|].
  destruct (size_priority _) as [e|p]; [done|].
  unfold PriorityQueue.put, PriorityQueue.put_nowait.
  destruct (PriorityQueue.full (_queue (self σ))) eqn:Hfull; [done|].
  unfold within_capacity, PriorityQueue.qsize, PriorityQueue.full in *. simpl.
  split; [done|]. intros Hpos. rewrite heapq_facts.heappush_length.
  rewrite Hm in Hfull. rewrite (proj2 (Z.leb_gt max_size 0)) in Hfull by done.
  apply Z.leb_gt in Hfull. unfold PriorityQueue.qsize in Hfull. lia.
Qed.

Lemma capacity_get (max_size : Z) (σ : state) :
  within_capacity max_size (self σ) ->
  within_capacity max_size (self (get σ).2).
Proof.
  intros [Hm Hcap]. unfold get, PriorityQueue.get, PriorityQueue.get_nowait.
  destruct (heapq.heappop _ _) as [[item rest]|] eqn:Hpop; [|done].
  pose proof (heapq_facts.heappop_length _ _ _ _ Hpop) as Hlen.
  unfold within_capacity, PriorityQueue.qsize in *. simpl.
  split; [done|]. intros Hpos. specialize (Hcap Hpos). lia.
Qed.

Lemma capacity_task_done (max_size : Z) (σ : state) (task : ref) (success : bool) :
  within_capacity max_size (self σ) ->
  within_capacity max_size (self (task_done σ task success).2).
Proof.
  intros Hcap. destruct (objs σ !! task) as [tk|] eqn:Hobj.
  - destruct (Acknowledgement.task_done_books σ task tk success Hobj)
      as (_ & _ & _ & _ & _ & _ & _ & _ & Hheap & Hm).
    unfold within_capacity, PriorityQueue.qsize in *. by rewrite Hheap, Hm.
  - unfold task_done. by rewrite Hobj.
Qed.

Lemma capacity_retry_task (max_size : Z) (σ : state) (task : ref) :
  within_capacity max_size (self σ) ->
  within_capacity max_size (self (retry_task σ task).2).
Proof.
  intros Hcap. unfold retry_task.
  destruct (objs σ !! task) as [tk|]; [|done].
  destruct (_ <=? _).
  - match goal with
    | |- context [task_done ?s ?t ?b] =>
        pose proof (capacity_task_done max_size s t b Hcap) as H;
        destruct (task_done s t b) as [[u|e|] σ2]; exact H
    end.
  - by apply capacity_put.
Qed.

Lemma clear_loop_capacity (fuel : nat) (tasks : store) (pq : PriorityQueue.t) :
  PriorityQueue._maxsize (clear_loop fuel tasks pq).2 = PriorityQueue._maxsize pq
  /\ (length (PriorityQueue._heap (clear_loop fuel tasks pq).2)
      <= length (PriorityQueue._heap pq))%nat.
Proof.
  revert pq. induction fuel as [|fuel IH]; intros [m heap u]; simpl; [done|].
  destruct (PriorityQueue.empty _); [done|].
  unfold PriorityQueue.get_nowait. simpl.
  destruct (heapq.heappop _ _) as [[item rest]|] eqn:Hpop; [|done].
  pose proof (heapq_facts.heappop_length _ _ _ _ Hpop) as Hlen.
  unfold PriorityQueue.task_done. simpl.
  destruct (u <=? 0); simpl; [lia|].
  destruct (IH (PriorityQueue.mk m rest (u - 1))) as [Hm Hl]. simpl in Hm, Hl.
  split; [done|lia].
Qed.

Lemma capacity_clear (max_size : Z) (σ : state) :
  within_capacity max_size (self σ) ->
  within_capacity max_size (self (clear σ).2).
Proof.
  intros [Hm Hcap]. unfold clear.
  destruct (clear_loop_capacity
              (length (PriorityQueue._heap (_queue (self σ))))
              (objs σ) (_queue (self σ))) as [Hm' Hl].
  destruct (clear_loop _ _ _) as [[u|e|] pq]; simpl in *;
    unfold within_capacity, PriorityQueue.qsize in *; simpl;
    (split; [congruence|]); intros Hpos; specialize (Hcap Hpos); lia.
Qed.

Lemma capacity_run (max_size : Z) (ops : list Run.op) (σ : state) :
  within_capacity max_size (self σ) ->
  within_capacity max_size (self (Run.run σ ops)).
Proof.
  revert σ. induction ops as [|o ops IH]; intros σ Hcap; [done|].
  simpl. apply IH. destruct o; simpl;
    auto using capacity_put, capacity_get, capacity_task_done,
               capacity_retry_task, capacity_clear.
Qed.

(** X21.  For every sequence of [put], [get], [task_done], [retry_task] and
    [clear] on a new queue: a queue created with a positive bound never
    holds more entries than the bound, and [get_stats] reports it full
    exactly when it holds that many; a queue created with a bound of zero or
    less is never reported full. *)
Theorem queue_never_exceeds_its_capacity
        (tasks : store) (max_size : Z) (ops : list Run.op) :
  let stats :=
    get_stats (self (Run.run (State tasks (DownloadQueue.new max_size)) ops)) in
  0 <= queue_size stats
  /\ (0 < max_size ->
      queue_size stats <= max_size
      /\ (is_full stats = true <-> queue_size stats = max_size))
  /\ (max_size <= 0 -> is_full stats = false).
Proof.
  destruct (capacity_run max_size ops (State tasks (DownloadQueue.new max_size)))
    as [Hm Hcap]; [split; [done|]; simpl; unfold PriorityQueue.qsize; simpl; lia|].
  unfold get_stats, PriorityQueue.full, PriorityQueue.qsize in *. simpl.
  rewrite Hm. split; [lia|]. split.
  - intros Hpos. specialize (Hcap Hpos). split; [done|].
    rewrite (proj2 (Z.leb_gt max_size 0)) by done.
    rewrite Z.leb_le. lia.
  - intros Hle. by rewrite (proj2 (Z.leb_le max_size 0)).
Qed.

Lemma sized_step (s : state * RateLimiter.t) (e : Protocol.event) :
  sound s.1 -> sized (self s.1) -> sized (self (Protocol.step s e).1).
Proof.
  intros (Hnamed & Hacc & Hreg & _) Hsz.
  destruct e as [task|w dl now t0 t1]; simpl.
  - unfold put. destruct (objs s.1 !! task) as [tk|]; [|done].
    destruct (_ || _); [done|].
    destruct (size_priority _) as [e|p]; [done|].
    by destruct (PriorityQueue.put _ _ _).
  - destruct (Table.round_table dl now t0 t1 (DownloadWorker.Sys w s.1 s.2)
                Hnamed Hacc Hreg)
      as [[_ ->]|(task & tk & σ1 & Hget & Hobj & _ & _ & _ & Hcase)]; [done|].
    simpl in Hget, Hcase.
    assert (Hsz1 : sized (self σ1)).
    { unfold get in Hget. destruct (PriorityQueue.get _ _) as [[? ?]|]; [|done].
      by injection Hget as _ <-. }
    assert (Hdone : forall σa σ2 tka success,
               self σa = self σ1 -> objs σa !! task = Some tka ->
               task_done σa task success = (Returned tt, σ2) -> sized (self σ2)).
    { intros σa σ2 tka success Hself Hobja Hd.
      destruct (Acknowledgement.task_done_books σa task tka success Hobja)
        as (_ & _ & _ & _ & _ & _ & _ & Hcs & Hheap & _).
      rewrite Hd in Hcs, Hheap. simpl in Hcs, Hheap.
      unfold sized, PriorityQueue.qsize in *. by rewrite Hcs, Hheap, Hself. }
    destruct Hcase as [(e & σ2 & _ & Hd & ->)|[(w2 & σ2 & _ & _ & Hd & ->)
                      |[(w2 & σ2 & _ & _ & _ & Hd & ->)|(w2 & _ & _ & _ & ->)]]];
      simpl; [by eapply (Hdone σ1)|by eapply (Hdone σ1)| |done].
    match type of Hd with
    | task_done ?σa _ _ = _ =>
        apply (Hdone σa σ2 _ false eq_refl (lookup_insert_eq _ _ _) Hd)
    end.
Qed.

Lemma sized_run (es : list Protocol.event) (s : state * RateLimiter.t) :
  sound s.1 -> sized (self s.1) -> sized (self (Protocol.run s es).1).
Proof.
  revert s. induction es as [|e es IH]; intros s Hs Hsz; [done|].
  simpl. apply IH; [by apply Soundness.sound_step|by apply sized_step].
Qed.

(** X22.  In every run of submissions and worker rounds on a new queue, the
    [current_size] statistic is the size of the priority queue, and the
    queue is reported empty exactly when that size is 0. *)
Theorem current_size_is_the_queue_size
        (tasks : store) (max_size : Z) (rl0 : RateLimiter.t)
        (events : list Protocol.event) :
  named tasks ->
  let stats :=
    get_stats
      (self (Protocol.run (State tasks (DownloadQueue.new max_size), rl0) events).1) in
  v_current_size stats = queue_size stats
  /\ (is_empty stats = true <-> queue_size stats = 0)
  /\ (is_empty stats = true <-> v_current_size stats = 0).
Proof.
  intros Hnamed stats.
  pose proof (sized_run events (State tasks (DownloadQueue.new max_size), rl0)
                (Soundness.sound_new tasks max_size Hnamed) eq_refl) as Hsz.
  subst stats. unfold get_stats, sized, PriorityQueue.empty, PriorityQueue.qsize in *.
  simpl. rewrite Hsz. split; [done|].
  assert (Hiff : bool_decide
                   (PriorityQueue._heap
                      (_queue (self (Protocol.run
                                       (State tasks (DownloadQueue.new max_size), rl0)
                                       events).1)) = []) = true
                 <-> Z.of_nat (length (PriorityQueue._heap
                      (_queue (self (Protocol.run
                                       (State tasks (DownloadQueue.new max_size), rl0)
                                       events).1)))) = 0).
  { rewrite bool_decide_eq_true.
    destruct (PriorityQueue._heap _); simpl; split; intros; try done; lia. }
  by split.
Qed.

Lemma current_size_is_the_queue_size_witness :
  let stats :=
    get_stats
      (self (Protocol.run (Sample.fresh, RateLimiter.new 2 5 0)
               [Protocol.Submit 0%nat; Protocol.Submit 1%nat;
                Protocol.Round (DownloadWorker.new "worker_1")
                               SampleRun.failing 1 0 0]).1) in
  v_current_size stats = queue_size stats /\ queue_size stats = 1.
Proof.
  destruct (current_size_is_the_queue_size Sample.tasks 100 (RateLimiter.new 2 5 0)
              [Protocol.Submit 0%nat; Protocol.Submit 1%nat;
               Protocol.Round (DownloadWorker.new "worker_1")
                              SampleRun.failing 1 0 0])
    as (Hsz & _); [compute_done|].
  split; [exact Hsz|vm_compute; reflexivity].
Defined.

End Capacity.

(** ** One round, one task *)

Module Counting.
Import DownloadQueue DownloadWorker Notions.

Lemma _download_file_worker (dl : downloader) (w w2 : DownloadWorker.t)
      (tk : DownloadTask.t) (ok : bool) :
  _download_file dl w tk = (ok, w2) ->
  w2 = w \/ exists n, w2 = add_bytes n w.
Proof.
  unfold _download_file.
  repeat (case_match; simplify_eq/=; try done); intros [= <- <-]; eauto.
Qed.

(** X23.  In every run of submissions and worker rounds on a new queue, a
    round never raises. On an empty queue it waits and changes nothing.
    Otherwise it returns, takes exactly one entry from the queue, counts it
    exactly once, as completed or as failed, in the statistics of its
    worker, records the time of the round as the worker's last activity, and
    leaves the worker holding no task. *)
Theorem round_counts_its_task_once
        (tasks : store) (max_size : Z) (rl0 : RateLimiter.t)
        (events : list Protocol.event)
        (w : DownloadWorker.t) (dl : downloader) (now : Z) (t0 t1 : Q) :
  named tasks ->
  let s := Protocol.run (State tasks (DownloadQueue.new max_size), rl0) events in
  let r := _process_next_task dl now t0 t1 (Sys w s.1 s.2) in
  (heap_of s.1 = [] -> r = (Suspended, Sys w s.1 s.2))
  /\ (heap_of s.1 <> [] ->
      r.1 = Returned tt
      /\ S (length (heap_of (queue r.2))) = length (heap_of s.1)
      /\ ((tasks_completed (wstats (worker r.2)) = tasks_completed (wstats w) + 1
           /\ tasks_failed (wstats (worker r.2)) = tasks_failed (wstats w))
          \/ (tasks_completed (wstats (worker r.2)) = tasks_completed (wstats w)
              /\ tasks_failed (wstats (worker r.2)) = tasks_failed (wstats w) + 1))
      /\ current_task (worker r.2) = None
      /\ last_activity (wstats (worker r.2)) = Some now
      /\ worker_id (worker r.2) = worker_id w
      /\ DownloadWorker.is_running (worker r.2) = DownloadWorker.is_running w).
Proof.
  intros Hnamed s r.
  destruct (Soundness.sound_run events
              (State tasks (DownloadQueue.new max_size), rl0)
              (Soundness.sound_new tasks max_size Hnamed))
    as (Hnamed' & Hacc & Hreg & _).
  fold s in Hnamed', Hacc, Hreg.
  destruct (Table.round_table dl now t0 t1 (Sys w s.1 s.2) Hnamed' Hacc Hreg)
    as [[Hnil Hr]|(task & tk & σ1 & Hget & Hobj & _ & _ & _ & Hcase)].
  { split; [done|]. intros Hne. by destruct Hne. }
  simpl in Hget, Hcase.
  destruct (Stranding.get_frame _ _ _ Hget) as (Hperm & _).
  apply Permutation_length in Hperm. simpl in Hperm.
  split.
  { intros Hnil. rewrite Hnil in Hperm. done. }
  intros _. subst r.
  assert (Hheap : forall σa σ2 tka success,
             self σa = self σ1 -> objs σa !! task = Some tka ->
             task_done σa task success = (Returned tt, σ2) ->
             heap_of σ2 = heap_of σ1).
  { intros σa σ2 tka success Hself Hobja Hd.
    destruct (Acknowledgement.task_done_books σa task tka success Hobja)
      as (_ & _ & _ & _ & _ & _ & _ & _ & Hh & _).
    rewrite Hd in Hh. simpl in Hh. unfold heap_of. by rewrite Hh, Hself. }
  destruct Hcase as [(e & σ2 & _ & Hd & ->)|[(w2 & σ2 & _ & Hfile & Hd & ->)
                    |[(w2 & σ2 & _ & Hfile & _ & Hd & ->)|(w2 & _ & Hfile & _ & ->)]]];
    cbn [fst snd worker queue].
  - rewrite (Hheap σ1 σ2 tk false eq_refl Hobj Hd), <- Hperm.
    split; [done|]. split; [done|]. split; [by right|]. done.
  - rewrite (Hheap σ1 σ2 tk true eq_refl Hobj Hd), <- Hperm.
    split; [done|]. split; [done|].
    destruct (_download_file_worker _ _ _ _ _ Hfile) as [->|[n ->]];
      (split; [by left|done]).
  - match type of Hd with
    | task_done ?σa _ _ = _ =>
        rewrite (Hheap σa σ2 _ false eq_refl (lookup_insert_eq _ _ _) Hd), <- Hperm
    end.
    split; [done|]. split; [done|].
    destruct (_download_file_worker _ _ _ _ _ Hfile) as [->|[n ->]];
      (split; [by right|done]).
  - unfold heap_of in *. cbn [self]. rewrite <- Hperm.
    split; [done|]. split; [done|].
    destruct (_download_file_worker _ _ _ _ _ Hfile) as [->|[n ->]];
      (split; [by right|done]).
Qed.

Lemma round_counts_its_task_once_witness :
  let r := _process_next_task SampleRun.failing 1 0 0
             (Sys (DownloadWorker.new "worker_1") Sample.queued
                  (RateLimiter.new 2 5 0)) in
  r.1 = Returned tt
  /\ tasks_failed (wstats (worker r.2)) = 1
  /\ _process_next_task SampleRun.failing 1 0 0
       (Sys (DownloadWorker.new "worker_1") Sample.fresh (RateLimiter.new 2 5 0))
     = (Suspended,
        Sys (DownloadWorker.new "worker_1") Sample.fresh (RateLimiter.new 2 5 0)).
Proof.
  destruct (round_counts_its_task_once Sample.tasks 100 (RateLimiter.new 2 5 0)
              [Protocol.Submit 0%nat]
              (DownloadWorker.new "worker_1") SampleRun.failing 1 0 0)
    as [_ Hsome]; [compute_done|].
  destruct Hsome as (Hret & _); [vm_compute; discriminate|].
  destruct (round_counts_its_task_once Sample.tasks 100 (RateLimiter.new 2 5 0) []
              (DownloadWorker.new "worker_1") SampleRun.failing 1 0 0)
    as [Hnone _]; [compute_done|].
  split; [exact Hret|]. split; [vm_compute; reflexivity|].
  apply Hnone. vm_compute; reflexivity.
Defined.

End Counting.

(** ** A rate of zero *)

Module Stalling.
Import RateLimiter Notions.
Local Open Scope Q_scope.

Lemma refill_still (self : t) (now : Q) (k : Z) :
  requests_per_second self == 0 ->
  tokens self == inject_Z k -> (k <= burst_size self)%Z ->
  refill self now == inject_Z k.
Proof.
  intros Hzero Htok Hk. unfold refill, Py.min.
  assert (Hle : inject_Z k <= inject_Z (burst_size self)) by (by rewrite <- Zle_Qle).
  destruct (Qlt_le_dec _ _) as [Hlt|Hge].
  - rewrite Hzero, Htok. ring.
  - rewrite Hzero, Htok in Hge.
    apply Qle_antisym; lra.
Qed.

Lemma acquire_still (self : t) (now now' : Q) (k : Z) :
  requests_per_second self == 0 ->
  tokens self == inject_Z k -> (0 <= k <= burst_size self)%Z ->
  let r := acquire self now now' in
  requests_per_second r.2 = requests_per_second self
  /\ burst_size r.2 = burst_size self
  /\ ((1 <= k)%Z -> r.1 = (Returned tt, None) /\ tokens r.2 == inject_Z (k - 1))
  /\ (k = 0%Z -> r.1 = (Raised ZeroDivisionError, None) /\ tokens r.2 == 0).
Proof.
  intros Hzero Htok [Hk0 Hkb] r.
  pose proof (refill_still self now k Hzero Htok Hkb) as Href.
  subst r. unfold acquire.
  destruct (Qle_bool 1 (refill self now)) eqn:Hone.
  - apply Qle_bool_iff in Hone. rewrite Href in Hone.
    assert (Hk1 : (1 <= k)%Z) by (by rewrite (Zle_Qle 1 k)).
    simpl. split; [done|]. split; [done|].
    split; [|intros ->; lia].
    intros _. split; [done|]. rewrite Href.
    unfold Zminus. rewrite inject_Z_plus, inject_Z_opp. reflexivity.
  - assert (Hlt : ~ 1 <= refill self now)
      by (intros Hle; apply Qle_bool_iff in Hle; congruence).
    rewrite Href in Hlt.
    assert (Hk1 : ~ (1 <= k)%Z) by (by rewrite (Zle_Qle 1 k)).
    rewrite (proj2 (Qeq_bool_iff _ _) Hzero). simpl.
    split; [done|]. split; [done|].
    split; [intros; lia|].
    intros ->. split; [done|]. exact Href.
Qed.

(** X24.  With a rate of zero the bucket is never refilled: a new rate
    limiter serves exactly [burst_size] calls of [acquire], none of which
    sleeps, and every later call raises [ZeroDivisionError], whatever the
    times of the calls. *)
Theorem zero_rate_serves_the_burst_only
        (rate : Q) (burst : Z) (now0 : Q) (times : list (Q * Q)) :
  rate == 0 -> (0 <= burst)%Z ->
  (Bursts.run (new rate burst now0) times).1
  = replicate (Nat.min (length times) (Z.to_nat burst)) (Returned tt, None)
    ++ replicate (length times - Z.to_nat burst) (Raised ZeroDivisionError, None).
Proof.
  intros Hzero Hburst.
  cut (forall (self : t) (k : nat),
          requests_per_second self == 0 -> tokens self == inject_Z (Z.of_nat k) ->
          (Z.of_nat k <= burst_size self)%Z ->
          (Bursts.run self times).1
          = replicate (Nat.min (length times) k) (Returned tt, None)
            ++ replicate (length times - k) (Raised ZeroDivisionError, None)).
  { intros Hcut. apply (Hcut (new rate burst now0) (Z.to_nat burst)); simpl.
    - done.
    - by rewrite Z2Nat.id.
    - rewrite Z2Nat.id by done. lia. }
  induction times as [|[now now'] rest IH]; intros self k Hr Htok Hk; [done|].
  destruct (acquire_still self now now' (Z.of_nat k) Hr Htok ltac:(lia))
    as (Hrate & Hb & Hsome & Hnone).
  cbn [Bursts.run fst snd length].
  destruct k as [|k].
  - destruct (Hnone eq_refl) as [-> Htok'].
    rewrite (IH _ 0%nat); [|by rewrite Hrate|done|rewrite Hb; lia].
    rewrite Nat.min_0_r, Nat.sub_0_r. reflexivity.
  - destruct Hsome as [-> Htok']; [lia|].
    rewrite (IH _ k); [done|by rewrite Hrate| |rewrite Hb; lia].
    rewrite Htok'. by replace (Z.of_nat (S k) - 1)%Z with (Z.of_nat k) by lia.
Qed.

Lemma zero_rate_serves_the_burst_only_witness :
  (Bursts.run (new 0 2 0) [(0, 0); (5, 5); (9, 9)]).1
  = [(Returned tt, None); (Returned tt, None); (Raised ZeroDivisionError, None)].
Proof.
  etrans; [apply (zero_rate_serves_the_burst_only 0 2 0 [(0, 0); (5, 5); (9, 9)])|].
  - reflexivity.
  - lia.
  - vm_compute. reflexivity.
Defined.

End Stalling.

(** ** A successful download *)

Module Completing.
Import DownloadQueue DownloadWorker Notions.

(** X25.  In every run of submissions and worker rounds on a new queue,
    every queued task has a numeric file size ([put] refused the others), so
    a download that reports ['success'] is always counted: the worker adds
    the file size (0 when the payload has none) to its [bytes_downloaded]
    and counts one completed task, and the queue moves the identity from
    pending to completed, counts the completion and acknowledges the entry.
    *)
Theorem success_adds_the_file_size
        (tasks : store) (max_size : Z) (rl0 : RateLimiter.t)
        (events : list Protocol.event)
        (w : DownloadWorker.t) (dl : downloader) (now : Z) (t0 t1 : Q)
        (task : ref) (tk : DownloadTask.t) (σ1 : state)
        (result : gmap string Py.val) :
  named tasks ->
  let s := Protocol.run (State tasks (DownloadQueue.new max_size), rl0) events in
  get s.1 = (Returned (Some task), σ1) ->
  objs s.1 !! task = Some tk ->
  (RateLimiter.acquire s.2 t0 t1).1.1 = Returned tt ->
  dl (DownloadTask.media_info tk) (DownloadTask.file_info_str tk) = inr result ->
  result !! "status" = Some (Py.Str "success") ->
  let r := _process_next_task dl now t0 t1 (Sys w s.1 s.2) in
  let q := self s.1 in
  let q' := self (queue r.2) in
  exists file_size,
    default (Py.Int 0) (DownloadTask.media_info tk !! "file_size") = Py.Int file_size
    /\ DownloadTask.priority tk = Z.quot file_size 1048576
    /\ r.1 = Returned tt
    /\ bytes_downloaded (wstats (worker r.2)) = bytes_downloaded (wstats w) + file_size
    /\ tasks_completed (wstats (worker r.2)) = tasks_completed (wstats w) + 1
    /\ tasks_failed (wstats (worker r.2)) = tasks_failed (wstats w)
    /\ current_task (worker r.2) = None
    /\ _pending_tasks q' !! task_id tk = None
    /\ (task_id tk ∈ _completed_tasks q')
    /\ total_completed (_stats q') = total_completed (_stats q) + 1
    /\ total_failed (_stats q') = total_failed (_stats q)
    /\ PriorityQueue._unfinished_tasks (_queue q')
       = PriorityQueue._unfinished_tasks (_queue q) - 1
    /\ objs (queue r.2) = objs s.1.
Proof.
  intros Hnamed s Hget Hobj Hacq Hdl Hstatus r q q'.
  pose proof (Soundness.sound_run events
                (State tasks (DownloadQueue.new max_size), rl0)
                (Soundness.sound_new tasks max_size Hnamed)) as Hsound.
  fold s in Hsound.
  assert (Hpr : prioritised s.1).
  { apply Priorities.prioritised_run; [by apply Soundness.sound_new|].
    split; [apply heapq_order.ordered_nil|]. intros r0 tk' Hr. by inversion Hr. }
  destruct Hsound as (Hnamed' & Hacc & Hreg & _).
  destruct (Stranding.get_frame _ _ _ Hget) as (Hperm & Hobjs & _ & Hu).
  destruct (Worker.get_keeps_books _ _ _ Hget) as (_ & _ & _ & Htc & Htf & _).
  pose proof (Accounting.get_owed _ _ _ Hget Hacc) as Howed.
  assert (Hobj1 : objs σ1 !! task = Some tk) by (by rewrite Hobjs).
  assert (Hpos : 0 < PriorityQueue._unfinished_tasks (_queue (self σ1)))
    by (unfold owed, PriorityQueue.qsize in Howed; lia).
  assert (Hin : task ∈ heap_of s.1) by (rewrite Hperm; by left).
  destruct Hpr as [_ Hsize]. pose proof (Hsize task tk Hin Hobj) as Hsp.
  unfold size_priority in Hsp.
  destruct (default (Py.Int 0) (DownloadTask.media_info tk !! "file_size"))
    as [file_size| |] eqn:Hfs; try done.
  exists file_size. split; [done|].
  split.
  { injection Hsp as Hsp. rewrite <- Hsp. unfold Py.int, Py.truediv.
    simpl. by rewrite Z.mul_1_r. }
  assert (Hname : has_filename tk = true) by (by apply (Hnamed' task tk)).
  assert (Hfile : _download_file dl (holding w task now) tk
                  = (true, add_bytes file_size (holding w task now))).
  { unfold _download_file. rewrite Hname, Hdl, Hstatus.
    rewrite bool_decide_eq_true_2 by done. by rewrite Hfs. }
  pose proof (Rounds.round_completed dl now t0 t1 (Sys w s.1 s.2) task tk σ1 _
                Hget Hobj1 Hpos Hacq Hname Hfile) as Hround.
  destruct (Acknowledgement.task_done_books σ1 task tk true Hobj1)
    as (Hobjs' & Hpend' & Hc' & _ & Htc' & Htf' & _).
  destruct (Acknowledgement.task_done_ending σ1 task tk true Hobj1) as [Hret _].
  destruct (Hret Hpos) as [_ Hu'].
  subst r q q'. rewrite Hround. simpl.
  do 5 (split; [done|]).
  split; [by rewrite Hpend', lookup_delete_eq|].
  split; [rewrite Hc'; apply elem_of_union_l; by apply elem_of_singleton|].
  split; [rewrite Htc', Htc; lia|].
  split; [rewrite Htf', Htf; lia|].
  split; [rewrite Hu', Hu; lia|].
  by rewrite Hobjs', Hobjs.
Qed.

Lemma success_adds_the_file_size_witness :
  let r := _process_next_task SampleWorker.succeeding 1 0 0
             (Sys (DownloadWorker.new "worker_1") Sample.queued
                  (RateLimiter.new 2 5 0)) in
  r.1 = Returned tt
  /\ bytes_downloaded (wstats (worker r.2)) = 5242880
  /\ tasks_completed (wstats (worker r.2)) = 1.
Proof.
  destruct (success_adds_the_file_size Sample.tasks 100 (RateLimiter.new 2 5 0)
              [Protocol.Submit 0%nat]
              (DownloadWorker.new "worker_1") SampleWorker.succeeding 1 0 0
              0%nat Sample.task0 Sample.dequeued {[ "status" := Py.Str "success" ]})
    as (file_size & _ & _ & Hret & _);
    [compute_done|vm_compute; reflexivity|vm_compute; reflexivity|
     vm_compute; reflexivity|reflexivity|vm_compute; reflexivity|].
  split; [exact Hret|]. split; vm_compute; reflexivity.
Defined.

End Completing.
